(** * Citation validator: a shallow embedding of the parser, the rule engine
      and the fixer, with the properties of their specification.

    Source files embedded here:
    - [lib/validator/parser.ts]   (parseCitation, parseAuthors, SOURCE_PATTERNS, ...)
    - [lib/validator/rules.ts]    (the twenty-one rules and their routing table)
    - [lib/validator/auto-fix.ts] (applyAutoFixes, reconstructCitation, calculateScore)
    - [lib/validator/index.ts]    (correctCitationWithCrossRef, validateCitation,
                                   validateCitations)
    - [lib/crossref/client.ts]    (normalizeTitle, titleSimilarity, findDOI)

    Strings are sequences of UTF-16 code units, as in the source language;
    regular expressions are run by a backtracking matcher that follows the
    priorities of the ECMAScript matcher (leftmost match, alternatives left
    to right, greedy and lazy quantifiers, the empty-iteration check). *)

From Stdlib Require Import String Ascii.
From Stdlib Require Import List NArith ZArith QArith Qround Qminmax Bool Arith Lia.
From Stdlib Require Import Permutation.
Import ListNotations.
Open Scope nat_scope.

(* ================================================================== *)
(** ** Strings of code units                                           *)
(* ================================================================== *)

Definition char := N.
Definition jsstring := list char.

(** Decoding of the UTF-8 bytes of a literal into code units (a code point
    above the BMP becomes a surrogate pair). *)
Fixpoint utf8_decode (bs : list N) : jsstring :=
  match bs with
  | [] => []
  | b0 :: t =>
    if (b0 <? 128)%N then b0 :: utf8_decode t
    else if (b0 <? 224)%N then
      match t with
      | b1 :: t' => ((b0 - 192) * 64 + (b1 - 128))%N :: utf8_decode t'
      | _ => []
      end
    else if (b0 <? 240)%N then
      match t with
      | b1 :: b2 :: t' =>
        ((b0 - 224) * 4096 + (b1 - 128) * 64 + (b2 - 128))%N :: utf8_decode t'
      | _ => []
      end
    else
      match t with
      | b1 :: b2 :: b3 :: t' =>
        let cp := ((b0 - 240) * 262144 + (b1 - 128) * 4096
                   + (b2 - 128) * 64 + (b3 - 128))%N in
        let v := (cp - 65536)%N in
        (55296 + v / 1024)%N :: (56320 + v mod 1024)%N :: utf8_decode t'
      | _ => []
      end
  end.

Definition js (s : string) : jsstring :=
  utf8_decode (map (fun b => N_of_ascii b) (list_ascii_of_string s)).
Arguments js s%_string.

Definition ch (s : string) : char := hd 0%N (js s).
Arguments ch s%_string.

Fixpoint str_eqb (a b : jsstring) : bool :=
  match a, b with
  | [], [] => true
  | x :: a', y :: b' => (x =? y)%N && str_eqb a' b'
  | _, _ => false
  end.

Lemma str_eqb_spec a b : reflect (a = b) (str_eqb a b).
Proof.
  revert b; induction a as [|x a IH]; intros [|y b]; simpl;
    try (constructor; congruence).
  destruct (N.eqb_spec x y) as [->|Hn]; simpl.
  - destruct (IH b) as [->|Hn]; constructor; congruence.
  - constructor; congruence.
Qed.

Lemma str_eqb_refl a : str_eqb a a = true.
Proof. destruct (str_eqb_spec a a); congruence. Qed.

(** Truthiness of a string, and of an optional (possibly undefined) one. *)
Definition nonempty (s : jsstring) : bool :=
  match s with [] => false | _ => true end.

Definition truthy (o : option jsstring) : bool :=
  match o with Some s => nonempty s | None => false end.

(** [o || d] on an optional string. *)
Definition or_else (o : option jsstring) (d : jsstring) : jsstring :=
  match o with
  | Some s => if nonempty s then s else d
  | None => d
  end.

(** WhiteSpace and LineTerminator code units: what [\s] and [trim] strip. *)
Definition is_space (c : char) : bool :=
  ((9 <=? c) && (c <=? 13) || (c =? 32) || (c =? 160) || (c =? 5760)
   || (8192 <=? c) && (c <=? 8202) || (c =? 8232) || (c =? 8233)
   || (c =? 8239) || (c =? 8287) || (c =? 12288) || (c =? 65279))%N.

Definition is_line_terminator (c : char) : bool :=
  ((c =? 10) || (c =? 13) || (c =? 8232) || (c =? 8233))%N.

Definition is_digit (c : char) : bool := ((48 <=? c) && (c <=? 57))%N.
Definition is_upper (c : char) : bool := ((65 <=? c) && (c <=? 90))%N.
Definition is_lower (c : char) : bool := ((97 <=? c) && (c <=? 122))%N.
Definition is_word (c : char) : bool :=
  is_digit c || is_upper c || is_lower c || (c =? 95)%N.

(** The letters of Basic Latin in the other case: what the [i] flag of a
    regular expression compares (a code unit outside Basic Latin is
    never taken for one inside it). *)
Definition upper_char (c : char) : char := if is_lower c then (c - 32)%N else c.
Definition lower_char (c : char) : char := if is_upper c then (c + 32)%N else c.

(** *** Case conversion

    [String.prototype.toLowerCase] and [toUpperCase] convert the code
    points of the string by the locale-insensitive case mappings of the
    Unicode Character Database: the simple mappings of [UnicodeData.txt],
    the unconditional full mappings of [SpecialCasing.txt], and its one
    context-sensitive mapping that depends on no language, the final
    sigma.  The tables below are those of Unicode 14.0. *)

Definition is_high_surrogate (c : char) : bool := ((55296 <=? c) && (c <=? 56319))%N.
Definition is_low_surrogate (c : char) : bool := ((56320 <=? c) && (c <=? 57343))%N.

(** The code points of a string: a surrogate pair is one code point, a
    surrogate without its partner stands for itself. *)
Fixpoint code_points (s : jsstring) : list N :=
  match s with
  | [] => []
  | h :: t =>
    match t with
    | l :: t' =>
      if is_high_surrogate h && is_low_surrogate l
      then (65536 + (h - 55296) * 1024 + (l - 56320))%N :: code_points t'
      else h :: code_points t
    | [] => [h]
    end
  end.

Definition code_units (cp : N) : jsstring :=
  if (cp <? 65536)%N then [cp]
  else let v := (cp - 65536)%N in [(55296 + v / 1024)%N; (56320 + v mod 1024)%N].

(** A run [(first, last, step, image)] of a case table maps the code
    points [first], [first + step], ..., [last] to [image],
    [image + step], ...; the runs are in ascending order. *)
Definition CaseRun := (N * N * N * N)%type.

Fixpoint simple_case (runs : list CaseRun) (cp : N) : N :=
  match runs with
  | [] => cp
  | (first, last, step, image) :: rest =>
    if (cp <? first)%N then cp
    else if (cp <=? last)%N && ((cp - first) mod step =? 0)%N then (image + (cp - first))%N
    else simple_case rest cp
  end.

(** The full mapping of a code point: the special one when there is one
    (more than one code point), the simple one otherwise. *)
Definition full_case (special : list (N * list N)) (runs : list CaseRun) (cp : N)
  : list N :=
  match find (fun p => (fst p =? cp)%N) special with
  | Some p => snd p
  | None => [simple_case runs cp]
  end.

Fixpoint in_ranges (ranges : list (N * N)) (cp : N) : bool :=
  match ranges with
  | [] => false
  | (first, last) :: rest =>
    if (cp <? first)%N then false
    else if (cp <=? last)%N then true
    else in_ranges rest cp
  end.

Definition LOWER_RUNS : list CaseRun :=
  [
    (65, 90, 1, 97); (192, 214, 1, 224); (216, 222, 1, 248);
    (256, 302, 2, 257); (306, 310, 2, 307); (313, 327, 2, 314);
    (330, 374, 2, 331); (376, 376, 1, 255); (377, 381, 2, 378);
    (385, 385, 1, 595); (386, 388, 2, 387); (390, 390, 1, 596);
    (391, 391, 1, 392); (393, 394, 1, 598); (395, 395, 1, 396);
    (398, 398, 1, 477); (399, 399, 1, 601); (400, 400, 1, 603);
    (401, 401, 1, 402); (403, 403, 1, 608); (404, 404, 1, 611);
    (406, 406, 1, 617); (407, 407, 1, 616); (408, 408, 1, 409);
    (412, 412, 1, 623); (413, 413, 1, 626); (415, 415, 1, 629);
    (416, 420, 2, 417); (422, 422, 1, 640); (423, 423, 1, 424);
    (425, 425, 1, 643); (428, 428, 1, 429); (430, 430, 1, 648);
    (431, 431, 1, 432); (433, 434, 1, 650); (435, 437, 2, 436);
    (439, 439, 1, 658); (440, 440, 1, 441); (444, 444, 1, 445);
    (452, 452, 1, 454); (453, 453, 1, 454); (455, 455, 1, 457);
    (456, 456, 1, 457); (458, 458, 1, 460); (459, 475, 2, 460);
    (478, 494, 2, 479); (497, 497, 1, 499); (498, 500, 2, 499);
    (502, 502, 1, 405); (503, 503, 1, 447); (504, 542, 2, 505);
    (544, 544, 1, 414); (546, 562, 2, 547); (570, 570, 1, 11365);
    (571, 571, 1, 572); (573, 573, 1, 410); (574, 574, 1, 11366);
    (577, 577, 1, 578); (579, 579, 1, 384); (580, 580, 1, 649);
    (581, 581, 1, 652); (582, 590, 2, 583); (880, 882, 2, 881);
    (886, 886, 1, 887); (895, 895, 1, 1011); (902, 902, 1, 940);
    (904, 906, 1, 941); (908, 908, 1, 972); (910, 911, 1, 973);
    (913, 929, 1, 945); (931, 939, 1, 963); (975, 975, 1, 983);
    (984, 1006, 2, 985); (1012, 1012, 1, 952); (1015, 1015, 1, 1016);
    (1017, 1017, 1, 1010); (1018, 1018, 1, 1019); (1021, 1023, 1, 891);
    (1024, 1039, 1, 1104); (1040, 1071, 1, 1072); (1120, 1152, 2, 1121);
    (1162, 1214, 2, 1163); (1216, 1216, 1, 1231); (1217, 1229, 2, 1218);
    (1232, 1326, 2, 1233); (1329, 1366, 1, 1377); (4256, 4293, 1, 11520);
    (4295, 4295, 1, 11559); (4301, 4301, 1, 11565); (5024, 5103, 1, 43888);
    (5104, 5109, 1, 5112); (7312, 7354, 1, 4304); (7357, 7359, 1, 4349);
    (7680, 7828, 2, 7681); (7838, 7838, 1, 223); (7840, 7934, 2, 7841);
    (7944, 7951, 1, 7936); (7960, 7965, 1, 7952); (7976, 7983, 1, 7968);
    (7992, 7999, 1, 7984); (8008, 8013, 1, 8000); (8025, 8031, 2, 8017);
    (8040, 8047, 1, 8032); (8072, 8079, 1, 8064); (8088, 8095, 1, 8080);
    (8104, 8111, 1, 8096); (8120, 8121, 1, 8112); (8122, 8123, 1, 8048);
    (8124, 8124, 1, 8115); (8136, 8139, 1, 8050); (8140, 8140, 1, 8131);
    (8152, 8153, 1, 8144); (8154, 8155, 1, 8054); (8168, 8169, 1, 8160);
    (8170, 8171, 1, 8058); (8172, 8172, 1, 8165); (8184, 8185, 1, 8056);
    (8186, 8187, 1, 8060); (8188, 8188, 1, 8179); (8486, 8486, 1, 969);
    (8490, 8490, 1, 107); (8491, 8491, 1, 229); (8498, 8498, 1, 8526);
    (8544, 8559, 1, 8560); (8579, 8579, 1, 8580); (9398, 9423, 1, 9424);
    (11264, 11311, 1, 11312); (11360, 11360, 1, 11361);
    (11362, 11362, 1, 619); (11363, 11363, 1, 7549);
    (11364, 11364, 1, 637); (11367, 11371, 2, 11368);
    (11373, 11373, 1, 593); (11374, 11374, 1, 625); (11375, 11375, 1, 592);
    (11376, 11376, 1, 594); (11378, 11378, 1, 11379);
    (11381, 11381, 1, 11382); (11390, 11391, 1, 575);
    (11392, 11490, 2, 11393); (11499, 11501, 2, 11500);
    (11506, 11506, 1, 11507); (42560, 42604, 2, 42561);
    (42624, 42650, 2, 42625); (42786, 42798, 2, 42787);
    (42802, 42862, 2, 42803); (42873, 42875, 2, 42874);
    (42877, 42877, 1, 7545); (42878, 42886, 2, 42879);
    (42891, 42891, 1, 42892); (42893, 42893, 1, 613);
    (42896, 42898, 2, 42897); (42902, 42920, 2, 42903);
    (42922, 42922, 1, 614); (42923, 42923, 1, 604); (42924, 42924, 1, 609);
    (42925, 42925, 1, 620); (42926, 42926, 1, 618); (42928, 42928, 1, 670);
    (42929, 42929, 1, 647); (42930, 42930, 1, 669);
    (42931, 42931, 1, 43859); (42932, 42946, 2, 42933);
    (42948, 42948, 1, 42900); (42949, 42949, 1, 642);
    (42950, 42950, 1, 7566); (42951, 42953, 2, 42952);
    (42960, 42960, 1, 42961); (42966, 42968, 2, 42967);
    (42997, 42997, 1, 42998); (65313, 65338, 1, 65345);
    (66560, 66599, 1, 66600); (66736, 66771, 1, 66776);
    (66928, 66938, 1, 66967); (66940, 66954, 1, 66979);
    (66956, 66962, 1, 66995); (66964, 66965, 1, 67003);
    (68736, 68786, 1, 68800); (71840, 71871, 1, 71872);
    (93760, 93791, 1, 93792); (125184, 125217, 1, 125218) ]%N.

Definition LOWER_SPECIAL : list (N * list N) :=
  [
    (304, [105; 775]) ]%N.

Definition UPPER_RUNS : list CaseRun :=
  [
    (97, 122, 1, 65); (181, 181, 1, 924); (224, 246, 1, 192);
    (248, 254, 1, 216); (255, 255, 1, 376); (257, 303, 2, 256);
    (305, 305, 1, 73); (307, 311, 2, 306); (314, 328, 2, 313);
    (331, 375, 2, 330); (378, 382, 2, 377); (383, 383, 1, 83);
    (384, 384, 1, 579); (387, 389, 2, 386); (392, 392, 1, 391);
    (396, 396, 1, 395); (402, 402, 1, 401); (405, 405, 1, 502);
    (409, 409, 1, 408); (410, 410, 1, 573); (414, 414, 1, 544);
    (417, 421, 2, 416); (424, 424, 1, 423); (429, 429, 1, 428);
    (432, 432, 1, 431); (436, 438, 2, 435); (441, 441, 1, 440);
    (445, 445, 1, 444); (447, 447, 1, 503); (453, 453, 1, 452);
    (454, 454, 1, 452); (456, 456, 1, 455); (457, 457, 1, 455);
    (459, 459, 1, 458); (460, 460, 1, 458); (462, 476, 2, 461);
    (477, 477, 1, 398); (479, 495, 2, 478); (498, 498, 1, 497);
    (499, 499, 1, 497); (501, 501, 1, 500); (505, 543, 2, 504);
    (547, 563, 2, 546); (572, 572, 1, 571); (575, 576, 1, 11390);
    (578, 578, 1, 577); (583, 591, 2, 582); (592, 592, 1, 11375);
    (593, 593, 1, 11373); (594, 594, 1, 11376); (595, 595, 1, 385);
    (596, 596, 1, 390); (598, 599, 1, 393); (601, 601, 1, 399);
    (603, 603, 1, 400); (604, 604, 1, 42923); (608, 608, 1, 403);
    (609, 609, 1, 42924); (611, 611, 1, 404); (613, 613, 1, 42893);
    (614, 614, 1, 42922); (616, 616, 1, 407); (617, 617, 1, 406);
    (618, 618, 1, 42926); (619, 619, 1, 11362); (620, 620, 1, 42925);
    (623, 623, 1, 412); (625, 625, 1, 11374); (626, 626, 1, 413);
    (629, 629, 1, 415); (637, 637, 1, 11364); (640, 640, 1, 422);
    (642, 642, 1, 42949); (643, 643, 1, 425); (647, 647, 1, 42929);
    (648, 648, 1, 430); (649, 649, 1, 580); (650, 651, 1, 433);
    (652, 652, 1, 581); (658, 658, 1, 439); (669, 669, 1, 42930);
    (670, 670, 1, 42928); (837, 837, 1, 921); (881, 883, 2, 880);
    (887, 887, 1, 886); (891, 893, 1, 1021); (940, 940, 1, 902);
    (941, 943, 1, 904); (945, 961, 1, 913); (962, 962, 1, 931);
    (963, 971, 1, 931); (972, 972, 1, 908); (973, 974, 1, 910);
    (976, 976, 1, 914); (977, 977, 1, 920); (981, 981, 1, 934);
    (982, 982, 1, 928); (983, 983, 1, 975); (985, 1007, 2, 984);
    (1008, 1008, 1, 922); (1009, 1009, 1, 929); (1010, 1010, 1, 1017);
    (1011, 1011, 1, 895); (1013, 1013, 1, 917); (1016, 1016, 1, 1015);
    (1019, 1019, 1, 1018); (1072, 1103, 1, 1040); (1104, 1119, 1, 1024);
    (1121, 1153, 2, 1120); (1163, 1215, 2, 1162); (1218, 1230, 2, 1217);
    (1231, 1231, 1, 1216); (1233, 1327, 2, 1232); (1377, 1414, 1, 1329);
    (4304, 4346, 1, 7312); (4349, 4351, 1, 7357); (5112, 5117, 1, 5104);
    (7296, 7296, 1, 1042); (7297, 7297, 1, 1044); (7298, 7298, 1, 1054);
    (7299, 7300, 1, 1057); (7301, 7301, 1, 1058); (7302, 7302, 1, 1066);
    (7303, 7303, 1, 1122); (7304, 7304, 1, 42570); (7545, 7545, 1, 42877);
    (7549, 7549, 1, 11363); (7566, 7566, 1, 42950); (7681, 7829, 2, 7680);
    (7835, 7835, 1, 7776); (7841, 7935, 2, 7840); (7936, 7943, 1, 7944);
    (7952, 7957, 1, 7960); (7968, 7975, 1, 7976); (7984, 7991, 1, 7992);
    (8000, 8005, 1, 8008); (8017, 8023, 2, 8025); (8032, 8039, 1, 8040);
    (8048, 8049, 1, 8122); (8050, 8053, 1, 8136); (8054, 8055, 1, 8154);
    (8056, 8057, 1, 8184); (8058, 8059, 1, 8170); (8060, 8061, 1, 8186);
    (8112, 8113, 1, 8120); (8126, 8126, 1, 921); (8144, 8145, 1, 8152);
    (8160, 8161, 1, 8168); (8165, 8165, 1, 8172); (8526, 8526, 1, 8498);
    (8560, 8575, 1, 8544); (8580, 8580, 1, 8579); (9424, 9449, 1, 9398);
    (11312, 11359, 1, 11264); (11361, 11361, 1, 11360);
    (11365, 11365, 1, 570); (11366, 11366, 1, 574);
    (11368, 11372, 2, 11367); (11379, 11379, 1, 11378);
    (11382, 11382, 1, 11381); (11393, 11491, 2, 11392);
    (11500, 11502, 2, 11499); (11507, 11507, 1, 11506);
    (11520, 11557, 1, 4256); (11559, 11559, 1, 4295);
    (11565, 11565, 1, 4301); (42561, 42605, 2, 42560);
    (42625, 42651, 2, 42624); (42787, 42799, 2, 42786);
    (42803, 42863, 2, 42802); (42874, 42876, 2, 42873);
    (42879, 42887, 2, 42878); (42892, 42892, 1, 42891);
    (42897, 42899, 2, 42896); (42900, 42900, 1, 42948);
    (42903, 42921, 2, 42902); (42933, 42947, 2, 42932);
    (42952, 42954, 2, 42951); (42961, 42961, 1, 42960);
    (42967, 42969, 2, 42966); (42998, 42998, 1, 42997);
    (43859, 43859, 1, 42931); (43888, 43967, 1, 5024);
    (65345, 65370, 1, 65313); (66600, 66639, 1, 66560);
    (66776, 66811, 1, 66736); (66967, 66977, 1, 66928);
    (66979, 66993, 1, 66940); (66995, 67001, 1, 66956);
    (67003, 67004, 1, 66964); (68800, 68850, 1, 68736);
    (71872, 71903, 1, 71840); (93792, 93823, 1, 93760);
    (125218, 125251, 1, 125184) ]%N.

Definition UPPER_SPECIAL : list (N * list N) :=
  [
    (223, [83; 83]); (329, [700; 78]); (496, [74; 780]);
    (912, [921; 776; 769]); (944, [933; 776; 769]); (1415, [1333; 1362]);
    (7830, [72; 817]); (7831, [84; 776]); (7832, [87; 778]);
    (7833, [89; 778]); (7834, [65; 702]); (8016, [933; 787]);
    (8018, [933; 787; 768]); (8020, [933; 787; 769]);
    (8022, [933; 787; 834]); (8064, [7944; 921]); (8065, [7945; 921]);
    (8066, [7946; 921]); (8067, [7947; 921]); (8068, [7948; 921]);
    (8069, [7949; 921]); (8070, [7950; 921]); (8071, [7951; 921]);
    (8072, [7944; 921]); (8073, [7945; 921]); (8074, [7946; 921]);
    (8075, [7947; 921]); (8076, [7948; 921]); (8077, [7949; 921]);
    (8078, [7950; 921]); (8079, [7951; 921]); (8080, [7976; 921]);
    (8081, [7977; 921]); (8082, [7978; 921]); (8083, [7979; 921]);
    (8084, [7980; 921]); (8085, [7981; 921]); (8086, [7982; 921]);
    (8087, [7983; 921]); (8088, [7976; 921]); (8089, [7977; 921]);
    (8090, [7978; 921]); (8091, [7979; 921]); (8092, [7980; 921]);
    (8093, [7981; 921]); (8094, [7982; 921]); (8095, [7983; 921]);
    (8096, [8040; 921]); (8097, [8041; 921]); (8098, [8042; 921]);
    (8099, [8043; 921]); (8100, [8044; 921]); (8101, [8045; 921]);
    (8102, [8046; 921]); (8103, [8047; 921]); (8104, [8040; 921]);
    (8105, [8041; 921]); (8106, [8042; 921]); (8107, [8043; 921]);
    (8108, [8044; 921]); (8109, [8045; 921]); (8110, [8046; 921]);
    (8111, [8047; 921]); (8114, [8122; 921]); (8115, [913; 921]);
    (8116, [902; 921]); (8118, [913; 834]); (8119, [913; 834; 921]);
    (8124, [913; 921]); (8130, [8138; 921]); (8131, [919; 921]);
    (8132, [905; 921]); (8134, [919; 834]); (8135, [919; 834; 921]);
    (8140, [919; 921]); (8146, [921; 776; 768]); (8147, [921; 776; 769]);
    (8150, [921; 834]); (8151, [921; 776; 834]); (8162, [933; 776; 768]);
    (8163, [933; 776; 769]); (8164, [929; 787]); (8166, [933; 834]);
    (8167, [933; 776; 834]); (8178, [8186; 921]); (8179, [937; 921]);
    (8180, [911; 921]); (8182, [937; 834]); (8183, [937; 834; 921]);
    (8188, [937; 921]); (64256, [70; 70]); (64257, [70; 73]);
    (64258, [70; 76]); (64259, [70; 70; 73]); (64260, [70; 70; 76]);
    (64261, [83; 84]); (64262, [83; 84]); (64275, [1348; 1350]);
    (64276, [1348; 1333]); (64277, [1348; 1339]); (64278, [1358; 1350]);
    (64279, [1348; 1341]) ]%N.

(** The code points with the property Case_Ignorable. *)
Definition CASE_IGNORABLE : list (N * N) :=
  [
    (39, 39); (46, 46); (58, 58); (94, 94); (96, 96); (168, 168);
    (173, 173); (175, 175); (180, 180); (183, 184); (688, 879); (884, 885);
    (890, 890); (900, 901); (903, 903); (1155, 1161); (1369, 1369);
    (1375, 1375); (1425, 1469); (1471, 1471); (1473, 1474); (1476, 1477);
    (1479, 1479); (1524, 1524); (1536, 1541); (1552, 1562); (1564, 1564);
    (1600, 1600); (1611, 1631); (1648, 1648); (1750, 1757); (1759, 1768);
    (1770, 1773); (1807, 1807); (1809, 1809); (1840, 1866); (1958, 1968);
    (2027, 2037); (2042, 2042); (2045, 2045); (2070, 2093); (2137, 2139);
    (2184, 2184); (2192, 2193); (2200, 2207); (2249, 2306); (2362, 2362);
    (2364, 2364); (2369, 2376); (2381, 2381); (2385, 2391); (2402, 2403);
    (2417, 2417); (2433, 2433); (2492, 2492); (2497, 2500); (2509, 2509);
    (2530, 2531); (2558, 2558); (2561, 2562); (2620, 2620); (2625, 2626);
    (2631, 2632); (2635, 2637); (2641, 2641); (2672, 2673); (2677, 2677);
    (2689, 2690); (2748, 2748); (2753, 2757); (2759, 2760); (2765, 2765);
    (2786, 2787); (2810, 2815); (2817, 2817); (2876, 2876); (2879, 2879);
    (2881, 2884); (2893, 2893); (2901, 2902); (2914, 2915); (2946, 2946);
    (3008, 3008); (3021, 3021); (3072, 3072); (3076, 3076); (3132, 3132);
    (3134, 3136); (3142, 3144); (3146, 3149); (3157, 3158); (3170, 3171);
    (3201, 3201); (3260, 3260); (3263, 3263); (3270, 3270); (3276, 3277);
    (3298, 3299); (3328, 3329); (3387, 3388); (3393, 3396); (3405, 3405);
    (3426, 3427); (3457, 3457); (3530, 3530); (3538, 3540); (3542, 3542);
    (3633, 3633); (3636, 3642); (3654, 3662); (3761, 3761); (3764, 3772);
    (3782, 3782); (3784, 3789); (3864, 3865); (3893, 3893); (3895, 3895);
    (3897, 3897); (3953, 3966); (3968, 3972); (3974, 3975); (3981, 3991);
    (3993, 4028); (4038, 4038); (4141, 4144); (4146, 4151); (4153, 4154);
    (4157, 4158); (4184, 4185); (4190, 4192); (4209, 4212); (4226, 4226);
    (4229, 4230); (4237, 4237); (4253, 4253); (4348, 4348); (4957, 4959);
    (5906, 5908); (5938, 5939); (5970, 5971); (6002, 6003); (6068, 6069);
    (6071, 6077); (6086, 6086); (6089, 6099); (6103, 6103); (6109, 6109);
    (6155, 6159); (6211, 6211); (6277, 6278); (6313, 6313); (6432, 6434);
    (6439, 6440); (6450, 6450); (6457, 6459); (6679, 6680); (6683, 6683);
    (6742, 6742); (6744, 6750); (6752, 6752); (6754, 6754); (6757, 6764);
    (6771, 6780); (6783, 6783); (6823, 6823); (6832, 6862); (6912, 6915);
    (6964, 6964); (6966, 6970); (6972, 6972); (6978, 6978); (7019, 7027);
    (7040, 7041); (7074, 7077); (7080, 7081); (7083, 7085); (7142, 7142);
    (7144, 7145); (7149, 7149); (7151, 7153); (7212, 7219); (7222, 7223);
    (7288, 7293); (7376, 7378); (7380, 7392); (7394, 7400); (7405, 7405);
    (7412, 7412); (7416, 7417); (7468, 7530); (7544, 7544); (7579, 7679);
    (8125, 8125); (8127, 8129); (8141, 8143); (8157, 8159); (8173, 8175);
    (8189, 8190); (8203, 8207); (8216, 8217); (8228, 8228); (8231, 8231);
    (8234, 8238); (8288, 8292); (8294, 8303); (8305, 8305); (8319, 8319);
    (8336, 8348); (8400, 8432); (11388, 11389); (11503, 11505);
    (11631, 11631); (11647, 11647); (11744, 11775); (11823, 11823);
    (12293, 12293); (12330, 12333); (12337, 12341); (12347, 12347);
    (12441, 12446); (12540, 12542); (40981, 40981); (42232, 42237);
    (42508, 42508); (42607, 42610); (42612, 42621); (42623, 42623);
    (42652, 42655); (42736, 42737); (42752, 42785); (42864, 42864);
    (42888, 42890); (42994, 42996); (43000, 43001); (43010, 43010);
    (43014, 43014); (43019, 43019); (43045, 43046); (43052, 43052);
    (43204, 43205); (43232, 43249); (43263, 43263); (43302, 43309);
    (43335, 43345); (43392, 43394); (43443, 43443); (43446, 43449);
    (43452, 43453); (43471, 43471); (43493, 43494); (43561, 43566);
    (43569, 43570); (43573, 43574); (43587, 43587); (43596, 43596);
    (43632, 43632); (43644, 43644); (43696, 43696); (43698, 43700);
    (43703, 43704); (43710, 43711); (43713, 43713); (43741, 43741);
    (43756, 43757); (43763, 43764); (43766, 43766); (43867, 43871);
    (43881, 43883); (44005, 44005); (44008, 44008); (44013, 44013);
    (64286, 64286); (64434, 64450); (65024, 65039); (65043, 65043);
    (65056, 65071); (65106, 65106); (65109, 65109); (65279, 65279);
    (65287, 65287); (65294, 65294); (65306, 65306); (65342, 65342);
    (65344, 65344); (65392, 65392); (65438, 65439); (65507, 65507);
    (65529, 65531); (66045, 66045); (66272, 66272); (66422, 66426);
    (67456, 67461); (67463, 67504); (67506, 67514); (68097, 68099);
    (68101, 68102); (68108, 68111); (68152, 68154); (68159, 68159);
    (68325, 68326); (68900, 68903); (69291, 69292); (69446, 69456);
    (69506, 69509); (69633, 69633); (69688, 69702); (69744, 69744);
    (69747, 69748); (69759, 69761); (69811, 69814); (69817, 69818);
    (69821, 69821); (69826, 69826); (69837, 69837); (69888, 69890);
    (69927, 69931); (69933, 69940); (70003, 70003); (70016, 70017);
    (70070, 70078); (70089, 70092); (70095, 70095); (70191, 70193);
    (70196, 70196); (70198, 70199); (70206, 70206); (70367, 70367);
    (70371, 70378); (70400, 70401); (70459, 70460); (70464, 70464);
    (70502, 70508); (70512, 70516); (70712, 70719); (70722, 70724);
    (70726, 70726); (70750, 70750); (70835, 70840); (70842, 70842);
    (70847, 70848); (70850, 70851); (71090, 71093); (71100, 71101);
    (71103, 71104); (71132, 71133); (71219, 71226); (71229, 71229);
    (71231, 71232); (71339, 71339); (71341, 71341); (71344, 71349);
    (71351, 71351); (71453, 71455); (71458, 71461); (71463, 71467);
    (71727, 71735); (71737, 71738); (71995, 71996); (71998, 71998);
    (72003, 72003); (72148, 72151); (72154, 72155); (72160, 72160);
    (72193, 72202); (72243, 72248); (72251, 72254); (72263, 72263);
    (72273, 72278); (72281, 72283); (72330, 72342); (72344, 72345);
    (72752, 72758); (72760, 72765); (72767, 72767); (72850, 72871);
    (72874, 72880); (72882, 72883); (72885, 72886); (73009, 73014);
    (73018, 73018); (73020, 73021); (73023, 73029); (73031, 73031);
    (73104, 73105); (73109, 73109); (73111, 73111); (73459, 73460);
    (78896, 78904); (92912, 92916); (92976, 92982); (92992, 92995);
    (94031, 94031); (94095, 94111); (94176, 94177); (94179, 94180);
    (110576, 110579); (110581, 110587); (110589, 110590); (113821, 113822);
    (113824, 113827); (118528, 118573); (118576, 118598); (119143, 119145);
    (119155, 119170); (119173, 119179); (119210, 119213); (119362, 119364);
    (121344, 121398); (121403, 121452); (121461, 121461); (121476, 121476);
    (121499, 121503); (121505, 121519); (122880, 122886); (122888, 122904);
    (122907, 122913); (122915, 122916); (122918, 122922); (123184, 123197);
    (123566, 123566); (123628, 123631); (125136, 125142); (125252, 125259);
    (127995, 127999); (917505, 917505); (917536, 917631); (917760, 917999) ]%N.

(** The code points with the property Cased that are not case-ignorable. *)
Definition CASED : list (N * N) :=
  [
    (65, 90); (97, 122); (170, 170); (181, 181); (186, 186); (192, 214);
    (216, 246); (248, 442); (444, 447); (452, 659); (661, 687); (880, 883);
    (886, 887); (891, 893); (895, 895); (902, 902); (904, 906); (908, 908);
    (910, 929); (931, 1013); (1015, 1153); (1162, 1327); (1329, 1366);
    (1376, 1416); (4256, 4293); (4295, 4295); (4301, 4301); (4304, 4346);
    (4349, 4351); (5024, 5109); (5112, 5117); (7296, 7304); (7312, 7354);
    (7357, 7359); (7424, 7467); (7531, 7543); (7545, 7578); (7680, 7957);
    (7960, 7965); (7968, 8005); (8008, 8013); (8016, 8023); (8025, 8025);
    (8027, 8027); (8029, 8029); (8031, 8061); (8064, 8116); (8118, 8124);
    (8126, 8126); (8130, 8132); (8134, 8140); (8144, 8147); (8150, 8155);
    (8160, 8172); (8178, 8180); (8182, 8188); (8450, 8450); (8455, 8455);
    (8458, 8467); (8469, 8469); (8473, 8477); (8484, 8484); (8486, 8486);
    (8488, 8488); (8490, 8493); (8495, 8500); (8505, 8505); (8508, 8511);
    (8517, 8521); (8526, 8526); (8544, 8575); (8579, 8580); (9398, 9449);
    (11264, 11387); (11390, 11492); (11499, 11502); (11506, 11507);
    (11520, 11557); (11559, 11559); (11565, 11565); (42560, 42605);
    (42624, 42651); (42786, 42863); (42865, 42887); (42891, 42894);
    (42896, 42954); (42960, 42961); (42963, 42963); (42965, 42969);
    (42997, 42998); (43002, 43002); (43824, 43866); (43872, 43880);
    (43888, 43967); (64256, 64262); (64275, 64279); (65313, 65338);
    (65345, 65370); (66560, 66639); (66736, 66771); (66776, 66811);
    (66928, 66938); (66940, 66954); (66956, 66962); (66964, 66965);
    (66967, 66977); (66979, 66993); (66995, 67001); (67003, 67004);
    (68736, 68786); (68800, 68850); (71840, 71903); (93760, 93823);
    (119808, 119892); (119894, 119964); (119966, 119967); (119970, 119970);
    (119973, 119974); (119977, 119980); (119982, 119993); (119995, 119995);
    (119997, 120003); (120005, 120069); (120071, 120074); (120077, 120084);
    (120086, 120092); (120094, 120121); (120123, 120126); (120128, 120132);
    (120134, 120134); (120138, 120144); (120146, 120485); (120488, 120512);
    (120514, 120538); (120540, 120570); (120572, 120596); (120598, 120628);
    (120630, 120654); (120656, 120686); (120688, 120712); (120714, 120744);
    (120746, 120770); (120772, 120779); (122624, 122633); (122635, 122654);
    (125184, 125251); (127280, 127305); (127312, 127337); (127344, 127369) ]%N.

Definition case_ignorable (cp : N) : bool := in_ranges CASE_IGNORABLE cp.
Definition cased_letter (cp : N) : bool := in_ranges CASED cp.

(** Is the first code point of [l] that is not case-ignorable a cased
    letter? *)
Fixpoint meets_cased_letter (l : list N) : bool :=
  match l with
  | [] => false
  | cp :: t => if case_ignorable cp then meets_cased_letter t else cased_letter cp
  end.

(** Final_Sigma: a cased letter before (nearest code point first in
    [before]), case-ignorable code points apart, and none after. *)
Definition final_sigma (before after : list N) : bool :=
  meets_cased_letter before && negb (meets_cased_letter after).

Fixpoint lower_points (before l : list N) : list N :=
  match l with
  | [] => []
  | cp :: t =>
    (if (cp =? 931)%N then [if final_sigma before t then 962%N else 963%N]
     else full_case LOWER_SPECIAL LOWER_RUNS cp)
    ++ lower_points (cp :: before) t
  end.

Definition toLowerCase (s : jsstring) : jsstring :=
  flat_map code_units (lower_points [] (code_points s)).

Definition toUpperCase (s : jsstring) : jsstring :=
  flat_map code_units (flat_map (full_case UPPER_SPECIAL UPPER_RUNS) (code_points s)).

Fixpoint trimStart (s : jsstring) : jsstring :=
  match s with
  | c :: t => if is_space c then trimStart t else s
  | [] => []
  end.

Definition trimEnd (s : jsstring) : jsstring := rev (trimStart (rev s)).
Definition trim (s : jsstring) : jsstring := trimEnd (trimStart s).

Fixpoint startsWith (s p : jsstring) : bool :=
  match p, s with
  | [], _ => true
  | x :: p', y :: s' => (x =? y)%N && startsWith s' p'
  | _ :: _, [] => false
  end.

Definition endsWith (s p : jsstring) : bool := startsWith (rev s) (rev p).

(** [s.indexOf(p)]: the first index at which [p] occurs. *)
Fixpoint indexOf_from (s p : jsstring) (i : nat) : option nat :=
  if startsWith s p then Some i
  else match s with
       | [] => None
       | _ :: t => indexOf_from t p (S i)
       end.

Definition indexOf (s p : jsstring) : option nat := indexOf_from s p 0.

Definition includes (s p : jsstring) : bool :=
  match indexOf s p with Some _ => true | None => false end.

(** [s.substring(a, b)] for [a <= b], and [s.substring(a)]. *)
Definition substring (s : jsstring) (a b : nat) : jsstring :=
  firstn (b - a) (skipn a s).
Definition substring_from (s : jsstring) (a : nat) : jsstring := skipn a s.

(** [s.slice(0, -1)], [s.slice(-n)] and [s.slice(1)]. *)
Definition slice_drop_last (s : jsstring) : jsstring := removelast s.
Definition slice_last (n : nat) (s : jsstring) : jsstring :=
  skipn (length s - n) s.
Definition charAt0 (s : jsstring) : jsstring := firstn 1 s.

(** [parts.join(sep)]. *)
Fixpoint join (sep : jsstring) (l : list jsstring) : jsstring :=
  match l with
  | [] => []
  | [x] => x
  | x :: t => x ++ sep ++ join sep t
  end.

(** [s.replace(p, r)] with a string pattern: the first occurrence only. *)
Definition replace_str (s p r : jsstring) : jsstring :=
  match indexOf s p with
  | Some i => firstn i s ++ r ++ skipn (i + length p) s
  | None => s
  end.

(** [s.split(sep)] with a one-unit string separator. *)
Fixpoint split_char (sep : char) (s : jsstring) (cur : jsstring) : list jsstring :=
  match s with
  | [] => [rev cur]
  | c :: t => if (c =? sep)%N then rev cur :: split_char sep t []
              else split_char sep t (c :: cur)
  end.

(** Decimal rendering of an index or a length. *)
Fixpoint digits_fuel (fuel : nat) (n : N) (acc : jsstring) : jsstring :=
  match fuel with
  | O => acc
  | S f =>
    let acc' := (48 + n mod 10)%N :: acc in
    if (n <? 10)%N then acc' else digits_fuel f (n / 10)%N acc'
  end.

Definition N_to_string (n : N) : jsstring := digits_fuel (S (N.to_nat (N.log2 n))) n [].
Definition nat_to_string (n : nat) : jsstring := N_to_string (N.of_nat n).
Definition Z_to_string (z : Z) : jsstring :=
  match z with
  | Zneg p => ch "-" :: N_to_string (Npos p)
  | _ => N_to_string (Z.to_N z)
  end.


(* ================================================================== *)
(** ** Regular expressions                                              *)
(* ================================================================== *)

Inductive class_item :=
| CChar (c : char)
| CRange (lo hi : char)
| CDigit | CNotDigit
| CWord | CNotWord
| CSpace | CNotSpace.

Inductive regex :=
| REmpty
| RChar (c : char)
| RAny
| RClass (neg : bool) (items : list class_item)
| RSeq (a b : regex)
| RAlt (a b : regex)
| RQuant (greedy : bool) (min : nat) (max : option nat) (r : regex)
| RGroup (i : nat) (r : regex)
| RBol
| REol.

(** Canonicalize of the [i] flag (without the [u] flag a code unit
    outside Basic Latin never canonicalizes to a Basic Latin letter). *)
Definition canon (ci : bool) (c : char) : char := if ci then upper_char c else c.

Definition item_test (it : class_item) (x : char) : bool :=
  match it with
  | CChar c => (x =? c)%N
  | CRange lo hi => ((lo <=? x) && (x <=? hi))%N
  | CDigit => is_digit x
  | CNotDigit => negb (is_digit x)
  | CWord => is_word x
  | CNotWord => negb (is_word x)
  | CSpace => is_space x
  | CNotSpace => negb (is_space x)
  end.

Definition item_match (ci : bool) (it : class_item) (x : char) : bool :=
  item_test it x || (ci && (item_test it (upper_char x) || item_test it (lower_char x))).

Definition class_match (ci neg : bool) (items : list class_item) (x : char) : bool :=
  xorb neg (existsb (fun it => item_match ci it x) items).

(** Captures: the latest binding of a group index comes first. *)
Definition caps := list (nat * jsstring).

Fixpoint cap_lookup (i : nat) (cs : caps) : option jsstring :=
  match cs with
  | [] => None
  | (j, v) :: t => if i =? j then Some v else cap_lookup i t
  end.

Fixpoint groups_of (r : regex) : list nat :=
  match r with
  | RSeq a b | RAlt a b => groups_of a ++ groups_of b
  | RQuant _ _ _ a => groups_of a
  | RGroup i a => i :: groups_of a
  | _ => []
  end.

Definition cap_clear (gs : list nat) (cs : caps) : caps :=
  match gs with
  | [] => cs
  | _ => filter (fun p => negb (existsb (Nat.eqb (fst p)) gs)) cs
  end.

Definition under_max (cnt : nat) (mx : option nat) : bool :=
  match mx with Some n => cnt <? n | None => true end.

(** The matcher, in continuation-passing style: [k] is the rest of the
    pattern; [rest] is the input from position [pos] on. *)
Definition cont := jsstring -> nat -> caps -> option (nat * caps).
Definition matcher := jsstring -> nat -> caps -> cont -> option (nat * caps).

(** The loop of a quantifier over the matcher [ma] of its atom.  The
    captures of the atom are cleared before each iteration; once the
    mandatory iterations are done, an iteration that consumes nothing is
    rejected.  The counter [fuel] bounds the iterations: after the
    mandatory ones each consumes input, so [min + length rest + 1]
    entries are never exhausted. *)
Fixpoint quant_loop (ma : matcher) (inner : list nat) (greedy : bool)
         (mn : nat) (mx : option nat) (k : cont) (fuel cnt : nat)
         (rest : jsstring) (pos : nat) (cs : caps) {struct fuel}
  : option (nat * caps) :=
  match fuel with
  | O => None
  | S fuel' =>
    if cnt <? mn then
      ma rest pos (cap_clear inner cs)
         (fun rest' pos' cs' =>
            quant_loop ma inner greedy mn mx k fuel' (S cnt) rest' pos' cs')
    else if negb (under_max cnt mx) then k rest pos cs
    else if greedy then
      match ma rest pos (cap_clear inner cs)
               (fun rest' pos' cs' =>
                  if pos' =? pos then None
                  else quant_loop ma inner greedy mn mx k fuel' (S cnt) rest' pos' cs') with
      | Some res => Some res
      | None => k rest pos cs
      end
    else
      match k rest pos cs with
      | Some res => Some res
      | None =>
        ma rest pos (cap_clear inner cs)
           (fun rest' pos' cs' =>
              if pos' =? pos then None
              else quant_loop ma inner greedy mn mx k fuel' (S cnt) rest' pos' cs')
      end
  end.

Fixpoint rmatch (ci : bool) (r : regex) (rest : jsstring) (pos : nat)
         (cs : caps) (k : cont) {struct r} : option (nat * caps) :=
  match r with
  | REmpty => k rest pos cs
  | RChar c =>
    match rest with
    | x :: t => if (canon ci x =? canon ci c)%N then k t (S pos) cs else None
    | [] => None
    end
  | RAny =>
    match rest with
    | x :: t => if is_line_terminator x then None else k t (S pos) cs
    | [] => None
    end
  | RClass neg items =>
    match rest with
    | x :: t => if class_match ci neg items x then k t (S pos) cs else None
    | [] => None
    end
  | RSeq a b =>
    rmatch ci a rest pos cs (fun rest' pos' cs' => rmatch ci b rest' pos' cs' k)
  | RAlt a b =>
    match rmatch ci a rest pos cs k with
    | Some res => Some res
    | None => rmatch ci b rest pos cs k
    end
  | RGroup i a =>
    rmatch ci a rest pos cs
           (fun rest' pos' cs' => k rest' pos' ((i, firstn (pos' - pos) rest) :: cs'))
  | RQuant greedy mn mx a =>
    quant_loop (rmatch ci a) (groups_of a) greedy mn mx k
               (S (mn + length rest)) 0 rest pos cs
  | RBol => if pos =? 0 then k rest pos cs else None
  | REol => match rest with [] => k rest pos cs | _ => None end
  end.

(** *** Reading a pattern from its source text *)

Definition is_ch (c : char) (s : string) : bool := (c =? ch s)%N.
Arguments is_ch c s%_string.

Definition hex_val (c : char) : option N :=
  if is_digit c then Some (c - 48)%N
  else if ((97 <=? c) && (c <=? 102))%N then Some (c - 87)%N
  else if ((65 <=? c) && (c <=? 70))%N then Some (c - 55)%N
  else None.

Definition parse_hex4 (inp : jsstring) : option (char * jsstring) :=
  match inp with
  | a :: b :: c :: d :: rest =>
    match hex_val a, hex_val b, hex_val c, hex_val d with
    | Some x, Some y, Some z, Some w =>
      Some ((x * 4096 + y * 256 + z * 16 + w)%N, rest)
    | _, _, _, _ => None
    end
  | _ => None
  end.

(** What follows a backslash: a class escape, a control escape, a
    [\uXXXX] escape or an identity escape.  Back references and word
    boundaries do not occur in the program's patterns and are refused. *)
Definition parse_escape (inp : jsstring) : option (class_item * jsstring) :=
  match inp with
  | c :: rest =>
    if is_ch c "d" then Some (CDigit, rest)
    else if is_ch c "D" then Some (CNotDigit, rest)
    else if is_ch c "w" then Some (CWord, rest)
    else if is_ch c "W" then Some (CNotWord, rest)
    else if is_ch c "s" then Some (CSpace, rest)
    else if is_ch c "S" then Some (CNotSpace, rest)
    else if is_ch c "n" then Some (CChar 10%N, rest)
    else if is_ch c "r" then Some (CChar 13%N, rest)
    else if is_ch c "t" then Some (CChar 9%N, rest)
    else if is_ch c "u" then
      match parse_hex4 rest with
      | Some (v, rest') => Some (CChar v, rest')
      | None => None
      end
    else if is_word c then None
    else Some (CChar c, rest)
  | [] => None
  end.

Definition parse_class_atom (inp : jsstring) : option (class_item * jsstring) :=
  match inp with
  | c :: rest => if is_ch c "\" then parse_escape rest else Some (CChar c, rest)
  | [] => None
  end.

Fixpoint parse_class_items (fuel : nat) (inp : jsstring) (acc : list class_item)
  : option (list class_item * jsstring) :=
  match fuel with
  | O => None
  | S f =>
    match inp with
    | [] => None
    | c :: rest =>
      if is_ch c "]" then Some (rev acc, rest)
      else
        match parse_class_atom inp with
        | Some (CChar lo, d :: e :: rest2) =>
          if is_ch d "-" && negb (is_ch e "]") then
            match parse_class_atom (e :: rest2) with
            | Some (CChar hi, rest3) => parse_class_items f rest3 (CRange lo hi :: acc)
            | Some (it, rest3) => parse_class_items f rest3 (it :: CChar d :: CChar lo :: acc)
            | None => None
            end
          else parse_class_items f (d :: e :: rest2) (CChar lo :: acc)
        | Some (it, rest1) => parse_class_items f rest1 (it :: acc)
        | None => None
        end
    end
  end.

Fixpoint parse_nat_acc (inp : jsstring) (acc : nat) : nat * jsstring :=
  match inp with
  | c :: rest =>
    if is_digit c then parse_nat_acc rest (10 * acc + N.to_nat (c - 48)) else (acc, inp)
  | [] => (acc, [])
  end.

Definition parse_lazy (q : nat * option nat) (inp : jsstring)
  : option (option (bool * nat * option nat) * jsstring) :=
  match inp with
  | c :: rest =>
    if is_ch c "?" then Some (Some (false, fst q, snd q), rest)
    else Some (Some (true, fst q, snd q), inp)
  | [] => Some (Some (true, fst q, snd q), [])
  end.

Definition parse_quant (inp : jsstring)
  : option (option (bool * nat * option nat) * jsstring) :=
  match inp with
  | c :: rest =>
    if is_ch c "*" then parse_lazy (0, None) rest
    else if is_ch c "+" then parse_lazy (1, None) rest
    else if is_ch c "?" then parse_lazy (0, Some 1) rest
    else if is_ch c "{" then
      match rest with
      | d :: _ =>
        if is_digit d then
          let (n, rest1) := parse_nat_acc rest 0 in
          match rest1 with
          | e :: rest2 =>
            if is_ch e "}" then parse_lazy (n, Some n) rest2
            else if is_ch e "," then
              match rest2 with
              | f :: rest3 =>
                if is_ch f "}" then parse_lazy (n, None) rest3
                else if is_digit f then
                  let (m, rest4) := parse_nat_acc rest2 0 in
                  match rest4 with
                  | h :: rest5 => if is_ch h "}" then parse_lazy (n, Some m) rest5 else None
                  | [] => None
                  end
                else None
              | [] => None
              end
            else None
          | [] => None
          end
        else None
      | [] => None
      end
    else Some (None, inp)
  | [] => Some (None, [])
  end.

Definition seq_ (a b : regex) : regex :=
  match b with REmpty => a | _ => RSeq a b end.

Fixpoint parse_disj (fuel : nat) (inp : jsstring) (g : nat) {struct fuel}
  : option (regex * jsstring * nat) :=
  match fuel with
  | O => None
  | S f =>
    match parse_alt f inp g with
    | Some (a, rest, g1) =>
      match rest with
      | c :: rest' =>
        if is_ch c "|" then
          match parse_disj f rest' g1 with
          | Some (b, rest2, g2) => Some (RAlt a b, rest2, g2)
          | None => None
          end
        else Some (a, rest, g1)
      | [] => Some (a, [], g1)
      end
    | None => None
    end
  end
with parse_alt (fuel : nat) (inp : jsstring) (g : nat) {struct fuel}
  : option (regex * jsstring * nat) :=
  match fuel with
  | O => None
  | S f =>
    match inp with
    | [] => Some (REmpty, [], g)
    | c :: _ =>
      if is_ch c "|" || is_ch c ")" then Some (REmpty, inp, g)
      else
        match parse_term f inp g with
        | Some (t, rest, g1) =>
          match parse_alt f rest g1 with
          | Some (a, rest2, g2) => Some (seq_ t a, rest2, g2)
          | None => None
          end
        | None => None
        end
    end
  end
with parse_term (fuel : nat) (inp : jsstring) (g : nat) {struct fuel}
  : option (regex * jsstring * nat) :=
  match fuel with
  | O => None
  | S f =>
    match inp with
    | [] => None
    | c :: rest =>
      if is_ch c "^" then Some (RBol, rest, g)
      else if is_ch c "$" then Some (REol, rest, g)
      else
        match parse_atom f inp g with
        | Some (a, rest1, g1) =>
          match parse_quant rest1 with
          | Some (Some (gr, mn, mx), rest2) => Some (RQuant gr mn mx a, rest2, g1)
          | Some (None, rest2) => Some (a, rest2, g1)
          | None => None
          end
        | None => None
        end
    end
  end
with parse_atom (fuel : nat) (inp : jsstring) (g : nat) {struct fuel}
  : option (regex * jsstring * nat) :=
  match fuel with
  | O => None
  | S f =>
    match inp with
    | [] => None
    | c :: rest =>
      if is_ch c "." then Some (RAny, rest, g)
      else if is_ch c "\" then
        match parse_escape rest with
        | Some (CChar v, rest1) => Some (RChar v, rest1, g)
        | Some (it, rest1) => Some (RClass false [it], rest1, g)
        | None => None
        end
      else if is_ch c "[" then
        match rest with
        | d :: rest1 =>
          if is_ch d "^" then
            match parse_class_items (S (length rest1)) rest1 [] with
            | Some (items, rest2) => Some (RClass true items, rest2, g)
            | None => None
            end
          else
            match parse_class_items (S (length rest)) rest [] with
            | Some (items, rest2) => Some (RClass false items, rest2, g)
            | None => None
            end
        | [] => None
        end
      else if is_ch c "(" then
        match rest with
        | d :: e :: rest1 =>
          if is_ch d "?" then
            if is_ch e ":" then
              match parse_disj f rest1 g with
              | Some (a, h :: rest2, g1) => if is_ch h ")" then Some (a, rest2, g1) else None
              | _ => None
              end
            else None
          else
            match parse_disj f rest (S g) with
            | Some (a, h :: rest2, g1) =>
              if is_ch h ")" then Some (RGroup g a, rest2, g1) else None
            | _ => None
            end
        | _ =>
          match parse_disj f rest (S g) with
          | Some (a, h :: rest2, g1) =>
            if is_ch h ")" then Some (RGroup g a, rest2, g1) else None
          | _ => None
          end
        end
      else if is_ch c "*" || is_ch c "+" || is_ch c "?" || is_ch c ")" || is_ch c "|" || is_ch c "{" then None
      else Some (RChar c, rest, g)
    end
  end.

(** A compiled regular expression: the pattern, the number of its
    capture groups, and the [i] and [g] flags. *)
Record RegExp := {
  re_ast : regex;
  re_groups : nat;
  re_icase : bool;
  re_global : bool
}.

Definition has_flag (flags : jsstring) (f : char) : bool := existsb (N.eqb f) flags.

(** [/src/flags]; a text that is not a pattern yields the pattern that
    matches nothing (this never happens for the literals below). *)
Definition regexp (src flags : string) : RegExp :=
  let fl := js flags in
  match parse_disj (4 * length (js src) + 8) (js src) 1 with
  | Some (r, [], g) =>
    {| re_ast := r; re_groups := g - 1;
       re_icase := has_flag fl (ch "i"); re_global := has_flag fl (ch "g") |}
  | _ =>
    {| re_ast := RClass false []; re_groups := 0;
       re_icase := false; re_global := false |}
  end.
Arguments regexp (src flags)%_string.

(** *** Running a pattern *)

(** The result of a successful match: [m[0]], its index, and the groups
    [m[1]], [m[2]], ... (a group that did not take part is undefined). *)
Record MatchResult := {
  m_index : nat;
  m_whole : jsstring;
  m_groups : list (option jsstring)
}.

Definition group (m : MatchResult) (i : nat) : option jsstring :=
  match i with
  | O => Some (m_whole m)
  | S j => match nth_error (m_groups m) j with Some g => g | None => None end
  end.

Definition m_end (m : MatchResult) : nat := m_index m + length (m_whole m).

(** A match that starts exactly at [pos], where the input from [pos] on is [rest]. *)
Definition match_here (re : RegExp) (rest : jsstring) (pos : nat) : option MatchResult :=
  match rmatch (re_icase re) (re_ast re) rest pos [] (fun _ pos' cs => Some (pos', cs)) with
  | Some (pos', cs) =>
    Some {| m_index := pos;
            m_whole := firstn (pos' - pos) rest;
            m_groups := map (fun i => cap_lookup i cs) (seq 1 (re_groups re)) |}
  | None => None
  end.

(** The leftmost match at or after [pos]. *)
Fixpoint search (re : RegExp) (rest : jsstring) (pos : nat) {struct rest}
  : option MatchResult :=
  match match_here re rest pos with
  | Some m => Some m
  | None =>
    match rest with
    | [] => None
    | _ :: t => search re t (S pos)
    end
  end.

(** [re.exec(s)] / [s.match(re)] for a pattern without the [g] flag, and
    [re.test(s)]. *)
Definition exec (re : RegExp) (s : jsstring) : option MatchResult := search re s 0.

Definition test (re : RegExp) (s : jsstring) : bool :=
  match exec re s with Some _ => true | None => false end.

(** All successive matches: [s.match(re)] with the [g] flag, and the loop
    [while ((m = re.exec(s)) !== null)] over a pattern that cannot match
    the empty string.  After an empty match the search resumes one unit
    further. *)
Fixpoint match_all_from (fuel : nat) (re : RegExp) (rest : jsstring) (pos : nat)
  : list MatchResult :=
  match fuel with
  | O => []
  | S f =>
    match search re rest pos with
    | None => []
    | Some m =>
      let e := if m_end m =? m_index m then S (m_end m) else m_end m in
      m :: (if length rest + pos <? e then []
            else match_all_from f re (skipn (e - pos) rest) e)
    end
  end.

Definition match_all (re : RegExp) (s : jsstring) : list MatchResult :=
  match_all_from (S (length s)) re s 0.

(** [s.replace(re, r)] where [r] has no [$] patterns: the first match, or
    every match under the [g] flag. *)
Fixpoint splice (s : jsstring) (pos : nat) (ms : list MatchResult) (r : jsstring)
  : jsstring :=
  match ms with
  | [] => s
  | m :: ms' =>
    firstn (m_index m - pos) s ++ r
    ++ splice (skipn (m_end m - pos) s) (m_end m) ms' r
  end.

Definition replace (s : jsstring) (re : RegExp) (r : jsstring) : jsstring :=
  if re_global re then splice s 0 (match_all re s) r
  else match exec re s with
       | Some m => splice s 0 [m] r
       | None => s
       end.

(** A value that may be [undefined], as a template literal or [join]
    prints it. *)
Definition defined (o : option jsstring) : jsstring :=
  match o with Some s => s | None => js "undefined" end.

(** [s.split(re)]: the pattern is tried at each position in turn; a match
    that ends where the current piece starts is skipped; the captures of a
    separator are spliced into the result (the patterns the program splits
    on have none that can be left unset). *)
Fixpoint split_loop (fuel : nat) (re : RegExp) (piece : jsstring) (p : nat)
         (rest : jsstring) (q : nat) : list jsstring :=
  match fuel with
  | O => [piece]
  | S f =>
    match rest with
    | [] => [piece]
    | c :: t =>
      match match_here re rest q with
      | Some m =>
        if m_end m =? p then split_loop f re piece p t (S q)
        else
          let after := skipn (m_end m - q) rest in
          firstn (q - p) piece
          :: map defined (m_groups m)
          ++ split_loop f re after (m_end m) after (m_end m)
      | None => split_loop f re piece p t (S q)
      end
    end
  end.

Definition split (s : jsstring) (re : RegExp) : list jsstring :=
  match s with
  | [] => match match_here re [] 0 with Some _ => [] | None => [[]] end
  | _ => split_loop (S (length s)) re s 0 s 0
  end.


(* ================================================================== *)
(** ** Data model ([types/index.ts])                                    *)
(* ================================================================== *)

Inductive CitationType :=
| journal | book | chapter | web | report | conference | dissertation | unknown.

Definition type_eqb (a b : CitationType) : bool :=
  match a, b with
  | journal, journal | book, book | chapter, chapter | web, web
  | report, report | conference, conference | dissertation, dissertation
  | unknown, unknown => true
  | _, _ => false
  end.

Definition type_name (t : CitationType) : jsstring :=
  match t with
  | journal => js "journal" | book => js "book" | chapter => js "chapter"
  | web => js "web" | report => js "report" | conference => js "conference"
  | dissertation => js "dissertation" | unknown => js "unknown"
  end.

(** An optional field is [None] when the property is absent or undefined. *)
Record Author := {
  lastName : jsstring;
  initials : jsstring;
  isGroupAuthor : option bool
}.

Definition is_group (a : Author) : bool :=
  match isGroupAuthor a with Some b => b | None => false end.

Definition set_initials (v : jsstring) (a : Author) : Author :=
  {| lastName := lastName a; initials := v; isGroupAuthor := isGroupAuthor a |}.

Record ParsedCitation := {
  raw : jsstring;
  authors : list Author;
  year : jsstring;
  title : jsstring;
  source : jsstring;
  volume : option jsstring;
  issue : option jsstring;
  pages : option jsstring;
  doi : option jsstring;
  url : option jsstring;
  publisher : option jsstring;
  editors : option (list Author);
  edition : option jsstring;
  type : CitationType;
  fullDate : option jsstring;
  yearSuffix : option jsstring;
  reportNumber : option jsstring;
  bracketType : option jsstring;
  conferenceName : option jsstring;
  institution : option jsstring;
  databaseName : option jsstring;
  citationIsGroupAuthor : option bool
}.

Definition set_raw (v : jsstring) (c : ParsedCitation) : ParsedCitation :=
  {| raw := v; authors := authors c; year := year c; title := title c; source :=
     source c; volume := volume c; issue := issue c; pages := pages c; doi := doi
     c; url := url c; publisher := publisher c; editors := editors c; edition :=
     edition c; type := type c; fullDate := fullDate c; yearSuffix := yearSuffix c;
     reportNumber := reportNumber c; bracketType := bracketType c; conferenceName
     := conferenceName c; institution := institution c; databaseName :=
     databaseName c; citationIsGroupAuthor := citationIsGroupAuthor c |}.

Definition set_authors (v : list Author) (c : ParsedCitation) : ParsedCitation :=
  {| raw := raw c; authors := v; year := year c; title := title c; source := source
     c; volume := volume c; issue := issue c; pages := pages c; doi := doi c; url
     := url c; publisher := publisher c; editors := editors c; edition := edition
     c; type := type c; fullDate := fullDate c; yearSuffix := yearSuffix c;
     reportNumber := reportNumber c; bracketType := bracketType c; conferenceName
     := conferenceName c; institution := institution c; databaseName :=
     databaseName c; citationIsGroupAuthor := citationIsGroupAuthor c |}.

Definition set_year (v : jsstring) (c : ParsedCitation) : ParsedCitation :=
  {| raw := raw c; authors := authors c; year := v; title := title c; source :=
     source c; volume := volume c; issue := issue c; pages := pages c; doi := doi
     c; url := url c; publisher := publisher c; editors := editors c; edition :=
     edition c; type := type c; fullDate := fullDate c; yearSuffix := yearSuffix c;
     reportNumber := reportNumber c; bracketType := bracketType c; conferenceName
     := conferenceName c; institution := institution c; databaseName :=
     databaseName c; citationIsGroupAuthor := citationIsGroupAuthor c |}.

Definition set_title (v : jsstring) (c : ParsedCitation) : ParsedCitation :=
  {| raw := raw c; authors := authors c; year := year c; title := v; source :=
     source c; volume := volume c; issue := issue c; pages := pages c; doi := doi
     c; url := url c; publisher := publisher c; editors := editors c; edition :=
     edition c; type := type c; fullDate := fullDate c; yearSuffix := yearSuffix c;
     reportNumber := reportNumber c; bracketType := bracketType c; conferenceName
     := conferenceName c; institution := institution c; databaseName :=
     databaseName c; citationIsGroupAuthor := citationIsGroupAuthor c |}.

Definition set_source (v : jsstring) (c : ParsedCitation) : ParsedCitation :=
  {| raw := raw c; authors := authors c; year := year c; title := title c; source
     := v; volume := volume c; issue := issue c; pages := pages c; doi := doi c;
     url := url c; publisher := publisher c; editors := editors c; edition :=
     edition c; type := type c; fullDate := fullDate c; yearSuffix := yearSuffix c;
     reportNumber := reportNumber c; bracketType := bracketType c; conferenceName
     := conferenceName c; institution := institution c; databaseName :=
     databaseName c; citationIsGroupAuthor := citationIsGroupAuthor c |}.

Definition set_volume (v : option jsstring) (c : ParsedCitation) : ParsedCitation :=
  {| raw := raw c; authors := authors c; year := year c; title := title c; source
     := source c; volume := v; issue := issue c; pages := pages c; doi := doi c;
     url := url c; publisher := publisher c; editors := editors c; edition :=
     edition c; type := type c; fullDate := fullDate c; yearSuffix := yearSuffix c;
     reportNumber := reportNumber c; bracketType := bracketType c; conferenceName
     := conferenceName c; institution := institution c; databaseName :=
     databaseName c; citationIsGroupAuthor := citationIsGroupAuthor c |}.

Definition set_issue (v : option jsstring) (c : ParsedCitation) : ParsedCitation :=
  {| raw := raw c; authors := authors c; year := year c; title := title c; source
     := source c; volume := volume c; issue := v; pages := pages c; doi := doi c;
     url := url c; publisher := publisher c; editors := editors c; edition :=
     edition c; type := type c; fullDate := fullDate c; yearSuffix := yearSuffix c;
     reportNumber := reportNumber c; bracketType := bracketType c; conferenceName
     := conferenceName c; institution := institution c; databaseName :=
     databaseName c; citationIsGroupAuthor := citationIsGroupAuthor c |}.

Definition set_pages (v : option jsstring) (c : ParsedCitation) : ParsedCitation :=
  {| raw := raw c; authors := authors c; year := year c; title := title c; source
     := source c; volume := volume c; issue := issue c; pages := v; doi := doi c;
     url := url c; publisher := publisher c; editors := editors c; edition :=
     edition c; type := type c; fullDate := fullDate c; yearSuffix := yearSuffix c;
     reportNumber := reportNumber c; bracketType := bracketType c; conferenceName
     := conferenceName c; institution := institution c; databaseName :=
     databaseName c; citationIsGroupAuthor := citationIsGroupAuthor c |}.

Definition set_doi (v : option jsstring) (c : ParsedCitation) : ParsedCitation :=
  {| raw := raw c; authors := authors c; year := year c; title := title c; source
     := source c; volume := volume c; issue := issue c; pages := pages c; doi := v;
     url := url c; publisher := publisher c; editors := editors c; edition :=
     edition c; type := type c; fullDate := fullDate c; yearSuffix := yearSuffix c;
     reportNumber := reportNumber c; bracketType := bracketType c; conferenceName
     := conferenceName c; institution := institution c; databaseName :=
     databaseName c; citationIsGroupAuthor := citationIsGroupAuthor c |}.

Definition set_url (v : option jsstring) (c : ParsedCitation) : ParsedCitation :=
  {| raw := raw c; authors := authors c; year := year c; title := title c; source
     := source c; volume := volume c; issue := issue c; pages := pages c; doi :=
     doi c; url := v; publisher := publisher c; editors := editors c; edition :=
     edition c; type := type c; fullDate := fullDate c; yearSuffix := yearSuffix c;
     reportNumber := reportNumber c; bracketType := bracketType c; conferenceName
     := conferenceName c; institution := institution c; databaseName :=
     databaseName c; citationIsGroupAuthor := citationIsGroupAuthor c |}.

Definition set_publisher (v : option jsstring) (c : ParsedCitation) : ParsedCitation :=
  {| raw := raw c; authors := authors c; year := year c; title := title c; source
     := source c; volume := volume c; issue := issue c; pages := pages c; doi :=
     doi c; url := url c; publisher := v; editors := editors c; edition := edition
     c; type := type c; fullDate := fullDate c; yearSuffix := yearSuffix c;
     reportNumber := reportNumber c; bracketType := bracketType c; conferenceName
     := conferenceName c; institution := institution c; databaseName :=
     databaseName c; citationIsGroupAuthor := citationIsGroupAuthor c |}.

Definition set_editors (v : option (list Author)) (c : ParsedCitation) : ParsedCitation :=
  {| raw := raw c; authors := authors c; year := year c; title := title c; source
     := source c; volume := volume c; issue := issue c; pages := pages c; doi :=
     doi c; url := url c; publisher := publisher c; editors := v; edition :=
     edition c; type := type c; fullDate := fullDate c; yearSuffix := yearSuffix c;
     reportNumber := reportNumber c; bracketType := bracketType c; conferenceName
     := conferenceName c; institution := institution c; databaseName :=
     databaseName c; citationIsGroupAuthor := citationIsGroupAuthor c |}.

Definition set_edition (v : option jsstring) (c : ParsedCitation) : ParsedCitation :=
  {| raw := raw c; authors := authors c; year := year c; title := title c; source
     := source c; volume := volume c; issue := issue c; pages := pages c; doi :=
     doi c; url := url c; publisher := publisher c; editors := editors c; edition
     := v; type := type c; fullDate := fullDate c; yearSuffix := yearSuffix c;
     reportNumber := reportNumber c; bracketType := bracketType c; conferenceName
     := conferenceName c; institution := institution c; databaseName :=
     databaseName c; citationIsGroupAuthor := citationIsGroupAuthor c |}.

Definition set_type (v : CitationType) (c : ParsedCitation) : ParsedCitation :=
  {| raw := raw c; authors := authors c; year := year c; title := title c; source
     := source c; volume := volume c; issue := issue c; pages := pages c; doi :=
     doi c; url := url c; publisher := publisher c; editors := editors c; edition
     := edition c; type := v; fullDate := fullDate c; yearSuffix := yearSuffix c;
     reportNumber := reportNumber c; bracketType := bracketType c; conferenceName
     := conferenceName c; institution := institution c; databaseName :=
     databaseName c; citationIsGroupAuthor := citationIsGroupAuthor c |}.

Definition set_fullDate (v : option jsstring) (c : ParsedCitation) : ParsedCitation :=
  {| raw := raw c; authors := authors c; year := year c; title := title c; source
     := source c; volume := volume c; issue := issue c; pages := pages c; doi :=
     doi c; url := url c; publisher := publisher c; editors := editors c; edition
     := edition c; type := type c; fullDate := v; yearSuffix := yearSuffix c;
     reportNumber := reportNumber c; bracketType := bracketType c; conferenceName
     := conferenceName c; institution := institution c; databaseName :=
     databaseName c; citationIsGroupAuthor := citationIsGroupAuthor c |}.

Definition set_yearSuffix (v : option jsstring) (c : ParsedCitation) : ParsedCitation :=
  {| raw := raw c; authors := authors c; year := year c; title := title c; source
     := source c; volume := volume c; issue := issue c; pages := pages c; doi :=
     doi c; url := url c; publisher := publisher c; editors := editors c; edition
     := edition c; type := type c; fullDate := fullDate c; yearSuffix := v;
     reportNumber := reportNumber c; bracketType := bracketType c; conferenceName
     := conferenceName c; institution := institution c; databaseName :=
     databaseName c; citationIsGroupAuthor := citationIsGroupAuthor c |}.

Definition set_reportNumber (v : option jsstring) (c : ParsedCitation) : ParsedCitation :=
  {| raw := raw c; authors := authors c; year := year c; title := title c; source
     := source c; volume := volume c; issue := issue c; pages := pages c; doi :=
     doi c; url := url c; publisher := publisher c; editors := editors c; edition
     := edition c; type := type c; fullDate := fullDate c; yearSuffix := yearSuffix
     c; reportNumber := v; bracketType := bracketType c; conferenceName :=
     conferenceName c; institution := institution c; databaseName := databaseName
     c; citationIsGroupAuthor := citationIsGroupAuthor c |}.

Definition set_bracketType (v : option jsstring) (c : ParsedCitation) : ParsedCitation :=
  {| raw := raw c; authors := authors c; year := year c; title := title c; source
     := source c; volume := volume c; issue := issue c; pages := pages c; doi :=
     doi c; url := url c; publisher := publisher c; editors := editors c; edition
     := edition c; type := type c; fullDate := fullDate c; yearSuffix := yearSuffix
     c; reportNumber := reportNumber c; bracketType := v; conferenceName :=
     conferenceName c; institution := institution c; databaseName := databaseName
     c; citationIsGroupAuthor := citationIsGroupAuthor c |}.

Definition set_conferenceName (v : option jsstring) (c : ParsedCitation) : ParsedCitation :=
  {| raw := raw c; authors := authors c; year := year c; title := title c; source
     := source c; volume := volume c; issue := issue c; pages := pages c; doi :=
     doi c; url := url c; publisher := publisher c; editors := editors c; edition
     := edition c; type := type c; fullDate := fullDate c; yearSuffix := yearSuffix
     c; reportNumber := reportNumber c; bracketType := bracketType c;
     conferenceName := v; institution := institution c; databaseName :=
     databaseName c; citationIsGroupAuthor := citationIsGroupAuthor c |}.

Definition set_institution (v : option jsstring) (c : ParsedCitation) : ParsedCitation :=
  {| raw := raw c; authors := authors c; year := year c; title := title c; source
     := source c; volume := volume c; issue := issue c; pages := pages c; doi :=
     doi c; url := url c; publisher := publisher c; editors := editors c; edition
     := edition c; type := type c; fullDate := fullDate c; yearSuffix := yearSuffix
     c; reportNumber := reportNumber c; bracketType := bracketType c;
     conferenceName := conferenceName c; institution := v; databaseName :=
     databaseName c; citationIsGroupAuthor := citationIsGroupAuthor c |}.

Definition set_databaseName (v : option jsstring) (c : ParsedCitation) : ParsedCitation :=
  {| raw := raw c; authors := authors c; year := year c; title := title c; source
     := source c; volume := volume c; issue := issue c; pages := pages c; doi :=
     doi c; url := url c; publisher := publisher c; editors := editors c; edition
     := edition c; type := type c; fullDate := fullDate c; yearSuffix := yearSuffix
     c; reportNumber := reportNumber c; bracketType := bracketType c;
     conferenceName := conferenceName c; institution := institution c; databaseName
     := v; citationIsGroupAuthor := citationIsGroupAuthor c |}.

Definition set_citationIsGroupAuthor (v : option bool) (c : ParsedCitation) : ParsedCitation :=
  {| raw := raw c; authors := authors c; year := year c; title := title c; source
     := source c; volume := volume c; issue := issue c; pages := pages c; doi :=
     doi c; url := url c; publisher := publisher c; editors := editors c; edition
     := edition c; type := type c; fullDate := fullDate c; yearSuffix := yearSuffix
     c; reportNumber := reportNumber c; bracketType := bracketType c;
     conferenceName := conferenceName c; institution := institution c; databaseName
     := databaseName c; citationIsGroupAuthor := v |}.

Inductive Severity := Error | Warning | Info.

Module ValidationError.
Record t := {
    rule : jsstring;
    field : jsstring;
    message : jsstring;
    severity : Severity;
    original : jsstring;
    suggested : option jsstring;
    autoFixable : bool
  }.
End ValidationError.

Module AutoFix.
Record t := {
    rule : jsstring;
    field : jsstring;
    original : jsstring;
    fixed : jsstring;
    description : jsstring
  }.
End AutoFix.

Module ManualFix.
Record t := {
    rule : jsstring;
    field : jsstring;
    message : jsstring;
    hint : jsstring
  }.
End ManualFix.

Module CrossRefWork.
Record t := {
    doi : jsstring;
    title : jsstring;
    authors : list Author;
    year : jsstring;
    source : jsstring;
    volume : option jsstring;
    issue : option jsstring;
    pages : option jsstring;
    type : jsstring;
    publisher : option jsstring;
    editors : option (list Author);
    edition : option jsstring;
    reportNumber : option jsstring;
    conferenceName : option jsstring;
    institution : option jsstring
  }.
End CrossRefWork.

(* ================================================================== *)
(** ** Parser ([lib/validator/parser.ts])                               *)
(* ================================================================== *)

(** A computation of the parser mutates the citation under construction
    and may throw (a method call on an undefined capture); the mutations
    made before a throw stay visible to the handler. *)
Inductive outcome (A : Type) :=
| Normal (a : A)
| Throw.
Arguments Normal {A} a.
Arguments Throw {A}.

Definition M (A : Type) := ParsedCitation -> outcome A * ParsedCitation.

Definition ret {A} (a : A) : M A := fun c => (Normal a, c).

Definition bind {A B} (m : M A) (f : A -> M B) : M B :=
  fun c => match m c with
           | (Normal a, c') => f a c'
           | (Throw, c') => (Throw, c')
           end.

Definition modify (f : ParsedCitation -> ParsedCitation) : M unit :=
  fun c => (Normal tt, f c).

Definition gets {A} (f : ParsedCitation -> A) : M A := fun c => (Normal (f c), c).

Definition lift {A} (o : outcome A) : M A := fun c => (o, c).

(** The receiver of a method call: undefined throws a TypeError. *)
Definition must (o : option jsstring) : M jsstring :=
  match o with Some s => ret s | None => lift Throw end.

(** [try { body } catch { handler }] *)
Definition try_catch (body handler : M unit) : M unit :=
  fun c => match body c with
           | (Normal tt, c') => (Normal tt, c')
           | (Throw, c') => handler c'
           end.

Declare Scope parser_scope.
Delimit Scope parser_scope with parser.
Notation "x <- m ;; f" := (bind m (fun x => f))
  (at level 61, m at next level, right associativity) : parser_scope.
Notation "m ;; f" := (bind m (fun _ => f))
  (at level 61, right associativity) : parser_scope.
Notation "'when' b 'then' m" := (if b then m else ret tt)
  (at level 60, b at level 9) : parser_scope.
Open Scope parser_scope.

(** *** normalizeInitials *)

Definition normalizeInitials (initials : jsstring) : jsstring :=
  let letters := map m_whole (match_all (regexp "[A-Z]" "g") initials) in
  join (js " ") (map (fun l => l ++ js ".") letters).

(** *** parseAuthors *)

(** The pattern assembled by [new RegExp(...)] from [nameChars],
    [prefixes] and [initialsPattern]; the name class spans the letters
    U+00C0-U+00D6, U+00D8-U+00F6 and U+00F8-U+024F besides A-Z and a-z. *)
Definition authorRegex : RegExp :=
  regexp "([A-Za-zÀ-ÖØ-öø-ɏ'\-]+(?:\s+(?:van|de|von|la|del|di|el|al|bin|ibn)\s+[A-Za-zÀ-ÖØ-öø-ɏ'\-]+)?),\s*((?:[A-Z]\.\s*)+)" "g".

Definition author_of_match (m : MatchResult) : outcome Author :=
  match group m 1, group m 2 with
  | Some g1, Some g2 =>
    Normal {| lastName := trim g1;
              initials := normalizeInitials (trim g2);
              isGroupAuthor := None |}
  | _, _ => Throw
  end.

Fixpoint authors_of_matches (ms : list MatchResult) : outcome (list Author) :=
  match ms with
  | [] => Normal []
  | m :: ms' =>
    match author_of_match m with
    | Normal a =>
      match authors_of_matches ms' with
      | Normal l => Normal (a :: l)
      | Throw => Throw
      end
    | Throw => Throw
    end
  end.

Definition parseAuthors (authorBlock : jsstring) : outcome (list Author) :=
  let block := trim authorBlock in
  let block := replace block (regexp "[‘’‚‛`´]" "g") (js "'") in
  let block :=
    if includes block (js "et al.") || includes block (js "...")
    then replace block (regexp ",?\s*(?:et al\.|\.\.\.)\s*$" "") []
    else block in
  let parts := split block (regexp "\s*&\s*" "") in
  match authors_of_matches (flat_map (match_all authorRegex) parts) with
  | Throw => Throw
  | Normal authors =>
    if (length authors =? 0) && (0 <? length block) then
      let groupName := trim (replace block (regexp "\.\s*$" "") []) in
      if 0 <? length groupName then
        Normal (authors ++ [ {| lastName := groupName; initials := [];
                                isGroupAuthor := Some true |} ])
      else Normal authors
    else Normal authors
  end.

(** *** splitByPeriods *)

Fixpoint splitByPeriods_loop (text current : jsstring) (parenDepth : Z)
  : list jsstring :=
  match text with
  | [] => if nonempty (trim current) then [trim current] else []
  | c :: t =>
    if is_ch c "(" then splitByPeriods_loop t (current ++ [c]) (parenDepth + 1)
    else if is_ch c ")" then splitByPeriods_loop t (current ++ [c]) (parenDepth - 1)
    else if is_ch c "." && (parenDepth =? 0)%Z then
      match t with
      | d :: t' =>
        if is_ch d " " then trim current :: splitByPeriods_loop t' [] parenDepth
        else splitByPeriods_loop t (current ++ [c]) parenDepth
      | [] => splitByPeriods_loop t (current ++ [c]) parenDepth
      end
    else splitByPeriods_loop t (current ++ [c]) parenDepth
  end.

Definition splitByPeriods (text : jsstring) : list jsstring :=
  splitByPeriods_loop text [] 0.

(** *** SOURCE_PATTERNS *)

(** [s.replace(/\.$/, '').split(',')[0].trim()] *)
Definition publisher_of (s : jsstring) : jsstring :=
  trim (hd [] (split_char (ch ",") (replace (trim s) (regexp "\.$" "") []) [])).

Definition prefixed (p : jsstring) (o : option jsstring) : option jsstring :=
  if truthy o then Some (p ++ defined o) else None.

Definition SOURCE_PATTERNS : list (RegExp * (MatchResult -> M unit)) :=
  [ (* "In Editor (Ed.), BookTitle (pp. X-Y). Publisher" *)
    (regexp "^In\s+(.+?)\s*\((?:Eds?\.|Trans\.)\),?\s*(.+?)\s*\(pp\.\s*([\d–-]+)\)\.\s*(.+)$" "i",
     fun m =>
       m2 <- must (group m 2) ;;
       modify (set_source (js "In " ++ defined (group m 1) ++ js " (Ed.), " ++ trim m2)) ;;
       m3 <- must (group m 3) ;;
       modify (set_pages (Some (trim m3))) ;;
       m4 <- must (group m 4) ;;
       modify (set_publisher (Some (publisher_of m4))) ;;
       modify (set_type chapter));
    (* "In SourceName (pp. X-Y). Publisher" *)
    (regexp "^In\s+(.+?)\s*\(pp\.\s*([\d–-]+)\)\.\s*(.+)$" "i",
     fun m =>
       m1 <- must (group m 1) ;;
       modify (set_source (js "In " ++ trim m1)) ;;
       m2 <- must (group m 2) ;;
       modify (set_pages (Some (trim m2))) ;;
       m3 <- must (group m 3) ;;
       modify (set_publisher (Some (publisher_of m3))) ;;
       modify (set_type chapter));
    (* "In SourceName (pp. X-Y)" without publisher *)
    (regexp "^In\s+(.+?)\s*\(pp\.\s*([\d–-]+)\)" "i",
     fun m =>
       m1 <- must (group m 1) ;;
       modify (set_source (js "In " ++ trim m1)) ;;
       m2 <- must (group m 2) ;;
       modify (set_pages (Some (trim m2))) ;;
       modify (set_type chapter));
    (* Vol. X, No. Y, pp. Z (with prefixes - incorrect format) *)
    (regexp "^(.+?),?\s+Vol\.?\s*(\d+),?\s*No\.?\s*(\d+),?\s*pp\.?\s*([\d–-]+)?" "i",
     fun m =>
       m1 <- must (group m 1) ;;
       modify (set_source (trim m1)) ;;
       modify (set_volume (Some (js "Vol. " ++ defined (group m 2)))) ;;
       modify (set_issue (Some (js "No. " ++ defined (group m 3)))) ;;
       modify (set_pages (prefixed (js "pp. ") (group m 4))) ;;
       modify (set_type journal));
    (* Vol. X(Y), pp. Z (issue in parentheses, with prefixes) *)
    (regexp "^(.+?),?\s+Vol\.?\s*(\d+)\((\d+)\),?\s*(?:pp\.?\s*)?([\d–-]+)?" "i",
     fun m =>
       m1 <- must (group m 1) ;;
       modify (set_source (trim m1)) ;;
       modify (set_volume (Some (js "Vol. " ++ defined (group m 2)))) ;;
       modify (set_issue (group m 3)) ;;
       modify (set_pages (prefixed (js "pp. ") (group m 4))) ;;
       modify (set_type journal));
    (* Vol. X, pp. Y (no issue, with prefixes) *)
    (regexp "^(.+?),?\s+Vol\.?\s*(\d+),?\s*pp\.?\s*([\d–-]+)?" "i",
     fun m =>
       m1 <- must (group m 1) ;;
       modify (set_source (trim m1)) ;;
       modify (set_volume (Some (js "Vol. " ++ defined (group m 2)))) ;;
       modify (set_pages (prefixed (js "pp. ") (group m 3))) ;;
       modify (set_type journal));
    (* volume(issue), pages (correct format) *)
    (regexp "^(.+?),?\s+(\d+)\((\d+)\),?\s*([\d–-]+)?" "",
     fun m =>
       m1 <- must (group m 1) ;;
       modify (set_source (trim m1)) ;;
       modify (set_volume (group m 2)) ;;
       modify (set_issue (group m 3)) ;;
       modify (set_pages (group m 4)) ;;
       modify (set_type journal));
    (* volume, pages (no issue, correct format) *)
    (regexp "^(.+?),?\s+(\d+),?\s*([\d–-]+)?" "",
     fun m =>
       m1 <- must (group m 1) ;;
       modify (set_source (trim m1)) ;;
       modify (set_volume (group m 2)) ;;
       modify (set_pages (group m 3)) ;;
       modify (set_type journal)) ].

(** The loop over the patterns: the first one that matches extracts, and
    the caller returns; [false] when no pattern matched. *)
Fixpoint try_source_patterns (ps : list (RegExp * (MatchResult -> M unit)))
         (sourceSegment : jsstring) : M bool :=
  match ps with
  | [] => ret false
  | (re, extract) :: ps' =>
    match exec re sourceSegment with
    | Some m => extract m ;; ret true
    | None => try_source_patterns ps' sourceSegment
    end
  end.

(** *** parseRemainingElements *)

(** [remaining = remaining.replace(m[0], '').trim()] *)
Definition consume (remaining : jsstring) (m : MatchResult) : jsstring :=
  trim (replace_str remaining (m_whole m) []).

(** 1. DOI, as a resolver URL or with the [doi:] prefix. *)
Definition extractDOI (remaining : jsstring) : M jsstring :=
  match exec (regexp "https?:\/\/(?:dx\.)?doi\.org\/([\w./-]+)" "i") remaining with
  | Some doiUrlMatch =>
    modify (set_doi (group doiUrlMatch 1)) ;;
    modify (set_url (group doiUrlMatch 0)) ;;
    ret (consume remaining doiUrlMatch)
  | None =>
    match exec (regexp "doi:\s*(10\.\S+)" "i") remaining with
    | Some doiPrefixMatch =>
      d <- must (group doiPrefixMatch 1) ;;
      modify (set_doi (Some (replace d (regexp "\.$" "") []))) ;;
      ret (consume remaining doiPrefixMatch)
    | None => ret remaining
    end
  end.

(** A bare URL, when no DOI was found. *)
Definition extractURL (remaining : jsstring) : M jsstring :=
  d <- gets doi ;;
  if negb (truthy d) then
    match exec (regexp "(https?:\/\/[^\s]+)" "i") remaining with
    | Some urlMatch =>
      modify (set_url (group urlMatch 1)) ;;
      ret (consume remaining urlMatch)
    | None => ret remaining
    end
  else ret remaining.

Definition editionRegex : RegExp := regexp "\((\d+)(?:st|nd|rd|th)\s+ed\.\)" "i".

(** The edition "(Nth ed.)", taken out before the segments are split. *)
Definition extractEdition (remaining : jsstring) : M jsstring :=
  match exec editionRegex remaining with
  | Some editionPreMatch =>
    modify (set_edition (group editionPreMatch 1)) ;;
    ret (consume remaining editionPreMatch)
  | None => ret remaining
  end.

(** 2. The bracketed descriptor, which detects conferences and dissertations. *)
Definition extractBracket (remaining : jsstring) : M jsstring :=
  match exec (regexp "\[(.+?)\]" "") remaining with
  | Some bracketMatch =>
    modify (set_bracketType (group bracketMatch 1)) ;;
    let remaining' := consume remaining bracketMatch in
    b <- must (group bracketMatch 1) ;;
    let bracketLower := toLowerCase b in
    when (test (regexp "paper presentation|poster session|symposium|conference session" "")
               bracketLower)
    then modify (set_type conference) ;;
    when (test (regexp "doctoral dissertation|master'?s thesis" "") bracketLower)
    then (modify (set_type dissertation) ;;
          match exec (regexp ",\s*(.+)$" "") b with
          | Some instMatch =>
            i <- must (group instMatch 1) ;;
            modify (set_institution (Some (trim i)))
          | None => ret tt
          end) ;;
    ret remaining'
  | None => ret remaining
  end.

(** 3. "(Report No. X)" *)
Definition extractReportNo (remaining : jsstring) : M jsstring :=
  match exec (regexp "\(Report No\.\s*([^)]+)\)" "i") remaining with
  | Some reportNoMatch =>
    n <- must (group reportNoMatch 1) ;;
    modify (set_reportNumber (Some (trim n))) ;;
    let remaining' := consume remaining reportNoMatch in
    t <- gets type ;;
    when (type_eqb t unknown) then modify (set_type report) ;;
    ret remaining'
  | None => ret remaining
  end.

(** [s.replace(/^\.\s*/, '').replace(/\.\s*$/, '').trim()] *)
Definition strip_periods (s : jsstring) : jsstring :=
  trim (replace (replace s (regexp "^\.\s*" "") []) (regexp "\.\s*$" "") []).

(** Book detection, once no source pattern matched; [true] when the
    source was taken as a book and the caller returns. *)
Definition detectBook (sourceSegment : jsstring) : M bool :=
  let editionMatch := exec editionRegex sourceSegment in
  match editionMatch with
   | Some m => modify (set_edition (group m 1))
   | None => ret tt
   end ;;
  ed <- gets edition ;;
  let hasEdition := (match editionMatch with Some _ => true | None => false end) || truthy ed in
  let hasBookKeyword := test (regexp "Press|Publisher|Books" "") sourceSegment in
  if hasEdition || hasBookKeyword then
    bookSource <-
      match editionMatch with
      | Some _ =>
        match exec (regexp "^(.+?)\s*\(\d+(?:st|nd|rd|th)\s+ed\.\)\.\s*(.+?)\.?\s*$" "i")
                   sourceSegment with
        | Some edFullMatch =>
          m1 <- must (group edFullMatch 1) ;;
          m2 <- must (group edFullMatch 2) ;;
          modify (set_publisher (Some (replace (trim m2) (regexp "\.$" "") []))) ;;
          ret (trim m1)
        | None => ret sourceSegment
        end
      | None =>
        if truthy ed then
          match exec (regexp "^(.+?)\.?\s*$" "") sourceSegment with
          | Some pubMatch =>
            m1 <- must (group pubMatch 1) ;;
            modify (set_publisher (Some (replace (trim m1) (regexp "\.$" "") []))) ;;
            gets title
          | None => ret sourceSegment
          end
        else
          match exec (regexp "^(.+?)\.\s*(.+?)\.?\s*$" "") sourceSegment with
          | Some bookMatch =>
            m1 <- must (group bookMatch 1) ;;
            m2 <- must (group bookMatch 2) ;;
            modify (set_publisher (Some (replace (trim m2) (regexp "\.$" "") []))) ;;
            ret (trim m1)
          | None => ret sourceSegment
          end
      end ;;
    modify (set_source bookSource) ;;
    modify (set_type book) ;;
    ret true
  else ret false.

(** The block under [if (segments.length > 1)]; the result tells whether
    the function returned from inside it. *)
Definition parseSource (segments : list jsstring) : M bool :=
  let sourceSegment := trim (join (js ". ") (skipn 1 segments)) in
  t <- gets type ;;
  match t with
  | conference =>
    let confName := strip_periods sourceSegment in
    when (nonempty confName) then modify (set_conferenceName (Some confName)) ;;
    ret true
  | dissertation =>
    let dbName := strip_periods sourceSegment in
    when (nonempty dbName) then modify (set_databaseName (Some dbName)) ;;
    ret true
  | report =>
    let cleanSource := trim (replace sourceSegment (regexp "\.\s*$" "") []) in
    when (nonempty cleanSource)
    then (modify (set_publisher (Some cleanSource)) ;; modify (set_source cleanSource)) ;;
    ret true
  | _ =>
    matched <- try_source_patterns SOURCE_PATTERNS sourceSegment ;;
    if matched then ret true
    else
      isBook <- detectBook sourceSegment ;;
      if isBook then ret true
      else
        modify (set_source (trim sourceSegment)) ;;
        c <- gets (fun c => c) ;;
        (if truthy (volume c) || truthy (issue c) then modify (set_type journal)
         else when (truthy (url c) && negb (truthy (doi c))) then modify (set_type web)) ;;
        ret false
  end.

Definition parseRemainingElements (afterYear : jsstring) : M unit :=
  let remaining := trim (replace afterYear (regexp "^\.\s*" "") []) in
  remaining <- extractDOI remaining ;;
  remaining <- extractURL remaining ;;
  remaining <- extractEdition remaining ;;
  remaining <- extractBracket remaining ;;
  remaining <- extractReportNo remaining ;;
  (* 4. Split by periods to get segments *)
  let segments := splitByPeriods remaining in
  when (0 <? length segments) then modify (set_title (trim (hd [] segments))) ;;
  returned <- (if 1 <? length segments then parseSource segments else ret false) ;;
  if returned then ret tt
  else
    (* Final fallback: a URL, no DOI, still unknown *)
    c <- gets (fun c => c) ;;
    when (type_eqb (type c) unknown && truthy (url c) && negb (truthy (doi c)))
    then modify (set_type web).

(** *** parseCitation *)

Definition yearRegex : RegExp :=
  regexp "\((n\.d\.|in press|\d{4}[a-z]?(?:,\s*(?:[A-Z][a-z]+(?:\s+\d{1,2}(?:[–-]\d{1,2})?)?))?)\)" "".

Definition emptyCitation (raw : jsstring) : ParsedCitation :=
  {| raw := raw; authors := []; year := []; title := []; source := [];
     volume := None; issue := None; pages := None; doi := None; url := None;
     publisher := None; editors := None; edition := None; type := unknown;
     fullDate := None; yearSuffix := None; reportNumber := None;
     bracketType := None; conferenceName := None; institution := None;
     databaseName := None; citationIsGroupAuthor := None |}.

(** The year fields read off the text between the parentheses. *)
Definition parseYear (fullDateStr : jsstring) : M unit :=
  if str_eqb fullDateStr (js "n.d.") || str_eqb fullDateStr (js "in press") then
    modify (set_year fullDateStr)
  else
    match exec (regexp "^(\d{4})" "") fullDateStr with
     | Some baseYear => modify (set_year (defined (group baseYear 1)))
     | None => ret tt
     end ;;
    match exec (regexp "^\d{4}([a-z])" "") fullDateStr with
     | Some suffixMatch => modify (set_yearSuffix (group suffixMatch 1))
     | None => ret tt
     end ;;
    when (includes fullDateStr (js ",")) then modify (set_fullDate (Some fullDateStr)).

(** The body of the [try] block. *)
Definition parseCitation_body (raw : jsstring) : M unit :=
  match exec yearRegex raw with
  | Some yearMatch =>
    fullDateStr <- must (group yearMatch 1) ;;
    parseYear fullDateStr ;;
    (* Split text into before and after year *)
    let beforeYear :=
      match indexOf raw (m_whole yearMatch) with
      | Some yearIndex => trim (substring raw 0 yearIndex)
      | None => []
      end in
    let afterYear :=
      match indexOf raw (m_whole yearMatch) with
      | Some yearIndex => trim (substring_from raw (yearIndex + length (m_whole yearMatch)))
      | None => trim (substring_from raw (length (m_whole yearMatch) - 1))
      end in
    a <- lift (parseAuthors beforeYear) ;;
    modify (set_authors a) ;;
    when (existsb is_group a) then modify (set_citationIsGroupAuthor (Some true)) ;;
    parseRemainingElements afterYear
  | None =>
    (* No year found - try to extract what we can *)
    modify (set_title raw)
  end.

(** The guarded computation: its outcome and the citation it leaves. *)
Definition parseCitation_run (text : jsstring) : outcome unit * ParsedCitation :=
  let raw := trim text in
  try_catch (parseCitation_body raw)
            (modify (set_title raw)) (* Fallback *)
            (emptyCitation raw).

Definition parseCitation (text : jsstring) : ParsedCitation :=
  snd (parseCitation_run text).

(** [parseCitations]: blocks separated by blank lines. *)
Definition parseCitations (text : jsstring) : list ParsedCitation :=
  map parseCitation
      (filter (fun t => 0 <? length t)
              (map trim (split text (regexp "\n\s*\n" "")))).

Close Scope parser_scope.


(* ================================================================== *)
(** ** Rule engine ([lib/validator/rules.ts])                           *)
(* ================================================================== *)

Definition violation := ValidationError.Build_t.

Definition is_some {A} (o : option A) : bool :=
  match o with Some _ => true | None => false end.

(** [word.charAt(0).toUpperCase() + word.slice(1).toLowerCase()] *)
Definition capitalize (word : jsstring) : jsstring :=
  toUpperCase (charAt0 word) ++ toLowerCase (skipn 1 word).

Definition acronymRegex : RegExp := regexp "^[A-Z]{2,5}$" "".

(** Helper: convert a title to sentence case. *)
Definition toSentenceCase (title : jsstring) : jsstring :=
  let parts := split title (regexp "([:.]\s)" "") in
  join []
    (map (fun part =>
            if test (regexp "^[:.]\s$" "") part then part
            else
              match split part (regexp "\s+" "") with
              | [] => []
              | w0 :: ws =>
                join (js " ")
                     (capitalize w0
                      :: map (fun word => if test acronymRegex word then word
                                          else toLowerCase word) ws)
              end)
         parts).

(** Helper: does the title look like Title Case?  The product
    [words.length * 0.6] is compared as a rational: it is exact whenever
    it is an integer, and otherwise at least 0.2 away from one. *)
Definition isLikelyTitleCase (title : jsstring) : bool :=
  let words := filter (fun w => 3 <? length w) (split title (regexp "\s+" "")) in
  let capitalizedWords := filter (test (regexp "^[A-Z]" "")) words in
  (3 <=? length capitalizedWords)
  && Qle_bool (inject_Z (Z.of_nat (length words)) * 0.6)%Q
              (inject_Z (Z.of_nat (length capitalizedWords))).

(** The double quote. *)
Definition dq : jsstring := [34%N].

(** [JSON.stringify] of a string and of an author object. *)
Definition hex_digit (n : N) : char := if (n <? 10)%N then (48 + n)%N else (87 + n)%N.

Definition json_u (c : char) : jsstring :=
  js "\u" ++ [hex_digit (c / 4096); hex_digit ((c / 256) mod 16);
              hex_digit ((c / 16) mod 16); hex_digit (c mod 16)]%N.

Fixpoint json_chars (s : jsstring) : jsstring :=
  match s with
  | [] => []
  | c :: t =>
    if (c =? 34)%N then js "\" ++ dq ++ json_chars t
    else if is_ch c "\" then js "\\" ++ json_chars t
    else if (c =? 8)%N then js "\b" ++ json_chars t
    else if (c =? 12)%N then js "\f" ++ json_chars t
    else if (c =? 10)%N then js "\n" ++ json_chars t
    else if (c =? 13)%N then js "\r" ++ json_chars t
    else if (c =? 9)%N then js "\t" ++ json_chars t
    else if (c <? 32)%N then json_u c ++ json_chars t
    else if is_high_surrogate c then
      match t with
      | d :: t' => if is_low_surrogate d then c :: d :: json_chars t'
                   else json_u c ++ json_chars t
      | [] => json_u c
      end
    else if is_low_surrogate c then json_u c ++ json_chars t
    else c :: json_chars t
  end.

Definition json_string (s : jsstring) : jsstring := dq ++ json_chars s ++ dq.

Definition json_author (a : Author) : jsstring :=
  js "{" ++ json_string (js "lastName") ++ js ":" ++ json_string (lastName a)
  ++ js "," ++ json_string (js "initials") ++ js ":" ++ json_string (initials a)
  ++ match isGroupAuthor a with
     | Some b => js "," ++ json_string (js "isGroupAuthor") ++ js ":"
                 ++ (if b then js "true" else js "false")
     | None => []
     end
  ++ js "}".

(** *** checkAuthorFormat *)

Definition initialsPattern : RegExp := regexp "^([A-Z]\.\s)*[A-Z]\.$" "".

Definition suggestInitials (initials : jsstring) : jsstring :=
  join (js " ")
    (map (fun i => if endsWith i (js ".") then i else i ++ js ".")
         (split_char (ch " ")
            (trim (replace (replace initials (regexp "\." "g") (js ". "))
                           (regexp "\s+" "g") (js " ")))
            [])).

Definition blank (s : jsstring) : bool := negb (nonempty s) || str_eqb (trim s) [].

Definition checkAuthor (index : nat) (author : Author) : list ValidationError.t :=
  let n := nat_to_string (index + 1) in
  if is_group author then
    (* Group authors only need a name, no initials *)
    if blank (lastName author) then
      [violation (js "authorFormat") (js "authors")
                 (js "Author " ++ n ++ js " missing organization name")
                 Error (json_author author) None false]
    else []
  else
    (if negb (nonempty (initials author)) then
       [violation (js "authorFormat") (js "authors")
                  (js "Author " ++ n ++ js " (" ++ lastName author ++ js ") missing initials")
                  Error (lastName author) None false]
     else if negb (test initialsPattern (initials author)) then
       [violation (js "authorFormat") (js "authors")
                  (js "Author " ++ n ++ js " initials should be formatted as " ++ dq
                   ++ js "F. M." ++ dq ++ js " (with spaces and periods)")
                  Error (initials author) (Some (suggestInitials (initials author))) true]
     else [])
    ++
    (if blank (lastName author) then
       [violation (js "authorFormat") (js "authors")
                  (js "Author " ++ n ++ js " missing last name")
                  Error (json_author author) None false]
     else []).

Fixpoint forEach_author (index : nat) (l : list Author) : list ValidationError.t :=
  match l with
  | [] => []
  | a :: t => checkAuthor index a ++ forEach_author (S index) t
  end.

Definition checkAuthorFormat (citation : ParsedCitation) : list ValidationError.t :=
  forEach_author 0 (authors citation).

(** *** checkYearFormat *)

Definition checkYearFormat (citation : ParsedCitation) : list ValidationError.t :=
  if negb (nonempty (year citation)) then
    [violation (js "yearFormat") (js "year") (js "Year is missing") Error [] None false]
  else if negb (test (regexp "^\d{4}$|^n\.d\.$|^in press$" "") (year citation)) then
    let suggested :=
      match exec (regexp "\d{4}" "") (year citation) with
      | Some yearMatch => m_whole yearMatch
      | None => []
      end in
    [violation (js "yearFormat") (js "year")
               (js "Year should be 4-digit format (YYYY), " ++ dq ++ js "n.d." ++ dq
                ++ js ", or " ++ dq ++ js "in press" ++ dq)
               Error (year citation) (Some suggested) (nonempty suggested)]
  else [].

(** *** checkTitleCase *)

Definition checkTitleCase (citation : ParsedCitation) : list ValidationError.t :=
  if negb (nonempty (title citation)) then
    [violation (js "titleCase") (js "title") (js "Title is missing") Error [] None false]
  else if isLikelyTitleCase (title citation) then
    [violation (js "titleCase") (js "title")
               (js "Title should use sentence case (only first word and proper nouns capitalized)")
               Warning (title citation) (Some (toSentenceCase (title citation))) true]
  else [].

(** *** checkDOIPresence *)

Definition checkDOIPresence (citation : ParsedCitation) : list ValidationError.t :=
  if type_eqb (type citation) journal && negb (truthy (doi citation)) then
    [violation (js "doiPresence") (js "doi")
               (js "DOI should be included when available for journal articles")
               Warning [] None false]
  else [].

(** *** checkDOIFormat *)

Definition checkDOIFormat (citation : ParsedCitation) : list ValidationError.t :=
  if negb (truthy (doi citation)) then []
  else
    let doi := trim (defined (doi citation)) in
    (* Check for trailing period *)
    (if endsWith doi (js ".") then
       [violation (js "doiFormat") (js "doi") (js "DOI should not end with a period")
                  Error doi (Some (slice_drop_last doi)) true]
     else [])
    ++
    (* Check for old format (doi:10.xxx) *)
    (if startsWith doi (js "doi:") then
       let doiNumber := replace doi (regexp "^doi:\s*" "") [] in
       [violation (js "doiFormat") (js "doi") (js "DOI should use format https://doi.org/...")
                  Error doi (Some (js "https://doi.org/" ++ doiNumber)) true]
     else if negb (startsWith doi (js "https://doi.org/")) then
       (* Check if it's just the DOI number *)
       if test (regexp "^10\.\d+\/" "") doi then
         [violation (js "doiFormat") (js "doi")
                    (js "DOI should include full URL https://doi.org/...")
                    Error doi (Some (js "https://doi.org/" ++ doi)) true]
       else
         [violation (js "doiFormat") (js "doi") (js "DOI should start with https://doi.org/")
                    Error doi None false]
     else []).

(** *** checkVolumeIssueFormat *)

Definition checkVolumeIssueFormat (citation : ParsedCitation) : list ValidationError.t :=
  (if truthy (volume citation) then
     let volume := defined (volume citation) in
     (if includes (toLowerCase volume) (js "vol") then
        [violation (js "volumeFormat") (js "volume")
                   (js "Volume should not include " ++ dq ++ js "Vol." ++ dq ++ js " prefix")
                   Error volume (Some (replace volume (regexp "vol\.?\s*" "i") [])) true]
      else [])
     ++
     (let cleanVolume := replace volume (regexp "vol\.?\s*" "i") [] in
      if negb (test (regexp "^\d+$" "") cleanVolume) then
        [violation (js "volumeFormat") (js "volume") (js "Volume should be a number")
                   Warning volume None false]
      else [])
   else [])
  ++
  (if truthy (issue citation) then
     let issue := defined (issue citation) in
     if includes (toLowerCase issue) (js "no") then
       [violation (js "issueFormat") (js "issue")
                  (js "Issue should not include " ++ dq ++ js "No." ++ dq ++ js " prefix")
                  Error issue (Some (replace issue (regexp "no\.?\s*" "i") [])) true]
     else []
   else []).

(** *** checkPageFormat *)

Definition checkPageFormat (citation : ParsedCitation) : list ValidationError.t :=
  if negb (truthy (pages citation)) then []
  else
    let pages := trim (defined (pages citation)) in
    (* "pp." prefix, not allowed for journal articles *)
    (if type_eqb (type citation) journal && startsWith (toLowerCase pages) (js "pp") then
       [violation (js "pageFormat") (js "pages")
                  (js "Page numbers should not include " ++ dq ++ js "pp." ++ dq
                   ++ js " prefix for journal articles")
                  Error pages (Some (replace pages (regexp "pp\.?\s*" "i") [])) true]
     else [])
    ++
    (* hyphen instead of en dash *)
    (let cleanPages := replace pages (regexp "pp\.?\s*" "i") [] in
     if includes cleanPages (js "-") && negb (includes cleanPages (js "–")) then
       [violation (js "pageFormat") (js "pages")
                  (js "Page range should use en dash (–) not hyphen (-)")
                  Warning pages (Some (replace cleanPages (regexp "-" "g") (js "–"))) true]
     else []).

(** *** checkAmpersand *)

Definition checkAmpersand (citation : ParsedCitation) : list ValidationError.t :=
  let n := length (authors citation) in
  if n <? 2 then []
  else
    (if (2 <=? n) && (n <=? 20) then
       let authorBlock :=
         match exec (regexp "\(\d{4}" "") (raw citation) with
         | Some yearMatch =>
           match indexOf (raw citation) (m_whole yearMatch) with
           | Some i => substring (raw citation) 0 i
           | None => []
           end
         | None => []
         end in
       if nonempty authorBlock && includes authorBlock (js " and ") then
         [violation (js "ampersand") (js "authors")
                    (js "Use ampersand (&) not " ++ dq ++ js "and" ++ dq
                     ++ js " before last author in reference list")
                    Error (trim authorBlock) None true]
       else []
     else [])
    ++
    (if 20 <? n then
       [violation (js "ampersand") (js "authors")
                  (js "For 21+ authors, use first 19 authors, ellipsis (...), then last author")
                  Info (nat_to_string n ++ js " authors listed") None true]
     else []).

(** *** Title Case helpers *)

(** Minor words that are not capitalized in Title Case. *)
Definition MINOR_WORDS : list jsstring :=
  map js [ "a"; "an"; "the";
           "and"; "but"; "or"; "nor"; "for"; "yet"; "so";
           "of"; "in"; "on"; "at"; "to"; "by"; "up"; "as"; "if"; "is";
           "it"; "its"; "vs"; "via"; "per"; "with"; "from" ]%string.

Definition MINOR_WORDS_has (w : jsstring) : bool := existsb (str_eqb w) MINOR_WORDS.

Fixpoint toTitleCase_words (index len : nat) (words : list jsstring) : list jsstring :=
  match words with
  | [] => []
  | word :: t =>
    (if (index =? 0) || (index =? len - 1) then capitalize word
     else if test acronymRegex word then word
     else if MINOR_WORDS_has (toLowerCase word) then toLowerCase word
     else capitalize word)
    :: toTitleCase_words (S index) len t
  end.

Definition toTitleCase (text : jsstring) : jsstring :=
  let words := split text (regexp "\s+" "") in
  join (js " ") (toTitleCase_words 0 (length words) words).

Fixpoint count_major_lowercase (i len : nat) (words : list jsstring) : nat :=
  match words with
  | [] => 0
  | word :: t =>
    if (0 <? i) && (i <? len - 1) && MINOR_WORDS_has (toLowerCase word)
    then count_major_lowercase (S i) len t
    else (if test (regexp "^[a-z]" "") word then 1 else 0)
         + count_major_lowercase (S i) len t
  end.

Definition isJournalNameNotTitleCase (source : jsstring) : bool :=
  let words := filter (fun w => 0 <? length w) (split source (regexp "\s+" "")) in
  if length words <? 2 then false
  else 2 <=? count_major_lowercase 0 (length words) words.

(** *** checkJournalNameCase, checkConferenceNameCase, checkChapterEditors *)

Definition checkJournalNameCase (citation : ParsedCitation) : list ValidationError.t :=
  if negb (type_eqb (type citation) journal) || negb (nonempty (source citation)) then []
  else if isJournalNameNotTitleCase (source citation) then
    [violation (js "journalNameCase") (js "source")
               (js "Journal name should use Title Case (capitalize major words)")
               Warning (source citation) (Some (toTitleCase (source citation))) true]
  else [].

Definition checkConferenceNameCase (citation : ParsedCitation) : list ValidationError.t :=
  if negb (type_eqb (type citation) chapter) || negb (nonempty (source citation)) then []
  else
    let conferenceName :=
      if startsWith (source citation) (js "In ") then substring_from (source citation) 3
      else source citation in
    if isJournalNameNotTitleCase conferenceName then
      [violation (js "conferenceNameCase") (js "source")
                 (js "Conference/proceedings name should use Title Case (proper noun)")
                 Warning (source citation) (Some (js "In " ++ toTitleCase conferenceName)) true]
    else [].

Definition no_editors (citation : ParsedCitation) : bool :=
  match editors citation with
  | Some l => length l =? 0
  | None => true
  end.

Definition checkChapterEditors (citation : ParsedCitation) : list ValidationError.t :=
  if negb (type_eqb (type citation) chapter) then []
  else if no_editors citation then
    [violation (js "chapterEditors") (js "editors")
               (js "Book chapter should include editor(s): In F. M. Editor (Ed.), Book title")
               Warning [] None false]
  else [].

(** *** The rules of sections 10.1-10.6 *)

Definition checkTerminalPeriod (citation : ParsedCitation) : list ValidationError.t :=
  let raw := trim (raw citation) in
  if negb (nonempty raw) then []
  else if test (regexp "https?:\/\/[^\s]+$" "") raw || test (regexp "doi\.org\/[^\s]+$" "") raw
  then []
  else if negb (endsWith raw (js ".")) then
    [violation (js "terminalPeriod") (js "raw") (js "Citation should end with a period")
               Warning (slice_last 20 raw) (Some (raw ++ js ".")) true]
  else [].

Definition checkFullDateRequired (citation : ParsedCitation) : list ValidationError.t :=
  if negb (type_eqb (type citation) conference) then []
  else if negb (truthy (fullDate citation)) then
    [violation (js "fullDateRequired") (js "year")
               (js "Conference presentations should include the full date (year, month day–day)")
               Warning (year citation) None false]
  else [].

Definition checkPublisherRequired (citation : ParsedCitation) : list ValidationError.t :=
  if negb (existsb (type_eqb (type citation)) [book; chapter; report]) then []
  else if negb (truthy (publisher citation)) && negb (nonempty (source citation)) then
    [violation (js "publisherRequired") (js "publisher")
               ((if type_eqb (type citation) chapter then js "Book chapter"
                 else if type_eqb (type citation) report then js "Report"
                 else js "Book") ++ js " should include a publisher")
               Error [] None false]
  else [].

Definition checkEditionFormat (citation : ParsedCitation) : list ValidationError.t :=
  if negb (truthy (edition citation)) then []
  else if negb (test (regexp "^\d+$" "") (defined (edition citation))) then
    [violation (js "editionFormat") (js "edition")
               (js "Edition should be a number (e.g., " ++ dq ++ js "2" ++ dq
                ++ js " for 2nd edition)")
               Error (defined (edition citation)) None false]
  else [].

Definition checkPublisherLocation (citation : ParsedCitation) : list ValidationError.t :=
  let pub := or_else (publisher citation) (source citation) in
  match exec (regexp "^([A-Z][a-zA-Z\s]+,\s*[A-Z]{2}:\s*)" "") pub with
  | Some locationMatch =>
    [violation (js "publisherLocation") (js "publisher")
               (js "APA 7th edition no longer includes publisher location. Remove "
                ++ dq ++ js "City, ST:" ++ dq ++ js " prefix.")
               Warning pub
               (Some (trim (replace_str pub (defined (group locationMatch 1)) [])))
               true]
  | None => []
  end.

Definition checkInPrefix (citation : ParsedCitation) : list ValidationError.t :=
  if negb (type_eqb (type citation) chapter) || negb (nonempty (source citation)) then []
  else if negb (startsWith (source citation) (js "In ")) then
    [violation (js "inPrefix") (js "source")
               (js "Book chapter source should begin with " ++ dq ++ js "In " ++ dq
                ++ js " (e.g., In F. Editor (Ed.), Book title)")
               Error (source citation) (Some (js "In " ++ source citation)) true]
  else [].

Definition checkBracketType (citation : ParsedCitation) : list ValidationError.t :=
  if negb (existsb (type_eqb (type citation)) [conference; dissertation]) then []
  else if negb (truthy (bracketType citation)) then
    let expected :=
      if type_eqb (type citation) conference then js "[Paper presentation]"
      else js "[Doctoral dissertation, Institution Name]" in
    [violation (js "bracketType") (js "bracketType")
               ((if type_eqb (type citation) conference then js "Conference presentation"
                 else js "Dissertation")
                ++ js " should include type descriptor in brackets (e.g., " ++ expected
                ++ js ")")
               Error [] None false]
  else [].

Definition checkConferenceInfo (citation : ParsedCitation) : list ValidationError.t :=
  if negb (type_eqb (type citation) conference) then []
  else if negb (truthy (conferenceName citation)) then
    [violation (js "conferenceInfo") (js "conferenceName")
               (js "Conference presentation should include conference name and location")
               Error [] None false]
  else [].

Definition checkDissertationInfo (citation : ParsedCitation) : list ValidationError.t :=
  if negb (type_eqb (type citation) dissertation) then []
  else if negb (truthy (institution citation)) then
    [violation (js "dissertationInfo") (js "institution")
               (js "Dissertation should include institution name in brackets (e.g., [Doctoral dissertation, University Name])")
               Error [] None false]
  else [].

Definition checkReportNumber (citation : ParsedCitation) : list ValidationError.t :=
  if negb (type_eqb (type citation) report) then []
  else if negb (truthy (reportNumber citation)) then
    [violation (js "reportNumber") (js "reportNumber")
               (js "Report should include a report number if available (e.g., Report No. 2024-01)")
               Info [] None false]
  else [].

(** *** Routing *)

Definition ValidationRule := ParsedCitation -> list ValidationError.t.

Inductive AppliesTo :=
| all
| only (types : list CitationType).

Record RoutedRule := {
  rule : ValidationRule;
  appliesTo : AppliesTo
}.

Definition ROUTED_RULES : list RoutedRule :=
  [ (* Universal rules *)
    {| rule := checkAuthorFormat; appliesTo := all |};
    {| rule := checkYearFormat; appliesTo := all |};
    {| rule := checkTitleCase; appliesTo := all |};
    {| rule := checkDOIFormat; appliesTo := all |};
    {| rule := checkAmpersand; appliesTo := all |};
    {| rule := checkTerminalPeriod; appliesTo := all |};
    (* Journal-specific *)
    {| rule := checkDOIPresence; appliesTo := only [journal] |};
    {| rule := checkVolumeIssueFormat; appliesTo := only [journal] |};
    {| rule := checkJournalNameCase; appliesTo := only [journal] |};
    (* Journal + Chapter *)
    {| rule := checkPageFormat; appliesTo := only [journal; chapter] |};
    (* Chapter-specific *)
    {| rule := checkConferenceNameCase; appliesTo := only [chapter] |};
    {| rule := checkChapterEditors; appliesTo := only [chapter] |};
    {| rule := checkInPrefix; appliesTo := only [chapter] |};
    (* Book/Chapter/Report *)
    {| rule := checkPublisherRequired; appliesTo := only [book; chapter; report] |};
    {| rule := checkEditionFormat; appliesTo := only [book; chapter] |};
    {| rule := checkPublisherLocation; appliesTo := only [book; chapter] |};
    (* Conference-specific *)
    {| rule := checkFullDateRequired; appliesTo := only [conference] |};
    {| rule := checkConferenceInfo; appliesTo := only [conference] |};
    (* Conference + Dissertation *)
    {| rule := checkBracketType; appliesTo := only [conference; dissertation] |};
    (* Dissertation-specific *)
    {| rule := checkDissertationInfo; appliesTo := only [dissertation] |};
    (* Report-specific *)
    {| rule := checkReportNumber; appliesTo := only [report] |} ].

Definition getRulesForType (t : CitationType) : list ValidationRule :=
  map rule
      (filter (fun r => match appliesTo r with
                        | all => true
                        | only types => existsb (type_eqb t) types
                        end)
              ROUTED_RULES).

Definition ALL_RULES : list ValidationRule := map rule ROUTED_RULES.

(** The loop [for (const rule of ALL_RULES) errors.push(...rule(citation))]. *)
Definition runRules (rules : list ValidationRule) (citation : ParsedCitation)
  : list ValidationError.t :=
  flat_map (fun r => r citation) rules.

(* ================================================================== *)
(** ** Fixer and reconstructor ([lib/validator/auto-fix.ts])            *)
(* ================================================================== *)

(** [parseInt(s, 10)] and [parseInt(s)]: leading white space, an optional
    sign, then the longest run of digits (hexadecimal after [0x] when no
    radix is given); [None] is NaN.  Numbers are exact integers. *)
Fixpoint digits_value (radix : Z) (s : jsstring) (acc : option Z) : option Z :=
  match s with
  | c :: t =>
    match hex_val c with
    | Some d =>
      if (Z.of_N d <? radix)%Z then
        digits_value radix t
          (Some (match acc with Some a => a * radix + Z.of_N d | None => Z.of_N d end)%Z)
      else acc
    | None => acc
    end
  | [] => acc
  end.

Definition parseInt (radix10 : bool) (s : jsstring) : option Z :=
  let s := trimStart s in
  let (neg, s) :=
    match s with
    | c :: t => if is_ch c "-" then (true, t) else if is_ch c "+" then (false, t) else (false, s)
    | [] => (false, s)
    end in
  let v :=
    match s with
    | z :: x :: t =>
      if negb radix10 && is_ch z "0" && (is_ch x "x" || is_ch x "X")
      then digits_value 16 t None
      else digits_value 10 s None
    | _ => digits_value 10 s None
    end in
  option_map (fun n => if neg then (- n)%Z else n) v.

(** Convert a number string to ordinal format (1 -> 1st, 2 -> 2nd, ...). *)
Definition suffixes : list jsstring := map js ["th"; "st"; "nd"; "rd"]%string.

Definition suffix_at (i : Z) : option jsstring :=
  if (i <? 0)%Z then None else nth_error suffixes (Z.to_nat i).

Definition toOrdinal (n : jsstring) : jsstring :=
  match parseInt true n with
  | None => n
  | Some num =>
    let mod100 := Z.rem num 100 in
    let suffix :=
      if truthy (suffix_at (Z.rem (mod100 - 20) 10)) then defined (suffix_at (Z.rem (mod100 - 20) 10))
      else if truthy (suffix_at mod100) then defined (suffix_at mod100)
      else defined (suffix_at 0) in
    Z_to_string num ++ suffix
  end.

Fixpoint assoc {A} (k : jsstring) (l : list (jsstring * A)) : option A :=
  match l with
  | [] => None
  | (k', v) :: t => if str_eqb k k' then Some v else assoc k t
  end.

(** The tables of the fixer are object literals, and an object literal
    also answers to the member names it inherits from [Object.prototype].
    The lookups [assoc _ FIELD_MAP], [assoc _ FIX_DESCRIPTIONS] and
    [assoc _ MANUAL_FIX_HINTS] are those of the program on every key but
    these. *)
Definition OBJECT_PROTOTYPE_KEYS : list jsstring :=
  [ js "constructor"; js "__defineGetter__"; js "__defineSetter__"; js "hasOwnProperty";
    js "__lookupGetter__"; js "__lookupSetter__"; js "isPrototypeOf";
    js "propertyIsEnumerable"; js "toString"; js "valueOf"; js "__proto__";
    js "toLocaleString" ].

Definition inheritedKey (k : jsstring) : bool := existsb (str_eqb k) OBJECT_PROTOTYPE_KEYS.

(** The violations whose rule is a key of the tables' own, or of none. *)
Definition ownRules (errors : list ValidationError.t) : Prop :=
  Forall (fun e => inheritedKey (ValidationError.rule e) = false) errors.

(** Rule -> citation field mapping for data-driven auto-fixes. *)
Definition FIELD_MAP : list (jsstring * jsstring) :=
  [ (js "yearFormat", js "year");
    (js "titleCase", js "title");
    (js "doiFormat", js "doi");
    (js "volumeFormat", js "volume");
    (js "issueFormat", js "issue");
    (js "pageFormat", js "pages");
    (js "journalNameCase", js "source");
    (js "conferenceNameCase", js "source");
    (js "publisherLocation", js "publisher");
    (js "inPrefix", js "source");
    (js "terminalPeriod", js "raw") ].

(** [citation[field]] and [citation[field] = v] for the fields of the map. *)
Definition get_field (f : jsstring) (c : ParsedCitation) : option jsstring :=
  if str_eqb f (js "year") then Some (year c)
  else if str_eqb f (js "title") then Some (title c)
  else if str_eqb f (js "doi") then doi c
  else if str_eqb f (js "volume") then volume c
  else if str_eqb f (js "issue") then issue c
  else if str_eqb f (js "pages") then pages c
  else if str_eqb f (js "source") then Some (source c)
  else if str_eqb f (js "publisher") then publisher c
  else if str_eqb f (js "raw") then Some (raw c)
  else None.

Definition set_field (f : jsstring) (v : jsstring) (c : ParsedCitation) : ParsedCitation :=
  if str_eqb f (js "year") then set_year v c
  else if str_eqb f (js "title") then set_title v c
  else if str_eqb f (js "doi") then set_doi (Some v) c
  else if str_eqb f (js "volume") then set_volume (Some v) c
  else if str_eqb f (js "issue") then set_issue (Some v) c
  else if str_eqb f (js "pages") then set_pages (Some v) c
  else if str_eqb f (js "source") then set_source v c
  else if str_eqb f (js "publisher") then set_publisher (Some v) c
  else if str_eqb f (js "raw") then set_raw v c
  else c.

(** Auto-fix description generators per rule. *)
Definition FIX_DESCRIPTIONS : list (jsstring * (ValidationError.t -> jsstring)) :=
  [ (js "yearFormat", fun e =>
       js "Corrected year format to " ++ dq ++ defined (ValidationError.suggested e) ++ dq);
    (js "titleCase", fun _ => js "Converted title to sentence case (verify proper nouns)");
    (js "doiFormat", fun e =>
       js "Corrected DOI format to " ++ dq ++ defined (ValidationError.suggested e) ++ dq);
    (js "volumeFormat", fun _ => js "Removed " ++ dq ++ js "Vol." ++ dq ++ js " prefix from volume");
    (js "issueFormat", fun _ => js "Removed " ++ dq ++ js "No." ++ dq ++ js " prefix from issue");
    (js "pageFormat", fun e =>
       if includes (ValidationError.message e) (js "pp.")
       then js "Removed " ++ dq ++ js "pp." ++ dq ++ js " prefix"
       else js "Changed hyphen to en dash");
    (js "journalNameCase", fun _ => js "Converted journal name to Title Case");
    (js "conferenceNameCase", fun _ =>
       js "Converted conference/proceedings name to Title Case");
    (js "publisherLocation", fun _ => js "Removed publisher location (APA 7th change)");
    (js "inPrefix", fun _ => js "Added " ++ dq ++ js "In " ++ dq ++ js " prefix to chapter source");
    (js "terminalPeriod", fun _ => js "Added terminal period") ].

(** Manual fix hints per rule. *)
Definition MANUAL_FIX_HINTS : list (jsstring * (ValidationError.t -> jsstring)) :=
  [ (js "authorFormat", fun error =>
       if includes (ValidationError.message error) (js "missing initials")
          || includes (ValidationError.message error) (js "organization name")
       then js "Add first and middle initials in format " ++ dq ++ js "F. M." ++ dq
            ++ js " after the last name, or provide the full organization name for group authors."
       else if includes (ValidationError.message error) (js "missing last name")
       then js "Provide the author's last name."
       else js "Format author as: LastName, F. M.");
    (js "yearFormat", fun _ =>
       js "Provide a 4-digit year (YYYY), " ++ dq ++ js "n.d." ++ dq ++ js " for no date, or "
       ++ dq ++ js "in press" ++ dq ++ js " in parentheses.");
    (js "doiPresence", fun _ =>
       js "Search for the DOI on CrossRef or the publisher's website. If unavailable, this is acceptable.");
    (js "doiFormat", fun _ => js "DOI should be in format: https://doi.org/10.xxxx/xxxxx");
    (js "titleCase", fun _ =>
       js "Verify proper nouns are still capitalized correctly in the converted title.");
    (js "volumeFormat", fun _ =>
       js "Volume should be just the number (e.g., " ++ dq ++ js "23" ++ dq ++ js " not "
       ++ dq ++ js "Vol. 23" ++ dq ++ js ").");
    (js "issueFormat", fun _ =>
       js "Issue should be just the number in parentheses (e.g., " ++ dq ++ js "(4)" ++ dq
       ++ js " not " ++ dq ++ js "No. 4" ++ dq ++ js ").");
    (js "pageFormat", fun _ =>
       js "Use en dash (–) for page ranges and remove " ++ dq ++ js "pp." ++ dq
       ++ js " prefix for journal articles.");
    (js "journalNameCase", fun _ =>
       js "Journal names should use Title Case (e.g., " ++ dq
       ++ js "Journal of Educational Psychology" ++ dq ++ js " not " ++ dq
       ++ js "journal of educational psychology" ++ dq ++ js ").");
    (js "conferenceNameCase", fun _ =>
       js "Conference/proceedings names are proper nouns and should use Title Case (e.g., "
       ++ dq ++ js "International Conference on Information Systems" ++ dq ++ js ").");
    (js "chapterEditors", fun _ =>
       js "Look up the book on the publisher's website or Google Books to find the editor(s). Format: In F. M. Editor (Ed.), for one editor, or In F. Editor & G. Editor (Eds.), for multiple.");
    (js "ampersand", fun _ => js "Use ampersand (&) before the last author in reference lists.");
    (js "typeMismatch", fun _ =>
       js "CrossRef metadata indicates this citation is a different type than detected. Verify the citation format matches the actual publication type.");
    (js "publisherRequired", fun _ => js "Add the publisher name after the title/edition.");
    (js "fullDateRequired", fun _ =>
       js "Conference presentations require the full date including month and day(s) (e.g., 2024, March 15).");
    (js "editionFormat", fun _ =>
       js "Edition should be a number formatted as ordinal (e.g., 2nd ed.).");
    (js "bracketType", fun _ =>
       js "Add a type descriptor in brackets after the title (e.g., [Paper presentation], [Doctoral dissertation, University Name]).");
    (js "conferenceInfo", fun _ =>
       js "Add the conference name and location after the bracket descriptor (e.g., Annual Meeting of APA, Washington, DC, United States).");
    (js "dissertationInfo", fun _ =>
       js "Include the institution name in brackets (e.g., [Doctoral dissertation, Massachusetts Institute of Technology]).");
    (js "reportNumber", fun _ =>
       js "Include the report number if available (e.g., Report No. 2024-01) in parentheses after the title.");
    (js "inPrefix", fun _ =>
       js "Chapter source should start with " ++ dq ++ js "In " ++ dq
       ++ js " followed by editors and book title.") ].

Definition getManualFixHint (error : ValidationError.t) : jsstring :=
  match assoc (ValidationError.rule error) MANUAL_FIX_HINTS with
  | Some hint => hint error
  | None => ValidationError.message error
  end.

(** *** reconstructCitation *)

(** The strings of the author list (lines 142-168): with more than twenty
    authors the entry at index 19 is the ellipsis and the entries after
    it, the last one apart, are dropped; [filter(Boolean)] then removes
    the dropped entries and the empty strings. *)
Definition authorString (n index : nat) (author : Author) : option jsstring :=
  if (20 <? n) && (index =? 19) then Some (js "...")
  else if (20 <? n) && (19 <? index) && (index <? n - 1) then None
  else if is_group author then Some (lastName author)
  else Some (lastName author ++ js ", " ++ initials author).

Fixpoint mapi {A B} (f : nat -> A -> B) (i : nat) (l : list A) : list B :=
  match l with
  | [] => []
  | x :: t => f i x :: mapi f (S i) t
  end.

Definition filter_Boolean (l : list (option jsstring)) : list jsstring :=
  flat_map (fun o => if truthy o then [defined o] else []) l.

Definition authorStrings (authors : list Author) : list jsstring :=
  filter_Boolean (mapi (authorString (length authors)) 0 authors).

Definition authorsString (authors : list Author) : jsstring :=
  let strs := authorStrings authors in
  match strs with
  | [a] => a
  | [a; b] => a ++ js ", & " ++ b
  | _ =>
    let lastAuthor := nth_error strs (length strs - 1) in
    let restAuthors := removelast strs in
    join (js ", ") restAuthors ++ js ", & " ++ defined lastAuthor
  end.

Definition editorsString (editors : list Author) : jsstring :=
  let editorStrings := map (fun e => initials e ++ js " " ++ lastName e) editors in
  match editorStrings with
  | [a] => a
  | [a; b] => a ++ js " & " ++ b
  | _ =>
    join (js ", ") (removelast editorStrings) ++ js ", & "
    ++ defined (nth_error editorStrings (length editorStrings - 1))
  end.

(** [parts.splice(parts.findIndex(p => p === x), 1)] when the index exists. *)
Fixpoint remove_first (x : jsstring) (parts : list jsstring) : list jsstring :=
  match parts with
  | [] => []
  | p :: t => if str_eqb p x then t else p :: remove_first x t
  end.

Definition reportPart (citation : ParsedCitation) (pub : option jsstring) : jsstring :=
  (if truthy (reportNumber citation)
   then js "*" ++ title citation ++ js "* (Report No. "
        ++ defined (reportNumber citation) ++ js ")"
   else js "*" ++ title citation ++ js "*")
  ++ js "."
  ++ (if truthy pub then js " " ++ defined pub ++ js "." else []).

Definition confPart (citation : ParsedCitation) : jsstring :=
  title citation
  ++ (if truthy (bracketType citation)
      then js " [" ++ defined (bracketType citation) ++ js "]" else [])
  ++ js "."
  ++ (if truthy (conferenceName citation)
      then js " " ++ defined (conferenceName citation) ++ js "." else []).

Definition dissPart (citation : ParsedCitation) : jsstring :=
  js "*" ++ title citation ++ js "*"
  ++ (if truthy (bracketType citation)
      then js " [" ++ defined (bracketType citation) ++ js "]" else [])
  ++ js "."
  ++ (if truthy (databaseName citation)
      then js " " ++ defined (databaseName citation) ++ js "." else []).

Definition journalPart (citation : ParsedCitation) : jsstring :=
  js "*" ++ source citation ++ js "*"
  ++ (if truthy (volume citation) then
        if truthy (issue citation)
        then js ", *" ++ defined (volume citation) ++ js "*("
             ++ defined (issue citation) ++ js ")"
        else js ", *" ++ defined (volume citation) ++ js "*"
      else [])
  ++ (if truthy (pages citation) then js ", " ++ defined (pages citation) else [])
  ++ js ".".

Definition chapterPart (citation : ParsedCitation) : jsstring :=
  let bookTitle :=
    if startsWith (source citation) (js "In ") then substring_from (source citation) 3
    else source citation in
  js "In "
  ++ (if no_editors citation then js "[Editor, F. M.] (Ed.), "
      else
        let eds := match editors citation with Some l => l | None => [] end in
        editorsString eds ++ js " ("
        ++ (if length eds =? 1 then js "Ed." else js "Eds.") ++ js "), ")
  ++ js "*" ++ bookTitle ++ js "*"
  ++ (if truthy (edition citation) || truthy (pages citation) then
        js " ("
        ++ join (js ", ")
             ((if truthy (edition citation)
               then [toOrdinal (defined (edition citation)) ++ js " ed."] else [])
              ++ (if truthy (pages citation)
                  then [js "pp. " ++ defined (pages citation)] else []))
        ++ js ")"
      else [])
  ++ js "."
  ++ (if truthy (publisher citation) then js " " ++ defined (publisher citation) ++ js "."
      else []).

Definition bookPart (citation : ParsedCitation) : jsstring :=
  js "*" ++ source citation ++ js "*"
  ++ (if truthy (edition citation)
      then js " (" ++ toOrdinal (defined (edition citation)) ++ js " ed.)" else [])
  ++ js "."
  ++ (if truthy (publisher citation) then js " " ++ defined (publisher citation) ++ js "."
      else []).

Definition reconstructCitation (citation : ParsedCitation) : jsstring :=
  (* Authors *)
  let parts :=
    if 0 <? length (authors citation) then [authorsString (authors citation)] else [] in
  (* Year (with fullDate and yearSuffix support) *)
  let parts :=
    if nonempty (year citation) then
      if truthy (fullDate citation) then
        parts ++ [js "(" ++ defined (fullDate citation) ++ js ")."]
      else if truthy (yearSuffix citation) then
        parts ++ [js "(" ++ year citation ++ defined (yearSuffix citation) ++ js ")."]
      else parts ++ [js "(" ++ year citation ++ js ")."]
    else parts in
  (* Title *)
  let parts :=
    if nonempty (title citation) then parts ++ [title citation ++ js "."] else parts in
  let titled := title citation ++ js "." in
  (* report/conference/dissertation without a source *)
  let parts :=
    if negb (nonempty (source citation)) then
      match type citation with
      | report => remove_first titled parts ++ [reportPart citation (publisher citation)]
      | conference => remove_first titled parts ++ [confPart citation]
      | dissertation => remove_first titled parts ++ [dissPart citation]
      | _ => parts
      end
    else parts in
  (* Source, by type *)
  let parts :=
    if nonempty (source citation) then
      match type citation with
      | journal => parts ++ [journalPart citation]
      | chapter => parts ++ [chapterPart citation]
      | book => parts ++ [bookPart citation]
      | report =>
        remove_first titled parts
        ++ [reportPart citation (Some (or_else (publisher citation) (source citation)))]
      | conference => remove_first titled parts ++ [confPart citation]
      | dissertation => remove_first titled parts ++ [dissPart citation]
      | _ => parts ++ [source citation]
      end
    else parts in
  (* DOI *)
  let parts :=
    if truthy (doi citation) then parts ++ [defined (doi citation)]
    else if truthy (url citation) then parts ++ [defined (url citation)]
    else parts in
  trim (replace (join (js " ") parts) (regexp "\s+" "g") (js " ")).

(** *** applyAutoFixes *)

Fixpoint update_nth {A} (n : nat) (f : A -> A) (l : list A) : list A :=
  match l, n with
  | [], _ => []
  | x :: t, O => f x :: t
  | x :: t, S n' => x :: update_nth n' f t
  end.

Record FixState := {
  fixedCitation : ParsedCitation;
  autoFixes : list AutoFix.t;
  manualFixes : list ManualFix.t
}.

(** One turn of the loop over the violations. *)
Definition applyFix (st : FixState) (error : ValidationError.t) : FixState :=
  let c := fixedCitation st in
  if negb (ValidationError.autoFixable error) then
    (* Create manual fix entry *)
    {| fixedCitation := c;
       autoFixes := autoFixes st;
       manualFixes :=
         manualFixes st
         ++ [ {| ManualFix.rule := ValidationError.rule error;
                 ManualFix.field := ValidationError.field error;
                 ManualFix.message := ValidationError.message error;
                 ManualFix.hint := getManualFixHint error |} ] |}
  else if str_eqb (ValidationError.rule error) (js "authorFormat") then
    (* Special case: authorFormat (needs index parsing) *)
    if truthy (ValidationError.suggested error)
       && str_eqb (ValidationError.field error) (js "authors") then
      let suggested := defined (ValidationError.suggested error) in
      let digits :=
        match exec (regexp "Author (\d+)" "") (ValidationError.message error) with
        | Some m => or_else (group m 1) (js "0")
        | None => js "0"
        end in
      match parseInt false digits with
      | Some n =>
        let authorIndex := (n - 1)%Z in
        if (0 <=? authorIndex)%Z && (authorIndex <? Z.of_nat (length (authors c)))%Z then
          let i := Z.to_nat authorIndex in
          let oldInitials :=
            match nth_error (authors c) i with Some a => initials a | None => [] end in
          {| fixedCitation := set_authors (update_nth i (set_initials suggested) (authors c)) c;
             autoFixes :=
               autoFixes st
               ++ [ {| AutoFix.rule := js "authorFormat";
                       AutoFix.field := js "authors";
                       AutoFix.original := oldInitials;
                       AutoFix.fixed := suggested;
                       AutoFix.description :=
                         js "Corrected initials format to " ++ dq ++ suggested ++ dq |} ];
             manualFixes := manualFixes st |}
        else st
      | None => st
      end
    else st
  else if str_eqb (ValidationError.rule error) (js "ampersand") then
    (* Special case: ampersand (handled during reconstruction) *)
    {| fixedCitation := c;
       autoFixes :=
         autoFixes st
         ++ [ {| AutoFix.rule := js "ampersand";
                 AutoFix.field := js "authors";
                 AutoFix.original := js "and";
                 AutoFix.fixed := js "&";
                 AutoFix.description :=
                   js "Changed " ++ dq ++ js "and" ++ dq ++ js " to " ++ dq ++ js "&" ++ dq
                   ++ js " before last author" |} ];
       manualFixes := manualFixes st |}
  else
    (* Data-driven field fixes *)
    match assoc (ValidationError.rule error) FIELD_MAP with
    | Some field =>
      if truthy (ValidationError.suggested error) then
        let suggested := defined (ValidationError.suggested error) in
        {| fixedCitation := set_field field suggested c;
           autoFixes :=
             autoFixes st
             ++ [ {| AutoFix.rule := ValidationError.rule error;
                     AutoFix.field := field;
                     AutoFix.original := or_else (get_field field c) [];
                     AutoFix.fixed := suggested;
                     AutoFix.description :=
                       match assoc (ValidationError.rule error) FIX_DESCRIPTIONS with
                       | Some d => d error
                       | None => ValidationError.message error
                       end |} ];
           manualFixes := manualFixes st |}
      else st
    | None => st
    end.

(** The working copy after all the fixes, with the two lists. *)
Definition applyFixes (citation : ParsedCitation) (errors : list ValidationError.t)
  : FixState :=
  fold_left applyFix errors
            {| fixedCitation := citation; autoFixes := []; manualFixes := [] |}.

Record AutoFixResult := {
  fixedCitationString : jsstring;
  resultAutoFixes : list AutoFix.t;
  resultManualFixes : list ManualFix.t
}.

Definition applyAutoFixes (citation : ParsedCitation) (errors : list ValidationError.t)
  : AutoFixResult :=
  let st := applyFixes citation errors in
  {| fixedCitationString := reconstructCitation (fixedCitation st);
     resultAutoFixes := autoFixes st;
     resultManualFixes := manualFixes st |}.

(** *** calculateScore *)

(** The score is a number that takes half-integer values; it is kept as a rational. *)
Definition deduction (s : Severity) : Q :=
  match s with Error => 15 | Warning => 10 | Info => 5 end%Q.

Definition addBack (s : Severity) : Q :=
  match s with Error => 7.5 | Warning => 5 | Info => 2.5 end%Q.

(** [errors.find(e => e.rule === fix.rule && e.field === fix.field)] *)
Definition originalError (errors : list ValidationError.t) (fx : AutoFix.t)
  : option ValidationError.t :=
  find (fun e => str_eqb (ValidationError.rule e) (AutoFix.rule fx)
                 && str_eqb (ValidationError.field e) (AutoFix.field fx)) errors.

(** [Math.round]: the nearest integer, a tie going up. *)
Definition Math_round (x : Q) : Z := Qfloor (x + (1 # 2))%Q.

Definition rawScore (errors : list ValidationError.t) (autoFixes : list AutoFix.t) : Q :=
  let score := fold_left (fun score error =>
                            score - deduction (ValidationError.severity error))%Q
                         errors 100%Q in
  fold_left (fun score fx =>
               match originalError errors fx with
               | Some e => (score + addBack (ValidationError.severity e))%Q
               | None => score
               end)
            autoFixes score.

Definition calculateScore (errors : list ValidationError.t) (autoFixes : list AutoFix.t) : Z :=
  Z.max 0 (Z.min 100 (Math_round (rawScore errors autoFixes))).

(* ================================================================== *)
(** ** Enrichment and the pipeline ([lib/crossref/client.ts],
       [lib/validator/index.ts])                                        *)
(* ================================================================== *)

(** Normalize title for comparison. *)
Definition normalizeTitle (title : jsstring) : jsstring :=
  trim (replace (replace (toLowerCase title) (regexp "[^\w\s]" "g") (js " "))
                (regexp "\s+" "g") (js " ")).

(** [new Set(words)]: the distinct words, in order of first occurrence. *)
Fixpoint dedup (l acc : list jsstring) : list jsstring :=
  match l with
  | [] => rev acc
  | w :: t => if existsb (str_eqb w) acc then dedup t acc else dedup t (w :: acc)
  end.

Definition title_words (title : jsstring) : list jsstring :=
  dedup (filter (fun w => 3 <? length w) (split_char (ch " ") (normalizeTitle title) [])) [].

(** Word-overlap similarity between two titles (a quotient of two small
    integers, compared with 0.5 as a rational). *)
Definition titleSimilarity (a b : jsstring) : Q :=
  let wordsA := title_words a in
  let wordsB := title_words b in
  if (length wordsA =? 0) || (length wordsB =? 0) then 0%Q
  else
    let intersection := filter (fun w => existsb (str_eqb w) wordsB) wordsA in
    let union := dedup (wordsA ++ wordsB) [] in
    (Z.of_nat (length intersection) # Pos.of_nat (length union))%Q.

(** Map CrossRef type string to our citation type. *)
Definition mapCrossRefType (crossRefType : jsstring) : CitationType :=
  if str_eqb crossRefType (js "journal-article") then journal
  else if str_eqb crossRefType (js "book-chapter") then chapter
  else if str_eqb crossRefType (js "proceedings-article") then chapter
  else if str_eqb crossRefType (js "book") then book
  else unknown.

Definition opt_eqb (a b : option jsstring) : bool :=
  match a, b with
  | Some x, Some y => str_eqb x y
  | None, None => true
  | _, _ => false
  end.

(** The DOI and page supplements, applied before any type correction. *)
Definition supplementDOI (crossRefWork : CrossRefWork.t) (corrected : ParsedCitation)
  : ParsedCitation :=
  if negb (truthy (doi corrected)) && nonempty (CrossRefWork.doi crossRefWork) then
    set_doi (Some (js "https://doi.org/"
                   ++ replace (CrossRefWork.doi crossRefWork)
                              (regexp "^https?:\/\/doi\.org\/" "") []))
            corrected
  else corrected.

Definition supplementPages (crossRefWork : CrossRefWork.t) (corrected : ParsedCitation)
  : ParsedCitation :=
  if truthy (CrossRefWork.pages crossRefWork) && truthy (pages corrected) then
    let currentPages := replace (defined (pages corrected)) (regexp "\s" "g") [] in
    let crossRefPages :=
      replace (defined (CrossRefWork.pages crossRefWork)) (regexp "\s" "g") [] in
    if negb (includes currentPages (js "-")) && negb (includes currentPages (js "–"))
       && includes crossRefPages (js "-")
    then set_pages (CrossRefWork.pages crossRefWork) corrected
    else corrected
  else if truthy (CrossRefWork.pages crossRefWork) && negb (truthy (pages corrected)) then
    set_pages (CrossRefWork.pages crossRefWork) corrected
  else corrected.

(** The journal -> chapter correction, field by field. *)
Definition chapterPages (corrected : ParsedCitation) : option jsstring :=
  if truthy (volume corrected) && truthy (pages corrected) then
    (* volume="267", pages="-282" or pages="282" -> pages="267-282" *)
    let cleanPages := replace (defined (pages corrected)) (regexp "^[-–]" "") [] in
    Some (defined (volume corrected) ++ js "-" ++ cleanPages)
  else if truthy (volume corrected) && negb (truthy (pages corrected)) then
    volume corrected
  else pages corrected.

Definition chapterSource (corrected : ParsedCitation) : jsstring :=
  if nonempty (source corrected) && negb (startsWith (source corrected) (js "In "))
  then js "In " ++ source corrected
  else source corrected.

Definition has_editors (crossRefWork : CrossRefWork.t) : bool :=
  match CrossRefWork.editors crossRefWork with
  | Some l => 0 <? length l
  | None => false
  end.

Definition edition_above_one (crossRefWork : CrossRefWork.t) : bool :=
  truthy (CrossRefWork.edition crossRefWork)
  && match parseInt false (defined (CrossRefWork.edition crossRefWork)) with
     | Some n => (1 <? n)%Z
     | None => false
     end.

Definition journalToChapter (crossRefWork : CrossRefWork.t) (corrected : ParsedCitation)
  : ParsedCitation :=
  let corrected := set_pages (chapterPages corrected) corrected in
  let corrected := set_volume None corrected in
  let corrected := set_issue None corrected in
  let corrected := set_source (chapterSource corrected) corrected in
  let corrected :=
    if truthy (CrossRefWork.publisher crossRefWork)
    then set_publisher (CrossRefWork.publisher crossRefWork) corrected else corrected in
  let corrected :=
    if has_editors crossRefWork
    then set_editors (CrossRefWork.editors crossRefWork) corrected else corrected in
  if edition_above_one crossRefWork
  then set_edition (CrossRefWork.edition crossRefWork) corrected else corrected.

(** Correct citation type and fields based on CrossRef metadata. *)
Definition correctCitationWithCrossRef (citation : ParsedCitation)
           (crossRefWork : CrossRefWork.t) : ParsedCitation * bool :=
  let crossRefType := mapCrossRefType (CrossRefWork.type crossRefWork) in
  let corrected := supplementPages crossRefWork (supplementDOI crossRefWork citation) in
  if type_eqb crossRefType (type citation) || type_eqb crossRefType unknown then
    (corrected, false)
  else
    let corrected := set_type crossRefType corrected in
    if type_eqb (type citation) journal && type_eqb crossRefType chapter then
      (journalToChapter crossRefWork corrected, true)
    else (corrected, true).

(** The result of a validation (the random [id] is left out). *)
Record ValidationResult := {
  citation : ParsedCitation;
  errors : list ValidationError.t;
  resAutoFixes : list AutoFix.t;
  resManualFixes : list ManualFix.t;
  resFixedCitation : jsstring;
  score : Z
}.

Definition typeMismatch (citation : ParsedCitation) : ValidationError.t :=
  violation (js "typeMismatch") (js "type")
            (js "CrossRef indicates this is a "
             ++ (if type_eqb (type citation) chapter then js "book chapter/proceedings"
                 else type_name (type citation))
             ++ js ", not a journal article. Citation format has been corrected.")
            Info (js "journal") None false.

(** Is the looked-up work the cited one? *)
Definition authorMatches (citation : ParsedCitation) (crossRefWork : CrossRefWork.t) : bool :=
  match authors citation, CrossRefWork.authors crossRefWork with
  | a :: _, b :: _ =>
    let firstAuthorInput := trim (toLowerCase (lastName a)) in
    let firstAuthorCrossRef := trim (toLowerCase (lastName b)) in
    includes firstAuthorInput firstAuthorCrossRef
    || includes firstAuthorCrossRef firstAuthorInput
  | _, _ => true
  end.

Definition trusted (citation : ParsedCitation) (crossRefWork : CrossRefWork.t) : bool :=
  nonempty (CrossRefWork.doi crossRefWork)
  && Qle_bool 0.5 (titleSimilarity (title citation) (CrossRefWork.title crossRefWork))
  && authorMatches citation crossRefWork.

Section Pipeline.

(** What the awaited lookup by title resolves to; [None] stands for no
    result and for a lookup that failed (the failure is caught and
    logged). *)
Variable searchByTitle : jsstring -> option CrossRefWork.t.

(** Steps 1 and 2: parse, then correct from the looked-up work. *)
Definition enrich (text : jsstring) (useCrossRef : bool) : ParsedCitation * bool :=
  let citation := parseCitation text in
  if useCrossRef && nonempty (title citation) && (0 <? length (authors citation)) then
    match searchByTitle (title citation) with
    | Some crossRefWork =>
      if trusted citation crossRefWork
      then correctCitationWithCrossRef citation crossRefWork
      else (citation, false)
    | None => (citation, false)
    end
  else (citation, false).

Definition validateCitation (text : jsstring) (useCrossRef : bool) : ValidationResult :=
  let originalPages := pages (parseCitation text) in
  let (citation, typeChanged) := enrich text useCrossRef in
  (* Step 3: run the rules, then document a type correction *)
  let errors :=
    runRules ALL_RULES citation ++ (if typeChanged then [typeMismatch citation] else []) in
  (* Step 4: apply auto-fixes *)
  let fixes := applyAutoFixes citation errors in
  let autoFixes :=
    resultAutoFixes fixes
    ++ (if negb (opt_eqb originalPages (pages citation)) && truthy (pages citation) then
          [ {| AutoFix.rule := js "pageCompletion";
               AutoFix.field := js "pages";
               AutoFix.original := or_else originalPages (js "(missing)");
               AutoFix.fixed := defined (pages citation);
               AutoFix.description :=
                 js "Page range completed via CrossRef: "
                 ++ or_else originalPages (js "(missing)") ++ js " → "
                 ++ defined (pages citation) |} ]
        else []) in
  (* Step 5: score *)
  {| citation := citation;
     errors := errors;
     resAutoFixes := autoFixes;
     resManualFixes := resultManualFixes fixes;
     resFixedCitation := fixedCitationString fixes;
     score := calculateScore errors autoFixes |}.

End Pipeline.

(** Validation without a lookup. *)
Definition validateCitationWithoutCrossRef (text : jsstring) : ValidationResult :=
  let citation := parseCitation text in
  let errors := runRules ALL_RULES citation in
  let fixes := applyAutoFixes citation errors in
  {| citation := citation;
     errors := errors;
     resAutoFixes := resultAutoFixes fixes;
     resManualFixes := resultManualFixes fixes;
     resFixedCitation := fixedCitationString fixes;
     score := calculateScore errors (resultAutoFixes fixes) |}.

(** Validation of a batch ([validateCitations]): every block is parsed,
    and its [raw] text validated, all at once without a lookup and one
    after the other with it.  [lookups i] is what the lookup made for the
    citation of index [i] resolves to; the pauses between the requests
    have no part in the results. *)
Definition validateCitations (lookups : nat -> jsstring -> option CrossRefWork.t)
           (text : jsstring) (useCrossRef : bool) : list ValidationResult :=
  mapi (fun i c => validateCitation (lookups i) (raw c) useCrossRef) 0 (parseCitations text).

Section FindDOI.

(** What the awaited [searchByTitle] resolves to ([None] for null). *)
Variable searchByTitle : jsstring -> option CrossRefWork.t.

(** Find a DOI by title and authors ([findDOI] of [lib/crossref/client.ts]). *)
Definition findDOI (title : jsstring) (authors : list jsstring) : option jsstring :=
  match searchByTitle title with
  | None => None
  | Some work =>
    if negb (nonempty (CrossRefWork.doi work)) then None
    else
      (* Check title similarity *)
      let similarity := titleSimilarity title (CrossRefWork.title work) in
      if negb (Qle_bool 0.5 similarity) then None
      else
        (* Verify authors if provided *)
        match authors, CrossRefWork.authors work with
        | a :: _, b :: _ =>
          let firstAuthorInput := trim (toLowerCase a) in
          let firstAuthorCrossRef := trim (toLowerCase (lastName b)) in
          let authorMatches :=
            includes firstAuthorInput firstAuthorCrossRef
            || includes firstAuthorCrossRef firstAuthorInput in
          if negb authorMatches then None else Some (CrossRefWork.doi work)
        | _, _ => Some (CrossRefWork.doi work)
        end
  end.

End FindDOI.

(* ================================================================== *)
(** * Properties                                                        *)
(* ================================================================== *)

(** Sample authors. *)
Definition kim : Author := {| lastName := js "Kim"; initials := js "B. Y."; isGroupAuthor := None |}.
Definition lee : Author := {| lastName := js "Lee"; initials := js "S. H."; isGroupAuthor := None |}.
Definition namelessGroup : Author :=
  {| lastName := []; initials := []; isGroupAuthor := Some true |}.

(** ** Agreement with the repository's tests                           *)

(** Expectations of [__tests__/parser.test.ts] (the last one of
    [__tests__/integration.test.ts]), evaluated on the embedding: each pair
    is a computed value and the value the test expects. *)
Definition parser_expectations : list (jsstring * jsstring) :=
  let P := parseCitation in
  let first c := hd namelessGroup (authors c) in
  [ (lastName (first (P (js "García, M. A. (2024). Title. Journal, 1(1), 1-10."))),
     js "García");
    (lastName (first (P (js "Smith-Jones, A. B. (2024). Title. Journal, 1(1), 1-10."))),
     js "Smith-Jones");
    (initials (first (P (js "Smith, J. A. (2020). Some title. Some Journal, 10(1), 1-20."))),
     js "J. A.");
    (lastName (nth 2 (authors (P (js "Smith, J., Johnson, M., & Williams, R. (2023). Title here. Journal, 1(1), 1-10.")))
                   namelessGroup),
     js "Williams");
    (defined (doi (P (js "Author, A. (2024). Title. Journal, 1(1), 1-10. https://doi.org/10.1234/test"))),
     js "10.1234/test");
    (defined (url (P (js "Author, A. (2024). Title. Journal, 1(1), 1-10. https://doi.org/10.1234/test"))),
     js "https://doi.org/10.1234/test");
    (defined (doi (P (js "Author, A. (2024). Title. Journal, 1(1), 1-10. doi:10.1234/test"))),
     js "10.1234/test");
    (source (P (js "Author, A. (2023). Title. Journal Name, Vol. 28(3), pp. 45-67.")),
     js "Journal Name");
    (defined (volume (P (js "Author, A. (2023). Title. Journal Name, Vol. 28(3), pp. 45-67."))),
     js "Vol. 28");
    (defined (pages (P (js "Author, A. (2023). Title. Journal Name, Vol. 28(3), pp. 45-67."))),
     js "pp. 45-67");
    (type_name (type (P (js "Author, A. (2024). Web page title. https://example.com/page"))),
     js "web");
    (defined (url (P (js "Author, A. (2024). Web page title. https://example.com/page"))),
     js "https://example.com/page");
    (year (P (js "Author, A. (n.d.). Some title. Some Publisher.")), js "n.d.");
    (year (P (js "Author, A. (in press). Some title. Some Journal, 10(1), 1-20.")),
     js "in press");
    (year (P (js "Author, A. (2024a). First article. Journal, 1(1), 1-10.")), js "2024");
    (defined (yearSuffix (P (js "Author, A. (2024a). First article. Journal, 1(1), 1-10."))),
     js "a");
    (defined (fullDate (P (js "Author, A. (2024, August 5-8). Talk title [Paper presentation]. Conference, City."))),
     js "2024, August 5-8");
    (defined (fullDate (P (js "Author, A. (2024, Spring). Magazine article. Magazine Title."))),
     js "2024, Spring");
    (lastName (first (P (js "American Psychological Association. (2020). Publication manual. APA."))),
     js "American Psychological Association");
    (type_name (type (P (js "Author, A. (2024). Annual safety review (Report No. DOT-HS-812-345). National Highway Traffic Safety Administration."))),
     js "report");
    (defined (reportNumber (P (js "Author, A. (2024). Annual safety review (Report No. DOT-HS-812-345). National Highway Traffic Safety Administration."))),
     js "DOT-HS-812-345");
    (type_name (type (P (js "Smith, J. (2024, March 15). New findings in AI [Paper presentation]. Annual Conference of APA, Washington, DC, United States."))),
     js "conference");
    (defined (conferenceName (P (js "Smith, J. (2024, March 15). New findings in AI [Paper presentation]. Annual Conference of APA, Washington, DC, United States."))),
     js "Annual Conference of APA, Washington, DC, United States");
    (defined (bracketType (P (js "Lee, S. (2023, May 5). Poster about cognition [Poster session]. Cognitive Science Conference, Berlin, Germany."))),
     js "Poster session");
    (type_name (type (P (js "Johnson, M. (2023). Machine learning approaches [Doctoral dissertation, Massachusetts Institute of Technology]. ProQuest Dissertations."))),
     js "dissertation");
    (defined (institution (P (js "Johnson, M. (2023). Machine learning approaches [Doctoral dissertation, Massachusetts Institute of Technology]. ProQuest Dissertations."))),
     js "Massachusetts Institute of Technology");
    (defined (databaseName (P (js "Johnson, M. (2023). Machine learning approaches [Doctoral dissertation, Massachusetts Institute of Technology]. ProQuest Dissertations."))),
     js "ProQuest Dissertations");
    (defined (institution (P (js "Park, H. (2022). Analysis of urban patterns [Master's thesis, Seoul National University]. University Repository."))),
     js "Seoul National University");
    (type_name (type (P (js "Author, A. (2023). Psychology of learning (4th ed.). Academic Press."))),
     js "book");
    (defined (edition (P (js "Author, A. (2023). Psychology of learning (4th ed.). Academic Press."))),
     js "4");
    (defined (publisher (P (js "Author, A. (2023). Psychology of learning (4th ed.). Academic Press."))),
     js "Academic Press");
    (defined (pages (P (js "Author, A. (2023). Chapter title. In Editor, E. (Ed.), Book Title (pp. 20–31). Publisher."))),
     js "20–31") ].

Example parser_tests_agree : Forall (fun p => fst p = snd p) parser_expectations.
Proof. vm_compute. repeat constructor. Qed.

(** [toSentenceCase] and [toTitleCase] on the inputs of
    [__tests__/rules.test.ts], with the values expected there; then
    [toOrdinal] on small numbers and [reconstructCitation] on citations of
    the kinds built in [__tests__/auto-fix.test.ts], whose tests look for
    fragments of these strings. *)
Definition helper_expectations : list (jsstring * jsstring) :=
  let base := set_title (js "Title") (set_year (js "2024") (emptyCitation [])) in
  [ (toSentenceCase (js "The Impact of AI on Education"), js "The impact of AI on education");
    (toSentenceCase (js "Using NLP in AI Research"), js "Using NLP in AI research");
    (toSentenceCase (js "Main Title: A Subtitle Here"), js "Main title: A subtitle here");
    (toTitleCase (js "journal of educational psychology"),
     js "Journal of Educational Psychology");
    (toTitleCase (js "the journal of the american medical association"),
     js "The Journal of the American Medical Association");
    (toOrdinal (js "1"), js "1st");
    (toOrdinal (js "2"), js "2nd");
    (toOrdinal (js "3"), js "3rd");
    (toOrdinal (js "4"), js "4th");
    (toOrdinal (js "11"), js "11th");
    (toOrdinal (js "12"), js "12th");
    (toOrdinal (js "13"), js "13th");
    (toOrdinal (js "21"), js "21st");
    (reconstructCitation
       (set_doi (Some (js "https://doi.org/10.1234/test"))
          (set_pages (Some (js "123–145"))
             (set_issue (Some (js "2"))
                (set_volume (Some (js "45"))
                   (set_source (js "Journal of Educational Technology")
                      (set_type journal
                         (set_title (js "The impact of AI on education")
                            (set_authors [kim; lee] base)))))))),
     js "Kim, B. Y., & Lee, S. H. (2024). The impact of AI on education. *Journal of Educational Technology*, *45*(2), 123–145. https://doi.org/10.1234/test");
    (reconstructCitation
       (set_publisher (Some (js "NHTSA"))
          (set_reportNumber (Some (js "DOT-HS-812-345"))
             (set_type report (set_title (js "Safety review") (set_authors [kim] base))))),
     js "Kim, B. Y. (2024). *Safety review* (Report No. DOT-HS-812-345). NHTSA.");
    (reconstructCitation
       (set_conferenceName (Some (js "Cognitive Science Conference, Berlin, Germany"))
          (set_bracketType (Some (js "Poster session"))
             (set_fullDate (Some (js "2023, May 5"))
                (set_type conference (set_title (js "New findings") (set_authors [lee] base)))))),
     js "Lee, S. H. (2023, May 5). New findings [Poster session]. Cognitive Science Conference, Berlin, Germany.");
    (reconstructCitation
       (set_databaseName (Some (js "ProQuest Dissertations"))
          (set_bracketType (Some (js "Doctoral dissertation, MIT"))
             (set_type dissertation
                (set_title (js "Machine learning approaches") (set_authors [kim] base))))),
     js "Kim, B. Y. (2024). *Machine learning approaches* [Doctoral dissertation, MIT]. ProQuest Dissertations.") ].

Example helper_tests_agree : Forall (fun p => fst p = snd p) helper_expectations.
Proof. vm_compute. repeat constructor. Qed.

(** [__tests__/integration.test.ts] asks that the correct journal article
    score at least 90 and the faulty one less than 90: the embedding computes
    93 and 55.  [parseCitations] skips the empty blocks between citations. *)
Example integration_tests_agree :
  score (validateCitationWithoutCrossRef
           (js "Kim, B. Y., & Lee, S. H. (2024). The impact of AI on education. Journal of Educational Technology, 45(2), 123–145. https://doi.org/10.1234/test"))
  = 93%Z
  /\ score (validateCitationWithoutCrossRef
              (js "Kim, BY and Lee, SH (2024). The Impact Of AI On Education. journal of educational technology, Vol. 45, No. 2, pp. 123-145"))
     = 55%Z
  /\ length (parseCitations
               (js "Author, A. (2024). Title one. J, 1(1), 1." ++ [10; 10; 10; 10]%N
                ++ js "Author, B. (2023). Title two. J, 2(1), 2."))
     = 2.
Proof. repeat split; vm_compute; reflexivity. Qed.

(** ** The compliance score                                             *)

Definition severity_eqb (a b : Severity) : bool :=
  match a, b with
  | Error, Error | Warning, Warning | Info, Info => true
  | _, _ => false
  end.


(** A fix and a violation match when they have the same rule and the
    same field. *)
Definition sameRuleAndField (fx : AutoFix.t) (e : ValidationError.t) : Prop :=
  ValidationError.rule e = AutoFix.rule fx /\ ValidationError.field e = AutoFix.field fx.

(** The originating violation of a fix in a list of violations: the first
    one that matches the fix, and none when no violation matches. *)
Inductive Originating (fx : AutoFix.t)
  : list ValidationError.t -> option ValidationError.t -> Prop :=
| Originating_none errors :
    Forall (fun e => ~ sameRuleAndField fx e) errors ->
    Originating fx errors None
| Originating_first before e after :
    Forall (fun e' => ~ sameRuleAndField fx e') before ->
    sameRuleAndField fx e ->
    Originating fx (before ++ e :: after) (Some e).

(** What is added back for a fix: half the deduction of its originating
    violation, nothing without one. *)
Definition halfBack (origin : option ValidationError.t) : Q :=
  match origin with
  | Some e =>
    match ValidationError.severity e with
    | Error => 7.5
    | Warning => 5
    | Info => 2.5
    end
  | None => 0
  end%Q.







Lemma sameRuleAndField_eqb fx e :
  str_eqb (ValidationError.rule e) (AutoFix.rule fx)
  && str_eqb (ValidationError.field e) (AutoFix.field fx) = true
  <-> sameRuleAndField fx e.
Proof.
  unfold sameRuleAndField. rewrite andb_true_iff.
  split; intros [H1 H2]; split;
    first [ apply (reflect_iff _ _ (str_eqb_spec _ _)); assumption
          | apply (reflect_iff _ _ (str_eqb_spec _ _)) in H1; assumption
          | apply (reflect_iff _ _ (str_eqb_spec _ _)) in H2; assumption ].
Qed.

(** The search of the code finds the originating violation. *)
Lemma originalError_Originating fx errors : Originating fx errors (originalError errors fx).
Proof.
  unfold originalError. induction errors as [|e errors IH]; cbn [find].
  - apply Originating_none. constructor.
  - destruct (str_eqb (ValidationError.rule e) (AutoFix.rule fx)
              && str_eqb (ValidationError.field e) (AutoFix.field fx)) eqn:E.
    + apply (Originating_first fx [] e errors); [constructor|].
      apply sameRuleAndField_eqb, E.
    + assert (Hn : ~ sameRuleAndField fx e).
      { intros H. apply sameRuleAndField_eqb in H. congruence. }
      inversion IH as [errs Hall Herr Ho | before e' after Hb He Herr Ho].
      * apply Originating_none. constructor; assumption.
      * apply (Originating_first fx (e :: before) e' after); [constructor|]; assumption.
Qed.

(** A fix has one originating violation at most. *)
Lemma Originating_unique fx errors o o' :
  Originating fx errors o -> Originating fx errors o' -> o = o'.
Proof.
  intros H. revert o'.
  assert (Hfirst : forall before e after o',
             Forall (fun e' => ~ sameRuleAndField fx e') before ->
             sameRuleAndField fx e ->
             Originating fx (before ++ e :: after) o' -> o' = Some e).
  { intros before e after o' Hb He H'.
    inversion H' as [errs Hall Herr Ho | before' e' after' Hb' He' Herr Ho].
    - exfalso. apply Forall_app in Hall as [_ Hall].
      inversion Hall; subst. contradiction.
    - f_equal. clear H' Ho. revert before' Herr Hb'.
      induction before as [|x before IH]; intros [|y before'] Herr Hb'.
      + inversion Herr. reflexivity.
      + inversion Herr; subst. inversion Hb'; subst. contradiction.
      + inversion Herr; subst. inversion Hb; subst. contradiction.
      + inversion Herr; subst. inversion Hb; inversion Hb'; subst.
        eapply IH; eauto. }
  destruct H as [errors Hall | before e after Hb He]; intros o' H'.
  - inversion H' as [errs Hall' Herr Ho | before e after Hb He Herr Ho]; [reflexivity|].
    exfalso. subst errors. apply Forall_app in Hall as [_ Hall].
    inversion Hall; subst. contradiction.
  - symmetry. eapply Hfirst; eauto.
Qed.




(** [Math_round] gives a nearest integer: the distance is at most a half. *)
Lemma Math_round_nearest x :
  (inject_Z (Math_round x) - (1 # 2) <= x)%Q /\ (x < inject_Z (Math_round x) + (1 # 2))%Q.
Proof.
  unfold Math_round.
  pose proof (Qfloor_le (x + (1 # 2))) as Hle.
  pose proof (Qlt_floor (x + (1 # 2))) as Hlt.
  rewrite inject_Z_plus in Hlt. simpl inject_Z in Hlt.
  split.
  - apply Qplus_le_l with (z := (1 # 2)%Q). ring_simplify.
    ring_simplify in Hle. exact Hle.
  - apply Qplus_lt_l with (z := (1 # 2)%Q).
    setoid_replace (inject_Z (Qfloor (x + (1 # 2))) + (1 # 2) + (1 # 2))%Q
      with (inject_Z (Qfloor (x + (1 # 2))) + 1)%Q by ring.
    exact Hlt.
Qed.





(** ** The order of the violations and the score                        *)

(** A journal citation whose pages carry both defects of [checkPageFormat]. *)
Definition ppCitation : ParsedCitation :=
  set_type journal (set_pages (Some (js "pp. 45-67")) (emptyCitation [])).

Lemma originalError_first before e after fx :
  Forall (fun e' => ~ sameRuleAndField fx e') before ->
  sameRuleAndField fx e ->
  originalError (before ++ e :: after) fx = Some e.
Proof.
  intros Hb He.
  exact (Originating_unique fx _ _ _ (originalError_Originating fx _)
                            (Originating_first fx before e after Hb He)).
Qed.

Lemma rawScore_snoc errors fixes fx :
  (rawScore errors (fixes ++ [fx])
   == rawScore errors fixes + halfBack (originalError errors fx))%Q.
Proof.
  unfold rawScore. rewrite fold_left_app. cbn [fold_left].
  destruct (originalError errors fx) as [e|]; cbn [halfBack];
    [destruct (ValidationError.severity e); cbn [addBack]|]; ring.
Qed.

(** A violation of another rule, put before those of [checkPageFormat]. *)
Definition missingYear : ValidationError.t :=
  violation (js "yearFormat") (js "year") (js "Year is missing") Error [] None false.

(** C10.  The add-back of a fix takes the severity of the first violation
    of the list that has the rule and the field of the fix, whatever
    violations with other rules or fields come before it and whatever
    comes after it, other violations with that rule and field included:
    appending the fix to the applied fixes raises the score before rounding
    by half the deduction of that violation.  [checkPageFormat] emits two
    violations with rule "pageFormat" and field "pages" for one citation
    (an error for the "pp." prefix, then a warning for the hyphen), both
    fixes are applied, and the score of the two violations in the emitted
    order (90) differs from the score of the same violations in the other
    order (85); so it does behind a violation of another rule (75 and
    70). *)
Theorem score_depends_on_violation_order :
  (forall before e after fx,
      Forall (fun e' => ~ sameRuleAndField fx e') before ->
      sameRuleAndField fx e ->
      originalError (before ++ e :: after) fx = Some e
      /\ forall fixes,
          (rawScore (before ++ e :: after) (fixes ++ [fx])
           == rawScore (before ++ e :: after) fixes
              + match ValidationError.severity e with
                | Error => 7.5
                | Warning => 5
                | Info => 2.5
                end)%Q)
  /\ exists e w,
      checkPageFormat ppCitation = [e; w]
      /\ ValidationError.rule e = js "pageFormat"
      /\ ValidationError.field e = js "pages"
      /\ ValidationError.severity e = Error
      /\ ValidationError.rule w = js "pageFormat"
      /\ ValidationError.field w = js "pages"
      /\ ValidationError.severity w = Warning
      /\ map (fun x => (AutoFix.rule x, AutoFix.field x))
             (resultAutoFixes (applyAutoFixes ppCitation [e; w]))
         = [(js "pageFormat", js "pages"); (js "pageFormat", js "pages")]
      /\ calculateScore [e; w] (resultAutoFixes (applyAutoFixes ppCitation [e; w])) = 90%Z
      /\ calculateScore [w; e] (resultAutoFixes (applyAutoFixes ppCitation [e; w])) = 85%Z
      /\ calculateScore [missingYear; e; w]
                        (resultAutoFixes (applyAutoFixes ppCitation [e; w])) = 75%Z
      /\ calculateScore [missingYear; w; e]
                        (resultAutoFixes (applyAutoFixes ppCitation [e; w])) = 70%Z.
Proof.
  split.
  - intros before e after fx Hb He.
    pose proof (originalError_first before e after fx Hb He) as Ho.
    split; [exact Ho|]. intros fixes.
    rewrite rawScore_snoc, Ho. reflexivity.
  - eexists; eexists. split; [vm_compute; reflexivity|].
    repeat split; vm_compute; reflexivity.
Qed.

Lemma score_depends_on_violation_order_witness :
  let fx := AutoFix.Build_t (js "pageFormat") (js "pages") [] [] [] in
  let e := violation (js "pageFormat") (js "pages") [] Warning [] None true in
  let w := violation (js "pageFormat") (js "pages") [] Error [] None true in
  originalError [missingYear; e; w] fx = Some e.
Proof.
  cbv zeta.
  refine (proj1 (proj1 score_depends_on_violation_order [missingYear] _ [_] _ _ _)).
  - constructor; [|constructor]. intros [H _]. vm_compute in H. discriminate H.
  - split; reflexivity.
Defined.

(** ** The author list of a reconstruction                              *)

(** How one author is written: a group author by its name, an individual
    one as "Last, Initials". *)
Definition renderAuthor (a : Author) : jsstring :=
  if is_group a then lastName a else lastName a ++ js ", " ++ initials a.

Definition rendersAll (l : list Author) : Prop :=
  Forall (fun a => nonempty (renderAuthor a) = true) l.

Lemma mapi_app {A B} (f : nat -> A -> B) l1 : forall i l2,
  mapi f i (l1 ++ l2) = mapi f i l1 ++ mapi f (i + length l1) l2.
Proof.
  induction l1 as [|x l1 IH]; intros i l2; simpl.
  - rewrite Nat.add_0_r. reflexivity.
  - rewrite IH. replace (S i + length l1) with (i + S (length l1)) by lia. reflexivity.
Qed.

Lemma filter_Boolean_app l1 l2 :
  filter_Boolean (l1 ++ l2) = filter_Boolean l1 ++ filter_Boolean l2.
Proof. unfold filter_Boolean. apply flat_map_app. Qed.

(** The entries that are kept as they are. *)
Lemma authorStrings_plain n l : forall i,
  rendersAll l ->
  (forall j, i <= j < i + length l ->
             ((20 <? n) && (j =? 19) = false)
             /\ ((20 <? n) && (19 <? j) && (j <? n - 1) = false)) ->
  filter_Boolean (mapi (authorString n) i l) = map renderAuthor l.
Proof.
  induction l as [|a l IH]; intros i Hall Hidx; [reflexivity|].
  inversion Hall as [|? ? Ha Hl]; subst.
  destruct (Hidx i) as [H1 H2]; [simpl; lia|].
  assert (Hs : authorString n i a = Some (renderAuthor a)).
  { unfold authorString. rewrite H1, H2. unfold renderAuthor.
    destruct (is_group a); reflexivity. }
  cbn [mapi map].
  change (filter_Boolean (authorString n i a :: mapi (authorString n) (S i) l))
    with ((if truthy (authorString n i a) then [defined (authorString n i a)] else [])
          ++ filter_Boolean (mapi (authorString n) (S i) l)).
  rewrite Hs. cbn [truthy defined]. rewrite Ha. cbn [app]. f_equal.
  apply IH; [exact Hl|].
  intros j Hj. apply Hidx. simpl. lia.
Qed.

(** The entries that are dropped. *)
Lemma authorStrings_dropped n l : forall i,
  20 < n -> 19 < i -> i + length l <= n - 1 ->
  filter_Boolean (mapi (authorString n) i l) = [].
Proof.
  induction l as [|a l IH]; intros i Hn Hi Hlen; [reflexivity|].
  simpl in Hlen.
  assert (Hs : authorString n i a = None).
  { unfold authorString.
    replace (20 <? n) with true by (symmetry; apply Nat.ltb_lt; lia).
    replace (i =? 19) with false by (symmetry; apply Nat.eqb_neq; lia).
    replace (19 <? i) with true by (symmetry; apply Nat.ltb_lt; lia).
    replace (i <? n - 1) with true by (symmetry; apply Nat.ltb_lt; lia).
    reflexivity. }
  cbn [mapi].
  change (filter_Boolean (authorString n i a :: mapi (authorString n) (S i) l))
    with ((if truthy (authorString n i a) then [defined (authorString n i a)] else [])
          ++ filter_Boolean (mapi (authorString n) (S i) l)).
  rewrite Hs. cbn [truthy app]. apply IH; lia.
Qed.

Lemma authorStrings_upto20 l :
  rendersAll l -> length l <= 20 -> authorStrings l = map renderAuthor l.
Proof.
  intros Hall Hlen. unfold authorStrings. apply authorStrings_plain; [exact Hall|].
  intros j _. replace (20 <? length l) with false by (symmetry; apply Nat.ltb_ge; lia).
  split; reflexivity.
Qed.

Lemma authorStrings_over20 l :
  rendersAll l -> 20 < length l ->
  authorStrings l
  = map renderAuthor (firstn 19 l) ++ [js "..."]
    ++ map renderAuthor (skipn (length l - 1) l).
Proof.
  intros Hall Hlen. unfold authorStrings.
  set (n := length l).
  (* the first nineteen, the twentieth, the ones in between, the last *)
  assert (Hsplit : l = firstn 19 l ++ firstn 1 (skipn 19 l)
                       ++ firstn (n - 21) (skipn 20 l) ++ skipn (n - 1) l).
  { rewrite <- (firstn_skipn 19 l) at 1. f_equal.
    rewrite <- (firstn_skipn 1 (skipn 19 l)) at 1. f_equal.
    rewrite skipn_skipn. simpl (1 + 19).
    rewrite <- (firstn_skipn (n - 21) (skipn 20 l)) at 1. f_equal.
    rewrite skipn_skipn. f_equal. lia. }
  assert (H19 : length (firstn 19 l) = 19) by (rewrite length_firstn; lia).
  assert (H1 : length (firstn 1 (skipn 19 l)) = 1)
    by (rewrite length_firstn, length_skipn; lia).
  assert (Hmid : length (firstn (n - 21) (skipn 20 l)) = n - 21)
    by (rewrite length_firstn, length_skipn; lia).
  assert (Hlast : length (skipn (n - 1) l) = 1) by (rewrite length_skipn; lia).
  assert (Hall' : rendersAll (firstn 19 l ++ firstn 1 (skipn 19 l)
                              ++ firstn (n - 21) (skipn 20 l) ++ skipn (n - 1) l))
    by (rewrite <- Hsplit; exact Hall).
  unfold rendersAll in Hall'. rewrite !Forall_app in Hall'.
  destruct Hall' as (Ha & Hb & Hc & Hd).
  replace (mapi (authorString n) 0 l)
    with (mapi (authorString n) 0
               (firstn 19 l ++ firstn 1 (skipn 19 l)
                ++ firstn (n - 21) (skipn 20 l) ++ skipn (n - 1) l))
    by (rewrite <- Hsplit; reflexivity).
  rewrite !mapi_app, !filter_Boolean_app, H19, H1, Hmid. simpl (0 + 19).
  f_equal; [|f_equal].
  - apply authorStrings_plain; [exact Ha|].
    intros j Hj. rewrite H19 in Hj.
    replace (j =? 19) with false by (symmetry; apply Nat.eqb_neq; lia).
    replace (19 <? j) with false by (symmetry; apply Nat.ltb_ge; lia).
    rewrite !andb_false_r. split; reflexivity.
  - destruct (firstn 1 (skipn 19 l)) as [|x [|? ?]]; simpl in H1; try discriminate.
    simpl. unfold authorString.
    replace (20 <? n) with true by (symmetry; apply Nat.ltb_lt; lia).
    reflexivity.
  - rewrite authorStrings_dropped; [|lia|lia|rewrite Hmid; lia].
    simpl. apply authorStrings_plain; [exact Hd|].
    intros j Hj. rewrite Hlast in Hj.
    replace (j =? 19) with false by (symmetry; apply Nat.eqb_neq; lia).
    replace (j <? n - 1) with false by (symmetry; apply Nat.ltb_ge; lia).
    rewrite !andb_false_r. split; reflexivity.
Qed.

(** Three strings or more: all but the last joined by commas, then ", & "
    and the last. *)
Definition joinMany (strs : list jsstring) : jsstring :=
  join (js ", ") (removelast strs) ++ js ", & " ++ last strs [].

Lemma nth_error_last (strs : list jsstring) :
  strs <> [] -> nth_error strs (length strs - 1) = Some (last strs []).
Proof.
  induction strs as [|x [|y t] IH]; intros Hne; [congruence|reflexivity|].
  replace (length (x :: y :: t) - 1) with (S (length (y :: t) - 1)) by (simpl; lia).
  cbn [nth_error]. rewrite IH by discriminate. reflexivity.
Qed.

Lemma removelast_map {A B} (f : A -> B) (l : list A) :
  removelast (map f l) = map f (removelast l).
Proof.
  induction l as [|x [|y t] IH]; [reflexivity|reflexivity|].
  change (removelast (map f (x :: y :: t))) with (f x :: removelast (map f (y :: t))).
  rewrite IH. reflexivity.
Qed.

Lemma last_map {A B} (f : A -> B) (l : list A) (d : A) (d' : B) :
  l <> [] -> last (map f l) d' = f (last l d).
Proof.
  induction l as [|x [|y t] IH]; intros Hne; [congruence|reflexivity|].
  change (last (map f (x :: y :: t)) d') with (last (map f (y :: t)) d').
  rewrite IH by discriminate. reflexivity.
Qed.

Lemma authorsString_many l :
  3 <= length (authorStrings l) -> authorsString l = joinMany (authorStrings l).
Proof.
  unfold authorsString, joinMany. intros H.
  destruct (authorStrings l) as [|a [|b [|c t]]] eqn:E; simpl in H; try lia.
  rewrite nth_error_last by discriminate. reflexivity.
Qed.

(** C8 (as amended).  For a list of authors every one of whom is written
    as a non-empty string, the author part of [reconstructCitation] is:
    for one author, the author as written; for two, the two joined by
    ", & "; for 3 to 20, all but the last joined by ", " and then ", & "
    and the last; for more than 20, the first 19, the ellipsis "...",
    and the last author, joined in the same way. *)
Theorem authorsString_cases (l : list Author) (Hall : rendersAll l) :
  (forall a, l = [a] -> authorsString l = renderAuthor a)
  /\ (forall a b, l = [a; b] ->
                  authorsString l = renderAuthor a ++ js ", & " ++ renderAuthor b)
  /\ (3 <= length l <= 20 ->
      authorsString l
      = join (js ", ") (map renderAuthor (removelast l)) ++ js ", & "
        ++ renderAuthor (last l (Build_Author [] [] None)))
  /\ (20 < length l ->
      authorsString l
      = join (js ", ") (map renderAuthor (firstn 19 l) ++ [js "..."]) ++ js ", & "
        ++ renderAuthor (last l (Build_Author [] [] None))).
Proof.
  repeat split.
  - intros a ->. unfold authorsString. rewrite authorStrings_upto20 by (simpl; auto; lia).
    reflexivity.
  - intros a b ->. unfold authorsString. rewrite authorStrings_upto20 by (simpl; auto; lia).
    reflexivity.
  - intros [H3 H20].
    rewrite authorsString_many; rewrite authorStrings_upto20 by assumption;
      [|rewrite length_map; exact H3].
    unfold joinMany. rewrite removelast_map.
    assert (Hne : l <> []) by (destruct l; simpl in H3; [lia|discriminate]).
    rewrite (last_map renderAuthor l (Build_Author [] [] None) [] Hne). reflexivity.
  - intros H20.
    rewrite authorsString_many; rewrite authorStrings_over20 by assumption;
      [|rewrite !length_app, !length_map, length_firstn, length_skipn; cbn [length]; lia].
    unfold joinMany.
    assert (Hlast : skipn (length l - 1) l = [last l (Build_Author [] [] None)]).
    { assert (Hne : l <> []) by (destruct l; simpl in H20; [lia|discriminate]).
      rewrite (app_removelast_last (Build_Author [] [] None) Hne) at 2.
      rewrite skipn_app.
      assert (Hrl : length (removelast l) = length l - 1).
      { rewrite (app_removelast_last (Build_Author [] [] None) Hne) at 2.
        rewrite length_app. simpl. lia. }
      rewrite <- Hrl, skipn_all, Nat.sub_diag. reflexivity. }
    rewrite Hlast.
    assert (E : map renderAuthor (firstn 19 l) ++ [js "..."]
                ++ map renderAuthor [last l (Build_Author [] [] None)]
                = (map renderAuthor (firstn 19 l) ++ [js "..."])
                  ++ [renderAuthor (last l (Build_Author [] [] None))])
      by (rewrite <- app_assoc; reflexivity).
    rewrite E, removelast_last, last_last. reflexivity.
Qed.


Lemma authorsString_cases_witness :
  rendersAll [kim; lee]
  /\ authorsString [kim; lee] = js "Kim, B. Y., & Lee, S. H."
  /\ rendersAll (repeat kim 21)
  /\ authorsString (repeat kim 21)
     = join (js ", ") (repeat (js "Kim, B. Y.") 19 ++ [js "..."]) ++ js ", & Kim, B. Y.".
Proof.
  assert (H2 : rendersAll [kim; lee]) by (repeat constructor).
  assert (H21 : rendersAll (repeat kim 21)) by (repeat constructor).
  split; [exact H2|]. split.
  - destruct (authorsString_cases [kim; lee] H2) as (_ & Htwo & _).
    exact (Htwo kim lee eq_refl).
  - split; [exact H21|].
    destruct (authorsString_cases (repeat kim 21) H21) as (_ & _ & _ & Hmany).
    refine (eq_trans (Hmany _) _); [simpl; lia | reflexivity].
Defined.

(** C8, as stated, fails when an author is written as the empty string:
    a group author without a name is left out of the list, so two authors
    are not joined by ", & ". *)
Lemma authorsString_leaves_out_nameless :
  length [namelessGroup; kim] = 2
  /\ authorsString [namelessGroup; kim] = js "Kim, B. Y."
  /\ authorsString [namelessGroup; kim]
     <> renderAuthor namelessGroup ++ js ", & " ++ renderAuthor kim
  /\ reconstructCitation (set_authors [namelessGroup; kim] (emptyCitation []))
     = js "Kim, B. Y.".
Proof. repeat split; vm_compute; congruence. Qed.

(** ** DOI canonicalization                                             *)

(** C3.  Whatever the other fields of the citation, when its doi is
    "doi:10.1234/test", "10.1234/test" or "https://doi.org/10.1234/test."
    the fixes of [checkDOIFormat], applied by [applyAutoFixes], leave the
    working copy with the doi "https://doi.org/10.1234/test", and that is
    the fixed value the applied fix reports. *)
Theorem doi_canonicalization (c : ParsedCitation) :
  Forall (fun d =>
            let c' := set_doi (Some d) c in
            doi (fixedCitation (applyFixes c' (checkDOIFormat c')))
            = Some (js "https://doi.org/10.1234/test")
            /\ map AutoFix.fixed (resultAutoFixes (applyAutoFixes c' (checkDOIFormat c')))
               = [js "https://doi.org/10.1234/test"])
         [js "doi:10.1234/test"; js "10.1234/test"; js "https://doi.org/10.1234/test."].
Proof. repeat constructor; vm_compute; reflexivity. Qed.

(** A fourth form, outside C3: a bare doi that ends in a period, which is
    what [parseCitation] stores for a citation ending in
    "https://doi.org/10.1234/test.".  [checkDOIFormat] reports two violations,
    each suggesting a repair of the original value; the fixes are applied one
    after the other to the same field, and the second one, which only adds the
    resolver, puts the period back. *)
Remark bare_doi_with_period :
  let text := js "Author, A. (2024). Title. Journal, 1(1), 1–10. https://doi.org/10.1234/test." in
  let c := parseCitation text in
  doi c = Some (js "10.1234/test.")
  /\ map ValidationError.suggested (checkDOIFormat c)
     = [Some (js "10.1234/test"); Some (js "https://doi.org/10.1234/test.")]
  /\ doi (fixedCitation (applyFixes c (checkDOIFormat c)))
     = Some (js "https://doi.org/10.1234/test.").
Proof. repeat split; vm_compute; reflexivity. Qed.

(** ** The auto-fixable flag and the suggestion                         *)

(** A violation of a rule other than "ampersand" that is flagged
    auto-fixable carries a suggestion; a violation of the rule
    "ampersand" is flagged auto-fixable and carries none (its fix is made
    when the author list is written again). *)
Definition agrees (e : ValidationError.t) : bool :=
  if str_eqb (ValidationError.rule e) (js "ampersand")
  then ValidationError.autoFixable e && negb (is_some (ValidationError.suggested e))
  else implb (ValidationError.autoFixable e) (is_some (ValidationError.suggested e)).

Lemma agrees_other r f m sev o s a :
  str_eqb r (js "ampersand") = false ->
  (a = true -> is_some s = true) ->
  forallb agrees [violation r f m sev o s a] = true.
Proof.
  intros Hr Ha. unfold agrees, violation; simpl. rewrite Hr.
  destruct a; [rewrite Ha by reflexivity|]; reflexivity.
Qed.

Lemma agrees_ampersand f m sev o :
  forallb agrees [violation (js "ampersand") f m sev o None true] = true.
Proof. reflexivity. Qed.

Ltac agrees_step :=
  match goal with
  | |- forallb agrees [] = true => reflexivity
  | |- forallb agrees (_ ++ _) = true =>
    rewrite forallb_app; apply andb_true_intro; split
  | |- forallb agrees (if ?b then _ else _) = true => destruct b
  | |- forallb agrees (match ?o with Some _ => _ | None => _ end) = true => destruct o
  | |- forallb agrees [violation (js "ampersand") _ _ _ _ None true] = true =>
    apply agrees_ampersand
  | |- forallb agrees [violation _ _ _ _ _ _ _] = true =>
    apply agrees_other;
    [vm_compute; reflexivity | intros Hflag; first [reflexivity | discriminate Hflag]]
  end.

Ltac agrees_rule := intros; cbv zeta; repeat agrees_step.

Lemma checkAuthor_agrees i a : forallb agrees (checkAuthor i a) = true.
Proof. unfold checkAuthor. agrees_rule. Qed.

Lemma checkAuthorFormat_agrees c : forallb agrees (checkAuthorFormat c) = true.
Proof.
  unfold checkAuthorFormat. generalize 0 as i.
  induction (authors c) as [|a l IH]; intros i; [reflexivity|].
  cbn [forEach_author]. rewrite forallb_app, checkAuthor_agrees, IH. reflexivity.
Qed.

Lemma checkYearFormat_agrees c : forallb agrees (checkYearFormat c) = true.
Proof. unfold checkYearFormat. agrees_rule. Qed.

Lemma checkTitleCase_agrees c : forallb agrees (checkTitleCase c) = true.
Proof. unfold checkTitleCase. agrees_rule. Qed.

Lemma checkDOIPresence_agrees c : forallb agrees (checkDOIPresence c) = true.
Proof. unfold checkDOIPresence. agrees_rule. Qed.

Lemma checkDOIFormat_agrees c : forallb agrees (checkDOIFormat c) = true.
Proof. unfold checkDOIFormat. agrees_rule. Qed.

Lemma checkVolumeIssueFormat_agrees c : forallb agrees (checkVolumeIssueFormat c) = true.
Proof. unfold checkVolumeIssueFormat. agrees_rule. Qed.

Lemma checkPageFormat_agrees c : forallb agrees (checkPageFormat c) = true.
Proof. unfold checkPageFormat. agrees_rule. Qed.

Lemma checkAmpersand_agrees c : forallb agrees (checkAmpersand c) = true.
Proof. unfold checkAmpersand. agrees_rule. Qed.

Lemma checkJournalNameCase_agrees c : forallb agrees (checkJournalNameCase c) = true.
Proof. unfold checkJournalNameCase. agrees_rule. Qed.

Lemma checkConferenceNameCase_agrees c : forallb agrees (checkConferenceNameCase c) = true.
Proof. unfold checkConferenceNameCase. agrees_rule. Qed.

Lemma checkChapterEditors_agrees c : forallb agrees (checkChapterEditors c) = true.
Proof. unfold checkChapterEditors. agrees_rule. Qed.

Lemma checkTerminalPeriod_agrees c : forallb agrees (checkTerminalPeriod c) = true.
Proof. unfold checkTerminalPeriod. agrees_rule. Qed.

Lemma checkFullDateRequired_agrees c : forallb agrees (checkFullDateRequired c) = true.
Proof. unfold checkFullDateRequired. agrees_rule. Qed.

Lemma checkPublisherRequired_agrees c : forallb agrees (checkPublisherRequired c) = true.
Proof. unfold checkPublisherRequired. agrees_rule. Qed.

Lemma checkEditionFormat_agrees c : forallb agrees (checkEditionFormat c) = true.
Proof. unfold checkEditionFormat. agrees_rule. Qed.

Lemma checkPublisherLocation_agrees c : forallb agrees (checkPublisherLocation c) = true.
Proof. unfold checkPublisherLocation. agrees_rule. Qed.

Lemma checkInPrefix_agrees c : forallb agrees (checkInPrefix c) = true.
Proof. unfold checkInPrefix. agrees_rule. Qed.

Lemma checkBracketType_agrees c : forallb agrees (checkBracketType c) = true.
Proof. unfold checkBracketType. agrees_rule. Qed.

Lemma checkConferenceInfo_agrees c : forallb agrees (checkConferenceInfo c) = true.
Proof. unfold checkConferenceInfo. agrees_rule. Qed.

Lemma checkDissertationInfo_agrees c : forallb agrees (checkDissertationInfo c) = true.
Proof. unfold checkDissertationInfo. agrees_rule. Qed.

Lemma checkReportNumber_agrees c : forallb agrees (checkReportNumber c) = true.
Proof. unfold checkReportNumber. agrees_rule. Qed.

Definition Agrees (e : ValidationError.t) : Prop :=
  (ValidationError.rule e <> js "ampersand" ->
   ValidationError.autoFixable e = true -> ValidationError.suggested e <> None)
  /\ (ValidationError.rule e = js "ampersand" ->
      ValidationError.autoFixable e = true /\ ValidationError.suggested e = None).

Lemma agrees_Agrees e : agrees e = true -> Agrees e.
Proof.
  unfold agrees, Agrees.
  destruct (str_eqb_spec (ValidationError.rule e) (js "ampersand")) as [Hr|Hr]; intros H.
  - split; [congruence|]. intros _.
    apply andb_true_iff in H. destruct H as [Ha Hs]. split; [exact Ha|].
    destruct (ValidationError.suggested e); [discriminate|reflexivity].
  - split; [|congruence]. intros _ Ha. rewrite Ha in H.
    destruct (ValidationError.suggested e); [discriminate|discriminate].
Qed.

Lemma forallb_Agrees l : forallb agrees l = true -> Forall Agrees l.
Proof.
  intros H. apply Forall_forall. intros e He.
  apply agrees_Agrees. rewrite forallb_forall in H. apply H, He.
Qed.

(** C2 (as amended).  For every citation and every rule of the full rule
    set, every violation emitted with a rule identifier other than
    "ampersand" and flagged auto-fixable carries a suggested value, and
    every violation of the rule "ampersand" is flagged auto-fixable
    without carrying one. *)
Theorem flag_and_suggestion_agree (c : ParsedCitation) :
  Forall (fun r => Forall Agrees (r c)) ALL_RULES
  /\ Forall Agrees (runRules ALL_RULES c).
Proof.
  assert (H : Forall (fun r : ValidationRule => forallb agrees (r c) = true) ALL_RULES).
  { unfold ALL_RULES, ROUTED_RULES; cbn [map rule].
    repeat (apply Forall_cons; [shelve|]); apply Forall_nil.
    Unshelve.
    all: [> exact (checkAuthorFormat_agrees c) | exact (checkYearFormat_agrees c)
          | exact (checkTitleCase_agrees c) | exact (checkDOIFormat_agrees c)
          | exact (checkAmpersand_agrees c) | exact (checkTerminalPeriod_agrees c)
          | exact (checkDOIPresence_agrees c) | exact (checkVolumeIssueFormat_agrees c)
          | exact (checkJournalNameCase_agrees c) | exact (checkPageFormat_agrees c)
          | exact (checkConferenceNameCase_agrees c) | exact (checkChapterEditors_agrees c)
          | exact (checkInPrefix_agrees c) | exact (checkPublisherRequired_agrees c)
          | exact (checkEditionFormat_agrees c) | exact (checkPublisherLocation_agrees c)
          | exact (checkFullDateRequired_agrees c) | exact (checkConferenceInfo_agrees c)
          | exact (checkBracketType_agrees c) | exact (checkDissertationInfo_agrees c)
          | exact (checkReportNumber_agrees c) ]. }
  split.
  - apply Forall_forall. intros r Hr. apply forallb_Agrees.
    rewrite Forall_forall in H. apply H, Hr.
  - apply forallb_Agrees. unfold runRules.
    induction H as [|r rules Hr _ IH]; [reflexivity|].
    cbn [flat_map]. rewrite forallb_app, Hr, IH. reflexivity.
Qed.

(** A citation whose author block joins two authors with "and". *)
Definition andCitation : ParsedCitation :=
  parseCitation (js "Smith, J. and Lee, S. (2024). Title. Journal, 1(1), 1-10.").

(** C2, as stated, fails: [checkAmpersand], a rule of the full rule set,
    emits for this parsed citation a violation that is flagged
    auto-fixable and has no suggested value. *)
Lemma ampersand_flagged_without_suggestion :
  In checkAmpersand ALL_RULES
  /\ exists e, In e (checkAmpersand andCitation)
               /\ ValidationError.autoFixable e = true
               /\ ValidationError.suggested e = None.
Proof.
  split.
  - unfold ALL_RULES, ROUTED_RULES; cbn [map rule]. do 4 right. left. reflexivity.
  - eexists. split; [vm_compute; left; reflexivity|]. split; reflexivity.
Qed.

(** ** The parser's fallback                                            *)

Definition fallbackCitation (raw : jsstring) : ParsedCitation :=
  set_title raw (emptyCitation raw).

(** C4 (as amended).  [parseCitation] never raises: the guarded
    computation ends normally for every input, a throw inside it being
    caught.  For every input in which no parenthesized year token is
    found, the result is the fallback record: its title is the whole
    input with the white space at both ends removed (the record's raw
    text), its authors sequence is empty, its year and source are empty
    and its type is "unknown". *)
Theorem parseCitation_total_fallback (text : jsstring) :
  fst (parseCitation_run text) = Normal tt
  /\ (exec yearRegex (trim text) = None ->
      parseCitation text = fallbackCitation (trim text)
      /\ title (parseCitation text) = trim text
      /\ raw (parseCitation text) = trim text
      /\ authors (parseCitation text) = []
      /\ year (parseCitation text) = []
      /\ source (parseCitation text) = []
      /\ type (parseCitation text) = unknown).
Proof.
  split.
  - unfold parseCitation_run, try_catch.
    destruct (parseCitation_body (trim text) (emptyCitation (trim text))) as [[[]|] c];
      reflexivity.
  - intros H.
    assert (E : parseCitation text = fallbackCitation (trim text)).
    { unfold parseCitation, parseCitation_run, try_catch, parseCitation_body.
      rewrite H. reflexivity. }
    rewrite E. repeat split.
Qed.

Definition noYearText : jsstring := js "This is just some random text without a year.".

Lemma parseCitation_total_fallback_witness :
  exec yearRegex (trim noYearText) = None
  /\ title (parseCitation noYearText) = noYearText
  /\ type (parseCitation noYearText) = unknown.
Proof.
  assert (H : exec yearRegex (trim noYearText) = None) by (vm_compute; reflexivity).
  split; [exact H|].
  destruct (parseCitation_total_fallback noYearText) as [_ Hf].
  destruct (Hf H) as (_ & Ht & _ & _ & _ & _ & Hty).
  split; [exact Ht | exact Hty].
Defined.

(** C4, as stated, fails on an input with white space at an end: no year
    token is found and the title is the trimmed input, not the whole one. *)
Lemma fallback_title_is_trimmed :
  exec yearRegex (trim (js " no year")) = None
  /\ title (parseCitation (js " no year")) = js "no year"
  /\ title (parseCitation (js " no year")) <> js " no year".
Proof. repeat split; vm_compute; congruence. Qed.

(** ** Ordered source patterns                                          *)

Definition journalText : jsstring :=
  js "Kim, B. Y., & Lee, S. H. (2024). The impact of AI on education. Journal of Educational Technology, 45(2), 123-145.".

Definition chapterText : jsstring :=
  js "Author, A. (2023). Chapter title. In Book Title (pp. 20-31). Publisher.".

(** Which of the eight patterns match a source segment, in order. *)
Definition matching_patterns (sourceSegment : jsstring) : list bool :=
  map (fun p => is_some (exec (fst p) sourceSegment)) SOURCE_PATTERNS.

(** The type a citation gets from the patterns after the first [n]. *)
Definition type_from (n : nat) (sourceSegment : jsstring) : CitationType :=
  type (snd (try_source_patterns (skipn n SOURCE_PATTERNS) sourceSegment
                                 (emptyCitation []))).

(** C5.  The journal text parses to type "journal" with exactly 2
    authors, volume "45", issue "2" and pages "123-145"; the chapter text
    parses to type "chapter" with a source that contains "In" and pages
    "20-31".  The chapter segment is matched by the second and third
    (chapter) patterns and also by the last (journal) pattern, which
    alone would make it a journal: the first match wins.  The journal
    segment is matched by the last two patterns, the one with the issue
    first. *)
Theorem ordered_source_patterns :
  (type (parseCitation journalText) = journal
   /\ length (authors (parseCitation journalText)) = 2
   /\ volume (parseCitation journalText) = Some (js "45")
   /\ issue (parseCitation journalText) = Some (js "2")
   /\ pages (parseCitation journalText) = Some (js "123-145"))
  /\ (type (parseCitation chapterText) = chapter
      /\ includes (source (parseCitation chapterText)) (js "In") = true
      /\ source (parseCitation chapterText) = js "In Book Title"
      /\ pages (parseCitation chapterText) = Some (js "20-31"))
  /\ (matching_patterns (js "In Book Title (pp. 20-31). Publisher.")
      = [false; true; true; false; false; false; false; true]
      /\ type_from 0 (js "In Book Title (pp. 20-31). Publisher.") = chapter
      /\ type_from 3 (js "In Book Title (pp. 20-31). Publisher.") = journal)
  /\ matching_patterns (js "Journal of Educational Technology, 45(2), 123-145.")
     = [false; false; false; false; false; false; true; true].
Proof. repeat split; vm_compute; reflexivity. Qed.

(** ** The quantifier's iteration bound                                  *)

(** [k] and [k'] agree wherever a matcher started on [rest] at [pos] can
    resume: on a suffix no longer than [rest], at the position that goes
    with it. *)
Definition agree_from (rest : jsstring) (pos : nat) (k k' : cont) : Prop :=
  forall rest' pos' cs',
    length rest' <= length rest ->
    pos' + length rest' = pos + length rest ->
    k rest' pos' cs' = k' rest' pos' cs'.

(** A matcher that only moves forward does not tell such continuations
    apart. *)
Definition advances (ma : matcher) : Prop :=
  forall rest pos cs k k',
    agree_from rest pos k k' -> ma rest pos cs k = ma rest pos cs k'.

Lemma agree_from_later rest pos k k' rest' pos' :
  agree_from rest pos k k' ->
  length rest' <= length rest ->
  pos' + length rest' = pos + length rest ->
  agree_from rest' pos' k k'.
Proof.
  intros H Hl Hp rest'' pos'' cs'' Hl' Hp'. apply H; lia.
Qed.

Section QuantifierFuel.

Variable ma : matcher.
Variable inner : list nat.
Variable greedy : bool.
Variable mn : nat.
Variable mx : option nat.
Hypothesis Hma : advances ma.

Lemma quant_loop_advances fuel : forall cnt,
  advances (fun rest pos cs k =>
              quant_loop ma inner greedy mn mx k fuel cnt rest pos cs).
Proof.
  induction fuel as [|fuel IH]; intros cnt rest pos cs k k' Hk; simpl.
  - reflexivity.
  - assert (Hstep : forall guard : bool,
      ma rest pos (cap_clear inner cs)
         (fun rest' pos' cs' =>
            if guard && (pos' =? pos) then None
            else quant_loop ma inner greedy mn mx k fuel (S cnt) rest' pos' cs')
      = ma rest pos (cap_clear inner cs)
         (fun rest' pos' cs' =>
            if guard && (pos' =? pos) then None
            else quant_loop ma inner greedy mn mx k' fuel (S cnt) rest' pos' cs')).
    { intros guard. apply Hma. intros rest' pos' cs' Hl Hp.
      destruct (guard && (pos' =? pos)); [reflexivity|].
      apply (IH (S cnt)). exact (agree_from_later _ _ _ _ _ _ Hk Hl Hp). }
    assert (Hhere : k rest pos cs = k' rest pos cs) by (apply Hk; lia).
    destruct (cnt <? mn).
    + exact (Hstep false).
    + destruct (negb (under_max cnt mx)); [exact Hhere|].
      pose proof (Hstep true) as Ht. cbn [andb] in Ht.
      destruct greedy; rewrite Ht, Hhere; reflexivity.
Qed.

(** Past [mn - cnt + length rest] the counter makes no difference: the
    mandatory iterations use up [mn - cnt] entries and every other one
    shortens the input. *)
Lemma quant_loop_fuel (k : cont) : forall fuel fuel' cnt rest pos cs,
  mn - cnt + length rest < fuel ->
  mn - cnt + length rest < fuel' ->
  quant_loop ma inner greedy mn mx k fuel cnt rest pos cs
  = quant_loop ma inner greedy mn mx k fuel' cnt rest pos cs.
Proof.
  induction fuel as [|fuel IH]; intros fuel' cnt rest pos cs H1 H2; [lia|].
  destruct fuel' as [|fuel']; [lia|]. simpl.
  destruct (cnt <? mn) eqn:Hcnt.
  - apply Nat.ltb_lt in Hcnt. apply Hma. intros rest' pos' cs' Hl Hp.
    apply IH; lia.
  - apply Nat.ltb_ge in Hcnt.
    assert (Hstep :
      ma rest pos (cap_clear inner cs)
         (fun rest' pos' cs' =>
            if pos' =? pos then None
            else quant_loop ma inner greedy mn mx k fuel (S cnt) rest' pos' cs')
      = ma rest pos (cap_clear inner cs)
         (fun rest' pos' cs' =>
            if pos' =? pos then None
            else quant_loop ma inner greedy mn mx k fuel' (S cnt) rest' pos' cs')).
    { apply Hma. intros rest' pos' cs' Hl Hp.
      destruct (pos' =? pos) eqn:Hpos; [reflexivity|].
      apply Nat.eqb_neq in Hpos. apply IH; lia. }
    rewrite Hstep. reflexivity.
Qed.

End QuantifierFuel.

Lemma rmatch_advances (ci : bool) (r : regex) : advances (rmatch ci r).
Proof.
  induction r as [ | c | | neg items | a IHa b IHb | a IHa b IHb
                   | g mn mx a IHa | i a IHa | | ];
    intros rest pos cs k k' Hk; cbn [rmatch].
  - apply Hk; lia.
  - destruct rest as [|x t]; [reflexivity|].
    destruct (canon ci x =? canon ci c)%N; [|reflexivity].
    apply Hk; simpl; lia.
  - destruct rest as [|x t]; [reflexivity|].
    destruct (is_line_terminator x); [reflexivity|].
    apply Hk; simpl; lia.
  - destruct rest as [|x t]; [reflexivity|].
    destruct (class_match ci neg items x); [|reflexivity].
    apply Hk; simpl; lia.
  - apply IHa. intros rest' pos' cs' Hl Hp. apply IHb.
    exact (agree_from_later _ _ _ _ _ _ Hk Hl Hp).
  - rewrite (IHa _ _ _ _ _ Hk), (IHb _ _ _ _ _ Hk). reflexivity.
  - apply (quant_loop_advances _ _ _ _ _ IHa). exact Hk.
  - apply IHa. intros rest' pos' cs' Hl Hp. apply Hk; assumption.
  - destruct (pos =? 0); [apply Hk; lia | reflexivity].
  - destruct rest; [apply Hk; lia | reflexivity].
Qed.

(** The bound built into [rmatch] is never the reason a quantifier stops:
    any larger one gives the same result. *)
Theorem quantifier_bound_suffices (ci greedy : bool) (mn : nat) (mx : option nat)
        (a : regex) (fuel : nat) (rest : jsstring) (pos : nat) (cs : caps) (k : cont) :
  mn + length rest < fuel ->
  quant_loop (rmatch ci a) (groups_of a) greedy mn mx k fuel 0 rest pos cs
  = rmatch ci (RQuant greedy mn mx a) rest pos cs k.
Proof.
  intros Hfuel. cbn [rmatch].
  apply quant_loop_fuel; [apply rmatch_advances | lia | lia].
Qed.

(** ** What a match of a pattern is                                     *)

(** The strings a pattern can consume (the positions that the anchors
    test and the upper bound of a counted repetition are not recorded). *)
#[warnings="-register-all"]
Inductive Matches (ci : bool) : regex -> jsstring -> Prop :=
| M_empty : Matches ci REmpty []
| M_char c x : canon ci x = canon ci c -> Matches ci (RChar c) [x]
| M_any x : is_line_terminator x = false -> Matches ci RAny [x]
| M_class neg items x :
    class_match ci neg items x = true -> Matches ci (RClass neg items) [x]
| M_seq a b u v : Matches ci a u -> Matches ci b v -> Matches ci (RSeq a b) (u ++ v)
| M_alt_l a b u : Matches ci a u -> Matches ci (RAlt a b) u
| M_alt_r a b u : Matches ci b u -> Matches ci (RAlt a b) u
| M_quant g mn mx a ws :
    Forall (Matches ci a) ws -> mn <= length ws ->
    Matches ci (RQuant g mn mx a) (concat ws)
| M_group i a u : Matches ci a u -> Matches ci (RGroup i a) u
| M_bol : Matches ci RBol []
| M_eol : Matches ci REol [].

(** [RGroup i a] occurs in [r]. *)
Fixpoint In_group (r : regex) (i : nat) (a : regex) : Prop :=
  match r with
  | RSeq x y | RAlt x y => In_group x i a \/ In_group y i a
  | RQuant _ _ _ x => In_group x i a
  | RGroup j x => (j = i /\ x = a) \/ In_group x i a
  | _ => False
  end.

Section MatcherSoundness.

Variable ci : bool.
(** What the captures are known to hold. *)
Variable G : nat -> jsstring -> Prop.

Definition caps_ok (cs : caps) : Prop := forall i v, In (i, v) cs -> G i v.

Definition sound_matcher (r : regex) (ma : matcher) : Prop :=
  forall rest pos cs k res,
    caps_ok cs -> ma rest pos cs k = Some res ->
    exists w rest' cs',
      rest = w ++ rest' /\ Matches ci r w /\ caps_ok cs'
      /\ k rest' (pos + length w) cs' = Some res.

Lemma cap_clear_ok gs cs : caps_ok cs -> caps_ok (cap_clear gs cs).
Proof.
  unfold caps_ok, cap_clear. intros H i v Hin.
  destruct gs; [auto|]. apply filter_In in Hin. apply H, Hin.
Qed.

Lemma quant_loop_sound a ma inner greedy mn mx k :
  sound_matcher a ma ->
  forall fuel cnt rest pos cs res,
    caps_ok cs ->
    quant_loop ma inner greedy mn mx k fuel cnt rest pos cs = Some res ->
    exists ws rest' cs',
      rest = concat ws ++ rest' /\ Forall (Matches ci a) ws
      /\ mn <= cnt + length ws /\ caps_ok cs'
      /\ k rest' (pos + length (concat ws)) cs' = Some res.
Proof.
  intros Hma.
  assert (Hiter : forall fuel' cnt rest pos cs res,
             (forall cnt rest pos cs res,
                 caps_ok cs ->
                 quant_loop ma inner greedy mn mx k fuel' cnt rest pos cs = Some res ->
                 exists ws rest' cs',
                   rest = concat ws ++ rest' /\ Forall (Matches ci a) ws
                   /\ mn <= cnt + length ws /\ caps_ok cs'
                   /\ k rest' (pos + length (concat ws)) cs' = Some res) ->
             caps_ok cs ->
             forall (guard : bool),
             ma rest pos (cap_clear inner cs)
                (fun rest' pos' cs' =>
                   if guard && (pos' =? pos) then None
                   else quant_loop ma inner greedy mn mx k fuel' (S cnt) rest' pos' cs')
             = Some res ->
             exists ws rest' cs',
               rest = concat ws ++ rest' /\ Forall (Matches ci a) ws
               /\ mn <= cnt + length ws /\ caps_ok cs'
               /\ k rest' (pos + length (concat ws)) cs' = Some res).
  { intros fuel' cnt rest pos cs res IH Hcs guard Hm.
    destruct (Hma _ _ _ _ _ (cap_clear_ok inner cs Hcs) Hm)
      as (w & rest1 & cs1 & -> & Hw & Hcs1 & Hk).
    destruct (guard && (pos + length w =? pos)); [discriminate|].
    destruct (IH _ _ _ _ _ Hcs1 Hk) as (ws & rest' & cs' & -> & Hws & Hn & Hcs' & Hk').
    exists (w :: ws), rest', cs'. cbn [concat length].
    repeat split.
    - rewrite app_assoc. reflexivity.
    - constructor; assumption.
    - lia.
    - exact Hcs'.
    - rewrite length_app, Nat.add_assoc. exact Hk'. }
  induction fuel as [|fuel' IH]; intros cnt rest pos cs res Hcs H; [discriminate|].
  cbn [quant_loop] in H.
  destruct (cnt <? mn) eqn:Hlt.
  - apply (Hiter fuel' cnt rest pos cs res IH Hcs false). exact H.
  - apply Nat.ltb_ge in Hlt.
    assert (Hexit : k rest pos cs = Some res ->
                    exists ws rest' cs',
                      rest = concat ws ++ rest' /\ Forall (Matches ci a) ws
                      /\ mn <= cnt + length ws /\ caps_ok cs'
                      /\ k rest' (pos + length (concat ws)) cs' = Some res).
    { intros Hk. exists [], rest, cs. cbn [concat length app].
      rewrite !Nat.add_0_r. repeat split; auto. }
    destruct (negb (under_max cnt mx)); [apply Hexit, H|].
    destruct greedy.
    + destruct (ma rest pos (cap_clear inner cs) _) as [res'|] eqn:Hm.
      * inversion H; subst res'.
        apply (Hiter fuel' cnt rest pos cs res IH Hcs true). exact Hm.
      * apply Hexit, H.
    + destruct (k rest pos cs) as [res'|] eqn:Hk.
      * inversion H; subst res'. apply Hexit. reflexivity.
      * apply (Hiter fuel' cnt rest pos cs res IH Hcs true). exact H.
Qed.

Lemma rmatch_sound : forall r,
  (forall i a w, In_group r i a -> Matches ci a w -> G i w) ->
  sound_matcher r (rmatch ci r).
Proof.
  induction r as [|c| |neg items|a IHa b IHb|a IHa b IHb|g mn mx a IHa|i a IHa| |];
    intros Hg rest pos cs k res Hcs H; cbn [rmatch] in H.
  - exists [], rest, cs. rewrite Nat.add_0_r. repeat split; auto. constructor.
  - destruct rest as [|x t]; [discriminate|].
    destruct (canon ci x =? canon ci c)%N eqn:E; [|discriminate].
    exists [x], t, cs. rewrite Nat.add_1_r. repeat split; auto.
    constructor. apply N.eqb_eq, E.
  - destruct rest as [|x t]; [discriminate|].
    destruct (is_line_terminator x) eqn:E; [discriminate|].
    exists [x], t, cs. rewrite Nat.add_1_r. repeat split; auto. constructor. exact E.
  - destruct rest as [|x t]; [discriminate|].
    destruct (class_match ci neg items x) eqn:E; [|discriminate].
    exists [x], t, cs. rewrite Nat.add_1_r. repeat split; auto. constructor. exact E.
  - destruct (IHa (fun i x w Hi => Hg i x w (or_introl Hi)) _ _ _ _ _ Hcs H)
      as (u & rest1 & cs1 & -> & Hu & Hcs1 & Hk).
    destruct (IHb (fun i x w Hi => Hg i x w (or_intror Hi)) _ _ _ _ _ Hcs1 Hk)
      as (v & rest2 & cs2 & -> & Hv & Hcs2 & Hk2).
    exists (u ++ v), rest2, cs2. repeat split; auto.
    + rewrite app_assoc. reflexivity.
    + constructor; assumption.
    + rewrite length_app, Nat.add_assoc. exact Hk2.
  - destruct (rmatch ci a rest pos cs k) as [res'|] eqn:Ha.
    + inversion H; subst res'.
      destruct (IHa (fun i x w Hi => Hg i x w (or_introl Hi)) _ _ _ _ _ Hcs Ha)
        as (u & rest1 & cs1 & -> & Hu & Hcs1 & Hk).
      exists u, rest1, cs1. repeat split; auto. apply M_alt_l, Hu.
    + destruct (IHb (fun i x w Hi => Hg i x w (or_intror Hi)) _ _ _ _ _ Hcs H)
        as (u & rest1 & cs1 & -> & Hu & Hcs1 & Hk).
      exists u, rest1, cs1. repeat split; auto. apply M_alt_r, Hu.
  - destruct (quant_loop_sound a (rmatch ci a) (groups_of a) g mn mx k
                               (IHa (fun i x w Hi => Hg i x w Hi))
                               _ _ _ _ _ _ Hcs H)
      as (ws & rest' & cs' & -> & Hws & Hn & Hcs' & Hk).
    exists (concat ws), rest', cs'. repeat split; auto.
    apply M_quant; [exact Hws | exact Hn].
  - destruct (IHa (fun j x w Hi => Hg j x w (or_intror Hi)) _ _ _ _ _ Hcs H)
      as (u & rest1 & cs1 & -> & Hu & Hcs1 & Hk).
    exists u, rest1, ((i, u) :: cs1).
    replace (firstn (pos + length u - pos) (u ++ rest1)) with u in Hk.
    2:{ replace (pos + length u - pos) with (length u + 0) by lia.
        rewrite firstn_app_2. cbn [firstn]. rewrite app_nil_r. reflexivity. }
    repeat split; auto.
    + constructor. exact Hu.
    + intros j v [E|Hin]; [|apply Hcs1, Hin].
      inversion E; subst. apply (Hg j a v); [left; auto | exact Hu].
  - destruct (pos =? 0); [|discriminate].
    exists [], rest, cs. rewrite Nat.add_0_r. repeat split; auto. constructor.
  - destruct rest; [|discriminate].
    exists [], [], cs. rewrite Nat.add_0_r. repeat split; auto. constructor.
Qed.

End MatcherSoundness.

(** Every defined group of a match holds a string that the body of that
    group can consume. *)
Definition groups_ok (re : RegExp) (m : MatchResult) : Prop :=
  forall j v, group m (S j) = Some v ->
              exists a, In_group (re_ast re) (S j) a /\ Matches (re_icase re) a v.

Lemma cap_lookup_In i cs v : cap_lookup i cs = Some v -> In (i, v) cs.
Proof.
  induction cs as [|[j w] cs IH]; [discriminate|]. cbn [cap_lookup].
  destruct (Nat.eqb_spec i j) as [->|_]; intros H.
  - inversion H; subst. left; reflexivity.
  - right. apply IH, H.
Qed.

Lemma nth_error_map_seq {A} (f : nat -> A) n : forall s j x,
  nth_error (map f (seq s n)) j = Some x -> x = f (s + j).
Proof.
  induction n as [|n IH]; intros s j x H; [destruct j; discriminate|].
  destruct j as [|j]; cbn in H.
  - inversion H. rewrite Nat.add_0_r. reflexivity.
  - apply IH in H. rewrite H. f_equal. lia.
Qed.

Lemma match_here_groups re rest pos m : match_here re rest pos = Some m -> groups_ok re m.
Proof.
  unfold match_here. intros H.
  destruct (rmatch (re_icase re) (re_ast re) rest pos []
                   (fun _ pos' cs => Some (pos', cs))) as [[pos' cs]|] eqn:E;
    [|discriminate].
  inversion H; subst m; clear H.
  destruct (rmatch_sound (re_icase re)
              (fun i v => exists a, In_group (re_ast re) i a /\ Matches (re_icase re) a v)
              (re_ast re) (fun i a w Hi Hw => ex_intro _ a (conj Hi Hw))
              rest pos [] _ _ (fun i v (F : In (i, v) []) => match F with end) E)
    as (w & rest' & cs' & _ & _ & Hcs & Hk).
  inversion Hk; subst cs'.
  intros j v Hj. cbn [group m_groups] in Hj.
  destruct (nth_error (map (fun i => cap_lookup i cs) (seq 1 (re_groups re))) j)
    as [g|] eqn:En; [|discriminate].
  subst g. apply nth_error_map_seq in En.
  apply Hcs, cap_lookup_In. symmetry. exact En.
Qed.

Lemma search_groups re rest : forall pos m, search re rest pos = Some m -> groups_ok re m.
Proof.
  induction rest as [|x t IH]; intros pos m H; cbn [search] in H.
  - destruct (match_here re [] pos) eqn:E; [|discriminate].
    inversion H; subst. eapply match_here_groups, E.
  - destruct (match_here re (x :: t) pos) eqn:E.
    + inversion H; subst. eapply match_here_groups, E.
    + eapply IH, H.
Qed.

Lemma match_all_from_groups re fuel : forall rest pos,
  Forall (groups_ok re) (match_all_from fuel re rest pos).
Proof.
  induction fuel as [|fuel IH]; intros rest pos; cbn [match_all_from]; [constructor|].
  destruct (search re rest pos) as [m|] eqn:E; [|constructor].
  constructor; [eapply search_groups, E|].
  destruct (length rest + pos <? _); [constructor | apply IH].
Qed.

Lemma match_all_groups re s : Forall (groups_ok re) (match_all re s).
Proof. apply match_all_from_groups. Qed.

(** ** Normalized initials                                              *)

(** The canonical form "X. Y.": capital letters, each followed by a
    period, separated by single spaces. *)
Definition canonicalInitials (s : jsstring) : Prop :=
  exists letters,
    letters <> [] /\ Forall (fun c => is_upper c = true) letters
    /\ s = join (js " ") (map (fun c => [c; ch "."]) letters).

Definition capitalsRegex : RegExp := regexp "[A-Z]" "g".

Lemma capitals_here rest pos :
  match_here capitalsRegex rest pos
  = match rest with
    | x :: t =>
      if is_upper x
      then Some {| m_index := pos; m_whole := [x]; m_groups := [] |}
      else None
    | [] => None
    end.
Proof.
  unfold match_here.
  change (re_icase capitalsRegex) with false.
  change (re_ast capitalsRegex) with (RClass false [CRange 65%N 90%N]).
  change (re_groups capitalsRegex) with 0.
  cbn [rmatch seq map]. destruct rest as [|x t]; [reflexivity|].
  unfold class_match, item_match, item_test; cbn [existsb xorb andb].
  rewrite !orb_false_r. fold (is_upper x). destruct (is_upper x); [|reflexivity].
  replace (S pos - pos) with 1 by lia. reflexivity.
Qed.

Lemma capitals_search rest : forall pos,
  match search capitalsRegex rest pos with
  | Some m =>
    exists pre x post,
      rest = pre ++ x :: post /\ filter is_upper pre = [] /\ is_upper x = true
      /\ m_whole m = [x] /\ m_index m = pos + length pre
  | None => filter is_upper rest = []
  end.
Proof.
  induction rest as [|x t IH]; intros pos; cbn [search]; rewrite capitals_here.
  - reflexivity.
  - destruct (is_upper x) eqn:E.
    + exists [], x, t. cbn. rewrite Nat.add_0_r. auto.
    + specialize (IH (S pos)). destruct (search capitalsRegex t (S pos)) as [m|].
      * destruct IH as (pre & y & post & -> & Hpre & Hy & Hw & Hi).
        exists (x :: pre), y, post. cbn [filter app length]. rewrite E.
        repeat split; auto. lia.
      * cbn [filter]. rewrite E. exact IH.
Qed.

Lemma capitals_all fuel : forall rest pos,
  length rest < fuel ->
  map m_whole (match_all_from fuel capitalsRegex rest pos)
  = map (fun c => [c]) (filter is_upper rest).
Proof.
  induction fuel as [|fuel IH]; intros rest pos Hf; [lia|].
  cbn [match_all_from].
  pose proof (capitals_search rest pos) as Hs.
  destruct (search capitalsRegex rest pos) as [m|].
  - destruct Hs as (pre & x & post & -> & Hpre & Hx & Hw & Hi).
    unfold m_end. rewrite Hw, Hi. cbn [length].
    replace (pos + length pre + 1 =? pos + length pre) with false
      by (symmetry; apply Nat.eqb_neq; lia).
    replace (length (pre ++ x :: post) + pos <? pos + length pre + 1) with false
      by (symmetry; apply Nat.ltb_ge; rewrite length_app; cbn [length]; lia).
    replace (pos + length pre + 1 - pos) with (length pre + 1) by lia.
    rewrite skipn_app, skipn_all2 by lia.
    replace (length pre + 1 - length pre) with 1 by lia. cbn [skipn app map].
    rewrite filter_app, Hpre. cbn [filter app]. rewrite Hx. cbn [map]. rewrite Hw.
    f_equal. apply IH. rewrite length_app in Hf. cbn [length] in Hf. lia.
  - rewrite Hs. reflexivity.
Qed.

Lemma normalizeInitials_letters s :
  normalizeInitials s = join (js " ") (map (fun c => [c; ch "."]) (filter is_upper s)).
Proof.
  unfold normalizeInitials. fold capitalsRegex. unfold match_all.
  rewrite capitals_all by lia. rewrite map_map. reflexivity.
Qed.

Lemma upper_not_space c : is_upper c = true -> is_space c = false.
Proof.
  unfold is_upper, is_space. intros H.
  apply andb_true_iff in H. destruct H as [H1 H2].
  apply N.leb_le in H1. apply N.leb_le in H2.
  rewrite (proj2 (N.leb_gt c 13)) by lia.
  rewrite (proj2 (N.leb_gt 8192 c)) by lia.
  rewrite !andb_false_r, !andb_false_l.
  repeat match goal with
         | |- context [(c =? ?b)%N] => rewrite (proj2 (N.eqb_neq c b)) by lia
         end.
  reflexivity.
Qed.

Lemma filter_upper_trimStart s : filter is_upper (trimStart s) = filter is_upper s.
Proof.
  induction s as [|c t IH]; [reflexivity|]. cbn [trimStart].
  destruct (is_space c) eqn:E; [|reflexivity].
  rewrite IH. cbn [filter]. destruct (is_upper c) eqn:U; [|reflexivity].
  rewrite (upper_not_space c U) in E. discriminate.
Qed.

Lemma filter_rev {A} (f : A -> bool) l : filter f (rev l) = rev (filter f l).
Proof.
  induction l as [|x l IH]; [reflexivity|]. cbn [rev filter].
  rewrite filter_app, IH. cbn [filter]. destruct (f x); cbn [rev];
    [reflexivity | rewrite app_nil_r; reflexivity].
Qed.

Lemma filter_upper_trim s : filter is_upper (trim s) = filter is_upper s.
Proof.
  unfold trim, trimEnd.
  rewrite filter_rev, filter_upper_trimStart, filter_rev, rev_involutive.
  apply filter_upper_trimStart.
Qed.

(** Initials that hold a capital letter normalize to the canonical form. *)
Lemma normalizeInitials_canonical s x t :
  s = x :: t -> is_upper x = true -> canonicalInitials (normalizeInitials (trim s)).
Proof.
  intros -> Hx. exists (filter is_upper (x :: t)). repeat split.
  - cbn [filter]. rewrite Hx. discriminate.
  - apply Forall_forall. intros c Hc. apply filter_In in Hc. apply Hc.
  - rewrite normalizeInitials_letters, filter_upper_trim. reflexivity.
Qed.

(** The second group of the author pattern starts with a capital letter. *)
Lemma authorRegex_initials m v :
  groups_ok authorRegex m -> group m 2 = Some v ->
  exists x t, v = x :: t /\ is_upper x = true.
Proof.
  intros Hok Hg. destruct (Hok 1 v Hg) as (a & Hin & Hm).
  change (re_icase authorRegex) with false in Hm.
  assert (Ha : a = RQuant true 1 None
                      (RSeq (RClass false [CRange 65%N 90%N])
                            (RSeq (RChar 46%N) (RQuant true 0 None (RClass false [CSpace]))))).
  { revert Hin. set (r := re_ast authorRegex). vm_compute in r. subst r.
    cbn [In_group]. intros H.
    repeat match goal with
           | H : _ \/ _ |- _ => destruct H
           | H : _ /\ _ |- _ => destruct H
           | H : False |- _ => destruct H
           end; try discriminate; congruence. }
  subst a. inversion Hm as [| | | | | | |g mn mx a ws Hws Hlen| | |]; subst.
  destruct ws as [|w ws]; [cbn in Hlen; lia|].
  inversion Hws as [|? ? Hw _]; subst.
  inversion Hw as [| | | |a b u u' Hu Hu'| | | | | |]; subst.
  inversion Hu as [| | |neg items x Hx| | | | | | |]; subst.
  exists x. eexists. split; [cbn; reflexivity|].
  revert Hx. unfold class_match, item_match, item_test; cbn [existsb xorb andb].
  rewrite !orb_false_r. auto.
Qed.

(** *** The authors of a parsed citation *)

(** A computation that leaves a component [f] of the citation as it is. *)
Definition keeps {A B} (f : ParsedCitation -> B) (m : M A) : Prop :=
  forall c, f (snd (m c)) = f c.

Lemma keeps_ret {A B} (f : ParsedCitation -> B) (a : A) : keeps f (ret a).
Proof. intros c; reflexivity. Qed.

Lemma keeps_lift {A B} (f : ParsedCitation -> B) (o : outcome A) : keeps f (lift o).
Proof. intros c; reflexivity. Qed.

Lemma keeps_gets {A B} (f : ParsedCitation -> B) (g : ParsedCitation -> A) :
  keeps f (gets g).
Proof. intros c; reflexivity. Qed.

Lemma keeps_must {B} (f : ParsedCitation -> B) o : keeps f (must o).
Proof. destruct o; intros c; reflexivity. Qed.

Lemma keeps_modify {B} (f : ParsedCitation -> B) g :
  (forall c, f (g c) = f c) -> keeps f (modify g).
Proof. intros H c; apply H. Qed.

Lemma keeps_bind {A B C} (f : ParsedCitation -> C) (m : M A) (k : A -> M B) :
  keeps f m -> (forall a, keeps f (k a)) -> keeps f (bind m k).
Proof.
  intros Hm Hk c. unfold bind. specialize (Hm c).
  destruct (m c) as [[a|] c']; cbn [snd] in *; [rewrite Hk|]; exact Hm.
Qed.

Ltac keeps :=
  repeat first
         [ apply keeps_ret | apply keeps_lift | apply keeps_gets | apply keeps_must
         | apply keeps_modify; intros; reflexivity
         | apply keeps_bind; [|intros]
         | match goal with
           | |- keeps _ (if ?b then _ else _) => destruct b
           | |- keeps _ (match ?x with Some _ => _ | None => _ end) => destruct x
           | |- keeps _ (match ?x with journal => _ | _ => _ end) => destruct x
           | |- keeps _ (let _ := _ in _) => cbv zeta
           end ].

Lemma keeps_source_patterns {B} (f : ParsedCitation -> B) ps sourceSegment :
  Forall (fun p => forall m, keeps f (snd p m)) ps ->
  keeps f (try_source_patterns ps sourceSegment).
Proof.
  induction 1 as [|[re extract] ps Hp _ IH]; cbn [try_source_patterns]; [keeps|].
  destruct (exec re sourceSegment); [|exact IH]. keeps. apply Hp.
Qed.

Ltac keeps_patterns :=
  apply keeps_source_patterns; unfold SOURCE_PATTERNS;
  repeat (apply Forall_cons; [intros ?; cbn [snd]; keeps|]); apply Forall_nil.

Ltac keeps_remaining :=
  unfold parseRemainingElements, extractDOI, extractURL, extractEdition,
    extractBracket, extractReportNo, parseSource, detectBook;
  keeps; keeps_patterns.

Lemma keeps_authors_remaining afterYear :
  keeps authors (parseRemainingElements afterYear).
Proof. keeps_remaining. Qed.

Lemma keeps_raw_remaining afterYear : keeps raw (parseRemainingElements afterYear).
Proof. keeps_remaining. Qed.

Lemma keeps_authors_parseYear fullDateStr : keeps authors (parseYear fullDateStr).
Proof. unfold parseYear. keeps. Qed.

Lemma keeps_raw_parseYear fullDateStr : keeps raw (parseYear fullDateStr).
Proof. unfold parseYear. keeps. Qed.

Lemma run_bind {A B} (m : M A) (f : A -> M B) c :
  bind m f c = match m c with
               | (Normal a, c') => f a c'
               | (Throw, c') => (Throw, c')
               end.
Proof. reflexivity. Qed.

Lemma body_authors raw :
  authors (snd (parseCitation_body raw (emptyCitation raw))) = []
  \/ exists authorBlock,
      parseAuthors authorBlock
      = Normal (authors (snd (parseCitation_body raw (emptyCitation raw)))).
Proof.
  unfold parseCitation_body.
  destruct (exec yearRegex raw) as [yearMatch|]; [|left; reflexivity].
  rewrite run_bind.
  destruct (group yearMatch 1) as [fullDateStr|]; [|left; reflexivity].
  cbn [must ret]. rewrite run_bind.
  pose proof (keeps_authors_parseYear fullDateStr (emptyCitation raw)) as Hy.
  destruct (parseYear fullDateStr (emptyCitation raw)) as [[[]|] c1];
    cbn [snd] in Hy; [|left; exact Hy].
  rewrite run_bind.
  match goal with
  | |- context [lift (parseAuthors ?b)] => set (before := b)
  end.
  unfold lift.
  destruct (parseAuthors before) as [a|] eqn:Ea; [|left; exact Hy].
  right. exists before. rewrite Ea. f_equal.
  rewrite run_bind. cbn [modify].
  match goal with
  | |- a = authors (snd (?m (set_authors a c1))) => assert (Hm : keeps authors m)
  end.
  { apply keeps_bind; [keeps | intros; apply keeps_authors_remaining]. }
  rewrite Hm. reflexivity.
Qed.

(** The authors of a parsed citation are those of [parseAuthors], when
    there are any. *)
Lemma parseCitation_authors text :
  authors (parseCitation text) = []
  \/ exists authorBlock, parseAuthors authorBlock = Normal (authors (parseCitation text)).
Proof.
  unfold parseCitation, parseCitation_run, try_catch.
  pose proof (body_authors (trim text)) as Hbody.
  destruct (parseCitation_body (trim text) (emptyCitation (trim text))) as [[[]|] c];
    exact Hbody.
Qed.

Lemma authors_of_matches_sound ms : forall l,
  authors_of_matches ms = Normal l ->
  Forall (groups_ok authorRegex) ms ->
  Forall (fun a => is_group a = false /\ canonicalInitials (initials a)) l.
Proof.
  induction ms as [|m ms IH]; intros l H Hok; cbn [authors_of_matches] in H.
  - inversion H. constructor.
  - inversion Hok as [|? ? Hm Hms]; subst.
    unfold author_of_match in H.
    destruct (group m 1) as [g1|]; [|discriminate].
    destruct (group m 2) as [g2|] eqn:E2; [|discriminate].
    destruct (authors_of_matches ms) as [l'|]; [|discriminate].
    inversion H; subst l. constructor; [|apply IH; auto].
    split; [reflexivity|]. cbn [initials].
    destruct (authorRegex_initials m g2 Hm E2) as (x & t & Hx & Hu).
    eapply normalizeInitials_canonical; eauto.
Qed.

Lemma parseAuthors_individuals authorBlock l :
  parseAuthors authorBlock = Normal l ->
  Forall (fun a => is_group a = true \/ canonicalInitials (initials a)) l.
Proof.
  unfold parseAuthors. cbv zeta.
  match goal with
  | |- context [authors_of_matches ?x] => set (ms := x)
  end.
  assert (Hms : Forall (groups_ok authorRegex) ms).
  { apply Forall_flat_map, Forall_forall. intros part _. apply match_all_groups. }
  destruct (authors_of_matches ms) as [authors0|] eqn:E; [|discriminate].
  pose proof (authors_of_matches_sound ms authors0 E Hms) as H0.
  assert (H1 : Forall (fun a => is_group a = true \/ canonicalInitials (initials a)) authors0).
  { eapply Forall_impl; [|exact H0]. intros a [_ Hc]. right. exact Hc. }
  intros H.
  destruct ((length authors0 =? 0) && _); [|inversion H; subst; exact H1].
  destruct (0 <? _); inversion H; subst; [|exact H1].
  apply Forall_app. split; [exact H1|]. constructor; [left; reflexivity|constructor].
Qed.

Definition whoText : jsstring :=
  js "World Health Organization. (2024). Global health report. WHO Press.".

(** C6 (as amended).  Every individual (non-group) author of a parsed
    citation has initials in the canonical form "X. Y.", whatever the
    spacing after the periods in the input: "B.Y." and "B.  Y." both
    normalize to "B. Y.".  Initials without capital letters followed by
    periods are not recognized: the single author "Kim, b.y." and the
    single author "Kim, B Y" each parse as one group author.  The World
    Health Organization input
    parses to exactly one author, a group author with empty initials,
    and [checkAuthorFormat] emits no violation for it. *)
Theorem parsed_initials_canonical :
  (forall text,
      Forall (fun a => is_group a = true \/ canonicalInitials (initials a))
             (authors (parseCitation text)))
  /\ (normalizeInitials (js "B.Y.") = js "B. Y."
      /\ normalizeInitials (js "B.  Y.") = js "B. Y."
      /\ map initials (authors (parseCitation (js "Kim, B.Y. (2024). The impact. Journal, 45(2), 123-145.")))
         = [js "B. Y."]
      /\ map initials (authors (parseCitation (js "Kim, B.  Y. (2024). The impact. Journal, 45(2), 123-145.")))
         = [js "B. Y."])
  /\ (authors (parseCitation (js "Kim, b.y. (2024). The impact. Journal, 45(2), 123-145."))
      = [ {| lastName := js "Kim, b.y"; initials := []; isGroupAuthor := Some true |} ]
      /\ authors (parseCitation (js "Kim, B Y (2024). The impact. Journal, 45(2), 123-145."))
         = [ {| lastName := js "Kim, B Y"; initials := []; isGroupAuthor := Some true |} ])
  /\ (authors (parseCitation whoText)
      = [ {| lastName := js "World Health Organization"; initials := [];
             isGroupAuthor := Some true |} ]
      /\ checkAuthorFormat (parseCitation whoText) = []).
Proof.
  split.
  - intros text. destruct (parseCitation_authors text) as [E|[b Hb]].
    + rewrite E. constructor.
    + eapply parseAuthors_individuals, Hb.
  - repeat split; vm_compute; reflexivity.
Qed.

(** C6, as stated, fails: initials written "b.y." do not normalize to
    "B. Y." (no capital letter is found), and in a citation neither
    "b.y." nor "B Y" is read as the initials of an individual author. *)
Lemma lowercase_initials_not_normalized :
  normalizeInitials (js "b.y.") = []
  /\ normalizeInitials (js "b.y.") <> js "B. Y."
  /\ map initials
         (authors (parseCitation (js "Kim, b.y. (2024). The impact. Journal, 45(2), 123-145.")))
     <> [js "B. Y."]
  /\ map initials
         (authors (parseCitation (js "Kim, B Y (2024). The impact. Journal, 45(2), 123-145.")))
     <> [js "B. Y."].
Proof. repeat split; vm_compute; congruence. Qed.

(** ** Re-parsing a reconstruction                                      *)

Lemma trimStart_head s :
  trimStart s = [] \/ exists c t, trimStart s = c :: t /\ is_space c = false.
Proof.
  induction s as [|c t IH]; [left; reflexivity|]. cbn [trimStart].
  destruct (is_space c) eqn:E; [exact IH|]. right. exists c, t. auto.
Qed.

Lemma trimStart_fixed c t : is_space c = false -> trimStart (c :: t) = c :: t.
Proof. intros E. cbn [trimStart]. rewrite E. reflexivity. Qed.

Lemma trimStart_idem s : trimStart (trimStart s) = trimStart s.
Proof.
  destruct (trimStart_head s) as [E|(c & t & E & Hc)]; rewrite E;
    [reflexivity | apply trimStart_fixed, Hc].
Qed.

Lemma trimStart_snoc l c :
  is_space c = false -> exists l', trimStart (l ++ [c]) = l' ++ [c].
Proof.
  intros Hc. induction l as [|x l IH]; cbn [app trimStart].
  - rewrite Hc. exists []. reflexivity.
  - destruct (is_space x); [exact IH|]. exists (x :: l). reflexivity.
Qed.

Lemma trimEnd_head c t :
  is_space c = false -> exists t', trimEnd (c :: t) = c :: t'.
Proof.
  intros Hc. unfold trimEnd. cbn [rev].
  destruct (trimStart_snoc (rev t) c Hc) as (l' & E). rewrite E.
  rewrite rev_app_distr. cbn [rev app]. eauto.
Qed.

Lemma trimEnd_idem s : trimEnd (trimEnd s) = trimEnd s.
Proof. unfold trimEnd. rewrite rev_involutive, trimStart_idem. reflexivity. Qed.

Lemma trim_idem s : trim (trim s) = trim s.
Proof.
  unfold trim at 1.
  assert (H : trimStart (trim s) = trim s).
  { unfold trim. destruct (trimStart_head s) as [E|(c & t & E & Hc)]; rewrite E.
    - reflexivity.
    - destruct (trimEnd_head c t Hc) as (t' & E'). rewrite E'.
      apply trimStart_fixed, Hc. }
  rewrite H. unfold trim. apply trimEnd_idem.
Qed.


(** The parser reads its input through [trim] only. *)
Lemma parseCitation_trim text : parseCitation (trim text) = parseCitation text.
Proof. unfold parseCitation, parseCitation_run. cbv zeta. rewrite trim_idem. reflexivity. Qed.

Lemma keeps_raw_body r : keeps raw (parseCitation_body r).
Proof.
  unfold parseCitation_body.
  destruct (exec yearRegex r); [|keeps].
  apply keeps_bind; [keeps|]. intros fullDateStr.
  apply keeps_bind; [apply keeps_raw_parseYear|]. intros _.
  apply keeps_bind; [keeps|]. intros a.
  apply keeps_bind; [keeps|]. intros _.
  apply keeps_bind; [keeps|]. intros _.
  apply keeps_raw_remaining.
Qed.

(** The raw text of a parsed citation is the trimmed input. *)
Lemma parseCitation_raw text : raw (parseCitation text) = trim text.
Proof.
  unfold parseCitation, parseCitation_run, try_catch.
  pose proof (keeps_raw_body (trim text) (emptyCitation (trim text))) as H.
  destruct (parseCitation_body (trim text) (emptyCitation (trim text))) as [[[]|] c];
    exact H.
Qed.




(** ** The journal-to-chapter correction                                *)

(** No rule of the engine emits a violation of the rule "typeMismatch". *)
Definition not_typeMismatch (e : ValidationError.t) : bool :=
  negb (str_eqb (ValidationError.rule e) (js "typeMismatch")).

Lemma not_typeMismatch_one r f m sev o s a :
  str_eqb r (js "typeMismatch") = false ->
  forallb not_typeMismatch [violation r f m sev o s a] = true.
Proof. intros H. unfold not_typeMismatch, violation; simpl. rewrite H. reflexivity. Qed.

Ltac no_mismatch_step :=
  match goal with
  | |- forallb not_typeMismatch [] = true => reflexivity
  | |- forallb not_typeMismatch (_ ++ _) = true =>
    rewrite forallb_app; apply andb_true_intro; split
  | |- forallb not_typeMismatch (if ?b then _ else _) = true => destruct b
  | |- forallb not_typeMismatch (match ?o with Some _ => _ | None => _ end) = true =>
    destruct o
  | |- forallb not_typeMismatch [violation _ _ _ _ _ _ _] = true =>
    apply not_typeMismatch_one; vm_compute; reflexivity
  end.

Ltac no_mismatch := intros; cbv zeta; repeat no_mismatch_step.

Lemma forEach_author_no_mismatch l : forall i,
  forallb not_typeMismatch (forEach_author i l) = true.
Proof.
  induction l as [|a l IH]; intros i; [reflexivity|].
  cbn [forEach_author]. rewrite forallb_app, IH, andb_true_r.
  unfold checkAuthor. no_mismatch.
Qed.

Lemma rules_no_mismatch c : forallb not_typeMismatch (runRules ALL_RULES c) = true.
Proof.
  unfold runRules, ALL_RULES, ROUTED_RULES. cbn [map rule flat_map].
  repeat (rewrite forallb_app; apply andb_true_intro; split);
    [ apply forEach_author_no_mismatch
    | unfold checkYearFormat | unfold checkTitleCase | unfold checkDOIFormat
    | unfold checkAmpersand | unfold checkTerminalPeriod | unfold checkDOIPresence
    | unfold checkVolumeIssueFormat | unfold checkJournalNameCase | unfold checkPageFormat
    | unfold checkConferenceNameCase | unfold checkChapterEditors | unfold checkInPrefix
    | unfold checkPublisherRequired | unfold checkEditionFormat
    | unfold checkPublisherLocation | unfold checkFullDateRequired
    | unfold checkConferenceInfo | unfold checkBracketType | unfold checkDissertationInfo
    | unfold checkReportNumber | ]; no_mismatch.
Qed.

Lemma filter_none {A} (f : A -> bool) l : forallb (fun x => negb (f x)) l = true -> filter f l = [].
Proof.
  induction l as [|x l IH]; [reflexivity|]. cbn [forallb filter]. intros H.
  apply andb_true_iff in H. destruct H as [Hx Hl].
  destruct (f x); [discriminate|]. apply IH, Hl.
Qed.

(** The type-mismatch violations among the violations of a validation. *)
Definition mismatches (l : list ValidationError.t) : list ValidationError.t :=
  filter (fun e => str_eqb (ValidationError.rule e) (js "typeMismatch")) l.

(** A proceedings paper whose page range reads as a volume and a page
    fragment, and the record the lookup finds for it. *)
Definition proceedingsText : jsstring :=
  js "Kim, B. Y., & Lee, S. H. (2024). The impact of AI on education. Proceedings of the Learning Conference, 267-282.".

Definition proceedingsWork : CrossRefWork.t :=
  {| CrossRefWork.doi := js "10.1234/lc.2024.17";
     CrossRefWork.title := js "The Impact of AI on Education";
     CrossRefWork.authors := [kim; lee];
     CrossRefWork.year := js "2024";
     CrossRefWork.source := js "Proceedings of the Learning Conference";
     CrossRefWork.volume := None;
     CrossRefWork.issue := None;
     CrossRefWork.pages := None;
     CrossRefWork.type := js "proceedings-article";
     CrossRefWork.publisher := Some (js "ACM");
     CrossRefWork.editors :=
       Some [ {| lastName := js "Park"; initials := js "J."; isGroupAuthor := None |} ];
     CrossRefWork.edition := Some (js "2");
     CrossRefWork.reportNumber := None;
     CrossRefWork.conferenceName := None;
     CrossRefWork.institution := None |}.

(** A proceedings paper written with its first page where a volume
    stands and its last page after it, and the record found for it. *)
Definition pagedText : jsstring :=
  js "Kim, B. Y., & Lee, S. H. (2024). The impact of AI on education. Proceedings of the Learning Conference, 267, 282.".

Definition pagedWork : CrossRefWork.t :=
  {| CrossRefWork.doi := js "10.1234/lc.2024.17";
     CrossRefWork.title := js "The Impact of AI on Education";
     CrossRefWork.authors := [kim; lee];
     CrossRefWork.year := js "2024";
     CrossRefWork.source := js "Proceedings of the Learning Conference";
     CrossRefWork.volume := None;
     CrossRefWork.issue := None;
     CrossRefWork.pages := Some (js "267-282");
     CrossRefWork.type := js "proceedings-article";
     CrossRefWork.publisher := Some (js "ACM");
     CrossRefWork.editors := None;
     CrossRefWork.edition := None;
     CrossRefWork.reportNumber := None;
     CrossRefWork.conferenceName := None;
     CrossRefWork.institution := None |}.

(** The same record without its page range. *)
Definition unpagedWork : CrossRefWork.t :=
  {| CrossRefWork.doi := CrossRefWork.doi pagedWork;
     CrossRefWork.title := CrossRefWork.title pagedWork;
     CrossRefWork.authors := CrossRefWork.authors pagedWork;
     CrossRefWork.year := CrossRefWork.year pagedWork;
     CrossRefWork.source := CrossRefWork.source pagedWork;
     CrossRefWork.volume := None;
     CrossRefWork.issue := None;
     CrossRefWork.pages := None;
     CrossRefWork.type := CrossRefWork.type pagedWork;
     CrossRefWork.publisher := CrossRefWork.publisher pagedWork;
     CrossRefWork.editors := None;
     CrossRefWork.edition := None;
     CrossRefWork.reportNumber := None;
     CrossRefWork.conferenceName := None;
     CrossRefWork.institution := None |}.

(** C9.  On the text with volume 267 and page fragment 282, corrected
    from a trusted proceedings record that gives the pages 267-282, the
    local volume is not combined with the page fragment there was: the
    fragment is first replaced by the record's range, and the pages of
    the corrected citation are 267-267-282.  Without the record's range
    they are 267-282. *)
Lemma journal_to_chapter_pages_doubled :
  let c0 := parseCitation pagedText in
  let r := validateCitation (fun _ => Some pagedWork) pagedText true in
  (type c0 = journal /\ volume c0 = Some (js "267") /\ pages c0 = Some (js "282"))
  /\ (trusted c0 pagedWork = true
      /\ mapCrossRefType (CrossRefWork.type pagedWork) = chapter)
  /\ correctCitationWithCrossRef c0 pagedWork = (citation r, true)
  /\ type (citation r) = chapter
  /\ pages (citation r) = Some (js "267-267-282")
  /\ pages (citation r) <> Some (js "267-282")
  /\ pages (citation (validateCitation (fun _ => Some unpagedWork) pagedText true))
     = Some (js "267-282").
Proof.
  cbv zeta. repeat apply conj; try (vm_compute; reflexivity).
  intros H. vm_compute in H. discriminate H.
Qed.

(* ================================================================== *)
(** * Further properties of the code                                    *)
(* ================================================================== *)

(** A citation with a DOI in the text, and a work that a lookup may
    return for it. *)

Definition doiText : jsstring :=
  js "Kim, B. Y. (2024). The impact of AI on education. Journal of Educational Technology, 45(2), 123-145. https://doi.org/10.1234/jet.2024.001".

Definition otherWork : CrossRefWork.t :=
  {| CrossRefWork.doi := js "10.9999/other";
     CrossRefWork.title := js "The impact of AI on education";
     CrossRefWork.authors := [kim];
     CrossRefWork.year := js "2023";
     CrossRefWork.source := js "Another Journal";
     CrossRefWork.volume := Some (js "7");
     CrossRefWork.issue := None;
     CrossRefWork.pages := Some (js "1-9");
     CrossRefWork.type := js "journal-article";
     CrossRefWork.publisher := None;
     CrossRefWork.editors := None;
     CrossRefWork.edition := None;
     CrossRefWork.reportNumber := None;
     CrossRefWork.conferenceName := None;
     CrossRefWork.institution := None |}.

(** ** Ordinals                                                          *)

Lemma hex_val_digit (d : N) : (d < 10)%N -> hex_val (48 + d)%N = Some d.
Proof.
  intros H. unfold hex_val, is_digit.
  replace (48 <=? 48 + d)%N with true by (symmetry; apply N.leb_le; lia).
  replace (48 + d <=? 57)%N with true by (symmetry; apply N.leb_le; lia).
  cbn [andb]. f_equal. lia.
Qed.

(** Reading back the digits that [digits_fuel] writes. *)
Lemma digits_value_digits_fuel fuel : forall n acc,
  (n < 2 ^ N.of_nat (S fuel))%N ->
  digits_value 10 (digits_fuel (S fuel) n acc) None
  = digits_value 10 acc (Some (Z.of_N n)).
Proof.
  induction fuel as [|fuel IH]; intros n acc Hn.
  - cbn [digits_fuel]. assert (Hlt : (n < 10)%N) by (cbn in Hn; lia).
    apply N.ltb_lt in Hlt as Hb. rewrite Hb.
    rewrite N.mod_small by exact Hlt. cbn [digits_value].
    rewrite hex_val_digit by exact Hlt.
    replace (Z.of_N n <? 10)%Z with true by (symmetry; apply Z.ltb_lt; lia).
    reflexivity.
  - change (digits_fuel (S (S fuel)) n acc)
      with (let acc' := (48 + n mod 10)%N :: acc in
            if (n <? 10)%N then acc' else digits_fuel (S fuel) (n / 10)%N acc').
    cbv zeta. destruct (n <? 10)%N eqn:Hb.
    + apply N.ltb_lt in Hb. rewrite N.mod_small by exact Hb. cbn [digits_value].
      rewrite hex_val_digit by exact Hb.
      replace (Z.of_N n <? 10)%Z with true by (symmetry; apply Z.ltb_lt; lia).
      reflexivity.
    + apply N.ltb_ge in Hb. rewrite IH.
      * cbn [digits_value].
        assert (Hm : (n mod 10 < 10)%N) by (apply N.mod_lt; lia).
        rewrite hex_val_digit by exact Hm.
        replace (Z.of_N (n mod 10) <? 10)%Z with true by (symmetry; apply Z.ltb_lt; lia).
        f_equal. f_equal.
        rewrite (N.div_mod n 10) at 3 by lia. lia.
      * rewrite Nat2N.inj_succ, N.pow_succ_r' in Hn.
        rewrite Nat2N.inj_succ in *.
        apply N.Div0.div_lt_upper_bound.
        rewrite N.pow_succ_r' in *. lia.
Qed.

Lemma mod10_digit (n : N) : is_digit (48 + n mod 10)%N = true.
Proof.
  unfold is_digit. assert (H : (n mod 10 < 10)%N) by (apply N.mod_lt; lia).
  revert H. generalize (n mod 10)%N. intros d H.
  apply andb_true_iff; split; apply N.leb_le; lia.
Qed.

Lemma digits_fuel_digits fuel : forall n acc,
  Forall (fun c => is_digit c = true) acc ->
  Forall (fun c => is_digit c = true) (digits_fuel fuel n acc).
Proof.
  induction fuel as [|fuel IH]; intros n acc Hacc; [exact Hacc|].
  cbn [digits_fuel].
  assert (H : Forall (fun c => is_digit c = true) ((48 + n mod 10)%N :: acc))
    by (constructor; [apply mod10_digit | exact Hacc]).
  destruct (n <? 10)%N; [exact H | apply IH, H].
Qed.

Lemma digits_fuel_nonempty fuel n acc : digits_fuel (S fuel) n acc <> [].
Proof.
  revert n acc. induction fuel as [|fuel IH]; intros n acc.
  - cbn [digits_fuel]. destruct (n <? 10)%N; discriminate.
  - change (digits_fuel (S (S fuel)) n acc)
      with (let acc' := (48 + n mod 10)%N :: acc in
            if (n <? 10)%N then acc' else digits_fuel (S fuel) (n / 10)%N acc').
    cbv zeta. destruct (n <? 10)%N; [discriminate | apply IH].
Qed.

Lemma digits_fuel_app fuel : forall n acc,
  digits_fuel fuel n acc = digits_fuel fuel n [] ++ acc.
Proof.
  induction fuel as [|fuel IH]; intros n acc; [reflexivity|].
  cbn [digits_fuel]. destruct (n <? 10)%N; [reflexivity|].
  rewrite IH, (IH _ [_]), <- app_assoc. reflexivity.
Qed.

Lemma log2_fuel (n : N) : (n < 2 ^ N.of_nat (S (N.to_nat (N.log2 n))))%N.
Proof.
  rewrite Nat2N.inj_succ, N2Nat.id.
  destruct n as [|p]; [cbn; lia|].
  apply N.log2_spec. lia.
Qed.

Definition stops (t : jsstring) : bool :=
  match t with [] => true | c :: _ => negb (is_digit c) end.

Lemma digits_value_stops t a : stops t = true -> digits_value 10 t (Some a) = Some a.
Proof.
  destruct t as [|c t]; [reflexivity|]. cbn [stops digits_value]. intros H.
  unfold hex_val. apply negb_true_iff in H. rewrite H.
  destruct ((97 <=? c) && (c <=? 102))%N eqn:E1.
  - apply andb_true_iff in E1 as [H1 H2]. apply N.leb_le in H1, H2.
    replace (Z.of_N (c - 87) <? 10)%Z with false; [reflexivity|].
    symmetry. apply Z.ltb_ge. lia.
  - destruct ((65 <=? c) && (c <=? 70))%N eqn:E2; [|reflexivity].
    apply andb_true_iff in E2 as [H1 H2]. apply N.leb_le in H1, H2.
    replace (Z.of_N (c - 55) <? 10)%Z with false; [reflexivity|].
    symmetry. apply Z.ltb_ge. lia.
Qed.

Lemma is_space_false (x : char) :
  (x < 9 \/ 13 < x < 32 \/ 32 < x < 160 \/ 160 < x < 5760 \/ 5760 < x < 8192
   \/ 8202 < x < 8232 \/ 8233 < x < 8239 \/ 8239 < x < 8287 \/ 8287 < x < 12288
   \/ 12288 < x < 65279 \/ 65279 < x)%N ->
  is_space x = false.
Proof.
  intros H. unfold is_space.
  repeat match goal with
         | |- context [(x =? ?b)%N] => rewrite (proj2 (N.eqb_neq x b)) by lia
         end.
  rewrite !orb_false_r.
  destruct (N.leb_spec 9 x), (N.leb_spec x 13), (N.leb_spec 8192 x), (N.leb_spec x 8202);
    try reflexivity; lia.
Qed.

Lemma digit_not_space c : is_digit c = true -> is_space c = false.
Proof.
  unfold is_digit. intros H.
  apply andb_true_iff in H as [H1 H2]. apply N.leb_le in H1, H2.
  apply is_space_false. lia.
Qed.

Lemma digit_not_sign c :
  is_digit c = true ->
  is_ch c "-" = false /\ is_ch c "+" = false /\ is_ch c "x" = false /\ is_ch c "X" = false.
Proof.
  unfold is_digit. intros Hd. apply andb_true_iff in Hd as [H1 H2].
  apply N.leb_le in H1, H2. unfold is_ch.
  repeat split; apply N.eqb_neq; vm_compute (ch _); lia.
Qed.

(** [parseInt] reads a decimal numeral back, whatever follows it that is
    not a digit (nor, without a radix, the [x] of a hexadecimal prefix). *)
Lemma parseInt_decimal radix10 (n : N) (t : jsstring) :
  stops t = true ->
  radix10 = true
  \/ match t with c :: _ => is_ch c "x" || is_ch c "X" | [] => false end = false ->
  parseInt radix10 (N_to_string n ++ t) = Some (Z.of_N n).
Proof.
  intros Ht Hx. unfold parseInt, N_to_string.
  set (fuel := N.to_nat (N.log2 n)).
  pose proof (digits_fuel_digits (S fuel) n [] (Forall_nil _)) as Hall.
  pose proof (digits_fuel_nonempty fuel n []) as Hne.
  pose proof (digits_value_digits_fuel fuel n t (log2_fuel n)) as Hv.
  rewrite digits_fuel_app in Hv. fold fuel in Hv.
  rewrite (digits_value_stops t _ Ht) in Hv.
  destruct (digits_fuel (S fuel) n []) as [|c r]; [congruence|].
  inversion Hall as [|? ? Hd Hr]; subst.
  cbn [app trimStart]. rewrite (digit_not_space c Hd).
  destruct (digit_not_sign c Hd) as (-> & -> & _ & _).
  destruct (r ++ t) as [|x u] eqn:Eu.
  - cbn [app] in Hv. rewrite Eu in Hv. rewrite Hv. reflexivity.
  - cbn [app] in Hv. rewrite Eu in Hv.
    destruct (negb radix10 && is_ch c "0" && (is_ch x "x" || is_ch x "X")) eqn:Eh.
    + exfalso. apply andb_true_iff in Eh as [Eh Ex].
      apply andb_true_iff in Eh as [Er E0].
      destruct Hx as [->|Hx]; [discriminate|].
      destruct r as [|y r].
      * cbn [app] in Eu. subst t. rewrite Ex in Hx. discriminate.
      * cbn [app] in Eu. inversion Eu; subst y.
        inversion Hr as [|? ? Hy _]; subst.
        destruct (digit_not_sign x Hy) as (_ & _ & Hx1 & Hx2).
        rewrite Hx1, Hx2 in Ex. discriminate.
    + rewrite Hv. reflexivity.
Qed.

(** The English ordinal suffix of a natural number, for comparison. *)
Definition englishSuffix (n : N) : jsstring :=
  if ((n mod 100 =? 11) || (n mod 100 =? 12) || (n mod 100 =? 13))%N then js "th"
  else if (n mod 10 =? 1)%N then js "st"
  else if (n mod 10 =? 2)%N then js "nd"
  else if (n mod 10 =? 3)%N then js "rd"
  else js "th".

(** The suffix [toOrdinal] picks, as a function of [num % 100]. *)
Definition pickedSuffix (mod100 : Z) : jsstring :=
  if truthy (suffix_at (Z.rem (mod100 - 20) 10)) then defined (suffix_at (Z.rem (mod100 - 20) 10))
  else if truthy (suffix_at mod100) then defined (suffix_at mod100)
  else defined (suffix_at 0).

Lemma pickedSuffix_english (m : N) :
  (m < 100)%N ->
  pickedSuffix (Z.of_N m)
  = (if ((m =? 11) || (m =? 12) || (m =? 13))%N then js "th"
     else if (m mod 10 =? 1)%N then js "st"
     else if (m mod 10 =? 2)%N then js "nd"
     else if (m mod 10 =? 3)%N then js "rd"
     else js "th").
Proof.
  intros Hm.
  assert (Hall : forallb (fun k =>
             let m := N.of_nat k in
             str_eqb (pickedSuffix (Z.of_N m))
                     (if ((m =? 11) || (m =? 12) || (m =? 13))%N then js "th"
                      else if (m mod 10 =? 1)%N then js "st"
                      else if (m mod 10 =? 2)%N then js "nd"
                      else if (m mod 10 =? 3)%N then js "rd"
                      else js "th"))
            (seq 0 100) = true) by (vm_compute; reflexivity).
  rewrite forallb_forall in Hall.
  specialize (Hall (N.to_nat m)). cbv zeta in Hall. rewrite N2Nat.id in Hall.
  apply (reflect_iff _ _ (str_eqb_spec _ _)), Hall, in_seq. lia.
Qed.

(** X1. On a text that starts with the decimal digits of a number [n]
    and goes on with something that is not a digit, [toOrdinal] returns
    the digits of [n] followed by the English ordinal suffix of [n]:
    th for numbers ending in 11, 12 or 13, otherwise st, nd, rd for a
    last digit 1, 2, 3, and th for the rest.  What follows the digits
    is dropped.  ([n] is below 2^53, where the source's numbers are
    exact.) *)
Theorem toOrdinal_decimal (n : N) (t : jsstring) :
  (n < 2 ^ 53)%N ->
  stops t = true ->
  toOrdinal (N_to_string n ++ t) = N_to_string n ++ englishSuffix n.
Proof.
  intros _ Ht. unfold toOrdinal.
  rewrite (parseInt_decimal true n t Ht (or_introl eq_refl)).
  fold (pickedSuffix (Z.rem (Z.of_N n) 100)).
  replace (Z.rem (Z.of_N n) 100) with (Z.of_N (n mod 100)).
  2:{ rewrite Z.rem_mod_nonneg by lia. rewrite N2Z.inj_mod. reflexivity. }
  rewrite pickedSuffix_english by (apply N.mod_lt; lia).
  replace ((n mod 100) mod 10)%N with (n mod 10)%N.
  2:{ change 100%N with (10 * 10)%N. rewrite N.Div0.mod_mul_r.
      rewrite N.mul_comm, N.Div0.mod_add. rewrite N.Div0.mod_mod; reflexivity. }
  f_equal. destruct n; reflexivity.
Qed.

Lemma toOrdinal_decimal_witness :
  toOrdinal (js "22") = js "22nd" /\ toOrdinal (js "112th") = js "112th".
Proof.
  split.
  - exact (toOrdinal_decimal 22 [] eq_refl eq_refl).
  - exact (toOrdinal_decimal 112 (js "th") eq_refl eq_refl).
Defined.

(** ** What the fixer does with a list of violations                     *)

(** The entry [applyAutoFixes] lists for a violation left to the user. *)
Definition manualFixOf (error : ValidationError.t) : ManualFix.t :=
  {| ManualFix.rule := ValidationError.rule error;
     ManualFix.field := ValidationError.field error;
     ManualFix.message := ValidationError.message error;
     ManualFix.hint := getManualFixHint error |}.

Ltac split_applyFix :=
  unfold applyFix; cbv zeta;
  repeat match goal with
         | |- context [if ?b then _ else _] => destruct b
         | |- context [match ?x with Some _ => _ | None => _ end] => destruct x
         end.

Lemma applyFix_manual st e :
  manualFixes (applyFix st e)
  = manualFixes st ++ (if ValidationError.autoFixable e then [] else [manualFixOf e]).
Proof.
  unfold applyFix. cbv zeta.
  destruct (ValidationError.autoFixable e); cbn [negb]; [|reflexivity].
  repeat match goal with
         | |- context [if ?b then _ else _] => destruct b
         | |- context [match ?x with Some _ => _ | None => _ end] => destruct x
         end; cbn [manualFixes]; rewrite ?app_nil_r; reflexivity.
Qed.

Lemma applyFix_auto st e :
  length (autoFixes (applyFix st e))
  <= length (autoFixes st) + (if ValidationError.autoFixable e then 1 else 0).
Proof.
  unfold applyFix. cbv zeta.
  destruct (ValidationError.autoFixable e); cbn [negb]; [|cbn [autoFixes]; lia].
  repeat match goal with
         | |- context [if ?b then _ else _] => destruct b
         | |- context [match ?x with Some _ => _ | None => _ end] => destruct x
         end; cbn [autoFixes]; rewrite ?length_app; cbn [length]; lia.
Qed.

Lemma fold_applyFix_manual errors : forall st,
  manualFixes (fold_left applyFix errors st)
  = manualFixes st
    ++ map manualFixOf (filter (fun e => negb (ValidationError.autoFixable e)) errors).
Proof.
  induction errors as [|e errors IH]; intros st; cbn [fold_left filter map].
  - rewrite app_nil_r. reflexivity.
  - rewrite IH, applyFix_manual, <- app_assoc.
    destruct (ValidationError.autoFixable e); reflexivity.
Qed.

Lemma fold_applyFix_auto errors : forall st,
  length (autoFixes (fold_left applyFix errors st))
  <= length (autoFixes st) + length (filter ValidationError.autoFixable errors).
Proof.
  induction errors as [|e errors IH]; intros st; cbn [fold_left filter].
  - lia.
  - specialize (IH (applyFix st e)). pose proof (applyFix_auto st e) as H.
    destruct (ValidationError.autoFixable e); cbn [length]; lia.
Qed.

(** X2. [applyAutoFixes] accounts for every violation it is given,
    when no violation has a rule named like a member of
    [Object.prototype] (no violation of the rules has): the manual fixes
    are exactly the violations that are not auto-fixable, in their order,
    each with its rule, field, message and the hint of
    [getManualFixHint]; and there are at most as many automatic fixes as
    auto-fixable violations. *)
Theorem fixes_account_for_violations (c : ParsedCitation) (errors : list ValidationError.t)
        (Hown : ownRules errors) :
  resultManualFixes (applyAutoFixes c errors)
  = map manualFixOf (filter (fun e => negb (ValidationError.autoFixable e)) errors)
  /\ length (resultAutoFixes (applyAutoFixes c errors))
     <= length (filter ValidationError.autoFixable errors).
Proof.
  unfold applyAutoFixes, applyFixes. cbn [resultManualFixes resultAutoFixes]. split.
  - rewrite fold_applyFix_manual. reflexivity.
  - pose proof (fold_applyFix_auto errors
                  {| fixedCitation := c; autoFixes := []; manualFixes := [] |}) as H.
    exact H.
Qed.

Lemma fixes_account_for_violations_witness :
  let c := parseCitation proceedingsText in
  ownRules (runRules ALL_RULES c)
  /\ map (fun e => (ValidationError.rule e, ValidationError.autoFixable e))
         (runRules ALL_RULES c)
     = [(js "doiPresence", false); (js "pageFormat", true)]
  /\ map ManualFix.rule (resultManualFixes (applyAutoFixes c (runRules ALL_RULES c)))
     = [js "doiPresence"]
  /\ length (resultAutoFixes (applyAutoFixes c (runRules ALL_RULES c))) <= 1.
Proof.
  intros c.
  assert (Hown : ownRules (runRules ALL_RULES c))
    by (vm_compute; repeat constructor).
  destruct (fixes_account_for_violations c (runRules ALL_RULES c) Hown) as [Hm Ha].
  split; [exact Hown|]. split; [vm_compute; reflexivity|]. split.
  - rewrite Hm. vm_compute. reflexivity.
  - refine (Nat.le_trans _ _ _ Ha _). vm_compute. apply le_n.
Defined.

(** What no fix touches. *)
Definition untouched (c : ParsedCitation) :=
  (type c, map lastName (authors c), map isGroupAuthor (authors c),
   (url c, editors c, edition c, fullDate c, yearSuffix c),
   (reportNumber c, bracketType c, conferenceName c, institution c, databaseName c,
    citationIsGroupAuthor c)).

Lemma set_field_untouched f v c : untouched (set_field f v c) = untouched c.
Proof.
  unfold set_field.
  repeat match goal with
         | |- context [if ?b then _ else _] => destruct b
         end; reflexivity.
Qed.

Lemma update_nth_initials s : forall i l,
  map lastName (update_nth i (set_initials s) l) = map lastName l
  /\ map isGroupAuthor (update_nth i (set_initials s) l) = map isGroupAuthor l.
Proof.
  intros i l. revert i. induction l as [|a l IH]; intros i; [destruct i; split; reflexivity|].
  destruct i as [|i]; cbn [update_nth map]; [split; reflexivity|].
  destruct (IH i) as [-> ->]. split; reflexivity.
Qed.

Lemma applyFix_untouched st e :
  untouched (fixedCitation (applyFix st e)) = untouched (fixedCitation st).
Proof.
  unfold applyFix. cbv zeta.
  repeat match goal with
         | |- context [if ?b then _ else _] => destruct b
         | |- context [match ?x with Some _ => _ | None => _ end] => destruct x
         end; cbn [fixedCitation]; try reflexivity; try apply set_field_untouched.
  all: unfold untouched; cbn [type authors url editors edition fullDate yearSuffix
                                reportNumber bracketType conferenceName institution
                                databaseName citationIsGroupAuthor set_authors].
  all: match goal with
       | |- context [update_nth ?i (set_initials ?s) ?l] =>
         destruct (update_nth_initials s i l) as [-> ->]
       end; reflexivity.
Qed.

(** X3. Whatever violations it is given, [applyAutoFixes] never changes
    the type of the citation, the last names and group flags of its
    authors (it adds and removes no author), nor the url, editors,
    edition, full date, year suffix, report number, bracket type,
    conference name, institution or database name. *)
Theorem fixes_leave_type_and_names (c : ParsedCitation) (errors : list ValidationError.t) :
  untouched (fixedCitation (applyFixes c errors)) = untouched c.
Proof.
  unfold applyFixes.
  change c with (fixedCitation {| fixedCitation := c; autoFixes := []; manualFixes := [] |}) at 2.
  generalize {| fixedCitation := c; autoFixes := []; manualFixes := [] |}.
  induction errors as [|e errors IH]; intros st; cbn [fold_left]; [reflexivity|].
  rewrite IH. apply applyFix_untouched.
Qed.

(** A fix driven by [FIELD_MAP]. *)
Lemma applyFix_mapped st e field :
  ValidationError.autoFixable e = true ->
  str_eqb (ValidationError.rule e) (js "authorFormat") = false ->
  str_eqb (ValidationError.rule e) (js "ampersand") = false ->
  assoc (ValidationError.rule e) FIELD_MAP = Some field ->
  truthy (ValidationError.suggested e) = true ->
  applyFix st e
  = {| fixedCitation :=
         set_field field (defined (ValidationError.suggested e)) (fixedCitation st);
       autoFixes :=
         autoFixes st
         ++ [ {| AutoFix.rule := ValidationError.rule e;
                 AutoFix.field := field;
                 AutoFix.original := or_else (get_field field (fixedCitation st)) [];
                 AutoFix.fixed := defined (ValidationError.suggested e);
                 AutoFix.description :=
                   match assoc (ValidationError.rule e) FIX_DESCRIPTIONS with
                   | Some d => d e
                   | None => ValidationError.message e
                   end |} ];
       manualFixes := manualFixes st |}.
Proof.
  intros Ha Hr1 Hr2 Hf Hs. unfold applyFix. cbv zeta.
  rewrite Ha, Hr1, Hr2, Hf, Hs. reflexivity.
Qed.

Lemma nonempty_snoc (s t : jsstring) : nonempty t = true -> nonempty (s ++ t) = true.
Proof. destruct s, t; try reflexivity; discriminate. Qed.

(** X4. The fix of [checkTerminalPeriod] is listed but does not show:
    the corrected citation string is the reconstruction of the citation
    as it was, since the fix rewrites [raw], which [reconstructCitation]
    does not read; when the rule fires, the one fix listed is
    described as Added terminal period. *)
Theorem terminal_period_fix_is_silent (c : ParsedCitation) :
  fixedCitationString (applyAutoFixes c (checkTerminalPeriod c)) = reconstructCitation c
  /\ (checkTerminalPeriod c <> [] ->
      map AutoFix.description (resultAutoFixes (applyAutoFixes c (checkTerminalPeriod c)))
      = [js "Added terminal period"]).
Proof.
  unfold checkTerminalPeriod. cbv zeta.
  repeat match goal with
         | |- context [if ?b then _ else _] => destruct b
         end; try (split; [reflexivity | intros H; congruence]).
  unfold applyAutoFixes, applyFixes. cbn [fold_left].
  rewrite (applyFix_mapped _ _ (js "raw")); try reflexivity.
  - split; reflexivity.
  - apply nonempty_snoc. reflexivity.
Qed.

Lemma terminal_period_fix_is_silent_witness :
  let c := emptyCitation (js "Kim, B. Y. (2024). A title") in
  checkTerminalPeriod c <> []
  /\ map AutoFix.description (resultAutoFixes (applyAutoFixes c (checkTerminalPeriod c)))
     = [js "Added terminal period"].
Proof.
  cbv zeta.
  assert (H : checkTerminalPeriod (emptyCitation (js "Kim, B. Y. (2024). A title")) <> [])
    by (vm_compute; discriminate).
  split; [exact H|]. exact (proj2 (terminal_period_fix_is_silent _) H).
Defined.

(** ** The kinds of violation the rules emit                             *)

Definition signature (e : ValidationError.t) : jsstring * jsstring * Severity * bool :=
  (ValidationError.rule e, ValidationError.field e, ValidationError.severity e,
   ValidationError.autoFixable e).

(** Rule, field, severity and auto-fixable flag of every violation that a
    rule of [rules.ts] builds. *)
Definition SIGNATURES : list (jsstring * jsstring * Severity * bool) :=
  [ (js "authorFormat", js "authors", Error, false);
    (js "authorFormat", js "authors", Error, true);
    (js "yearFormat", js "year", Error, false);
    (js "yearFormat", js "year", Error, true);
    (js "titleCase", js "title", Error, false);
    (js "titleCase", js "title", Warning, true);
    (js "doiPresence", js "doi", Warning, false);
    (js "doiFormat", js "doi", Error, true);
    (js "doiFormat", js "doi", Error, false);
    (js "volumeFormat", js "volume", Error, true);
    (js "volumeFormat", js "volume", Warning, false);
    (js "issueFormat", js "issue", Error, true);
    (js "pageFormat", js "pages", Error, true);
    (js "pageFormat", js "pages", Warning, true);
    (js "ampersand", js "authors", Error, true);
    (js "ampersand", js "authors", Info, true);
    (js "journalNameCase", js "source", Warning, true);
    (js "conferenceNameCase", js "source", Warning, true);
    (js "chapterEditors", js "editors", Warning, false);
    (js "terminalPeriod", js "raw", Warning, true);
    (js "fullDateRequired", js "year", Warning, false);
    (js "publisherRequired", js "publisher", Error, false);
    (js "editionFormat", js "edition", Error, false);
    (js "publisherLocation", js "publisher", Warning, true);
    (js "inPrefix", js "source", Error, true);
    (js "bracketType", js "bracketType", Error, false);
    (js "conferenceInfo", js "conferenceName", Error, false);
    (js "dissertationInfo", js "institution", Error, false);
    (js "reportNumber", js "reportNumber", Info, false) ].

Definition sig_eqb (a b : jsstring * jsstring * Severity * bool) : bool :=
  let '(r, f, s, x) := a in
  let '(r', f', s', x') := b in
  str_eqb r r' && str_eqb f f' && severity_eqb s s' && Bool.eqb x x'.

Lemma sig_eqb_eq a b : sig_eqb a b = true -> a = b.
Proof.
  destruct a as [[[r f] s] x], b as [[[r' f'] s'] x']. cbn [sig_eqb]. intros H.
  apply andb_true_iff in H as [H Hx]. apply andb_true_iff in H as [H Hs].
  apply andb_true_iff in H as [Hr Hf].
  apply (reflect_iff _ _ (str_eqb_spec _ _)) in Hr, Hf.
  apply eqb_prop in Hx. subst.
  destruct s, s'; try discriminate; reflexivity.
Qed.

Definition known (e : ValidationError.t) : bool :=
  existsb (sig_eqb (signature e)) SIGNATURES.

Lemma known_one r f m sev o s a :
  existsb (sig_eqb (r, f, sev, a)) SIGNATURES = true ->
  forallb known [violation r f m sev o s a] = true.
Proof. intros H. cbn [forallb]. rewrite andb_true_r. exact H. Qed.

Ltac known_step :=
  match goal with
  | |- forallb known [] = true => reflexivity
  | |- forallb known (_ ++ _) = true =>
    rewrite forallb_app; apply andb_true_intro; split
  | |- forallb known (if ?b then _ else _) = true => destruct b
  | |- forallb known (match ?o with Some _ => _ | None => _ end) = true => destruct o
  | |- forallb known [violation _ _ _ _ _ _ ?a] = true =>
    apply known_one; first [vm_compute; reflexivity | destruct a; vm_compute; reflexivity]
  end.

Ltac known_rule := intros; cbv zeta; repeat known_step.

Lemma forEach_author_known l : forall i, forallb known (forEach_author i l) = true.
Proof.
  induction l as [|a l IH]; intros i; [reflexivity|].
  cbn [forEach_author]. rewrite forallb_app, IH, andb_true_r.
  unfold checkAuthor. known_rule.
Qed.

Lemma rules_known c : forallb known (runRules ALL_RULES c) = true.
Proof.
  unfold runRules, ALL_RULES, ROUTED_RULES. cbn [map rule flat_map].
  repeat (rewrite forallb_app; apply andb_true_intro; split);
    [ apply forEach_author_known
    | unfold checkYearFormat | unfold checkTitleCase | unfold checkDOIFormat
    | unfold checkAmpersand | unfold checkTerminalPeriod | unfold checkDOIPresence
    | unfold checkVolumeIssueFormat | unfold checkJournalNameCase | unfold checkPageFormat
    | unfold checkConferenceNameCase | unfold checkChapterEditors | unfold checkInPrefix
    | unfold checkPublisherRequired | unfold checkEditionFormat
    | unfold checkPublisherLocation | unfold checkFullDateRequired
    | unfold checkConferenceInfo | unfold checkBracketType | unfold checkDissertationInfo
    | unfold checkReportNumber | ]; known_rule.
Qed.

(** Whatever holds of every signature holds of every violation of the rules. *)
Lemma rules_static (P : jsstring * jsstring * Severity * bool -> bool) c e :
  forallb P SIGNATURES = true ->
  In e (runRules ALL_RULES c) -> P (signature e) = true.
Proof.
  intros HP He. pose proof (rules_known c) as Hk.
  rewrite forallb_forall in Hk. specialize (Hk e He).
  unfold known in Hk. apply existsb_exists in Hk as (s & Hs & Heq).
  apply sig_eqb_eq in Heq. rewrite Heq.
  rewrite forallb_forall in HP. apply HP, Hs.
Qed.

(** No rule of the engine is named like a member of [Object.prototype]:
    on the violations of the rules, the lookups in the fixer's tables
    find the tables' own entries only. *)
Lemma rules_emit_own_keys c : ownRules (runRules ALL_RULES c).
Proof.
  apply Forall_forall. intros e He.
  pose proof (rules_static (fun s => let '(r, _, _, _) := s in negb (inheritedKey r)) c e) as H.
  unfold signature in H. apply negb_true_iff. apply H; [vm_compute; reflexivity | exact He].
Qed.

(** ** The fixer's tables against the rules                              *)

(** A violation that the fixer's tables provide for: left to the user,
    it has a hint; auto-fixable, it is one of the two special cases on
    the authors or has its own field in [FIELD_MAP], with a description. *)
Definition Covered (e : ValidationError.t) : Prop :=
  (ValidationError.autoFixable e = false ->
   assoc (ValidationError.rule e) MANUAL_FIX_HINTS <> None)
  /\ (ValidationError.autoFixable e = true ->
      ((ValidationError.rule e = js "authorFormat"
        \/ ValidationError.rule e = js "ampersand")
       /\ ValidationError.field e = js "authors")
      \/ (assoc (ValidationError.rule e) FIELD_MAP = Some (ValidationError.field e)
          /\ assoc (ValidationError.rule e) FIX_DESCRIPTIONS <> None)).

Definition covered (s : jsstring * jsstring * Severity * bool) : bool :=
  let '(r, f, _, a) := s in
  if a then
    (str_eqb r (js "authorFormat") || str_eqb r (js "ampersand")) && str_eqb f (js "authors")
    || match assoc r FIELD_MAP with Some f' => str_eqb f' f | None => false end
       && is_some (assoc r FIX_DESCRIPTIONS)
  else is_some (assoc r MANUAL_FIX_HINTS).

Lemma covered_Covered e : covered (signature e) = true -> Covered e.
Proof.
  unfold covered, signature, Covered. intros H. split; intros Ha; rewrite Ha in H.
  - destruct (assoc _ MANUAL_FIX_HINTS); [discriminate | discriminate].
  - apply orb_true_iff in H as [H|H].
    + left. apply andb_true_iff in H as [Hr Hf].
      apply (reflect_iff _ _ (str_eqb_spec _ _)) in Hf. split; [|exact Hf].
      apply orb_true_iff in Hr as [Hr|Hr];
        apply (reflect_iff _ _ (str_eqb_spec _ _)) in Hr; auto.
    + right. apply andb_true_iff in H as [Hm Hd].
      destruct (assoc _ FIELD_MAP) as [f'|]; [|discriminate].
      apply (reflect_iff _ _ (str_eqb_spec _ _)) in Hm. subst f'.
      split; [reflexivity|]. destruct (assoc _ FIX_DESCRIPTIONS); discriminate.
Qed.

Lemma rules_covered c e : In e (runRules ALL_RULES c) -> Covered e.
Proof.
  intros He. apply covered_Covered.
  apply (rules_static covered c e); [vm_compute; reflexivity | exact He].
Qed.

Lemma typeMismatch_covered c : Covered (typeMismatch c).
Proof. apply covered_Covered. vm_compute. reflexivity. Qed.

(** X5. Every violation that a rule of [ALL_RULES] can emit, and the
    type-mismatch note, is provided for by the fixer's tables: when it is
    not auto-fixable its rule has an entry in [MANUAL_FIX_HINTS]; when it
    is auto-fixable it is either one of the two fixes on the authors
    (authorFormat, ampersand) or its rule is mapped by [FIELD_MAP] to the
    very field the violation names and has a text in [FIX_DESCRIPTIONS].
    So no fix is dropped for want of a field and no description or hint
    falls back to the default. *)
Theorem tables_cover_rules (c : ParsedCitation) :
  Forall Covered (runRules ALL_RULES c) /\ Covered (typeMismatch c).
Proof.
  split.
  - apply Forall_forall. intros e. apply rules_covered.
  - apply typeMismatch_covered.
Qed.

(** ** Fixes and the violations they come from                           *)

Definition from (e : ValidationError.t) (fx : AutoFix.t) : Prop :=
  AutoFix.rule fx = ValidationError.rule e /\ AutoFix.field fx = ValidationError.field e.

Lemma applyFix_from st e :
  Covered e ->
  exists l, autoFixes (applyFix st e) = autoFixes st ++ l /\ Forall (from e) l.
Proof.
  intros [_ Hc]. unfold applyFix. cbv zeta.
  destruct (ValidationError.autoFixable e); cbn [negb];
    [|exists []; rewrite app_nil_r; split; [reflexivity | constructor]].
  specialize (Hc eq_refl).
  destruct (str_eqb_spec (ValidationError.rule e) (js "authorFormat")) as [Hr1|Hr1].
  - destruct (truthy _ && str_eqb (ValidationError.field e) (js "authors")) eqn:Hs;
      [|exists []; rewrite app_nil_r; split; [reflexivity | constructor]].
    apply andb_true_iff in Hs as [_ Hf].
    apply (reflect_iff _ _ (str_eqb_spec _ _)) in Hf.
    destruct (parseInt _ _); [|exists []; rewrite app_nil_r; split; [reflexivity | constructor]].
    destruct (_ && _); [|exists []; rewrite app_nil_r; split; [reflexivity | constructor]].
    eexists; split; [reflexivity|]. constructor; [|constructor].
    split; cbn [AutoFix.rule AutoFix.field]; congruence.
  - destruct (str_eqb_spec (ValidationError.rule e) (js "ampersand")) as [Hr2|Hr2].
    + eexists; split; [reflexivity|]. constructor; [|constructor].
      destruct Hc as [[_ Hf]|[Hm _]].
      * split; cbn [AutoFix.rule AutoFix.field]; congruence.
      * rewrite Hr2 in Hm. discriminate Hm.
    + destruct Hc as [[[Hr|Hr] _]|[Hm _]]; [congruence | congruence |].
      rewrite Hm.
      destruct (truthy _); [|exists []; rewrite app_nil_r; split; [reflexivity | constructor]].
      eexists; split; [reflexivity|]. constructor; [|constructor].
      split; reflexivity.
Qed.

Lemma fold_applyFix_from errors : forall st,
  Forall Covered errors ->
  exists l, autoFixes (fold_left applyFix errors st) = autoFixes st ++ l
            /\ Forall (fun fx => exists e, In e errors /\ from e fx) l.
Proof.
  induction errors as [|e errors IH]; intros st Hc; cbn [fold_left].
  - exists []. rewrite app_nil_r. split; [reflexivity | constructor].
  - inversion Hc as [|? ? He Hes]; subst.
    destruct (applyFix_from st e He) as (l1 & E1 & H1).
    destruct (IH (applyFix st e) Hes) as (l2 & E2 & H2).
    exists (l1 ++ l2). rewrite E2, E1, <- app_assoc. split; [reflexivity|].
    apply Forall_app. split.
    + eapply Forall_impl; [|exact H1]. intros fx Hfx. exists e. split; [left; reflexivity | exact Hfx].
    + eapply Forall_impl; [|exact H2]. intros fx (e' & Hin & Hfx).
      exists e'. split; [right; exact Hin | exact Hfx].
Qed.

Lemma originalError_found errors fx e :
  In e errors -> from e fx -> originalError errors fx <> None.
Proof.
  intros Hin [Hr Hf] Hnone. unfold originalError in Hnone.
  pose proof (find_none _ _ Hnone e Hin) as H. cbn beta in H.
  rewrite Hr, Hf, !str_eqb_refl in H. discriminate.
Qed.

Lemma originalError_other errors fx :
  forallb (fun e => negb (str_eqb (ValidationError.rule e) (AutoFix.rule fx))) errors = true ->
  originalError errors fx = None.
Proof.
  intros H. unfold originalError.
  induction errors as [|e errors IH]; [reflexivity|].
  cbn [forallb] in H. apply andb_true_iff in H as [He Hes].
  cbn [find]. apply negb_true_iff in He. rewrite He. cbn [andb]. apply IH, Hes.
Qed.

Lemma rules_not_pageCompletion c :
  forallb (fun e => negb (str_eqb (ValidationError.rule e) (js "pageCompletion")))
          (runRules ALL_RULES c) = true.
Proof.
  apply forallb_forall. intros e He.
  exact (rules_static (fun s => let '(r, _, _, _) := s in
                                negb (str_eqb r (js "pageCompletion")))
                      c e eq_refl He).
Qed.

Section Credit.

Variable searchByTitle : jsstring -> option CrossRefWork.t.

(** X6. In a result of [validateCitation], every automatic fix but the
    page completion has an originating violation among the errors (same
    rule and field), so that [calculateScore] adds its half back; the
    page-completion fix never has one, so it leaves the score alone. *)
Theorem fixes_are_credited (text : jsstring) (useCrossRef : bool) :
  let r := validateCitation searchByTitle text useCrossRef in
  Forall (fun fx =>
            if str_eqb (AutoFix.rule fx) (js "pageCompletion")
            then originalError (errors r) fx = None
            else originalError (errors r) fx <> None)
         (resAutoFixes r).
Proof.
  cbv zeta. unfold validateCitation.
  destruct (enrich searchByTitle text useCrossRef) as [c typeChanged].
  cbn [errors resAutoFixes].
  set (errs := runRules ALL_RULES c ++ (if typeChanged then [typeMismatch c] else [])).
  assert (Hcov : Forall Covered errs).
  { apply Forall_app. split; [apply Forall_forall; intros e; apply rules_covered|].
    destruct typeChanged; [|constructor].
    constructor; [apply typeMismatch_covered | constructor]. }
  assert (Hpc : forallb (fun e => negb (str_eqb (ValidationError.rule e) (js "pageCompletion")))
                        errs = true).
  { unfold errs. rewrite forallb_app, rules_not_pageCompletion.
    destruct typeChanged; reflexivity. }
  apply Forall_app. split.
  - unfold applyAutoFixes, applyFixes. cbn [resultAutoFixes].
    destruct (fold_applyFix_from errs
                {| fixedCitation := c; autoFixes := []; manualFixes := [] |} Hcov)
      as (l & El & Hl).
    rewrite El. cbn [autoFixes app].
    eapply Forall_impl; [|exact Hl]. intros fx (e & Hin & Hfrom).
    rewrite forallb_forall in Hpc. specialize (Hpc e Hin).
    destruct Hfrom as [Hr Hf]. rewrite Hr.
    apply negb_true_iff in Hpc. rewrite Hpc.
    apply (originalError_found errs fx e Hin). split; assumption.
  - destruct (negb _ && _); [|constructor].
    constructor; [|constructor]. cbn [AutoFix.rule].
    rewrite str_eqb_refl. apply originalError_other. exact Hpc.
Qed.

End Credit.

(** ** Fixes and the score                                               *)

Lemma addBack_nonneg s : (0 <= addBack s)%Q.
Proof. destruct s; discriminate. Qed.

Lemma addBacks_grow errors more : forall acc,
  (acc <= fold_left (fun score fx =>
                       match originalError errors fx with
                       | Some e => score + addBack (ValidationError.severity e)
                       | None => score
                       end) more acc)%Q.
Proof.
  induction more as [|fx more IH]; intros acc; cbn [fold_left]; [apply Qle_refl|].
  eapply Qle_trans; [|apply IH].
  destruct (originalError errors fx) as [e|]; [|apply Qle_refl].
  rewrite <- (Qplus_0_r acc) at 1. apply Qplus_le_r, addBack_nonneg.
Qed.

Lemma Math_round_le x y : (x <= y)%Q -> (Math_round x <= Math_round y)%Z.
Proof. intros H. unfold Math_round. apply Qfloor_resp_le, Qplus_le_l, H. Qed.

(** X7. For a fixed list of violations, [calculateScore] never goes
    down when fixes are added, and fixes that have no originating
    violation in the list leave it unchanged. *)
Theorem fixes_never_lower_the_score (errors : list ValidationError.t)
        (fixes more : list AutoFix.t) :
  (calculateScore errors fixes <= calculateScore errors (fixes ++ more))%Z
  /\ (Forall (fun fx => originalError errors fx = None) more ->
      calculateScore errors (fixes ++ more) = calculateScore errors fixes).
Proof.
  unfold calculateScore, rawScore. rewrite fold_left_app. split.
  - pose proof (Math_round_le _ _ (addBacks_grow errors more
       (fold_left (fun score fx =>
                     match originalError errors fx with
                     | Some e => (score + addBack (ValidationError.severity e))%Q
                     | None => score
                     end) fixes
          (fold_left (fun score error =>
                        (score - deduction (ValidationError.severity error))%Q)
                     errors 100%Q)))) as H.
    lia.
  - intros Hmore. f_equal. f_equal. f_equal.
    induction Hmore as [|fx more Hfx _ IH]; [reflexivity|].
    cbn [fold_left]. rewrite Hfx. exact IH.
Qed.

Lemma fixes_never_lower_the_score_witness :
  calculateScore [violation (js "inPrefix") (js "source") [] Error [] None true]
                 ([] ++ [AutoFix.Build_t (js "pageCompletion") (js "pages") [] [] []])
  = calculateScore [violation (js "inPrefix") (js "source") [] Error [] None true] [].
Proof.
  apply (fixes_never_lower_the_score _ [] _).
  constructor; [reflexivity | constructor].
Defined.

(** ** The accepted form of a DOI                                        *)

Lemma startsWith_exclusive d :
  startsWith d (js "doi:") = true -> startsWith d (js "https://doi.org/") = false.
Proof.
  destruct d as [|x d]; [discriminate|].
  change (js "doi:") with (100%N :: js "oi:").
  change (js "https://doi.org/") with (104%N :: js "ttps://doi.org/").
  cbn [startsWith]. destruct (N.eqb_spec 100 x) as [<-|]; [|discriminate].
  reflexivity.
Qed.

(** X8. [checkDOIFormat] emits nothing exactly when the citation has no
    DOI (absent or empty), or its DOI, trimmed, starts with
    https://doi.org/ in lower case and does not end with a period. *)
Theorem checkDOIFormat_accepts (c : ParsedCitation) :
  checkDOIFormat c = []
  <-> truthy (doi c) = false
      \/ (startsWith (trim (defined (doi c))) (js "https://doi.org/") = true
          /\ endsWith (trim (defined (doi c))) (js ".") = false).
Proof.
  unfold checkDOIFormat. cbv zeta.
  destruct (truthy (doi c)); cbn [negb]; [|split; auto].
  set (d := trim (defined (doi c))).
  destruct (endsWith d (js ".")) eqn:He.
  - split; [discriminate|]. intros [H|[_ H]]; discriminate.
  - cbn [app]. destruct (startsWith d (js "doi:")) eqn:Hd.
    + rewrite (startsWith_exclusive d Hd).
      split; [discriminate|]. intros [H|[H _]]; discriminate.
    + destruct (startsWith d (js "https://doi.org/")) eqn:Hh; cbn [negb].
      * split; auto.
      * destruct (test _ d); (split; [discriminate|]); intros [H|[H _]]; discriminate.
Qed.

Lemma checkDOIFormat_accepts_witness :
  checkDOIFormat (parseCitation (js "Kim, B. Y. (2024). A title. Some Journal, 4, 1-9.")) = [].
Proof.
  apply (proj2 (checkDOIFormat_accepts _)). left. vm_compute. reflexivity.
Defined.

(** ** The routing table and the flat list of rules                      *)

Definition routed (c : ParsedCitation) : list ValidationError.t :=
  runRules (getRulesForType (type c)) c.

(** X9. The flat list [ALL_RULES] and the table behind
    [getRulesForType] differ only through the four rules that do not
    test the type themselves: when [checkVolumeIssueFormat] is silent
    outside journals, [checkPageFormat] outside journals and chapters,
    and [checkEditionFormat] and [checkPublisherLocation] outside books
    and chapters, running all the rules gives the same violations, in
    the same order, as running the rules routed for the citation's type. *)
Theorem routing_differs_by_four_rules (c : ParsedCitation) :
  (type c <> journal -> checkVolumeIssueFormat c = []) ->
  (type c <> journal -> type c <> chapter -> checkPageFormat c = []) ->
  (type c <> book -> type c <> chapter ->
   checkEditionFormat c = [] /\ checkPublisherLocation c = []) ->
  runRules ALL_RULES c = runRules (getRulesForType (type c)) c.
Proof.
  intros Hv Hp He.
  unfold runRules, getRulesForType, ALL_RULES, ROUTED_RULES.
  unfold checkDOIPresence, checkJournalNameCase, checkConferenceNameCase,
    checkChapterEditors, checkInPrefix, checkPublisherRequired, checkFullDateRequired,
    checkConferenceInfo, checkBracketType, checkDissertationInfo, checkReportNumber in *.
  destruct (type c) eqn:Et; cbn [map rule flat_map filter appliesTo existsb type_eqb orb app andb negb];
    rewrite ?app_nil_r;
    try rewrite Hv by discriminate;
    try rewrite Hp by discriminate;
    try (destruct He as [He1 He2]; [discriminate | discriminate |]; rewrite He1, He2);
    rewrite ?Et; cbn [type_eqb andb app]; rewrite ?app_nil_r; reflexivity.
Qed.

Lemma routing_differs_by_four_rules_witness :
  runRules ALL_RULES (parseCitation doiText)
  = runRules (getRulesForType (type (parseCitation doiText))) (parseCitation doiText).
Proof.
  apply routing_differs_by_four_rules.
  - intros H. exfalso. apply H. vm_compute. reflexivity.
  - intros H. exfalso. apply H. vm_compute. reflexivity.
  - intros _ _. split; vm_compute; reflexivity.
Defined.

(** ** What the parser keeps of its input                                *)

Lemma parse_depends_on_trimmed_text (text : jsstring) :
  parseCitation (trim text) = parseCitation text
  /\ raw (parseCitation text) = trim text.
Proof. split; [apply parseCitation_trim | apply parseCitation_raw]. Qed.

Lemma nonempty_length (s : jsstring) : (0 <? length s) = true -> s <> [].
Proof. destruct s; [discriminate | discriminate]. Qed.

Lemma parseCitations_trimmed (text : jsstring) :
  Forall (fun c => raw c <> [] /\ trim (raw c) = raw c) (parseCitations text).
Proof.
  unfold parseCitations. apply Forall_forall. intros c Hc.
  apply in_map_iff in Hc as (t & <- & Ht).
  apply filter_In in Ht as [Ht Hlen].
  apply in_map_iff in Ht as (b & <- & _).
  rewrite parseCitation_raw, !trim_idem. split; [|reflexivity].
  apply nonempty_length, Hlen.
Qed.

Lemma parseCitations_reparse (text : jsstring) :
  Forall (fun c => parseCitation (raw c) = c) (parseCitations text).
Proof.
  unfold parseCitations. apply Forall_forall. intros c Hc.
  apply in_map_iff in Hc as (t & <- & _).
  rewrite parseCitation_raw, parseCitation_trim. reflexivity.
Qed.

Lemma parseCitations_blocks_aux (text : jsstring) :
  Forall (fun c => citation (validateCitationWithoutCrossRef (raw c)) = c)
         (parseCitations text).
Proof.
  eapply Forall_impl; [|apply parseCitations_reparse].
  intros c Hc. cbn [validateCitationWithoutCrossRef citation]. exact Hc.
Qed.

(** X10. Every citation that [parseCitations] returns has a [raw] text
    that is not empty and has no white space at either end, and parsing
    that text again gives the same citation: a batch can be validated
    from the [raw] texts alone. *)
Theorem parseCitations_blocks (text : jsstring) :
  Forall (fun c => raw c <> [] /\ trim (raw c) = raw c /\ parseCitation (raw c) = c)
         (parseCitations text).
Proof.
  pose proof (parseCitations_trimmed text) as H1.
  pose proof (parseCitations_reparse text) as H2.
  rewrite Forall_forall in *. intros c Hc.
  destruct (H1 c Hc) as [Ha Hb]. repeat split; auto.
Qed.

(** ** Case conversion outside Basic Latin                              *)

(** The case conversions on letters outside Basic Latin: an accented
    capital, the Kelvin sign, the dotted capital I (one code unit becomes
    two), a final and a medial sigma, the sharp s (one becomes two), and a
    letter outside the Basic Multilingual Plane (a surrogate pair). *)
Lemma case_conversion_examples :
  toLowerCase (js "GARCÍA") = js "garcía"
  /\ toLowerCase [8490%N] = js "k"
  /\ toLowerCase [304%N] = [105%N; 775%N]
  /\ toLowerCase (js "ΟΔΟΣ ΣΟΦΙΑ") = js "οδος σοφια"
  /\ toUpperCase (js "straße") = js "STRASSE"
  /\ toLowerCase (js "𐐀") = js "𐐨"
  /\ toLowerCase (js "Kim, B. Y. (2024)") = js "kim, b. y. (2024)".
Proof. repeat apply conj; vm_compute; reflexivity. Qed.

(** The work found for a title, by an author written in capitals. *)
Definition garciaWork : CrossRefWork.t :=
  {| CrossRefWork.doi := js "10.1000/182";
     CrossRefWork.title := js "The impact of AI on education";
     CrossRefWork.authors :=
       [ {| lastName := js "GARCÍA"; initials := js "M."; isGroupAuthor := None |} ];
     CrossRefWork.year := js "2024";
     CrossRefWork.source := js "Journal of Learning";
     CrossRefWork.volume := None; CrossRefWork.issue := None;
     CrossRefWork.pages := None; CrossRefWork.type := js "journal-article";
     CrossRefWork.publisher := None; CrossRefWork.editors := None;
     CrossRefWork.edition := None; CrossRefWork.reportNumber := None;
     CrossRefWork.conferenceName := None; CrossRefWork.institution := None |}.

(** The comparison of the first authors sees through the case of such
    letters: the work is trusted for a citation by García, and [findDOI]
    returns its DOI. *)
Lemma trust_beyond_basic_latin :
  let text := js "García, M. (2024). The impact of AI on education. Journal of Learning, 45(2), 123–145." in
  map lastName (authors (parseCitation text)) = [js "García"]
  /\ authorMatches (parseCitation text) garciaWork = true
  /\ trusted (parseCitation text) garciaWork = true
  /\ findDOI (fun _ => Some garciaWork) (title (parseCitation text)) [js "García"]
     = Some (js "10.1000/182").
Proof. cbv zeta. repeat apply conj; vm_compute; reflexivity. Qed.

(** ** Validation with and without a lookup                              *)

Lemma opt_eqb_refl o : opt_eqb o o = true.
Proof. destruct o; [apply str_eqb_refl | reflexivity]. Qed.

Lemma validate_unenriched search text useCrossRef :
  enrich search text useCrossRef = (parseCitation text, false) ->
  validateCitation search text useCrossRef = validateCitationWithoutCrossRef text.
Proof.
  intros He. unfold validateCitation, validateCitationWithoutCrossRef. rewrite He.
  rewrite opt_eqb_refl. cbn [negb andb]. rewrite !app_nil_r. reflexivity.
Qed.

Section Degrade.

Variable searchByTitle : jsstring -> option CrossRefWork.t.

(** X11. When the lookup is switched off, finds nothing (or fails, which
    the code turns into nothing), or finds a work that is not trusted
    (no DOI, title similarity below one half, or another first author),
    [validateCitation] returns exactly the result of
    [validateCitationWithoutCrossRef]. *)
Theorem lookup_failure_degrades (text : jsstring) (useCrossRef : bool) :
  useCrossRef = false
  \/ searchByTitle (title (parseCitation text)) = None
  \/ (exists w, searchByTitle (title (parseCitation text)) = Some w
                /\ trusted (parseCitation text) w = false) ->
  validateCitation searchByTitle text useCrossRef = validateCitationWithoutCrossRef text.
Proof.
  intros H. apply validate_unenriched. unfold enrich.
  destruct H as [->|[H|(w & Hw & Ht)]]; [reflexivity| |].
  - rewrite H. destruct (_ && _); reflexivity.
  - rewrite Hw, Ht. destruct (_ && _); reflexivity.
Qed.

End Degrade.

Lemma lookup_failure_degrades_witness :
  validateCitation (fun _ => None) doiText true = validateCitationWithoutCrossRef doiText.
Proof. apply lookup_failure_degrades. right. left. reflexivity. Defined.

Lemma mapi_map {A B} (f : nat -> A -> B) (g : A -> B) l : forall i,
  (forall j x, f j x = g x) -> mapi f i l = map g l.
Proof.
  induction l as [|x l IH]; intros i H; [reflexivity|].
  cbn [mapi map]. rewrite H, IH by exact H. reflexivity.
Qed.

(** X12. With the lookup switched off, [validateCitations] is the offline
    validation of each citation of [parseCitations], in order, and the
    citations in its results are those of [parseCitations]. *)
Theorem batch_without_lookup (lookups : nat -> jsstring -> option CrossRefWork.t)
        (text : jsstring) :
  validateCitations lookups text false
  = map (fun c => validateCitationWithoutCrossRef (raw c)) (parseCitations text)
  /\ map citation (validateCitations lookups text false) = parseCitations text.
Proof.
  assert (E : validateCitations lookups text false
              = map (fun c => validateCitationWithoutCrossRef (raw c)) (parseCitations text)).
  { unfold validateCitations. apply mapi_map. intros j c.
    apply validate_unenriched. reflexivity. }
  split; [exact E|]. rewrite E, map_map.
  pose proof (parseCitations_blocks_aux text) as H.
  revert H. generalize (parseCitations text). intros l H.
  induction H as [|c l Hc _ IH]; [reflexivity|].
  cbn [map]. rewrite IH. f_equal. exact Hc.
Qed.

(** ** What a correction from CrossRef leaves alone                      *)

Definition identity (c : ParsedCitation) := (raw c, title c, authors c, year c).

Lemma supplementDOI_keeps w c :
  identity (supplementDOI w c) = identity c /\ type (supplementDOI w c) = type c
  /\ (truthy (doi c) = true -> doi (supplementDOI w c) = doi c)
  /\ pages (supplementDOI w c) = pages c.
Proof.
  unfold supplementDOI. destruct (truthy (doi c)); cbn [negb andb]; [repeat split|].
  destruct (nonempty _); repeat split; discriminate.
Qed.

Lemma supplementPages_keeps w c :
  identity (supplementPages w c) = identity c /\ type (supplementPages w c) = type c
  /\ doi (supplementPages w c) = doi c.
Proof.
  unfold supplementPages. cbv zeta.
  destruct (_ && _); [destruct (_ && _); repeat split|].
  destruct (_ && _); repeat split.
Qed.

Lemma journalToChapter_keeps w c :
  identity (journalToChapter w c) = identity c /\ type (journalToChapter w c) = type c
  /\ doi (journalToChapter w c) = doi c.
Proof.
  unfold journalToChapter. cbv zeta.
  destruct (edition_above_one w), (has_editors w), (truthy (CrossRefWork.publisher w));
    repeat split.
Qed.

Lemma correct_identity c w :
  identity (fst (correctCitationWithCrossRef c w)) = identity c.
Proof.
  unfold correctCitationWithCrossRef. cbv zeta.
  destruct (supplementPages_keeps w (supplementDOI w c)) as (Hp & _).
  destruct (supplementDOI_keeps w c) as (Hd & _).
  destruct (_ || _); cbn [fst]; [congruence|].
  destruct (_ && _); cbn [fst].
  - destruct (journalToChapter_keeps w
                (set_type (mapCrossRefType (CrossRefWork.type w))
                          (supplementPages w (supplementDOI w c)))) as (Hj & _).
    rewrite Hj. unfold identity in *. cbn [raw title authors year set_type]. congruence.
  - unfold identity in *. cbn [raw title authors year set_type]. congruence.
Qed.

Lemma correct_doi c w :
  truthy (doi c) = true -> doi (fst (correctCitationWithCrossRef c w)) = doi c.
Proof.
  intros Hc. unfold correctCitationWithCrossRef. cbv zeta.
  destruct (supplementPages_keeps w (supplementDOI w c)) as (_ & _ & Hp).
  destruct (supplementDOI_keeps w c) as (_ & _ & Hd & _). specialize (Hd Hc).
  destruct (_ || _); cbn [fst]; [congruence|].
  destruct (_ && _); cbn [fst].
  - destruct (journalToChapter_keeps w
                (set_type (mapCrossRefType (CrossRefWork.type w))
                          (supplementPages w (supplementDOI w c)))) as (_ & _ & Hj).
    rewrite Hj. cbn [doi set_type]. congruence.
  - cbn [doi set_type]. congruence.
Qed.

Lemma mapCrossRefType_cases t :
  mapCrossRefType t = unknown \/ mapCrossRefType t = journal
  \/ mapCrossRefType t = chapter \/ mapCrossRefType t = book.
Proof.
  unfold mapCrossRefType.
  repeat match goal with
         | |- context [if ?b then _ else _] => destruct b
         end; auto.
Qed.

Lemma correct_type c w :
  let c' := fst (correctCitationWithCrossRef c w) in
  type c' = type c \/ type c' = journal \/ type c' = chapter \/ type c' = book.
Proof.
  cbv zeta. unfold correctCitationWithCrossRef. cbv zeta.
  destruct (supplementPages_keeps w (supplementDOI w c)) as (_ & Hp & _).
  destruct (supplementDOI_keeps w c) as (_ & Hd & _).
  destruct (type_eqb _ (type c) || type_eqb _ unknown) eqn:E; cbn [fst];
    [left; congruence|].
  apply orb_false_iff in E as [_ Eu].
  assert (Ht : forall x, type (set_type (mapCrossRefType (CrossRefWork.type w)) x)
                         = mapCrossRefType (CrossRefWork.type w)) by reflexivity.
  right.
  destruct (_ && _); cbn [fst];
    [destruct (journalToChapter_keeps w
                 (set_type (mapCrossRefType (CrossRefWork.type w))
                           (supplementPages w (supplementDOI w c)))) as (_ & Hj & _);
     rewrite Hj|];
    rewrite Ht;
    destruct (mapCrossRefType_cases (CrossRefWork.type w)) as [H|H];
    try (rewrite H in Eu; discriminate Eu); exact H.
Qed.

Section Frame.

Variable searchByTitle : jsstring -> option CrossRefWork.t.

Lemma enrich_cases text useCrossRef :
  enrich searchByTitle text useCrossRef = (parseCitation text, false)
  \/ exists w, enrich searchByTitle text useCrossRef
               = correctCitationWithCrossRef (parseCitation text) w.
Proof.
  unfold enrich. destruct (_ && _); [|left; reflexivity].
  destruct (searchByTitle _) as [w|]; [|left; reflexivity].
  destruct (trusted _ w); [right; exists w; reflexivity | left; reflexivity].
Qed.

(** X13. Whatever the lookup returns, the citation in the result of
    [validateCitation] has the raw text, title, authors and year of the
    parsed citation; a DOI found in the text is never replaced; and the
    type is the parsed one or one of journal, chapter and book. *)
Theorem correction_keeps_identity (text : jsstring) (useCrossRef : bool) :
  let c := parseCitation text in
  let c' := citation (validateCitation searchByTitle text useCrossRef) in
  (raw c' = raw c /\ title c' = title c /\ authors c' = authors c /\ year c' = year c)
  /\ (truthy (doi c) = true -> doi c' = doi c)
  /\ (type c' = type c \/ type c' = journal \/ type c' = chapter \/ type c' = book).
Proof.
  cbv zeta. unfold validateCitation.
  destruct (enrich_cases text useCrossRef) as [E|[w E]]; rewrite E.
  - cbn [citation]. repeat split; auto.
  - pose proof (correct_identity (parseCitation text) w) as Hi.
    pose proof (correct_doi (parseCitation text) w) as Hd.
    pose proof (correct_type (parseCitation text) w) as Ht. cbv zeta in Ht.
    destruct (correctCitationWithCrossRef (parseCitation text) w) as [c' b].
    cbn [citation fst] in *. unfold identity in Hi. inversion Hi as [[H1 H2 H3 H4]].
    repeat split; auto.
Qed.

(** X14. [findDOI], called with the title and the authors' last names of
    a citation, returns the DOI of the work found exactly when
    [validateCitation] would trust that work (a DOI, title similarity of
    at least one half, matching first author), and nothing otherwise. *)
Theorem findDOI_trusts_like_validateCitation (c : ParsedCitation) :
  findDOI searchByTitle (title c) (map lastName (authors c))
  = match searchByTitle (title c) with
    | Some w => if trusted c w then Some (CrossRefWork.doi w) else None
    | None => None
    end.
Proof.
  unfold findDOI, trusted, authorMatches.
  destruct (searchByTitle (title c)) as [w|]; [|reflexivity].
  destruct (nonempty (CrossRefWork.doi w)); cbn [negb andb]; [|reflexivity].
  destruct (Qle_bool 0.5 _); cbn [negb andb]; [|reflexivity].
  destruct (authors c) as [|a l]; [reflexivity|]. cbn [map].
  destruct (CrossRefWork.authors w) as [|b l']; [reflexivity|].
  destruct (_ || _); reflexivity.
Qed.

End Frame.

Lemma correction_keeps_identity_witness :
  doi (citation (validateCitation (fun _ => Some otherWork) doiText true))
  = Some (js "10.1234/jet.2024.001").
Proof.
  destruct (correction_keeps_identity (fun _ => Some otherWork) doiText true)
    as (_ & H & _).
  rewrite H; vm_compute; reflexivity.
Defined.

(** ** Segments                                                          *)

Lemma splitByPeriods_loop_trimmed n : forall text current depth,
  length text <= n ->
  Forall (fun s => trim s = s) (splitByPeriods_loop text current depth).
Proof.
  induction n as [|n IH]; intros text current depth Hn;
    (destruct text as [|c t]; cbn [splitByPeriods_loop];
     [destruct (nonempty _); repeat constructor; apply trim_idem|]);
    cbn [length] in Hn; [lia|].
  assert (Ht : length t <= n) by lia.
  destruct (is_ch c "("); [apply IH, Ht|].
  destruct (is_ch c ")"); [apply IH, Ht|].
  destruct (_ && _); [|apply IH, Ht].
  destruct t as [|d t']; [apply IH, Ht|].
  destruct (is_ch d " "); [|apply IH, Ht].
  constructor; [apply trim_idem|]. apply IH. cbn [length] in Ht. lia.
Qed.

Lemma splitByPeriods_loop_plain text : forall current depth,
  existsb (fun c => is_ch c ".") text = false ->
  splitByPeriods_loop text current depth
  = if nonempty (trim (current ++ text)) then [trim (current ++ text)] else [].
Proof.
  induction text as [|c t IH]; intros current depth H; cbn [splitByPeriods_loop].
  - rewrite app_nil_r. reflexivity.
  - cbn [existsb] in H. apply orb_false_iff in H as [Hc Ht].
    rewrite Hc. cbn [andb].
    replace (current ++ c :: t) with ((current ++ [c]) ++ t)
      by (rewrite <- app_assoc; reflexivity).
    destruct (is_ch c "("); [apply IH, Ht|].
    destruct (is_ch c ")"); apply IH, Ht.
Qed.

(** X15. The segments of [splitByPeriods] have no white space at either
    end; a text with no period at all is one segment, its trimmed self,
    or no segment when it is blank. *)
Theorem splitByPeriods_segments (text : jsstring) :
  Forall (fun s => trim s = s) (splitByPeriods text)
  /\ (existsb (fun c => is_ch c ".") text = false ->
      splitByPeriods text = if nonempty (trim text) then [trim text] else []).
Proof.
  split; [apply (splitByPeriods_loop_trimmed (length text)), le_n|].
  intros H. apply (splitByPeriods_loop_plain text [] 0 H).
Qed.

Lemma splitByPeriods_segments_witness :
  splitByPeriods (js "  Journal of Testing, 4(2), 1-9 ") = [js "Journal of Testing, 4(2), 1-9"].
Proof.
  rewrite (proj2 (splitByPeriods_segments _)); vm_compute; reflexivity.
Defined.

(** ** Title similarity                                                  *)

Lemma existsb_str_In w l : existsb (str_eqb w) l = true <-> In w l.
Proof.
  rewrite existsb_exists. split.
  - intros (x & Hx & He). apply (reflect_iff _ _ (str_eqb_spec _ _)) in He. subst; exact Hx.
  - intros H. exists w. split; [exact H | apply str_eqb_refl].
Qed.

Lemma dedup_spec l : forall acc,
  NoDup acc ->
  NoDup (dedup l acc) /\ (forall x, In x (dedup l acc) <-> In x l \/ In x acc).
Proof.
  induction l as [|w l IH]; intros acc Hacc; cbn [dedup].
  - split; [apply NoDup_rev, Hacc|]. intros x. rewrite <- in_rev. cbn. tauto.
  - destruct (existsb (str_eqb w) acc) eqn:E.
    + apply existsb_str_In in E. destruct (IH acc Hacc) as [Hn Hi].
      split; [exact Hn|]. intros x. rewrite Hi. cbn [In].
      split; [tauto|]. intros [[<-|H]|H]; auto.
    + assert (Hw : ~ In w acc).
      { intros H. apply existsb_str_In in H. congruence. }
      destruct (IH (w :: acc) (NoDup_cons _ Hw Hacc)) as [Hn Hi].
      split; [exact Hn|]. intros x. rewrite Hi. cbn [In]. tauto.
Qed.

Lemma title_words_NoDup t : NoDup (title_words t).
Proof. unfold title_words. apply dedup_spec. constructor. Qed.

Lemma NoDup_filter {A} (f : A -> bool) l : NoDup l -> NoDup (filter f l).
Proof.
  induction 1 as [|x l Hx _ IH]; cbn [filter]; [constructor|].
  destruct (f x); [|exact IH]. constructor; [|exact IH].
  intros H. apply filter_In in H. tauto.
Qed.

Lemma same_length (l1 l2 : list jsstring) :
  NoDup l1 -> NoDup l2 -> (forall x, In x l1 <-> In x l2) -> length l1 = length l2.
Proof. intros H1 H2 H. apply Permutation_length, NoDup_Permutation; assumption. Qed.

Lemma common_length (A B : list jsstring) :
  NoDup A -> NoDup B ->
  length (filter (fun w => existsb (str_eqb w) B) A)
  = length (filter (fun w => existsb (str_eqb w) A) B).
Proof.
  intros HA HB. apply same_length; try (apply NoDup_filter; assumption).
  intros x. rewrite !filter_In, !existsb_str_In. tauto.
Qed.

Lemma union_length (A B : list jsstring) :
  length (dedup (A ++ B) []) = length (dedup (B ++ A) []).
Proof.
  destruct (dedup_spec (A ++ B) [] (NoDup_nil _)) as [H1 I1].
  destruct (dedup_spec (B ++ A) [] (NoDup_nil _)) as [H2 I2].
  apply same_length; try assumption.
  intros x. rewrite I1, I2, !in_app_iff. cbn [In]. tauto.
Qed.

Lemma union_covers (A B : list jsstring) :
  NoDup A -> length A <= length (dedup (A ++ B) []).
Proof.
  intros HA. destruct (dedup_spec (A ++ B) [] (NoDup_nil _)) as [_ I].
  apply NoDup_incl_length; [exact HA|]. intros x Hx. apply I. left.
  apply in_app_iff. left. exact Hx.
Qed.

Lemma union_self (A : list jsstring) :
  NoDup A -> length (dedup (A ++ A) []) = length A.
Proof.
  intros HA. destruct (dedup_spec (A ++ A) [] (NoDup_nil _)) as [H I].
  apply same_length; try assumption.
  intros x. rewrite I, in_app_iff. cbn [In]. tauto.
Qed.

Lemma common_self (A : list jsstring) :
  filter (fun w => existsb (str_eqb w) A) A = A.
Proof.
  assert (H : forall l, incl l A -> filter (fun w => existsb (str_eqb w) A) l = l).
  { induction l as [|x l IH]; intros Hl; [reflexivity|]. cbn [filter].
    assert (Hx : existsb (str_eqb x) A = true)
      by (apply existsb_str_In, Hl; left; reflexivity).
    rewrite Hx, IH; [reflexivity|]. intros y Hy. apply Hl. right. exact Hy. }
  apply H, incl_refl.
Qed.

(** X16. [titleSimilarity] is symmetric, lies between 0 and 1, and gives a
    title compared with itself 1, or 0 when the title has no word left
    after normalisation. *)
Theorem titleSimilarity_measure (a b : jsstring) :
  titleSimilarity a b = titleSimilarity b a
  /\ (0 <= titleSimilarity a b <= 1)%Q
  /\ (titleSimilarity a a == if length (title_words a) =? 0 then 0 else 1)%Q.
Proof.
  pose proof (title_words_NoDup a) as HA. pose proof (title_words_NoDup b) as HB.
  unfold titleSimilarity. cbv zeta.
  set (A := title_words a) in *. set (B := title_words b) in *.
  repeat split.
  - rewrite (orb_comm (length B =? 0)).
    destruct ((length A =? 0) || (length B =? 0)); [reflexivity|].
    rewrite (common_length A B HA HB), (union_length A B). reflexivity.
  - destruct ((length A =? 0) || (length B =? 0)); [discriminate|].
    unfold Qle; cbn [Qnum Qden]. rewrite Z.mul_0_l, Z.mul_1_r. apply Nat2Z.is_nonneg.
  - destruct ((length A =? 0) || (length B =? 0)) eqn:E; [discriminate|].
    apply orb_false_iff in E as [EA _]. apply Nat.eqb_neq in EA.
    pose proof (union_covers A B HA) as Hu.
    assert (Hf : length (filter (fun w => existsb (str_eqb w) B) A) <= length A).
    { clear. induction A as [|x A IH]; [apply le_n|]. cbn [filter].
      destruct (existsb _ B); cbn [length]; lia. }
    unfold Qle; cbn [Qnum Qden]. rewrite Z.mul_1_r, Z.mul_1_l.
    rewrite <- positive_nat_Z, Nat2Pos.id by lia.
    apply Nat2Z.inj_le. lia.
  - rewrite orb_diag. destruct (length A =? 0) eqn:EA; [reflexivity|].
    apply Nat.eqb_neq in EA.
    rewrite common_self, (union_self A HA).
    unfold Qeq; cbn [Qnum Qden].
    rewrite Z.mul_1_r, Z.mul_1_l, <- positive_nat_Z, Nat2Pos.id by lia. reflexivity.
Qed.

(** ** Where a match lies in the input                                   *)

(** A match found at [pos] consumes a prefix of the input that the
    pattern can consume. *)
Lemma match_here_whole re rest pos m :
  match_here re rest pos = Some m ->
  m_index m = pos
  /\ exists rest', rest = m_whole m ++ rest'
                   /\ Matches (re_icase re) (re_ast re) (m_whole m).
Proof.
  unfold match_here. intros H.
  destruct (rmatch (re_icase re) (re_ast re) rest pos []
                   (fun _ pos' cs => Some (pos', cs))) as [[pos' cs]|] eqn:E;
    [|discriminate].
  inversion H; subst m; clear H. cbn [m_index m_whole]. split; [reflexivity|].
  destruct (rmatch_sound (re_icase re) (fun _ _ => True) (re_ast re)
              (fun _ _ _ _ _ => I) rest pos [] _ _
              (fun i v (F : In (i, v) []) => match F with end) E)
    as (w & rest' & cs' & Hrest & Hw & _ & Hk).
  inversion Hk; subst. exists rest'.
  replace (pos + length w - pos) with (length w) by lia.
  rewrite firstn_app, firstn_all, Nat.sub_diag. cbn [firstn].
  rewrite app_nil_r. split; [reflexivity | exact Hw].
Qed.

(** The leftmost match: no match starts before it. *)
Lemma search_leftmost re rest : forall pos m,
  search re rest pos = Some m ->
  exists k, k <= length rest /\ m_index m = pos + k
            /\ match_here re (skipn k rest) (pos + k) = Some m
            /\ forall j, j < k -> match_here re (skipn j rest) (pos + j) = None.
Proof.
  induction rest as [|x t IH]; intros pos m H; cbn [search] in H.
  - destruct (match_here re [] pos) as [m'|] eqn:E; [|discriminate].
    inversion H; subst m'. exists 0. rewrite Nat.add_0_r. cbn [skipn length].
    destruct (match_here_whole _ _ _ _ E) as [Hi _].
    repeat split; auto. intros j Hj; lia.
  - destruct (match_here re (x :: t) pos) as [m'|] eqn:E.
    + inversion H; subst m'. exists 0. rewrite Nat.add_0_r. cbn [skipn].
      destruct (match_here_whole _ _ _ _ E) as [Hi _].
      repeat split; auto; [cbn [length]; lia | intros j Hj; lia].
    + destruct (IH (S pos) m H) as (k & Hk & Hi & Hm & Hnone).
      exists (S k). cbn [skipn length].
      replace (pos + S k) with (S pos + k) by lia.
      repeat split; auto; [lia|].
      intros [|j] Hj; [rewrite Nat.add_0_r; exact E|].
      cbn [skipn]. replace (pos + S j) with (S pos + j) by lia. apply Hnone. lia.
Qed.

(** [exec]: the input is the text before the match, the match, and the
    text after it. *)
Lemma exec_whole re s m :
  exec re s = Some m ->
  s = firstn (m_index m) s ++ m_whole m ++ skipn (m_end m) s
  /\ Matches (re_icase re) (re_ast re) (m_whole m)
  /\ m_index m <= length s.
Proof.
  unfold exec. intros H.
  destruct (search_leftmost re s 0 m H) as (k & Hk & Hi & Hm & _).
  cbn [Nat.add] in Hi, Hm.
  destruct (match_here_whole _ _ _ _ Hm) as (_ & rest' & Hrest & Hw).
  rewrite Hi. repeat split; [|exact Hw|exact Hk].
  unfold m_end. rewrite Hi.
  rewrite <- (firstn_skipn k s) at 1. f_equal.
  replace (k + length (m_whole m)) with (length (m_whole m) + k) by lia.
  rewrite <- skipn_skipn, Hrest, skipn_app, skipn_all, Nat.sub_diag. reflexivity.
Qed.

(** A pattern anchored at the start matches at the start or nowhere. *)
Lemma search_anchored re r rest : forall pos,
  re_ast re = RSeq RBol r -> 0 < pos -> search re rest pos = None.
Proof.
  induction rest as [|x t IH]; intros pos Hr Hpos; cbn [search].
  - unfold match_here. rewrite Hr. cbn [rmatch].
    destruct pos; [lia|]. reflexivity.
  - unfold match_here at 1. rewrite Hr. cbn [rmatch].
    destruct pos; [lia|]. cbn [Nat.eqb]. apply IH; [exact Hr | lia].
Qed.

Lemma exec_anchored re r s :
  re_ast re = RSeq RBol r -> exec re s = match_here re s 0.
Proof.
  intros Hr. unfold exec. destruct s as [|x t]; cbn [search].
  - destruct (match_here re [] 0); reflexivity.
  - destruct (match_here re (x :: t) 0); [reflexivity|].
    apply (search_anchored re r t 1 Hr). lia.
Qed.

(** [s.replace(re, '')] without the [g] flag takes the first match out. *)
Lemma replace_first re s :
  re_global re = false ->
  replace s re [] = match exec re s with
                    | Some m => firstn (m_index m) s ++ skipn (m_end m) s
                    | None => s
                    end.
Proof.
  intros Hg. unfold replace. rewrite Hg.
  destruct (exec re s) as [m|]; [|reflexivity].
  cbn [splice app]. rewrite !Nat.sub_0_r. reflexivity.
Qed.

(** ** Invariants of the parser                                          *)

(** A computation that keeps a property of the citation. *)
Definition preserves {A} (Q : ParsedCitation -> Prop) (m : M A) : Prop :=
  forall c, Q c -> Q (snd (m c)).

Lemma preserves_keeps {A B} (f : ParsedCitation -> B) (P : B -> Prop) (m : M A) :
  keeps f m -> preserves (fun c => P (f c)) m.
Proof. intros H c Hc. rewrite H. exact Hc. Qed.

Lemma preserves_modify Q g : (forall c, Q c -> Q (g c)) -> preserves Q (modify g).
Proof. intros H c Hc. apply H, Hc. Qed.

Lemma preserves_bind {A B} Q (m : M A) (k : A -> M B) :
  preserves Q m -> (forall a, preserves Q (k a)) -> preserves Q (bind m k).
Proof.
  intros Hm Hk c Hc. unfold bind. specialize (Hm c Hc).
  destruct (m c) as [[a|] c']; cbn [snd] in *; [apply Hk|]; exact Hm.
Qed.

(** A property of one component that the steps of [parseCitation] keep
    holds of every parsed citation. *)
Lemma parseCitation_component {B} (f : ParsedCitation -> B) (P : B -> Prop) text :
  P (f (emptyCitation (trim text))) ->
  (forall v c, f (set_authors v c) = f c) ->
  (forall v c, f (set_citationIsGroupAuthor v c) = f c) ->
  (forall v c, f (set_title v c) = f c) ->
  (forall s, preserves (fun c => P (f c)) (parseYear s)) ->
  (forall a, preserves (fun c => P (f c)) (parseRemainingElements a)) ->
  P (f (parseCitation text)).
Proof.
  intros H0 Ha Hg Ht Hy Hr.
  assert (Hbody : preserves (fun c => P (f c)) (parseCitation_body (trim text))).
  { unfold parseCitation_body.
    destruct (exec yearRegex (trim text)) as [yearMatch|].
    - apply preserves_bind.
      { destruct (group yearMatch 1); intros c Hc; exact Hc. }
      intros s. apply preserves_bind; [apply Hy|]. intros _.
      apply preserves_bind; [intros c Hc; exact Hc|]. intros a.
      apply preserves_bind; [apply preserves_modify; intros c Hc; rewrite Ha; exact Hc|].
      intros _. apply preserves_bind; [|intros _; apply Hr].
      destruct (existsb is_group a); [|intros c Hc; exact Hc].
      apply preserves_modify. intros c Hc. rewrite Hg. exact Hc.
    - apply preserves_modify. intros c Hc. rewrite Ht. exact Hc. }
  unfold parseCitation, parseCitation_run, try_catch.
  specialize (Hbody (emptyCitation (trim text)) H0).
  destruct (parseCitation_body (trim text) (emptyCitation (trim text))) as [[[]|] c];
    cbn [snd] in *; [exact Hbody|].
  cbn [modify snd]. rewrite Ht. exact Hbody.
Qed.

(** ** Repetitions of a character class                                  *)

Lemma class_digit x : class_match false false [CDigit] x = is_digit x.
Proof.
  unfold class_match, item_match. cbn [existsb item_test andb xorb].
  rewrite !orb_false_r. reflexivity.
Qed.

Section ClassRepetition.

(** The matcher of an atom that consumes one unit, when it is a member. *)
Variable atom : matcher.
Variable member : char -> bool.
Hypothesis atom_member : forall rest pos cs k,
  atom rest pos cs k
  = match rest with
    | [] => None
    | x :: t => if member x then k t (S pos) cs else None
    end.

(** [{n}]: exactly [n] members of the class. *)
Lemma quant_counted n k : forall fuel cnt s pos cs,
  cnt <= n -> n - cnt < fuel ->
  quant_loop atom [] true n (Some n) k fuel cnt s pos cs
  = if (n - cnt <=? length s) && forallb member (firstn (n - cnt) s)
    then k (skipn (n - cnt) s) (pos + (n - cnt)) cs
    else None.
Proof.
  induction fuel as [|fuel IH]; intros cnt s pos cs Hc Hf; [lia|].
  cbn [quant_loop]. destruct (cnt <? n) eqn:E.
  - apply Nat.ltb_lt in E.
    replace (n - cnt) with (S (n - S cnt)) by lia.
    rewrite atom_member. cbn [cap_clear].
    destruct s as [|x t]; [reflexivity|].
    cbn [firstn forallb length skipn].
    destruct (member x); [|rewrite andb_false_r; reflexivity].
    rewrite IH by lia. cbn [andb Nat.leb]. rewrite Nat.add_succ_r. reflexivity.
  - apply Nat.ltb_ge in E. assert (cnt = n) by lia. subst cnt.
    cbn [under_max]. rewrite Nat.ltb_irrefl. cbn [negb].
    rewrite Nat.sub_diag, Nat.add_0_r. reflexivity.
Qed.

(** [+], [*] and [{n,}]: the greedy loop runs to the end of a run of
    members, when the rest of the pattern matches there. *)
Lemma quant_greedy_run mn k res : forall run fuel cnt rest pos cs,
  forallb member run = true ->
  match rest with [] => true | x :: _ => negb (member x) end = true ->
  mn <= cnt + length run ->
  mn - cnt + length run < fuel ->
  k rest (pos + length run) cs = Some res ->
  quant_loop atom [] true mn None k fuel cnt (run ++ rest) pos cs = Some res.
Proof.
  induction run as [|x run IH]; intros fuel cnt rest pos cs Hrun Hrest Hmn Hf Hk.
  - cbn [length app] in *. rewrite Nat.add_0_r in *.
    destruct fuel as [|fuel]; [lia|]. cbn [quant_loop].
    replace (cnt <? mn) with false by (symmetry; apply Nat.ltb_ge; lia).
    cbn [under_max negb]. rewrite atom_member. cbn [cap_clear].
    destruct rest as [|y t]; [exact Hk|].
    apply negb_true_iff in Hrest. rewrite Hrest. exact Hk.
  - cbn [forallb] in Hrun. apply andb_true_iff in Hrun as [Hx Hrun].
    destruct fuel as [|fuel]; [lia|]. cbn [quant_loop length app] in *.
    assert (Hstep : quant_loop atom [] true mn None k fuel (S cnt) (run ++ rest) (S pos) cs
                    = Some res).
    { apply IH; try assumption; try lia.
      rewrite <- Hk. f_equal. lia. }
    destruct (cnt <? mn).
    + rewrite atom_member. cbn [cap_clear]. rewrite Hx. exact Hstep.
    + cbn [under_max negb]. rewrite atom_member. cbn [cap_clear]. rewrite Hx.
      replace (S pos =? pos) with false by (symmetry; apply Nat.eqb_neq; lia).
      rewrite Hstep. reflexivity.
Qed.

End ClassRepetition.

(** ** The year of a parsed citation                                     *)

Definition fourDigits (y : jsstring) : Prop :=
  exists a b c d, y = [a; b; c; d]
                  /\ is_digit a = true /\ is_digit b = true
                  /\ is_digit c = true /\ is_digit d = true.

(** The forms of the year that the parser can store. *)
Definition parsedYear (y : jsstring) : Prop :=
  y = [] \/ y = js "n.d." \/ y = js "in press" \/ fourDigits y.

Lemma base_year s m :
  exec (regexp "^(\d{4})" "") s = Some m ->
  exists y, group m 1 = Some y /\ fourDigits y.
Proof.
  rewrite (exec_anchored _ (RGroup 1 (RQuant true 4 (Some 4) (RClass false [CDigit]))))
    by reflexivity.
  unfold match_here.
  change (re_ast (regexp "^(\d{4})" ""))
    with (RSeq RBol (RGroup 1 (RQuant true 4 (Some 4) (RClass false [CDigit])))).
  change (re_icase (regexp "^(\d{4})" "")) with false.
  change (re_groups (regexp "^(\d{4})" "")) with 1.
  cbn [rmatch Nat.eqb groups_of].
  rewrite (quant_counted _ _ (fun _ _ _ _ => eq_refl)) by lia. rewrite Nat.sub_0_r.
  destruct ((4 <=? length s) && forallb (class_match false false [CDigit]) (firstn 4 s))
    eqn:E; [|discriminate].
  intros H. inversion H; subst m; clear H.
  cbn [group m_groups map seq nth_error cap_lookup Nat.eqb Nat.add Nat.sub].
  eexists; split; [reflexivity|].
  apply andb_true_iff in E as [Hl Hd]. apply Nat.leb_le in Hl.
  destruct s as [|a [|b [|c [|d t]]]]; cbn [length] in Hl; try lia.
  cbn [firstn forallb] in Hd. rewrite !class_digit in Hd.
  repeat (apply andb_true_iff in Hd as [? Hd]).
  exists a, b, c, d. cbn [firstn]. auto.
Qed.

Lemma parseYear_year s : preserves (fun c => parsedYear (year c)) (parseYear s).
Proof.
  unfold parseYear.
  destruct (str_eqb s (js "n.d.") || str_eqb s (js "in press")) eqn:E.
  - apply preserves_modify. intros c _. cbn [year set_year].
    apply orb_true_iff in E as [E|E];
      apply (reflect_iff _ _ (str_eqb_spec _ _)) in E; subst s;
      unfold parsedYear; auto.
  - apply preserves_bind.
    + destruct (exec (regexp "^(\d{4})" "") s) as [m|] eqn:Em; [|intros c Hc; exact Hc].
      apply preserves_modify. intros c _. cbn [year set_year].
      destruct (base_year s m Em) as (y & -> & Hy). cbn [defined].
      unfold parsedYear; auto.
    + intros _. apply (preserves_keeps year). keeps.
Qed.

Lemma keeps_year_remaining afterYear : keeps year (parseRemainingElements afterYear).
Proof. keeps_remaining. Qed.

Lemma parseCitation_year text : parsedYear (year (parseCitation text)).
Proof.
  apply (parseCitation_component year parsedYear); try reflexivity.
  - left. reflexivity.
  - apply parseYear_year.
  - intros a. apply (preserves_keeps year), keeps_year_remaining.
Qed.

Lemma valid_year y :
  y = js "n.d." \/ y = js "in press" \/ fourDigits y ->
  test (regexp "^\d{4}$|^n\.d\.$|^in press$" "") y = true.
Proof.
  intros [->|[->|(a & b & c & d & -> & Ha & Hb & Hc & Hd)]];
    [vm_compute; reflexivity | vm_compute; reflexivity |].
  unfold test, exec. cbn [search]. unfold match_here.
  set (re := regexp "^\d{4}$|^n\.d\.$|^in press$" "").
  change (re_icase re) with false.
  set (r := re_ast re). vm_compute in r. subst r.
  cbn [rmatch Nat.eqb].
  rewrite (quant_counted _ _ (fun _ _ _ _ => eq_refl)) by (cbn [length]; lia).
  cbn [Nat.sub length Nat.leb firstn forallb skipn andb].
  rewrite !class_digit, Ha, Hb, Hc, Hd. reflexivity.
Qed.

(** X17. The year of a parsed citation is empty, n.d., in press, or four
    digits.  So on a parsed citation [checkYearFormat] either emits
    nothing or, when the year is empty, the one violation Year is
    missing, which is not auto-fixable: its format repair never runs on
    what the parser produced. *)
Theorem parsed_year_needs_no_fix (text : jsstring) :
  parsedYear (year (parseCitation text))
  /\ checkYearFormat (parseCitation text)
     = if nonempty (year (parseCitation text)) then []
       else [violation (js "yearFormat") (js "year") (js "Year is missing")
                       Error [] None false].
Proof.
  pose proof (parseCitation_year text) as Hy. split; [exact Hy|].
  unfold checkYearFormat.
  destruct Hy as [Hy|Hy]; [rewrite Hy; reflexivity|].
  assert (Hn : nonempty (year (parseCitation text)) = true).
  { destruct Hy as [->|[->|(a & b & c & d & -> & _)]]; reflexivity. }
  rewrite Hn, (valid_year _ Hy). reflexivity.
Qed.

(** ** The edition of a parsed citation                                  *)

Definition digitString (v : jsstring) : Prop := v <> [] /\ forallb is_digit v = true.

Definition parsedEdition (o : option jsstring) : Prop :=
  match o with Some v => digitString v | None => True end.

Lemma class_digit_icase x : class_match true false [CDigit] x = is_digit x.
Proof.
  unfold class_match, item_match. cbn [existsb item_test andb xorb orb].
  rewrite orb_false_r.
  destruct (is_digit x) eqn:E; [reflexivity|]. cbn [orb].
  unfold upper_char, lower_char.
  destruct (is_lower x) eqn:L.
  - destruct (is_upper x) eqn:U.
    + unfold is_lower, is_upper in *. apply andb_true_iff in L as [L1 L2], U as [U1 U2].
      apply N.leb_le in L1, U2. lia.
    + rewrite E, orb_false_r. unfold is_digit, is_lower in *.
      apply andb_true_iff in L as [L1 L2]. apply N.leb_le in L1, L2.
      apply andb_false_iff. right. apply N.leb_gt. lia.
  - rewrite E. cbn [orb]. destruct (is_upper x) eqn:U; [|exact E].
    unfold is_digit, is_upper in *.
    apply andb_true_iff in U as [U1 U2]. apply N.leb_le in U1, U2.
    apply andb_false_iff. right. apply N.leb_gt. lia.
Qed.

Lemma forallb_ext' {A} (f g : A -> bool) l :
  (forall x, f x = g x) -> forallb f l = forallb g l.
Proof. intros H. induction l as [|x l IH]; [reflexivity|]. cbn [forallb]. rewrite H, IH. reflexivity. Qed.

Lemma concat_units (P : char -> bool) ws :
  Forall (fun w => exists x, w = [x] /\ P x = true) ws -> forallb P (concat ws) = true.
Proof.
  induction 1 as [|w ws (x & -> & Hx) _ IH]; [reflexivity|].
  cbn [concat app forallb]. rewrite Hx, IH. reflexivity.
Qed.

Lemma concat_units_length {A} (ws : list (list A)) :
  Forall (fun w => exists x, w = [x]) ws -> length (concat ws) = length ws.
Proof.
  induction 1 as [|w ws (x & ->) _ IH]; [reflexivity|].
  cbn [concat app length]. rewrite IH. reflexivity.
Qed.

(** What a repetition of at least one member of a class consumes. *)
Lemma Matches_class_plus ci g mx neg items v :
  Matches ci (RQuant g 1 mx (RClass neg items)) v ->
  v <> [] /\ forallb (class_match ci neg items) v = true.
Proof.
  intros H. inversion H as [| | | | | | |g' mn mx' a ws Hws Hlen| | |]; subst.
  assert (Hu : Forall (fun w => exists x, w = [x] /\ class_match ci neg items x = true) ws).
  { eapply Forall_impl; [|exact Hws]. intros w Hw.
    inversion Hw; subst. eauto. }
  split; [|apply concat_units, Hu].
  intros E. apply (f_equal (@length _)) in E.
  rewrite concat_units_length in E.
  - cbn [length] in E. unfold jsstring, char in *. lia.
  - eapply Forall_impl; [|exact Hu]. intros w (x & -> & _). eauto.
Qed.

Lemma edition_group s m :
  exec editionRegex s = Some m -> parsedEdition (group m 1).
Proof.
  intros H. destruct (group m 1) as [v|] eqn:Ev; [|exact I].
  destruct (search_groups editionRegex s 0 m H 0 v Ev) as (a & Hin & Hm).
  change (re_icase editionRegex) with true in Hm.
  assert (Ha : a = RQuant true 1 None (RClass false [CDigit])).
  { revert Hin. set (r := re_ast editionRegex). vm_compute in r. subst r.
    cbn [In_group]. intros Hin.
    repeat match goal with
           | H : _ \/ _ |- _ => destruct H
           | H : _ /\ _ |- _ => destruct H
           | H : False |- _ => destruct H
           end; try discriminate; congruence. }
  subst a. destruct (Matches_class_plus _ _ _ _ _ _ Hm) as [Hne Hd].
  split; [exact Hne|].
  rewrite <- Hd. apply forallb_ext'. intros x. symmetry. apply class_digit_icase.
Qed.

Ltac keeps_edition := apply (preserves_keeps edition); keeps.

Lemma extractEdition_edition r :
  preserves (fun c => parsedEdition (edition c)) (extractEdition r).
Proof.
  unfold extractEdition.
  destruct (exec editionRegex r) as [m|] eqn:E; [|keeps_edition].
  apply preserves_bind; [|intros; keeps_edition].
  apply preserves_modify. intros c _. exact (edition_group r m E).
Qed.

Lemma detectBook_edition s :
  preserves (fun c => parsedEdition (edition c)) (detectBook s).
Proof.
  unfold detectBook. cbv zeta. apply preserves_bind.
  - destruct (exec editionRegex s) as [m|] eqn:E; [|keeps_edition].
    apply preserves_modify. intros c _. exact (edition_group s m E).
  - intros _. keeps_edition.
Qed.

Lemma parseSource_edition segments :
  preserves (fun c => parsedEdition (edition c)) (parseSource segments).
Proof.
  unfold parseSource. cbv zeta. apply preserves_bind; [keeps_edition|].
  intros t.
  destruct t;
    match goal with
    | |- preserves _ (bind (try_source_patterns _ _) _) =>
      apply preserves_bind;
      [ apply (preserves_keeps edition); keeps_patterns
      | intros matched; destruct matched; [keeps_edition|];
        apply preserves_bind; [apply detectBook_edition|];
        intros isBook; destruct isBook; keeps_edition ]
    | _ => keeps_edition
    end.
Qed.

Lemma parseRemainingElements_edition a :
  preserves (fun c => parsedEdition (edition c)) (parseRemainingElements a).
Proof.
  unfold parseRemainingElements. cbv zeta.
  apply preserves_bind; [unfold extractDOI; keeps_edition|]. intros r1.
  apply preserves_bind; [unfold extractURL; keeps_edition|]. intros r2.
  apply preserves_bind; [apply extractEdition_edition|]. intros r3.
  apply preserves_bind; [unfold extractBracket; keeps_edition|]. intros r4.
  apply preserves_bind; [unfold extractReportNo; keeps_edition|]. intros r5.
  apply preserves_bind; [keeps_edition|]. intros _.
  apply preserves_bind; [|intros returned; keeps_edition].
  destruct (1 <? _); [apply parseSource_edition | keeps_edition].
Qed.

Lemma parseCitation_edition text : parsedEdition (edition (parseCitation text)).
Proof.
  apply (parseCitation_component edition parsedEdition);
    [exact I | reflexivity | reflexivity | reflexivity | | ].
  - intros s. apply (preserves_keeps edition). unfold parseYear. keeps.
  - apply parseRemainingElements_edition.
Qed.

Lemma digits_pass v : digitString v -> test (regexp "^\d+$" "") v = true.
Proof.
  intros [Hne Hd]. unfold test, exec.
  assert (H : match_here (regexp "^\d+$" "") v 0 <> None).
  { unfold match_here.
    change (re_icase (regexp "^\d+$" "")) with false.
    change (re_ast (regexp "^\d+$" ""))
      with (RSeq RBol (RSeq (RQuant true 1 None (RClass false [CDigit])) REol)).
    cbn [rmatch Nat.eqb groups_of].
    match goal with
    | |- context [quant_loop ?ma _ true 1 None ?k ?fuel 0 v 0 ?cs] =>
      pose proof (quant_greedy_run ma (class_match false false [CDigit])
                    (fun _ _ _ _ => eq_refl) 1 k (length v, cs) v fuel 0 [] 0 cs) as Hq
    end.
    rewrite app_nil_r in Hq. rewrite Hq; [discriminate | | reflexivity | | | reflexivity].
    - rewrite <- Hd. apply forallb_ext'. intros x. apply class_digit.
    - destruct v; [congruence | cbn [length]; lia].
    - lia. }
  destruct v as [|x t]; cbn [search];
    destruct (match_here _ _ 0); try reflexivity; congruence.
Qed.

(** X18. The edition of a parsed citation, when there is one, is a
    non-empty string of digits, so [checkEditionFormat] emits nothing on
    a parsed citation. *)
Theorem parsed_edition_is_a_number (text : jsstring) :
  parsedEdition (edition (parseCitation text))
  /\ checkEditionFormat (parseCitation text) = [].
Proof.
  pose proof (parseCitation_edition text) as H. split; [exact H|].
  unfold checkEditionFormat.
  destruct (edition (parseCitation text)) as [v|]; [|reflexivity].
  cbn [truthy defined]. destruct (nonempty v); cbn [negb]; [|reflexivity].
  rewrite (digits_pass v H). reflexivity.
Qed.

(** ** The authors of a parsed citation and [checkAuthorFormat]          *)

(** An author that [checkAuthorFormat] has nothing to say about. *)
Definition wellFormed (a : Author) : Prop :=
  blank (lastName a) = false
  /\ (is_group a = true \/ canonicalInitials (initials a)).

Definition nameClass : list class_item :=
  [CRange 65%N 90%N; CRange 97%N 122%N; CRange 192%N 214%N; CRange 216%N 246%N;
   CRange 248%N 591%N; CChar 39%N; CChar 45%N].

Lemma name_not_space x : class_match false false nameClass x = true -> is_space x = false.
Proof.
  unfold class_match, nameClass, item_match. cbn [existsb item_test andb xorb orb].
  rewrite !orb_false_r. intros H.
  apply is_space_false.
  repeat (apply orb_true_iff in H as [H|H]);
    try (apply andb_true_iff in H as [H1 H2]; apply N.leb_le in H1, H2);
    try apply N.eqb_eq in H; lia.
Qed.

Lemma blank_trim_head x t : is_space x = false -> blank (trim (x :: t)) = false.
Proof.
  intros Hx. unfold blank. rewrite trim_idem. unfold trim.
  rewrite (trimStart_fixed x t Hx).
  destruct (trimEnd_head x t Hx) as (t' & ->). reflexivity.
Qed.

(** The first group of the author pattern starts with a letter of a name. *)
Lemma authorRegex_lastName m v :
  groups_ok authorRegex m -> group m 1 = Some v ->
  exists x t, v = x :: t /\ is_space x = false.
Proof.
  intros Hok Hg. destruct (Hok 0 v Hg) as (a & Hin & Hm).
  change (re_icase authorRegex) with false in Hm.
  revert Hin. set (r := re_ast authorRegex). vm_compute in r. subst r.
  cbn [In_group]. intros Hin.
  repeat match goal with
         | H : _ \/ _ |- _ => destruct H
         | H : _ /\ _ |- _ => destruct H
         | H : False |- _ => destruct H
         end; try discriminate.
  subst a.
  inversion Hm as [| | | |a b u u' Hu Hu'| | | | | |]; subst.
  destruct (Matches_class_plus _ _ _ _ _ _ Hu) as [Hne Hall].
  destruct u as [|x u]; [congruence|]. cbn [forallb] in Hall.
  apply andb_true_iff in Hall as [Hx _].
  exists x, (u ++ u'). split; [reflexivity|]. apply name_not_space. exact Hx.
Qed.

Lemma authors_of_matches_wellFormed ms : forall l,
  authors_of_matches ms = Normal l ->
  Forall (groups_ok authorRegex) ms ->
  Forall wellFormed l.
Proof.
  induction ms as [|m ms IH]; intros l H Hok; cbn [authors_of_matches] in H.
  - inversion H. constructor.
  - inversion Hok as [|? ? Hm Hms]; subst.
    unfold author_of_match in H.
    destruct (group m 1) as [g1|] eqn:E1; [|discriminate].
    destruct (group m 2) as [g2|] eqn:E2; [|discriminate].
    destruct (authors_of_matches ms) as [l'|]; [|discriminate].
    inversion H; subst l. constructor; [|apply IH; auto].
    split; cbn [lastName initials].
    + destruct (authorRegex_lastName m g1 Hm E1) as (x & t & -> & Hx).
      apply blank_trim_head, Hx.
    + right. destruct (authorRegex_initials m g2 Hm E2) as (x & t & Hx & Hu).
      eapply normalizeInitials_canonical; eauto.
Qed.

Lemma parseAuthors_wellFormed authorBlock l :
  parseAuthors authorBlock = Normal l -> Forall wellFormed l.
Proof.
  unfold parseAuthors. cbv zeta.
  match goal with
  | |- context [authors_of_matches ?x] => set (ms := x)
  end.
  assert (Hms : Forall (groups_ok authorRegex) ms).
  { apply Forall_flat_map, Forall_forall. intros part _. apply match_all_groups. }
  destruct (authors_of_matches ms) as [authors0|] eqn:E; [|discriminate].
  pose proof (authors_of_matches_wellFormed ms authors0 E Hms) as H0.
  intros H.
  destruct ((length authors0 =? 0) && _); [|inversion H; subst; exact H0].
  match type of H with
  | context [trim ?b] => set (groupName := trim b) in *
  end.
  destruct (0 <? length groupName) eqn:Hl; inversion H; subst; [|exact H0].
  apply Forall_app. split; [exact H0|]. constructor; [|constructor].
  split; [|left; reflexivity]. cbn [lastName].
  unfold blank. unfold groupName at 2. rewrite trim_idem. fold groupName.
  destruct groupName; [discriminate Hl | reflexivity].
Qed.

(** *** The canonical form passes the pattern of the rule *)

Definition initialsAtom : matcher :=
  rmatch false (RGroup 1 (RSeq (RClass false [CRange 65%N 90%N])
                               (RSeq (RChar 46%N) (RClass false [CSpace])))).

Definition initialsTail (k : cont) : cont :=
  fun rest pos cs =>
    rmatch false (RSeq (RClass false [CRange 65%N 90%N]) (RSeq (RChar 46%N) REol))
           rest pos cs k.

Lemma class_upper x : class_match false false [CRange 65%N 90%N] x = is_upper x.
Proof.
  unfold class_match, item_match. cbn [existsb item_test andb xorb orb].
  rewrite !orb_false_r. reflexivity.
Qed.

Lemma canonical_loop (k : cont) :
  (forall pos cs, k [] pos cs <> None) ->
  forall letters fuel cnt pos cs,
    letters <> [] -> Forall (fun c => is_upper c = true) letters ->
    length letters < fuel ->
    quant_loop initialsAtom [1] true 0 None (initialsTail k) fuel cnt
               (join (js " ") (map (fun c => [c; ch "."]) letters)) pos cs
    <> None.
Proof.
  intros Hk. induction letters as [|x letters IH]; intros fuel cnt pos cs Hne Hall Hf;
    [congruence|].
  inversion Hall as [|? ? Hx Hrest]; subst.
  destruct fuel as [|fuel]; [cbn [length] in Hf; lia|].
  cbn [quant_loop Nat.ltb Nat.leb under_max negb].
  destruct letters as [|y letters].
  - cbn [map join]. unfold initialsAtom. cbn [rmatch].
    rewrite class_upper, Hx. change (canon false (ch ".") =? canon false 46)%N with true.
    cbn [rmatch]. unfold initialsTail. cbn [rmatch].
    rewrite class_upper, Hx. change (canon false (ch ".") =? canon false 46)%N with true.
    apply Hk.
  - change (join (js " ") (map (fun c => [c; ch "."]) (x :: y :: letters)))
      with (x :: ch "." :: 32%N :: join (js " ") (map (fun c => [c; ch "."]) (y :: letters))).
    unfold initialsAtom at 1. cbn [rmatch].
    rewrite class_upper, Hx. change (canon false (ch ".") =? canon false 46)%N with true.
    change (class_match false false [CSpace] 32%N) with true. cbn iota.
    replace (S (S (S pos)) =? pos) with false by (symmetry; apply Nat.eqb_neq; lia).
    match goal with
    | |- match ?q with Some res => Some res | None => _ end <> None =>
      assert (Hq : q <> None)
    end.
    { apply IH; [discriminate | exact Hrest | cbn [length] in *; lia]. }
    destruct (quant_loop _ _ _ _ _ _ _ _ _ _ _); [discriminate | congruence].
Qed.

Lemma canonical_passes s : canonicalInitials s -> test initialsPattern s = true.
Proof.
  intros (letters & Hne & Hall & ->). unfold test, exec.
  set (s := join (js " ") (map (fun c => [c; ch "."]) letters)).
  assert (H : match_here initialsPattern s 0 <> None).
  { unfold match_here.
    change (re_icase initialsPattern) with false.
    set (r := re_ast initialsPattern). vm_compute in r. subst r.
    change (rmatch false _ s 0 [] (fun _ pos' cs => Some (pos', cs)))
      with (quant_loop initialsAtom [1] true 0 None
                       (initialsTail (fun _ pos' cs => Some (pos', cs)))
                       (S (0 + length s)) 0 s 0 []).
    pose proof (canonical_loop (fun _ pos' cs => Some (pos', cs))
                  (fun _ _ => ltac:(discriminate)) letters (S (0 + length s)) 0 0 []
                  Hne Hall) as Hq.
    destruct (quant_loop _ _ _ _ _ _ _ _ _ _ _) as [[p c]|]; [discriminate|].
    exfalso. apply Hq; [|reflexivity].
    unfold s. clear. destruct letters as [|x l]; [cbn; lia|].
    assert (Hl : forall l' y, length (y :: l')
                 <= length (join (js " ") (map (fun c => [c; ch "."]) (y :: l')))).
    { clear. induction l' as [|z l' IH]; intros y; [cbn; lia|].
      change (join (js " ") (map (fun c => [c; ch "."]) (y :: z :: l')))
        with (y :: ch "." :: 32%N :: join (js " ") (map (fun c => [c; ch "."]) (z :: l'))).
      specialize (IH z). cbn [length] in *. lia. }
    specialize (Hl l x). lia. }
  destruct s as [|x t]; cbn [search];
    destruct (match_here _ _ 0); try reflexivity; congruence.
Qed.

Lemma wellFormed_checkAuthor i a : wellFormed a -> checkAuthor i a = [].
Proof.
  intros [Hb Hi]. unfold checkAuthor. cbv zeta. rewrite Hb.
  destruct (is_group a); [reflexivity|].
  destruct Hi as [Hi|Hi]; [discriminate|].
  rewrite (canonical_passes _ Hi).
  destruct Hi as (letters & Hne & _ & ->).
  destruct letters as [|x [|y l]]; [congruence | reflexivity | reflexivity].
Qed.

(** X19. Every author of a parsed citation has a last name that is not
    blank and is either a group author or has initials of the form
    capital, period, space, ..., capital, period; so [checkAuthorFormat]
    emits nothing on a parsed citation. *)
Theorem parsed_authors_pass_the_format_rule (text : jsstring) :
  Forall wellFormed (authors (parseCitation text))
  /\ checkAuthorFormat (parseCitation text) = [].
Proof.
  assert (H : Forall wellFormed (authors (parseCitation text))).
  { destruct (parseCitation_authors text) as [E|[b Hb]].
    - rewrite E. constructor.
    - eapply parseAuthors_wellFormed, Hb. }
  split; [exact H|]. unfold checkAuthorFormat. generalize 0.
  induction H as [|a l Ha _ IH]; intros i; [reflexivity|].
  cbn [forEach_author]. rewrite (wellFormed_checkAuthor i a Ha), IH. reflexivity.
Qed.

(** ** The DOI of a parsed citation                                      *)

(** What the parser stores as a DOI: never the resolver form. *)
Definition bareDoi (d : jsstring) : Prop :=
  d <> [] /\ startsWith (trim d) (js "https://doi.org/") = false.

Definition parsedDoi (o : option jsstring) : Prop :=
  match o with Some d => bareDoi d | None => True end.

Lemma In_trimStart x s : In x (trimStart s) -> In x s.
Proof.
  induction s as [|c t IH]; [auto|]. cbn [trimStart].
  destruct (is_space c); [right; auto | auto].
Qed.

Lemma In_trim x s : In x (trim s) -> In x s.
Proof.
  unfold trim, trimEnd. intros H.
  apply in_rev, In_trimStart, in_rev in H. apply In_trimStart, H.
Qed.

Lemma startsWith_In s p x : startsWith s p = true -> In x p -> In x s.
Proof.
  revert s. induction p as [|y p IH]; intros s H Hx; [destruct Hx|].
  destruct s as [|z s]; [discriminate|]. cbn [startsWith] in H.
  apply andb_true_iff in H as [Hy Hp]. apply N.eqb_eq in Hy. subst z.
  destruct Hx as [->|Hx]; [left; reflexivity | right; apply IH; assumption].
Qed.

Definition doiUrlRegex : RegExp := regexp "https?:\/\/(?:dx\.)?doi\.org\/([\w./-]+)" "i".
Definition doiPrefixRegex : RegExp := regexp "doi:\s*(10\.\S+)" "i".

Ltac only_group Hin :=
  cbn [In_group] in Hin;
  repeat match goal with
         | H : _ \/ _ |- _ => destruct H
         | H : _ /\ _ |- _ => destruct H
         | H : False |- _ => destruct H
         end; try discriminate.

Lemma doiUrl_group s m v :
  exec doiUrlRegex s = Some m -> group m 1 = Some v -> bareDoi v.
Proof.
  intros H Ev.
  destruct (search_groups doiUrlRegex s 0 m H 0 v Ev) as (a & Hin & Hm).
  change (re_icase doiUrlRegex) with true in Hm.
  revert Hin. set (r := re_ast doiUrlRegex). vm_compute in r. subst r. intros Hin.
  only_group Hin. subst a.
  destruct (Matches_class_plus _ _ _ _ _ _ Hm) as [Hne Hall].
  split; [exact Hne|].
  destruct (startsWith (trim v) (js "https://doi.org/")) eqn:E; [|reflexivity].
  assert (Hc : In 58%N v).
  { apply In_trim. apply (startsWith_In _ _ _ E). vm_compute. tauto. }
  rewrite forallb_forall in Hall. specialize (Hall _ Hc). discriminate Hall.
Qed.

Lemma canon_one x : canon true x = canon true 49%N -> x = 49%N.
Proof.
  unfold canon, upper_char. change (is_lower 49%N) with false. cbn iota.
  destruct (is_lower x) eqn:L; [|auto].
  unfold is_lower in L. apply andb_true_iff in L as [L1 L2]. apply N.leb_le in L1, L2.
  lia.
Qed.

Lemma doiPrefix_group s m v :
  exec doiPrefixRegex s = Some m -> group m 1 = Some v ->
  exists t : jsstring, v = ch "1" :: t.
Proof.
  intros H Ev.
  destruct (search_groups doiPrefixRegex s 0 m H 0 v Ev) as (a & Hin & Hm).
  change (re_icase doiPrefixRegex) with true in Hm.
  revert Hin. set (r := re_ast doiPrefixRegex). vm_compute in r. subst r. intros Hin.
  only_group Hin. subst a.
  inversion Hm as [| | | |a b u u' Hu Hu'| | | | | |]; subst.
  inversion Hu as [|c x Hx| | | | | | | | |]; subst.
  apply canon_one in Hx. subst x. cbn [app]. eexists. reflexivity.
Qed.

Lemma strip_period (t : jsstring) :
  exists t' : jsstring, replace (ch "1" :: t) (regexp "\.$" "") [] = ch "1" :: t'.
Proof.
  rewrite replace_first by reflexivity.
  destruct (exec (regexp "\.$" "") (ch "1" :: t)) as [m|] eqn:E; [|eauto].
  destruct (exec_whole _ _ _ E) as (Hs & Hw & _).
  change (re_ast (regexp "\.$" "")) with (RSeq (RChar 46%N) REol) in Hw.
  change (re_icase (regexp "\.$" "")) with false in Hw.
  assert (Hd : exists y, m_whole m = 46%N :: y).
  { remember (m_whole m) as w eqn:Ew. clear Ew Hs.
    inversion Hw as [| | | |a b u u' Hu Hu'| | | | | |]; subst.
    inversion Hu as [|c x Hx| | | | | | | | |]; subst.
    cbn [canon] in Hx. subst x. cbn [app]. eauto. }
  destruct Hd as (y & Hy). rewrite Hy in Hs.
  destruct (m_index m) as [|i] eqn:Ei.
  - cbn [firstn app] in Hs. discriminate Hs.
  - cbn [firstn app]. eauto.
Qed.

Lemma one_is_bare (t : jsstring) : bareDoi (ch "1" :: t).
Proof.
  split; [discriminate|]. unfold trim.
  rewrite (trimStart_fixed (ch "1") t eq_refl).
  destruct (trimEnd_head (ch "1") t eq_refl) as (t' & ->). reflexivity.
Qed.

Ltac keeps_doi := apply (preserves_keeps doi); keeps.

Lemma preserves_bind_ret {A B} Q (a : A) (k : A -> M B) :
  preserves Q (k a) -> preserves Q (bind (ret a) k).
Proof. intros H c Hc. exact (H c Hc). Qed.

Lemma extractDOI_doi r : preserves (fun c => parsedDoi (doi c)) (extractDOI r).
Proof.
  unfold extractDOI. fold doiUrlRegex doiPrefixRegex.
  destruct (exec doiUrlRegex r) as [m|] eqn:E.
  - apply preserves_bind; [|intros; keeps_doi].
    apply preserves_modify. intros c _. cbn [doi set_doi].
    destruct (group m 1) as [v|] eqn:Ev; [|exact I].
    exact (doiUrl_group r m v E Ev).
  - destruct (exec doiPrefixRegex r) as [m|] eqn:E'; [|keeps_doi].
    destruct (group m 1) as [v|] eqn:Ev; [|keeps_doi].
    cbn [must]. apply preserves_bind_ret.
    apply preserves_bind; [|intros; keeps_doi].
    apply preserves_modify. intros c _. cbn [doi set_doi parsedDoi].
    destruct (doiPrefix_group r m v E' Ev) as (t & ->).
    destruct (strip_period t) as (t' & ->). apply one_is_bare.
Qed.

Lemma parseRemainingElements_doi a :
  preserves (fun c => parsedDoi (doi c)) (parseRemainingElements a).
Proof.
  unfold parseRemainingElements. cbv zeta.
  apply preserves_bind; [apply extractDOI_doi|]. intros r1.
  apply (preserves_keeps doi).
  unfold extractURL, extractEdition, extractBracket, extractReportNo, parseSource, detectBook.
  keeps; keeps_patterns.
Qed.

Lemma parseCitation_doi text : parsedDoi (doi (parseCitation text)).
Proof.
  apply (parseCitation_component doi parsedDoi);
    [exact I | reflexivity | reflexivity | reflexivity | | ].
  - intros s. apply (preserves_keeps doi). unfold parseYear. keeps.
  - apply parseRemainingElements_doi.
Qed.

Lemma bare_is_flagged c d :
  doi c = Some d -> bareDoi d ->
  exists e, In e (checkDOIFormat c)
            /\ ValidationError.rule e = js "doiFormat"
            /\ ValidationError.severity e = Error.
Proof.
  intros Hd [Hne Hb]. unfold checkDOIFormat. cbv zeta. rewrite Hd.
  cbn [truthy defined]. destruct d as [|x d]; [congruence|]. cbn [nonempty negb].
  rewrite Hb. cbn [negb].
  destruct (endsWith _ _);
    [eexists; split; [left; reflexivity | split; reflexivity]|].
  cbn [app]. destruct (startsWith _ (js "doi:"));
    [eexists; split; [left; reflexivity | split; reflexivity]|].
  destruct (test _ _); eexists; (split; [left; reflexivity | split; reflexivity]).
Qed.

Lemma In_runRules (r : ValidationRule) c e :
  In r ALL_RULES -> In e (r c) -> In e (runRules ALL_RULES c).
Proof. intros Hr He. unfold runRules. apply in_flat_map. exists r. auto. Qed.

(** X20. The DOI of a parsed citation is never in the resolver form: it
    is non-empty and does not start with https://doi.org/.  Hence offline
    validation reports a doiFormat error for every text in which a DOI
    was found, and a doiFormat or doiPresence violation for every text
    parsed as a journal article. *)
Theorem parsed_doi_is_always_flagged (text : jsstring) :
  parsedDoi (doi (parseCitation text))
  /\ (doi (parseCitation text) <> None ->
      exists e, In e (errors (validateCitationWithoutCrossRef text))
                /\ ValidationError.rule e = js "doiFormat"
                /\ ValidationError.severity e = Error)
  /\ (type (parseCitation text) = journal ->
      exists e, In e (errors (validateCitationWithoutCrossRef text))
                /\ (ValidationError.rule e = js "doiFormat"
                    \/ ValidationError.rule e = js "doiPresence")).
Proof.
  pose proof (parseCitation_doi text) as Hp.
  assert (Hf : doi (parseCitation text) <> None ->
               exists e, In e (errors (validateCitationWithoutCrossRef text))
                         /\ ValidationError.rule e = js "doiFormat"
                         /\ ValidationError.severity e = Error).
  { intros Hn. destruct (doi (parseCitation text)) as [d|] eqn:Ed; [|congruence].
    destruct (bare_is_flagged _ d Ed Hp) as (e & He & Hr & Hs).
    exists e. split; [|auto]. cbn [errors validateCitationWithoutCrossRef].
    apply (In_runRules checkDOIFormat); [|exact He].
    unfold ALL_RULES, ROUTED_RULES; cbn [map rule]. do 3 right. left. reflexivity. }
  split; [exact Hp|]. split; [exact Hf|].
  intros Ht. destruct (doi (parseCitation text)) as [d|] eqn:Ed.
  - destruct (Hf ltac:(discriminate)) as (e & He & Hr & _). exists e. auto.
  - eexists. split.
    + cbn [errors validateCitationWithoutCrossRef].
      apply (In_runRules checkDOIPresence).
      * unfold ALL_RULES, ROUTED_RULES; cbn [map rule]. do 6 right. left. reflexivity.
      * unfold checkDOIPresence. rewrite Ht, Ed. left. reflexivity.
    + right. reflexivity.
Qed.

Lemma parsed_doi_is_always_flagged_witness :
  exists e, In e (errors (validateCitationWithoutCrossRef doiText))
            /\ ValidationError.rule e = js "doiFormat"
            /\ ValidationError.severity e = Error.
Proof.
  apply (parsed_doi_is_always_flagged doiText). vm_compute. discriminate.
Defined.

(** ** Replacing the runs of a class                                     *)

(** Every maximal run of members is replaced by [r]. *)
Fixpoint squeeze (member : char -> bool) (r : jsstring) (inrun : bool) (s : jsstring)
  : jsstring :=
  match s with
  | [] => []
  | x :: t =>
    if member x then (if inrun then squeeze member r true t else r ++ squeeze member r true t)
    else x :: squeeze member r false t
  end.

Fixpoint takeWhile (f : char -> bool) (s : jsstring) : jsstring :=
  match s with
  | x :: t => if f x then x :: takeWhile f t else []
  | [] => []
  end.

Fixpoint dropWhile (f : char -> bool) (s : jsstring) : jsstring :=
  match s with
  | x :: t => if f x then dropWhile f t else s
  | [] => []
  end.

Lemma take_drop f s : takeWhile f s ++ dropWhile f s = s.
Proof.
  induction s as [|x t IH]; [reflexivity|]. cbn [takeWhile dropWhile].
  destruct (f x); [cbn [app]; rewrite IH|]; reflexivity.
Qed.

Lemma takeWhile_all f s : forallb f (takeWhile f s) = true.
Proof.
  induction s as [|x t IH]; [reflexivity|]. cbn [takeWhile].
  destruct (f x) eqn:E; [cbn [forallb]; rewrite E, IH|]; reflexivity.
Qed.

Lemma dropWhile_head f s :
  match dropWhile f s with [] => true | x :: _ => negb (f x) end = true.
Proof.
  induction s as [|x t IH]; [reflexivity|]. cbn [dropWhile].
  destruct (f x) eqn:E; [exact IH | rewrite E; reflexivity].
Qed.

Section Runs.

Variable re : RegExp.
Variable neg : bool.
Variable items : list class_item.
Hypothesis re_runs : re_ast re = RQuant true 1 None (RClass neg items).
Hypothesis re_g : re_global re = true.
Hypothesis re_nogroups : re_groups re = 0.

Let member : char -> bool := class_match (re_icase re) neg items.

Lemma run_here rest pos :
  match_here re rest pos
  = match rest with
    | x :: t =>
      if member x
      then Some {| m_index := pos; m_whole := takeWhile member rest; m_groups := [] |}
      else None
    | [] => None
    end.
Proof.
  unfold match_here. rewrite re_runs, re_nogroups. cbn [rmatch groups_of seq map].
  destruct rest as [|x t]; [reflexivity|].
  destruct (member x) eqn:Ex.
  - set (run := takeWhile member (x :: t)).
    pose proof (take_drop member (x :: t)) as Hsplit. fold run in Hsplit.
    assert (Hlen : length (x :: t) = length run + length (dropWhile member (x :: t))).
    { rewrite <- Hsplit at 1. apply length_app. }
    assert (Hpos : 0 < length run).
    { unfold run. cbn [takeWhile]. rewrite Ex. cbn [length]. lia. }
    match goal with
    | |- context [quant_loop ?ma _ true 1 None ?k ?fuel 0 (x :: t) pos ?cs] =>
      pose proof (quant_greedy_run ma member (fun _ _ _ _ => eq_refl) 1 k
                    (pos + length run, cs) run fuel 0
                    (dropWhile member (x :: t)) pos cs
                    (takeWhile_all member (x :: t))
                    (dropWhile_head member (x :: t))) as Hq
    end.
    rewrite Hsplit in Hq. rewrite Hq; [|lia|lia|reflexivity].
    f_equal. f_equal.
    replace (pos + length run - pos) with (length run) by lia.
    rewrite <- Hsplit.
    rewrite firstn_app, firstn_all, Nat.sub_diag. cbn [firstn]. apply app_nil_r.
  - cbn [quant_loop Nat.ltb Nat.leb cap_clear]. fold member. rewrite Ex. reflexivity.
Qed.

Lemma run_search rest : forall pos,
  search re rest pos
  = match dropWhile (fun c => negb (member c)) rest with
    | [] => None
    | x :: t =>
      Some {| m_index := pos + length (takeWhile (fun c => negb (member c)) rest);
              m_whole := takeWhile member (x :: t);
              m_groups := [] |}
    end.
Proof.
  induction rest as [|x t IH]; intros pos; cbn [search]; rewrite run_here.
  - reflexivity.
  - cbn [dropWhile takeWhile]. destruct (member x) eqn:Ex; cbn [negb].
    + cbn [length]. rewrite Nat.add_0_r, Ex. reflexivity.
    + rewrite IH. destruct (dropWhile _ t); [reflexivity|].
      cbn [length]. rewrite Nat.add_succ_r. reflexivity.
Qed.

Lemma squeeze_plain r s :
  squeeze member r false (takeWhile (fun c => negb (member c)) s ++
                          dropWhile (fun c => negb (member c)) s)
  = takeWhile (fun c => negb (member c)) s
    ++ squeeze member r false (dropWhile (fun c => negb (member c)) s).
Proof.
  rewrite take_drop.
  induction s as [|x t IH]; [reflexivity|]. cbn [takeWhile dropWhile].
  destruct (member x) eqn:Ex; cbn [negb app]; [reflexivity|].
  cbn [squeeze]. rewrite Ex, IH. reflexivity.
Qed.

Lemma squeeze_run r s :
  squeeze member r true s = squeeze member r false (dropWhile member s).
Proof.
  induction s as [|x t IH]; [reflexivity|]. cbn [squeeze dropWhile].
  destruct (member x) eqn:Ex; [exact IH|]. cbn [squeeze]. rewrite Ex. reflexivity.
Qed.

Lemma splice_runs r fuel : forall rest pos,
  length rest < fuel ->
  splice rest pos (match_all_from fuel re rest pos) r = squeeze member r false rest.
Proof.
  induction fuel as [|fuel IH]; intros rest pos Hf; [lia|].
  cbn [match_all_from]. rewrite run_search.
  set (pre := takeWhile (fun c => negb (member c)) rest).
  pose proof (take_drop (fun c => negb (member c)) rest) as Hsplit. fold pre in Hsplit.
  pose proof (squeeze_plain r rest) as Hsq. fold pre in Hsq. rewrite Hsplit in Hsq.
  destruct (dropWhile (fun c => negb (member c)) rest) as [|x t] eqn:Ed.
  - cbn [splice]. rewrite Hsq. cbn [squeeze]. rewrite app_nil_r in *. congruence.
  - pose proof (dropWhile_head (fun c => negb (member c)) rest) as Hx.
    rewrite Ed in Hx. rewrite negb_involutive in Hx.
    set (run := takeWhile member (x :: t)).
    pose proof (take_drop member (x :: t)) as Hrun. fold run in Hrun.
    assert (Hlen : 0 < length run) by (unfold run; cbn [takeWhile]; rewrite Hx; cbn; lia).
    unfold m_end. cbn [m_index m_whole].
    replace (pos + length pre + length run =? pos + length pre) with false
      by (symmetry; apply Nat.eqb_neq; lia).
    assert (Hrest : rest = pre ++ run ++ dropWhile member (x :: t))
      by (rewrite Hrun; symmetry; exact Hsplit).
    replace (length rest + pos <? pos + length pre + length run) with false.
    2:{ symmetry. apply Nat.ltb_ge. rewrite Hrest at 1. rewrite !length_app. lia. }
    cbn [splice]. unfold m_end. cbn [m_index m_whole].
    replace (pos + length pre - pos) with (length pre) by lia.
    replace (pos + length pre + length run - pos) with (length pre + length run) by lia.
    assert (Hskip : skipn (length pre + length run) rest = dropWhile member (x :: t)).
    { rewrite Hrest at 1. rewrite app_assoc, skipn_app, skipn_all2 by (rewrite length_app; lia).
      rewrite length_app, Nat.sub_diag. reflexivity. }
    rewrite Hskip.
    assert (Hfirst : firstn (length pre) rest = pre).
    { rewrite Hrest at 1. rewrite firstn_app, firstn_all, Nat.sub_diag. cbn [firstn].
      apply app_nil_r. }
    rewrite Hfirst, IH.
    + rewrite Hsq. f_equal. cbn [squeeze]. rewrite Hx. f_equal.
      rewrite squeeze_run. cbn [dropWhile]. rewrite Hx. reflexivity.
    + rewrite Hrest in Hf. rewrite !length_app in Hf. lia.
Qed.

Lemma replace_runs s r : replace s re r = squeeze member r false s.
Proof.
  unfold replace. rewrite re_g. unfold match_all. apply splice_runs. lia.
Qed.

End Runs.

(** ** Single spacing                                                    *)

(** Every white-space unit of [s] is a space that follows no other
    white-space unit ([prev]: the unit before [s] is white space). *)
Fixpoint spaced (prev : bool) (s : jsstring) : bool :=
  match s with
  | [] => true
  | x :: t =>
    if is_space x then negb prev && (x =? 32)%N && spaced true t
    else spaced false t
  end.

(** No white space at either end, and single spaces inside. *)
Definition tidy (s : jsstring) : Prop := trim s = s /\ spaced false s = true.

Lemma class_space x : class_match false false [CSpace] x = is_space x.
Proof.
  unfold class_match, item_match. cbn [existsb item_test andb xorb].
  rewrite !orb_false_r. reflexivity.
Qed.

Lemma squeeze_ext f g r : (forall x, f x = g x) ->
  forall s b, squeeze f r b s = squeeze g r b s.
Proof.
  intros H. induction s as [|x t IH]; intros b; [reflexivity|].
  cbn [squeeze]. rewrite H, !IH. reflexivity.
Qed.

Lemma collapse_spaces s :
  replace s (regexp "\s+" "g") (js " ") = squeeze is_space (js " ") false s.
Proof.
  rewrite (replace_runs _ false [CSpace]) by reflexivity.
  apply squeeze_ext, class_space.
Qed.

Lemma squeeze_spaced s : forall b, spaced b (squeeze is_space (js " ") b s) = true.
Proof.
  induction s as [|x t IH]; intros b; [reflexivity|]. cbn [squeeze].
  destruct (is_space x) eqn:Ex.
  - destruct b; [apply IH|]. change (js " " ++ ?u) with (32%N :: u).
    cbn [spaced]. change (is_space 32%N) with true. cbn [negb andb].
    change (32 =? 32)%N with true. apply IH.
  - cbn [spaced]. rewrite Ex. apply IH.
Qed.

Lemma spaced_weaken s : spaced true s = true -> spaced false s = true.
Proof.
  destruct s as [|x t]; [reflexivity|]. cbn [spaced].
  destruct (is_space x); [discriminate | auto].
Qed.

Lemma spaced_suffix a : forall p b, spaced p (a ++ b) = true -> spaced false b = true.
Proof.
  induction a as [|x a IH]; intros p b H; cbn [app] in H.
  - destruct p; [apply spaced_weaken, H | exact H].
  - cbn [spaced] in H. destruct (is_space x).
    + apply andb_true_iff in H as [_ H]. apply (IH _ _ H).
    + apply (IH _ _ H).
Qed.

Lemma spaced_prefix a : forall p b, spaced p (a ++ b) = true -> spaced p a = true.
Proof.
  induction a as [|x a IH]; intros p b H; [reflexivity|].
  cbn [app spaced] in *. destruct (is_space x).
  - apply andb_true_iff in H as [H1 H2]. rewrite H1, (IH _ _ H2). reflexivity.
  - apply (IH _ _ H).
Qed.

Lemma trimStart_suffix s : exists pre, s = pre ++ trimStart s.
Proof.
  induction s as [|x t (pre & IH)]; [exists []; reflexivity|]. cbn [trimStart].
  destruct (is_space x); [|exists []; reflexivity].
  exists (x :: pre). cbn [app]. congruence.
Qed.

Lemma trimEnd_prefix s : exists post, s = trimEnd s ++ post.
Proof.
  unfold trimEnd. destruct (trimStart_suffix (rev s)) as (pre & H).
  exists (rev pre). rewrite <- rev_app_distr, <- H, rev_involutive. reflexivity.
Qed.

Lemma spaced_trim s : spaced false s = true -> spaced false (trim s) = true.
Proof.
  intros H. unfold trim.
  destruct (trimStart_suffix s) as (pre & Hs). rewrite Hs in H.
  apply spaced_suffix in H.
  destruct (trimEnd_prefix (trimStart s)) as (post & Hp). rewrite Hp in H.
  apply spaced_prefix in H. exact H.
Qed.

Lemma tidy_collapse s : tidy (trim (replace s (regexp "\s+" "g") (js " "))).
Proof.
  split; [apply trim_idem|]. apply spaced_trim.
  rewrite collapse_spaces. apply squeeze_spaced.
Qed.

(** X21. The string built by [reconstructCitation] has no white space at
    either end, and the only white space inside it is single spaces. *)
Theorem reconstructCitation_is_tidy (c : ParsedCitation) : tidy (reconstructCitation c).
Proof. unfold reconstructCitation. cbv zeta. apply tidy_collapse. Qed.

(** X22. A title normalised by [normalizeTitle] has no white space at
    either end, and the only white space inside it is single spaces. *)
Theorem normalizeTitle_is_tidy (title : jsstring) : tidy (normalizeTitle title).
Proof. unfold normalizeTitle. apply tidy_collapse. Qed.

(** ** The DOI taken from CrossRef                                       *)

Definition resolverRegex : RegExp := regexp "^https?:\/\/doi\.org\/" "".

Lemma strip_resolver (x : jsstring) :
  replace (js "https://doi.org/" ++ x) resolverRegex [] = x
  /\ replace (js "http://doi.org/" ++ x) resolverRegex [] = x
  /\ replace (ch "1" :: x) resolverRegex [] = ch "1" :: x.
Proof.
  rewrite !replace_first by reflexivity.
  rewrite !(exec_anchored resolverRegex
              (RSeq (RChar 104%N) (RSeq (RChar 116%N) (RSeq (RChar 116%N) (RSeq (RChar 112%N)
               (RSeq (RQuant true 0 (Some 1) (RChar 115%N)) (RSeq (RChar 58%N)
               (RSeq (RChar 47%N) (RSeq (RChar 47%N) (RSeq (RChar 100%N) (RSeq (RChar 111%N)
               (RSeq (RChar 105%N) (RSeq (RChar 46%N) (RSeq (RChar 111%N) (RSeq (RChar 114%N)
               (RSeq (RChar 103%N) (RChar 47%N))))))))))))))))) by reflexivity.
  repeat split.
Qed.

(** X23. When the citation has no DOI, the DOI that
    [correctCitationWithCrossRef] takes from the work is put in the
    resolver form: a work's DOI given as https://doi.org/x, as
    http://doi.org/x, or bare as x (starting with 1) all give
    https://doi.org/x. *)
Theorem crossref_doi_in_resolver_form (c : ParsedCitation) (w : CrossRefWork.t)
        (x : jsstring) :
  truthy (doi c) = false ->
  CrossRefWork.doi w = js "https://doi.org/" ++ x
  \/ CrossRefWork.doi w = js "http://doi.org/" ++ x
  \/ (CrossRefWork.doi w = x /\ startsWith x (js "1") = true) ->
  doi (fst (correctCitationWithCrossRef c w)) = Some (js "https://doi.org/" ++ x).
Proof.
  intros Hc Hw.
  assert (Hs : doi (supplementDOI w c) = Some (js "https://doi.org/" ++ x)).
  { unfold supplementDOI. rewrite Hc. cbn [negb andb].
    fold resolverRegex.
    destruct (strip_resolver x) as (H1 & H2 & _).
    destruct Hw as [->|[->|[-> Hx]]]; cbn [nonempty app].
    - rewrite H1. reflexivity.
    - rewrite H2. reflexivity.
    - destruct x as [|y x]; [discriminate Hx|].
      assert (Hy : y = ch "1").
      { change (js "1") with [ch "1"] in Hx. cbn [startsWith] in Hx.
        apply andb_true_iff in Hx as [Hy _]. apply N.eqb_eq in Hy. congruence. }
      subst y. cbn [nonempty].
      destruct (strip_resolver x) as (_ & _ & H3). rewrite H3. reflexivity. }
  unfold correctCitationWithCrossRef. cbv zeta.
  assert (Hp : doi (supplementPages w (supplementDOI w c)) = doi (supplementDOI w c)).
  { unfold supplementPages. cbv zeta.
    destruct (_ && _); [destruct (_ && _); reflexivity|].
    destruct (_ && _); reflexivity. }
  destruct (_ || _); cbn [fst]; [congruence|].
  destruct (_ && _); cbn [fst].
  - unfold journalToChapter. cbv zeta.
    destruct (edition_above_one w), (has_editors w), (truthy (CrossRefWork.publisher w));
      cbn [doi set_edition set_editors set_publisher set_source set_issue set_volume
               set_pages set_type]; congruence.
  - cbn [doi set_type]. congruence.
Qed.

Lemma crossref_doi_in_resolver_form_witness :
  doi (fst (correctCitationWithCrossRef
              (emptyCitation [])
              {| CrossRefWork.doi := js "http://doi.org/10.1000/182";
                 CrossRefWork.title := []; CrossRefWork.authors := [];
                 CrossRefWork.year := []; CrossRefWork.source := [];
                 CrossRefWork.volume := None; CrossRefWork.issue := None;
                 CrossRefWork.pages := None; CrossRefWork.type := js "journal-article";
                 CrossRefWork.publisher := None; CrossRefWork.editors := None;
                 CrossRefWork.edition := None; CrossRefWork.reportNumber := None;
                 CrossRefWork.conferenceName := None; CrossRefWork.institution := None |}))
  = Some (js "https://doi.org/10.1000/182").
Proof.
  apply (crossref_doi_in_resolver_form _ _ (js "10.1000/182")); [reflexivity|].
  right. left. reflexivity.
Defined.

(** ** The type-mismatch note                                            *)

Lemma type_eqb_refl t : type_eqb t t = true.
Proof. destruct t; reflexivity. Qed.

Lemma type_eqb_sym a b : type_eqb a b = type_eqb b a.
Proof. destruct a, b; reflexivity. Qed.

Lemma correct_typeChanged c w :
  snd (correctCitationWithCrossRef c w)
  = negb (type_eqb (type (fst (correctCitationWithCrossRef c w))) (type c)).
Proof.
  unfold correctCitationWithCrossRef. cbv zeta.
  destruct (supplementPages_keeps w (supplementDOI w c)) as (_ & Hp & _).
  destruct (supplementDOI_keeps w c) as (_ & Hd & _).
  destruct (type_eqb _ (type c) || type_eqb _ unknown) eqn:E; cbn [fst snd].
  - rewrite Hp, Hd, type_eqb_refl. reflexivity.
  - apply orb_false_iff in E as [E _].
    destruct (_ && _); cbn [fst snd];
      [destruct (journalToChapter_keeps w
                   (set_type (mapCrossRefType (CrossRefWork.type w))
                             (supplementPages w (supplementDOI w c)))) as (_ & Hj & _);
       rewrite Hj|];
      cbn [type set_type]; rewrite E; reflexivity.
Qed.

Section Mismatch.

Variable searchByTitle : jsstring -> option CrossRefWork.t.

(** X24. The errors of [validateCitation] hold the type-mismatch note
    exactly when the type of the returned citation differs from the
    parsed type, and then exactly once. *)
Theorem mismatch_reported_iff_type_changed (text : jsstring) (useCrossRef : bool) :
  let r := validateCitation searchByTitle text useCrossRef in
  mismatches (errors r)
  = if type_eqb (type (citation r)) (type (parseCitation text)) then []
    else [typeMismatch (citation r)].
Proof.
  cbv zeta. unfold validateCitation.
  assert (He : snd (enrich searchByTitle text useCrossRef)
               = negb (type_eqb (type (fst (enrich searchByTitle text useCrossRef)))
                                (type (parseCitation text)))).
  { destruct (enrich_cases searchByTitle text useCrossRef) as [E|[w E]]; rewrite E.
    - cbn [fst snd]. rewrite type_eqb_refl. reflexivity.
    - apply correct_typeChanged. }
  destruct (enrich searchByTitle text useCrossRef) as [c' changed].
  cbn [fst snd errors citation] in *. unfold mismatches.
  rewrite filter_app, (filter_none _ _ (rules_no_mismatch c')). cbn [app].
  subst changed. destruct (type_eqb (type c') (type (parseCitation text))); reflexivity.
Qed.

End Mismatch.

(** ** Fixes that satisfy their rule                                     *)

Lemma endsWith_snoc (s : jsstring) : endsWith (s ++ js ".") (js ".") = true.
Proof.
  unfold endsWith. rewrite rev_app_distr.
  change (rev (js ".")) with [ch "."]. cbn [app startsWith].
  rewrite N.eqb_refl. destruct (rev s); reflexivity.
Qed.

Lemma trim_snoc_period (s : jsstring) :
  trim s <> [] -> trim (trim s ++ js ".") = trim s ++ js ".".
Proof.
  intros Hne. unfold trim at 1.
  assert (Hs : trimStart (trim s ++ js ".") = trim s ++ js ".").
  { unfold trim in *. destruct (trimStart_head s) as [E|(c & t & E & Hc)]; rewrite E in *.
    - exfalso. apply Hne. reflexivity.
    - destruct (trimEnd_head c t Hc) as (t' & ->). cbn [app].
      apply trimStart_fixed, Hc. }
  rewrite Hs. unfold trimEnd. rewrite rev_app_distr.
  change (rev (js ".")) with [ch "."]. cbn [app].
  rewrite (trimStart_fixed (ch ".") _ eq_refl). cbn [rev].
  rewrite rev_involutive. reflexivity.
Qed.

Lemma year_match_digits s m :
  exec (regexp "\d{4}" "") s = Some m -> fourDigits (m_whole m).
Proof.
  unfold exec. intros H.
  destruct (search_leftmost _ _ _ _ H) as (k & _ & _ & Hm & _).
  revert Hm. generalize (skipn k s) (0 + k). intros rest pos.
  unfold match_here.
  change (re_ast (regexp "\d{4}" "")) with (RQuant true 4 (Some 4) (RClass false [CDigit])).
  change (re_icase (regexp "\d{4}" "")) with false.
  cbn [rmatch].
  rewrite (quant_counted _ _ (fun _ _ _ _ => eq_refl)) by lia. rewrite Nat.sub_0_r.
  destruct ((4 <=? length rest) && forallb (class_match false false [CDigit]) (firstn 4 rest))
    eqn:E; [|discriminate].
  intros Hm. inversion Hm; subst m; clear Hm. cbn [m_whole].
  replace (pos + 4 - pos) with 4 by lia.
  apply andb_true_iff in E as [Hl Hd]. apply Nat.leb_le in Hl.
  destruct rest as [|a [|b [|c [|d t]]]]; cbn [length] in Hl; try lia.
  cbn [firstn forallb] in Hd. rewrite !class_digit in Hd.
  repeat (apply andb_true_iff in Hd as [? Hd]).
  exists a, b, c, d. cbn [firstn]. auto.
Qed.

(** X25. A fix repairs what its rule reported: after the fixes for the
    violations of [checkInPrefix] are applied the rule is silent on the
    corrected citation, and so is [checkTerminalPeriod] after its own;
    [checkYearFormat] is silent after its fix whenever its violation was
    auto-fixable. *)
Theorem fix_satisfies_rule (c : ParsedCitation) :
  checkInPrefix (fixedCitation (applyFixes c (checkInPrefix c))) = []
  /\ checkTerminalPeriod (fixedCitation (applyFixes c (checkTerminalPeriod c))) = []
  /\ (Forall (fun e => ValidationError.autoFixable e = true) (checkYearFormat c) ->
      checkYearFormat (fixedCitation (applyFixes c (checkYearFormat c))) = []).
Proof.
  repeat split.
  - unfold checkInPrefix at 2.
    destruct (negb (type_eqb (type c) chapter) || negb (nonempty (source c))) eqn:E1;
      [cbn; unfold checkInPrefix; rewrite E1; reflexivity|].
    destruct (negb (startsWith (source c) (js "In "))) eqn:E2;
      [|cbn; unfold checkInPrefix; rewrite E1, E2; reflexivity].
    unfold applyFixes. cbn [fold_left].
    rewrite (applyFix_mapped _ _ (js "source")); try reflexivity.
    cbn [fixedCitation]. unfold checkInPrefix.
    apply orb_false_iff in E1 as [Et Es].
    change (set_field (js "source") ?v ?x) with (set_source v x).
    cbn [type source set_source ValidationError.suggested violation defined].
    rewrite Et. cbn [orb].
    change (js "In ") with [ch "I"; ch "n"; ch " "].
    cbn [app nonempty negb startsWith]. rewrite !N.eqb_refl.
    destruct (source c); reflexivity.
  - unfold checkTerminalPeriod at 2. cbv zeta.
    destruct (negb (nonempty (trim (raw c)))) eqn:E1;
      [cbn; unfold checkTerminalPeriod; cbv zeta; rewrite E1; reflexivity|].
    destruct (test _ (trim (raw c)) || test _ (trim (raw c))) eqn:E2;
      [cbn; unfold checkTerminalPeriod; cbv zeta; rewrite E1, E2; reflexivity|].
    destruct (negb (endsWith (trim (raw c)) (js "."))) eqn:E3;
      [|cbn; unfold checkTerminalPeriod; cbv zeta; rewrite E1, E2, E3; reflexivity].
    unfold applyFixes. cbn [fold_left].
    rewrite (applyFix_mapped _ _ (js "raw")); try reflexivity;
      [|apply nonempty_snoc; reflexivity].
    cbn [fixedCitation]. unfold checkTerminalPeriod. cbv zeta.
    change (set_field (js "raw") ?v ?x) with (set_raw v x).
    cbn [raw set_raw ValidationError.suggested violation defined].
    rewrite trim_snoc_period
      by (destruct (trim (raw c)); [discriminate E1 | discriminate]).
    rewrite endsWith_snoc.
    destruct (trim (raw c)); [discriminate E1|]. cbn [app nonempty negb].
    match goal with
    | |- context [if ?b then _ else _] => destruct b
    end; reflexivity.
  - unfold checkYearFormat at 1 3. cbv zeta.
    destruct (negb (nonempty (year c))) eqn:E1.
    { intros H. inversion H as [|? ? Ha _]. discriminate Ha. }
    destruct (negb (test _ (year c))) eqn:E2;
      [|intros _; cbn; unfold checkYearFormat; rewrite E1, E2; reflexivity].
    intros H. inversion H as [|? ? Ha _]; subst. cbn [ValidationError.autoFixable violation] in Ha.
    destruct (exec (regexp "\d{4}" "") (year c)) as [m|] eqn:Em; [|discriminate Ha].
    unfold applyFixes. cbn [fold_left].
    rewrite (applyFix_mapped _ _ (js "year")); try reflexivity; try exact Ha.
    cbn [fixedCitation]. unfold checkYearFormat.
    change (set_field (js "year") ?v ?x) with (set_year v x).
    cbn [year set_year ValidationError.suggested violation defined].
    rewrite Ha. cbn [negb].
    rewrite (valid_year (m_whole m)); [reflexivity|].
    right. right. apply (year_match_digits _ _ Em).
Qed.

Lemma fix_satisfies_rule_witness :
  let c := set_year (js "c2020") (emptyCitation (js "Kim. (c2020). A title.")) in
  checkYearFormat (fixedCitation (applyFixes c (checkYearFormat c))) = [].
Proof.
  cbv zeta. apply (fix_satisfies_rule _). vm_compute. repeat constructor.
Defined.

(** ** Individual authors and group authors                              *)

Definition groupAuthor (name : jsstring) : Author :=
  {| lastName := name; initials := []; isGroupAuthor := Some true |}.

(** The authors and the citation's group flag as the parser leaves them:
    individual authors only and no flag, or one group author and the
    flag. *)
Definition authorsShape (l : list Author) (flag : option bool) : Prop :=
  (Forall (fun a => isGroupAuthor a = None) l /\ flag = None)
  \/ (exists name, name <> [] /\ trim name = name
                   /\ l = [groupAuthor name] /\ flag = Some true).

Lemma authors_of_matches_individual ms : forall l,
  authors_of_matches ms = Normal l -> Forall (fun a => isGroupAuthor a = None) l.
Proof.
  induction ms as [|m ms IH]; intros l H; cbn [authors_of_matches] in H.
  - inversion H. constructor.
  - unfold author_of_match in H.
    destruct (group m 1); [|discriminate]. destruct (group m 2); [|discriminate].
    destruct (authors_of_matches ms) as [l'|]; [|discriminate].
    inversion H; subst l. constructor; [reflexivity | apply IH; reflexivity].
Qed.

Lemma individual_not_group l :
  Forall (fun a => isGroupAuthor a = None) l -> existsb is_group l = false.
Proof.
  induction 1 as [|a l Ha _ IH]; [reflexivity|].
  cbn [existsb]. rewrite IH. unfold is_group. rewrite Ha. reflexivity.
Qed.

Lemma parseAuthors_shape authorBlock l :
  parseAuthors authorBlock = Normal l ->
  authorsShape l (if existsb is_group l then Some true else None).
Proof.
  unfold parseAuthors. cbv zeta.
  match goal with
  | |- context [authors_of_matches ?x] => set (ms := x)
  end.
  destruct (authors_of_matches ms) as [authors0|] eqn:E; [|discriminate].
  pose proof (authors_of_matches_individual ms authors0 E) as H0.
  assert (Hind : authorsShape authors0
                   (if existsb is_group authors0 then Some true else None)).
  { left. rewrite (individual_not_group _ H0). split; [exact H0 | reflexivity]. }
  intros H.
  destruct (length authors0 =? 0) eqn:El; cbn [andb] in H;
    [|inversion H; subst; exact Hind].
  destruct (0 <? length _) in H; [|inversion H; subst; exact Hind].
  match type of H with
  | context [trim ?b] => set (groupName := trim b) in *
  end.
  destruct (0 <? length groupName) eqn:Hl; inversion H; subst; [|exact Hind].
  destruct authors0; [|discriminate El]. cbn [app existsb is_group isGroupAuthor].
  right. exists groupName. repeat split.
  - destruct groupName; [discriminate Hl | discriminate].
  - unfold groupName. apply trim_idem.
Qed.

Lemma body_authors_flag raw :
  let c := snd (parseCitation_body raw (emptyCitation raw)) in
  (authors c = [] /\ citationIsGroupAuthor c = None)
  \/ exists authorBlock,
      parseAuthors authorBlock = Normal (authors c)
      /\ citationIsGroupAuthor c = if existsb is_group (authors c) then Some true else None.
Proof.
  cbv zeta. unfold parseCitation_body.
  destruct (exec yearRegex raw) as [yearMatch|]; [|left; split; reflexivity].
  rewrite run_bind.
  destruct (group yearMatch 1) as [fullDateStr|]; [|left; split; reflexivity].
  cbn [must ret]. rewrite run_bind.
  assert (Hk : keeps (fun c => (authors c, citationIsGroupAuthor c)) (parseYear fullDateStr))
    by (unfold parseYear; keeps).
  specialize (Hk (emptyCitation raw)).
  destruct (parseYear fullDateStr (emptyCitation raw)) as [[[]|] c1];
    cbn [snd authors citationIsGroupAuthor emptyCitation] in Hk;
    injection Hk as Ha Hg; [|left; split; assumption].
  rewrite run_bind.
  match goal with
  | |- context [lift (parseAuthors ?b)] => set (before := b)
  end.
  unfold lift.
  destruct (parseAuthors before) as [a|] eqn:Ea; [|left; cbn [snd]; split; assumption].
  right. exists before. rewrite run_bind. cbn [modify]. rewrite run_bind.
  match goal with
  | |- context [parseRemainingElements ?x] =>
    assert (Hr : keeps (fun c => (authors c, citationIsGroupAuthor c))
                       (parseRemainingElements x)) by keeps_remaining;
      set (after := x) in *
  end.
  destruct (existsb is_group a) eqn:Eg; cbn [modify ret].
  - specialize (Hr (set_citationIsGroupAuthor (Some true) (set_authors a c1))).
    cbn [authors citationIsGroupAuthor set_citationIsGroupAuthor set_authors] in Hr.
    pose proof (f_equal fst Hr) as H1. pose proof (f_equal snd Hr) as H2.
    cbn [fst snd] in H1, H2. rewrite H1, H2, Ea, Eg. split; reflexivity.
  - specialize (Hr (set_authors a c1)).
    cbn [authors citationIsGroupAuthor set_authors] in Hr.
    pose proof (f_equal fst Hr) as H1. pose proof (f_equal snd Hr) as H2.
    cbn [fst snd] in H1, H2. rewrite H1, H2, Ea, Eg. split; [reflexivity | exact Hg].
Qed.

(** X26. A parsed citation has either individual authors only, and no
    group flag, or exactly one author, a group author with a non-empty
    trimmed name and no initials, and the group flag: a group is
    recorded only when no individual author was recognised, so an
    organisation named beside a person is not among the authors. *)
Theorem parsed_authors_individuals_or_one_group (text : jsstring) :
  authorsShape (authors (parseCitation text)) (citationIsGroupAuthor (parseCitation text)).
Proof.
  unfold parseCitation, parseCitation_run, try_catch.
  pose proof (body_authors_flag (trim text)) as Hbody. cbv zeta in Hbody.
  assert (H : forall c : ParsedCitation,
             (authors c = [] /\ citationIsGroupAuthor c = None)
             \/ (exists authorBlock,
                    parseAuthors authorBlock = Normal (authors c)
                    /\ citationIsGroupAuthor c
                       = if existsb is_group (authors c) then Some true else None) ->
             authorsShape (authors c) (citationIsGroupAuthor c)).
  { intros c [[Ha Hg]|(b & Hb & Hg)].
    - left. rewrite Ha, Hg. split; [constructor | reflexivity].
    - rewrite Hg. eapply parseAuthors_shape, Hb. }
  destruct (parseCitation_body (trim text) (emptyCitation (trim text))) as [[[]|] c];
    cbn [snd] in *; apply H, Hbody.
Qed.

(** ** The type of a parsed citation and the fields that go with it      *)

Lemma preserves_ret {A} Q (a : A) : preserves Q (ret a).
Proof. intros c Hc. exact Hc. Qed.

Lemma preserves_lift {A} Q (o : outcome A) : preserves Q (lift o).
Proof. intros c Hc. exact Hc. Qed.

Lemma preserves_gets {A} Q (g : ParsedCitation -> A) : preserves Q (gets g).
Proof. intros c Hc. exact Hc. Qed.

Lemma preserves_must Q o : preserves Q (must o).
Proof. destruct o; intros c Hc; exact Hc. Qed.

Lemma preserves_source_patterns Q ps sourceSegment :
  Forall (fun p => forall m, preserves Q (snd p m)) ps ->
  preserves Q (try_source_patterns ps sourceSegment).
Proof.
  induction 1 as [|[re extract] ps Hp _ IH]; cbn [try_source_patterns];
    [apply preserves_ret|].
  destruct (exec re sourceSegment); [|exact IH].
  apply preserves_bind; [apply Hp | intros; apply preserves_ret].
Qed.

(** The steps of a computation, each mutation handled by [tac]. *)
Ltac pres tac :=
  repeat first
         [ apply preserves_ret | apply preserves_lift | apply preserves_gets
         | apply preserves_must
         | apply preserves_modify; tac
         | apply preserves_bind; [|intros]
         | match goal with
           | |- preserves _ (if ?b then _ else _) => destruct b
           | |- preserves _ (match ?x with Some _ => _ | None => _ end) => destruct x
           | |- preserves _ (let _ := _ in _) => cbv zeta
           end ].

(** A computation that takes a state with [P] to a state with [Q],
    whether it returns or throws. *)
Definition establishes {A} (P Q : ParsedCitation -> Prop) (m : M A) : Prop :=
  forall c, P c -> Q (snd (m c)).

Lemma establishes_bind {A B} P R Q (m : M A) (k : A -> M B) :
  establishes P R m -> (forall c, R c -> Q c) -> (forall a, establishes R Q (k a)) ->
  establishes P Q (bind m k).
Proof.
  intros Hm Hthrow Hk c Hc. unfold bind. specialize (Hm c Hc).
  destruct (m c) as [[a|] c']; cbn [snd] in *; [apply Hk | apply Hthrow]; exact Hm.
Qed.

Lemma establishes_preserves {A} Q (m : M A) : preserves Q m -> establishes Q Q m.
Proof. intros H. exact H. Qed.

(** The invariant of a whole parse, in two phases: [P] up to the
    remaining elements, [Q] from there. *)
Lemma parseCitation_phases (P Q : ParsedCitation -> Prop) text :
  P (emptyCitation (trim text)) ->
  (forall c, P c -> Q c) ->
  (forall v c, P c -> P (set_authors v c)) ->
  (forall v c, P c -> P (set_citationIsGroupAuthor v c)) ->
  (forall v c, Q c -> Q (set_title v c)) ->
  (forall s, preserves P (parseYear s)) ->
  (forall a, establishes P Q (parseRemainingElements a)) ->
  Q (parseCitation text).
Proof.
  intros H0 HPQ Ha Hg Ht Hy Hr.
  assert (Hbody : establishes P Q (parseCitation_body (trim text))).
  { unfold parseCitation_body.
    destruct (exec yearRegex (trim text)) as [yearMatch|].
    - apply (establishes_bind P P); [apply preserves_must | exact HPQ |].
      intros s. apply (establishes_bind P P); [apply Hy | exact HPQ |]. intros _.
      apply (establishes_bind P P); [apply preserves_lift | exact HPQ |]. intros a.
      apply (establishes_bind P P);
        [apply preserves_modify; intros c Hc; apply Ha, Hc | exact HPQ |].
      intros _. apply (establishes_bind P P); [| exact HPQ | intros _; apply Hr].
      destruct (existsb is_group a); [|apply preserves_ret].
      apply preserves_modify. intros c Hc. apply Hg, Hc.
    - intros c Hc. apply Ht, HPQ, Hc. }
  unfold parseCitation, parseCitation_run, try_catch.
  specialize (Hbody (emptyCitation (trim text)) H0).
  destruct (parseCitation_body (trim text) (emptyCitation (trim text))) as [[[]|] c];
    cbn [snd] in *; [exact Hbody|].
  cbn [modify snd]. apply Ht, Hbody.
Qed.

(** *** Conferences and dissertations have their descriptor *)

Definition untyped (c : ParsedCitation) : Prop := type c = unknown.

Definition described (c : ParsedCitation) : Prop :=
  type c = conference \/ type c = dissertation -> truthy (bracketType c) = true.

Ltac described_step :=
  let c := fresh "c" in
  let Hc := fresh "Hc" in
  let H := fresh "H" in
  intros c Hc; first [exact Hc | intros [H|H]; discriminate H].

Lemma untyped_described c : untyped c -> described c.
Proof. intros Hc [H|H]; rewrite Hc in H; discriminate H. Qed.

Lemma extractBracket_described r : establishes untyped described (extractBracket r).
Proof.
  intros c Hc. unfold extractBracket.
  destruct (exec _ r) as [m|]; [|apply untyped_described, Hc].
  rewrite run_bind. cbn [modify]. cbv zeta.
  destruct (group m 1) as [[|x t]|].
  - (* an empty descriptor names no type *)
    rewrite run_bind. cbn [must ret].
    repeat match goal with
           | |- context [test ?re (toLowerCase [])] =>
             replace (test re (toLowerCase [])) with false by (vm_compute; reflexivity)
           end.
    cbn. apply untyped_described, Hc.
  - match goal with
    | |- described (snd (?k ?c1)) =>
      assert (Hk : keeps bracketType k) by keeps;
        intros _; rewrite Hk; reflexivity
    end.
  - cbn. apply untyped_described, Hc.
Qed.

Lemma parseSource_described segments : preserves described (parseSource segments).
Proof.
  unfold parseSource. cbv zeta. apply preserves_bind; [apply preserves_gets|].
  intros t.
  assert (Hdefault : forall s,
             preserves described
               (bind (try_source_patterns SOURCE_PATTERNS s)
                  (fun matched =>
                     if matched then ret true
                     else bind (detectBook s)
                            (fun isBook =>
                               if isBook then ret true
                               else bind (modify (set_source (trim s)))
                                      (fun _ =>
                                         bind (gets (fun c => c))
                                           (fun c =>
                                              bind (if truthy (volume c) || truthy (issue c)
                                                    then modify (set_type journal)
                                                    else if truthy (url c) && negb (truthy (doi c))
                                                         then modify (set_type web)
                                                         else ret tt)
                                                (fun _ => ret false))))))).
  { intros s. apply preserves_bind.
    - apply preserves_source_patterns. unfold SOURCE_PATTERNS.
      repeat (apply Forall_cons; [intros ?; cbn [snd]; pres described_step|]).
      apply Forall_nil.
    - intros matched. unfold detectBook. pres described_step. }
  destruct t; first [apply Hdefault | pres described_step].
Qed.

Lemma parseRemainingElements_described a :
  establishes untyped described (parseRemainingElements a).
Proof.
  unfold parseRemainingElements. cbv zeta.
  apply (establishes_bind untyped untyped);
    [apply (preserves_keeps type (fun t => t = unknown)); unfold extractDOI; keeps
    | exact untyped_described |]. intros r1.
  apply (establishes_bind untyped untyped);
    [apply (preserves_keeps type (fun t => t = unknown)); unfold extractURL; keeps
    | exact untyped_described |]. intros r2.
  apply (establishes_bind untyped untyped);
    [apply (preserves_keeps type (fun t => t = unknown)); unfold extractEdition; keeps
    | exact untyped_described |]. intros r3.
  apply (establishes_bind untyped described);
    [apply extractBracket_described | auto |]. intros r4.
  apply establishes_preserves.
  apply preserves_bind; [unfold extractReportNo; pres described_step|]. intros r5.
  apply preserves_bind; [pres described_step|]. intros _.
  apply preserves_bind; [|intros returned; pres described_step].
  destruct (1 <? _); [apply parseSource_described | apply preserves_ret].
Qed.

Lemma parseCitation_described text : described (parseCitation text).
Proof.
  apply (parseCitation_phases untyped described).
  - reflexivity.
  - exact untyped_described.
  - intros v c Hc. exact Hc.
  - intros v c Hc. exact Hc.
  - intros v c Hc. exact Hc.
  - intros s. apply (preserves_keeps type (fun t => t = unknown)). unfold parseYear. keeps.
  - apply parseRemainingElements_described.
Qed.

(** X27. A citation that the parser types as a conference presentation
    or a dissertation always has its bracketed descriptor, the text the
    type was read from; so [checkBracketType] emits nothing on a parsed
    citation. *)
Theorem parsed_type_comes_with_descriptor (text : jsstring) :
  described (parseCitation text) /\ checkBracketType (parseCitation text) = [].
Proof.
  pose proof (parseCitation_described text) as H. split; [exact H|].
  unfold checkBracketType. unfold described in H.
  destruct (type (parseCitation text)); try reflexivity;
    cbn [existsb type_eqb orb negb]; rewrite H by auto; reflexivity.
Qed.

Definition conferenceSample : jsstring :=
  js "Kim, B. Y. (2024, March 3–5). Learning with machines [Paper presentation]. Annual Meeting of Testing, Seoul, Korea.".

Lemma parsed_type_comes_with_descriptor_witness :
  type (parseCitation conferenceSample) = conference
  /\ truthy (bracketType (parseCitation conferenceSample)) = true.
Proof.
  assert (H : type (parseCitation conferenceSample) = conference)
    by (vm_compute; reflexivity).
  split; [exact H|].
  apply (proj1 (parsed_type_comes_with_descriptor conferenceSample)). left. exact H.
Defined.

(** *** Chapters are introduced by In, and have no editors *)

Definition notChapter (c : ParsedCitation) : Prop := type c <> chapter.

Definition introduced (c : ParsedCitation) : Prop :=
  type c = chapter -> startsWith (source c) (js "In ") = true.

Lemma notChapter_introduced c : notChapter c -> introduced c.
Proof. intros Hc H. contradiction. Qed.

Ltac notChapter_step :=
  let c := fresh "c" in
  let Hc := fresh "Hc" in
  intros c Hc; first [exact Hc | discriminate].

Ltac introduced_step :=
  let c := fresh "c" in
  let Hc := fresh "Hc" in
  let H := fresh "H" in
  intros c Hc; first [exact Hc | intros H; discriminate H].

(** What a source pattern leaves: a chapter with its source, or another
    type. *)
Lemma startsWith_app (p s : jsstring) : startsWith (p ++ s) p = true.
Proof.
  induction p as [|x p IH]; [destruct s; reflexivity|].
  cbn [app startsWith]. rewrite N.eqb_refl. exact IH.
Qed.

Ltac run_handler Hc :=
  cbv [bind must ret modify lift snd];
  repeat (match goal with
          | |- context [match ?o with Some _ => _ | None => _ end] => destruct o
          end; cbv [bind must ret modify lift snd]);
  first [ intros _; apply startsWith_app
        | let H := fresh "H" in intros H; cbn in H; discriminate H
        | exact (notChapter_introduced _ Hc) ].

Lemma patterns_establish (P Q : ParsedCitation -> Prop) ps s c :
  Forall (fun p => forall m, establishes P Q (snd p m)) ps ->
  P c ->
  match try_source_patterns ps s c with
  | (Normal false, c') => P c'
  | (_, c') => Q c'
  end.
Proof.
  induction 1 as [|[re extract] ps Hp _ IH]; intros Hc; cbn [try_source_patterns];
    [exact Hc|].
  destruct (exec re s) as [m|]; [|apply IH, Hc].
  unfold bind. specialize (Hp m c Hc). cbn [snd] in Hp.
  destruct (extract m c) as [[[]|] c']; exact Hp.
Qed.

Lemma patterns_introduced s c :
  notChapter c ->
  match try_source_patterns SOURCE_PATTERNS s c with
  | (Normal false, c') => notChapter c'
  | (_, c') => introduced c'
  end.
Proof.
  apply patterns_establish. unfold SOURCE_PATTERNS.
  repeat (apply Forall_cons;
          [intros m c' Hc'; cbn [snd]; unfold introduced; run_handler Hc'|]).
  apply Forall_nil.
Qed.

Lemma parseSource_introduced segments :
  establishes notChapter introduced (parseSource segments).
Proof.
  intros c Hc. unfold parseSource. cbv zeta. rewrite run_bind. cbn [gets].
  assert (Hdefault : forall s,
             introduced
               (snd (bind (try_source_patterns SOURCE_PATTERNS s)
                  (fun matched =>
                     if matched then ret true
                     else bind (detectBook s)
                            (fun isBook =>
                               if isBook then ret true
                               else bind (modify (set_source (trim s)))
                                      (fun _ =>
                                         bind (gets (fun c => c))
                                           (fun c =>
                                              bind (if truthy (volume c) || truthy (issue c)
                                                    then modify (set_type journal)
                                                    else if truthy (url c) && negb (truthy (doi c))
                                                         then modify (set_type web)
                                                         else ret tt)
                                                (fun _ => ret false))))) c))).
  { intros s. rewrite run_bind. pose proof (patterns_introduced s c Hc) as Hp.
    destruct (try_source_patterns SOURCE_PATTERNS s c) as [[[|]|] c1];
      [exact Hp | | exact Hp].
    apply notChapter_introduced.
    revert c1 Hp.
    match goal with
    | |- forall c1, notChapter c1 -> notChapter (snd (?k c1)) =>
      change (preserves notChapter k)
    end.
    unfold detectBook. pres notChapter_step. }
  destruct (type c) eqn:Et; first [apply Hdefault | idtac].
  all: apply notChapter_introduced.
  all: match goal with
       | |- notChapter (snd (?k ?c0)) =>
         assert (Hk : preserves notChapter k) by (pres notChapter_step);
           apply Hk; assumption
       end.
Qed.

Lemma parseRemainingElements_introduced a :
  establishes notChapter introduced (parseRemainingElements a).
Proof.
  unfold parseRemainingElements. cbv zeta.
  apply (establishes_bind notChapter notChapter);
    [apply establishes_preserves; unfold extractDOI; pres notChapter_step
    | exact notChapter_introduced |]. intros r1.
  apply (establishes_bind notChapter notChapter);
    [apply establishes_preserves; unfold extractURL; pres notChapter_step
    | exact notChapter_introduced |]. intros r2.
  apply (establishes_bind notChapter notChapter);
    [apply establishes_preserves; unfold extractEdition; pres notChapter_step
    | exact notChapter_introduced |]. intros r3.
  apply (establishes_bind notChapter notChapter);
    [apply establishes_preserves; unfold extractBracket; pres notChapter_step
    | exact notChapter_introduced |]. intros r4.
  apply (establishes_bind notChapter notChapter);
    [apply establishes_preserves; unfold extractReportNo; pres notChapter_step
    | exact notChapter_introduced |]. intros r5.
  apply (establishes_bind notChapter notChapter);
    [apply establishes_preserves; pres notChapter_step | exact notChapter_introduced |].
  intros _.
  apply (establishes_bind notChapter introduced); [| auto |].
  - destruct (1 <? _); [apply parseSource_introduced|].
    intros c Hc. apply notChapter_introduced, Hc.
  - intros returned. apply establishes_preserves. pres introduced_step.
Qed.

Lemma parseCitation_introduced text : introduced (parseCitation text).
Proof.
  apply (parseCitation_phases notChapter introduced).
  - discriminate.
  - exact notChapter_introduced.
  - intros v c Hc. exact Hc.
  - intros v c Hc. exact Hc.
  - intros v c Hc. exact Hc.
  - intros s. apply (preserves_keeps type (fun t => t <> chapter)). unfold parseYear. keeps.
  - apply parseRemainingElements_introduced.
Qed.

Lemma parseCitation_editors text : editors (parseCitation text) = None.
Proof.
  apply (parseCitation_component editors (fun o => o = None));
    [reflexivity | reflexivity | reflexivity | reflexivity | | ].
  - intros s. apply (preserves_keeps editors (fun o => o = None)). unfold parseYear. keeps.
  - intros a. apply (preserves_keeps editors (fun o => o = None)). keeps_remaining.
Qed.

(** X28. The parser never reads editors, and it types a citation as a
    chapter only with a source that starts with In.  So on a parsed
    citation [checkInPrefix] emits nothing, and [checkChapterEditors]
    emits its warning for every chapter, whatever editors the text
    names. *)
Theorem parsed_chapters_lack_editors (text : jsstring) :
  let c := parseCitation text in
  editors c = None
  /\ (type c = chapter -> startsWith (source c) (js "In ") = true)
  /\ checkInPrefix c = []
  /\ checkChapterEditors c
     = if type_eqb (type c) chapter
       then [violation (js "chapterEditors") (js "editors")
                       (js "Book chapter should include editor(s): In F. M. Editor (Ed.), Book title")
                       Warning [] None false]
       else [].
Proof.
  cbv zeta. pose proof (parseCitation_introduced text) as H.
  pose proof (parseCitation_editors text) as He.
  split; [exact He|]. split; [exact H|]. split.
  - unfold checkInPrefix. unfold introduced in H.
    destruct (type (parseCitation text)); try reflexivity.
    cbn [type_eqb negb orb]. rewrite H by reflexivity.
    destruct (nonempty _); reflexivity.
  - unfold checkChapterEditors, no_editors. rewrite He.
    destruct (type_eqb _ chapter); reflexivity.
Qed.

Definition chapterSample : jsstring :=
  js "Kim, B. Y. (2024). A chapter title. In S. H. Lee (Ed.), The big book (pp. 12-34). Academic Press.".

Lemma parsed_chapters_lack_editors_witness :
  type (parseCitation chapterSample) = chapter
  /\ startsWith (source (parseCitation chapterSample)) (js "In ") = true.
Proof.
  assert (H : type (parseCitation chapterSample) = chapter) by (vm_compute; reflexivity).
  split; [exact H|].
  destruct (parsed_chapters_lack_editors chapterSample) as (_ & Hin & _).
  apply Hin, H.
Defined.

(** ** The results of a batch                                            *)

Lemma validate_identity search text useCrossRef :
  identity (citation (validateCitation search text useCrossRef))
  = identity (parseCitation text).
Proof.
  unfold validateCitation.
  destruct (enrich_cases search text useCrossRef) as [E|[w E]]; rewrite E.
  - reflexivity.
  - pose proof (correct_identity (parseCitation text) w) as Hi.
    destruct (correctCitationWithCrossRef (parseCitation text) w) as [c' b].
    exact Hi.
Qed.

Lemma map_mapi {A B C} (g : B -> C) (f : nat -> A -> B) (h : A -> C) l : forall i,
  Forall (fun x => forall j, g (f j x) = h x) l -> map g (mapi f i l) = map h l.
Proof.
  induction l as [|x l IH]; intros i H; [reflexivity|].
  inversion H as [|? ? Hx Hl]; subst. cbn [mapi map]. rewrite Hx, IH by exact Hl.
  reflexivity.
Qed.

(** X29. Whatever the lookups return, [validateCitations] gives one
    result for each citation of [parseCitations], in order, and the
    citation in each result has the raw text, title, authors and year
    of the parsed citation at the same position. *)
Theorem batch_results_align (lookups : nat -> jsstring -> option CrossRefWork.t)
        (text : jsstring) (useCrossRef : bool) :
  map (fun r => identity (citation r)) (validateCitations lookups text useCrossRef)
  = map identity (parseCitations text).
Proof.
  unfold validateCitations. apply map_mapi.
  eapply Forall_impl; [|apply parseCitations_reparse].
  intros c Hc j. cbv beta. rewrite validate_identity, Hc. reflexivity.
Qed.

(** ** Re-parsing a reconstruction, field by field                       *)











(** ** The journal to chapter correction, field by field                 *)

(** A page fragment less its leading hyphen or en dash. *)
Definition withoutLeadingDash (p : jsstring) : jsstring :=
  match p with
  | c :: t => if (c =? 45)%N || (c =? 8211)%N then t else p
  | [] => []
  end.

Lemma replace_leading_dash p :
  replace p (regexp "^[-–]" "") [] = withoutLeadingDash p.
Proof.
  rewrite replace_first by reflexivity.
  rewrite (exec_anchored (regexp "^[-–]" "") (RClass false [CChar 45%N; CChar 8211%N]))
    by reflexivity.
  destruct p as [|c t]; [reflexivity|].
  unfold withoutLeadingDash.
  destruct (c =? 45)%N eqn:E1; [apply N.eqb_eq in E1; subst c; reflexivity|].
  destruct (c =? 8211)%N eqn:E2; [apply N.eqb_eq in E2; subst c; reflexivity|].
  cbn [orb]. unfold match_here.
  change (re_ast (regexp "^[-–]" "")) with (RSeq RBol (RClass false [CChar 45%N; CChar 8211%N])).
  change (re_icase (regexp "^[-–]" "")) with false.
  cbn [rmatch Nat.eqb]. unfold class_match, item_match.
  cbn [existsb item_test andb orb xorb]. rewrite ?E1, ?E2. reflexivity.
Qed.

Section CorrectionFields.

Variable searchByTitle : jsstring -> option CrossRefWork.t.

(** X30.  A journal citation corrected from a trusted record of a
    chapter that gives no pages becomes a chapter: its pages are the
    local volume, a hyphen and the local page fragment less a leading
    hyphen or en dash (the volume alone when there is no fragment); its
    volume and issue are cleared; its source gets the prefix "In " unless
    it starts with it or is empty; publisher and editors are those of
    the record when it has any; the edition is the record's when it reads
    as a number above 1; and the violations are those of the rules on the
    corrected citation and then one more, of the rule "typeMismatch", of
    severity info and not auto-fixable, the only one of that rule. *)
Theorem journal_to_chapter_fields (text : jsstring) (w : CrossRefWork.t)
        (Htitle : title (parseCitation text) <> [])
        (Hauthors : authors (parseCitation text) <> [])
        (Hfound : searchByTitle (title (parseCitation text)) = Some w)
        (Htrusted : trusted (parseCitation text) w = true)
        (Hlocal : type (parseCitation text) = journal)
        (Hexternal : CrossRefWork.type w = js "book-chapter"
                     \/ CrossRefWork.type w = js "proceedings-article")
        (Hpages : CrossRefWork.pages w = None) :
  let c0 := parseCitation text in
  let r := validateCitation searchByTitle text true in
  let c' := citation r in
  type c' = chapter
  /\ pages c'
     = match volume c0, pages c0 with
       | Some (v :: vs), Some (p :: ps) =>
         Some ((v :: vs) ++ js "-" ++ withoutLeadingDash (p :: ps))
       | Some (v :: vs), _ => Some (v :: vs)
       | _, _ => pages c0
       end
  /\ volume c' = None
  /\ issue c' = None
  /\ source c'
     = match source c0 with
       | [] => []
       | s => if startsWith s (js "In ") then s else js "In " ++ s
       end
  /\ publisher c'
     = match CrossRefWork.publisher w with
       | Some (x :: p) => Some (x :: p)
       | _ => publisher c0
       end
  /\ editors c'
     = match CrossRefWork.editors w with
       | Some (e :: es) => Some (e :: es)
       | _ => editors c0
       end
  /\ edition c'
     = match CrossRefWork.edition w with
       | Some s =>
         match parseInt false s with
         | Some n => if (1 <? n)%Z then Some s else edition c0
         | None => edition c0
         end
       | None => edition c0
       end
  /\ exists e,
      errors r = runRules ALL_RULES c' ++ [e]
      /\ ValidationError.rule e = js "typeMismatch"
      /\ ValidationError.severity e = Info
      /\ ValidationError.autoFixable e = false
      /\ filter (fun e' => str_eqb (ValidationError.rule e') (js "typeMismatch")) (errors r)
         = [e].
Proof.
  intros c0 r c'.
  assert (Hext : mapCrossRefType (CrossRefWork.type w) = chapter)
    by (destruct Hexternal as [-> | ->]; reflexivity).
  set (c1 := supplementPages w (supplementDOI w c0)).
  assert (Hsame : volume c1 = volume c0 /\ pages c1 = pages c0 /\ source c1 = source c0
                  /\ publisher c1 = publisher c0 /\ editors c1 = editors c0
                  /\ edition c1 = edition c0).
  { unfold c1, supplementPages, supplementDOI. rewrite Hpages. cbn [truthy andb].
    destruct (_ && _); repeat apply conj; reflexivity. }
  destruct Hsame as (Hv & Hpg & Hs & Hp & He & Hed).
  assert (Henrich : enrich searchByTitle text true
                    = (journalToChapter w (set_type chapter c1), true)).
  { unfold enrich. cbv zeta. rewrite Hfound, Htrusted.
    replace (nonempty (title (parseCitation text))) with true
      by (destruct (title (parseCitation text)); [congruence|reflexivity]).
    replace (0 <? length (authors (parseCitation text))) with true
      by (destruct (authors (parseCitation text)); [congruence|reflexivity]).
    cbn [andb]. unfold correctCitationWithCrossRef. cbv zeta. rewrite Hext, Hlocal.
    reflexivity. }
  assert (Hc' : c' = journalToChapter w (set_type chapter c1)).
  { unfold c', r, validateCitation. rewrite Henrich. reflexivity. }
  assert (Herr : errors r = runRules ALL_RULES c' ++ [typeMismatch c']).
  { rewrite Hc'. unfold r, validateCitation. rewrite Henrich. reflexivity. }
  assert (Hfields :
            type c' = chapter
            /\ pages c' = chapterPages c1
            /\ volume c' = None
            /\ issue c' = None
            /\ source c' = chapterSource c1
            /\ publisher c'
               = (if truthy (CrossRefWork.publisher w) then CrossRefWork.publisher w
                  else publisher c1)
            /\ editors c'
               = (if has_editors w then CrossRefWork.editors w else editors c1)
            /\ edition c'
               = (if edition_above_one w then CrossRefWork.edition w else edition c1)).
  { rewrite Hc'. unfold journalToChapter.
    destruct (truthy (CrossRefWork.publisher w)), (has_editors w), (edition_above_one w);
      repeat apply conj; reflexivity. }
  destruct Hfields as (F1 & F2 & F3 & F4 & F5 & F6 & F7 & F8).
  split; [exact F1|].
  split.
  { rewrite F2. unfold chapterPages. rewrite Hv, Hpg, replace_leading_dash.
    destruct (volume c0) as [[|v vs]|]; destruct (pages c0) as [[|p ps]|]; reflexivity. }
  split; [exact F3|]. split; [exact F4|].
  split.
  { rewrite F5. unfold chapterSource. rewrite Hs.
    destruct (source c0) as [|x s]; [reflexivity|]. cbn [nonempty andb].
    destruct (startsWith (x :: s) (js "In ")); reflexivity. }
  split.
  { rewrite F6, Hp. destruct (CrossRefWork.publisher w) as [[|x p]|]; reflexivity. }
  split.
  { rewrite F7, He. unfold has_editors.
    destruct (CrossRefWork.editors w) as [[|e es]|]; reflexivity. }
  split.
  { rewrite F8, Hed. unfold edition_above_one.
    destruct (CrossRefWork.edition w) as [s|]; [|reflexivity].
    cbn [defined]. destruct s as [|x s].
    - reflexivity.
    - cbn [truthy andb]. destruct (parseInt false (x :: s)) as [n|]; [|reflexivity].
      destruct (1 <? n)%Z; reflexivity. }
  exists (typeMismatch c'). split; [exact Herr|].
  repeat apply conj; try reflexivity.
  rewrite Herr, filter_app.
  rewrite (filter_none _ _ (rules_no_mismatch _)). reflexivity.
Qed.

End CorrectionFields.

Lemma journal_to_chapter_fields_witness :
  let lookup := fun _ : jsstring => Some proceedingsWork in
  let c' := citation (validateCitation lookup proceedingsText true) in
  (volume (parseCitation proceedingsText) = Some (js "267")
   /\ pages (parseCitation proceedingsText) = Some (js "-282"))
  /\ type c' = chapter
  /\ pages c' = Some (js "267-282")
  /\ volume c' = None
  /\ issue c' = None
  /\ source c' = js "In Proceedings of the Learning Conference"
  /\ publisher c' = Some (js "ACM")
  /\ editors c' = Some [ {| lastName := js "Park"; initials := js "J."; isGroupAuthor := None |} ]
  /\ edition c' = Some (js "2").
Proof.
  intros lookup c'.
  assert (H1 : title (parseCitation proceedingsText) <> [])
    by (vm_compute; discriminate).
  assert (H2 : authors (parseCitation proceedingsText) <> [])
    by (vm_compute; discriminate).
  assert (H3 : lookup (title (parseCitation proceedingsText)) = Some proceedingsWork)
    by reflexivity.
  assert (H4 : trusted (parseCitation proceedingsText) proceedingsWork = true)
    by (vm_compute; reflexivity).
  assert (H5 : type (parseCitation proceedingsText) = journal)
    by (vm_compute; reflexivity).
  assert (H6 : CrossRefWork.type proceedingsWork = js "book-chapter"
               \/ CrossRefWork.type proceedingsWork = js "proceedings-article")
    by (right; reflexivity).
  assert (H7 : CrossRefWork.pages proceedingsWork = None) by reflexivity.
  destruct (journal_to_chapter_fields lookup proceedingsText proceedingsWork
                                      H1 H2 H3 H4 H5 H6 H7)
    as (T & P & V & I & S & Pu & Es & Ed & _).
  subst c'.
  split; [split; vm_compute; reflexivity|].
  split; [exact T|].
  split; [rewrite P; vm_compute; reflexivity|].
  split; [exact V|].
  split; [exact I|].
  split; [rewrite S; vm_compute; reflexivity|].
  split; [rewrite Pu; reflexivity|].
  split; [rewrite Es; reflexivity|].
  rewrite Ed. vm_compute. reflexivity.
Defined.
